(* ===== verification/_CoqProject ===== *)
-Q . S2P
Prelude.v
GoErrors.v
Model.v
Store.v
Effects.v
Platform.v
Authorization.v
Events.v
Repository.v
Tables.v
Sql.v
Invariants.v
SqlText.v
SqlProofs.v
SqlWrites.v
Statements.v
Service.v
Dictionary.v
Tenants.v
Commits.v
Organizations.v
Invitations.v
Groups.v
Quotas.v
Requests.v
Paths.v
Reads.v
Trees.v
Concurrency.v
Locks.v
DictionaryProofs.v
Returns.v
Outcomes.v
Tokens.v
Directory.v
Grpc.v
GrpcProofs.v
Floats.v
Config.v
ConfigProofs.v
Scheduler.v
Authn.v
Clients.v
Json.v
HttpBodies.v
HttpRequests.v
Http.v
Middleware.v
LocalTokens.v
Health.v
Router.v
HttpProofs.v
Operations.v
Metrics.v
Transports.v
Replay.v
Outbound.v
OutboundProofs.v
GrpcServer.v
ServerProofs.v
Edge.v
GrpcEdge.v
System.v
Urls.v
Migration.v
MigrationProofs.v
Resources.v
ResourceProofs.v
EventRuntime.v
Startup.v
Registration.v
Wiring.v
Examples.v
HttpExamples.v
RuntimeExamples.v
Witnesses.v
HttpWitnesses.v
RuntimeWitnesses.v
Findings.v
