(* ===== verification/Prelude.v ===== *)
(** * Tenant service: a verification development

    The program is a multi-tenant directory written in Go. It keeps tenants, their
    memberships, organization trees, invitations, groups and quotas in a relational
    database, serialises some updates with Redis locks, replays creations through an
    idempotency store, and writes an event to an outbox table with every change. A
    request comes in over gRPC or HTTP, is authenticated, is handled by a method of
    [tenant.Service], which authorises it, reads through [tenant.Repository] and writes
    in one transaction of [database.Transactor]; the dictionary provider answers
    read-only queries on organization units from the same repository. The configuration
    is loaded and validated at start-up; it decides on the middleware and the locks, and a
    registry of clients for other services is made from it. The start-up runs the migrations,
    opens the database, Redis, the tracer and the clients, and each of them is closed when the
    service stops; beside the requests run a publisher that empties the outbox and a scheduled
    job.

    ** Files and the sources they model (paths under src/internal/)

    - [Prelude]: strings, integers at 64 bits, sorting, tactics and hints.
    - [GoErrors]: Go error values, [errors.Is/As/Join]; [apperror/error.go]; [translate]
      and [uniqueViolation] of [tenant/service.go].
    - [Model]: the structs of [tenant/model.go] and [OrganizationTreeNode], with their
      zero values and decidable equality.
    - [Store]: the tables as finite maps with the constraints of [migrations/postgres]
      (primary keys, unique and foreign keys, checks), SQL's LIKE, SUBSTRING, LIMIT and
      OFFSET, and the insert statements of [tenant/repository.go].
    - [Effects]: programs that make calls to the outside ([prog]) and transaction bodies
      ([tx]); [Transactor.Within] of [database/transaction.go]; one-call steps
      ([step]), a request on its own ([run]) and interleavings of requests
      ([pool_step]); weakest preconditions [twp], [wp] for all environments.
    - [Platform]: the platform packages as a class of parameters, and their laws.
    - [Authorization]: [authorizeTenant], [authorizePlatformAdministration].
    - [Events]: [newOutboxEvent] and the event messages.
    - [Repository]: every method of [SQLRepository], on tables. [SqlText] writes the same
      methods down as the texts and arguments they send, with what sqlx scans, in the fragment
      of SQL that [Sql] gives a meaning; [SqlProofs] (reads) and [SqlWrites] show that the two
      agree.
    - [Service]: the [Service] struct, [cache/redis.go]'s locks, the lock brackets,
      argument checks and page defaults.
    - [Dictionary]: [tenant/dictionary_provider.go].
    - [Tenants], [Organizations], [Invitations], [Groups], [Quotas]: every method of
      [tenant.Service], one definition each (and one for each closure given to the lock
      brackets), from [tenant/service.go] and [tenant/collaboration_service.go].
    - [Directory]: [identityclient.Client.ListUsers] and [membershipdirectory.Search].
    - [Grpc]: the handlers of [transport/grpc/server.go] and
      [transport/grpc/dictionary_provider.go], message conversions, [grpcError].
    - [Authn]: [auth/psk.go], [auth/pattern.go], [requestid/requestid.go],
      [authenticateGRPC] and the request-id and idempotency interceptors.
    - [Floats]: [float64] by the specification of the Standard Library, and the conversions
      the program uses.
    - [Config]: [config/config.go]: the structs, [setDefaults], [LoadWithProfile] and
      [Validate]; viper is the class [ViperLibrary].
    - [Json]: JSON values, what [encoding/json] stores into a struct, and the binding rules;
      the text is the class [JsonText]. [HttpBodies]: [transport/http/tenant_body.go];
      [HttpRequests]: the request structs of [transport/http/handler.go] with their tags;
      [Http]: [response.go] and the handlers of [handler.go].
    - [Middleware]: [transport/http/middleware.go], [ratelimit/limiter.go], [auth/jwt.go];
      [Router]: the routes and the chain of [NewServer] in
      [transport/http/server.go], and [buildinfo].
    - [Edge], [GrpcEdge]: the request log, the recovery from panics, the metrics and the deadline
      of both servers, around the chains of [Router] and [GrpcServer], which are written for any
      type of answer.
    - [Outbound]: [outbound/http.go], [outbound/registry.go], [grpcclient/client.go] as
      programs over network, timers and breakers ([net]).
    - [GrpcServer]: [NewServer] of [transport/grpc/server.go] with its credentials, the chain of
      unary interceptors, the requirements and the dispatch of every method, and
      [dictionarycontract]. The interceptors of the platform are the class
      [PlatformInterceptors].
    - [Requests]: the interface of the service as one type [Request] with [serve].
    - [Health]: [health/service.go], the probes of [handler.go] and the gRPC health service.
    - [Scheduler]: [scheduler/scheduler.go]; [LocalTokens]: [Issue] of [auth/jwt.go].
    - [System]: what runs outside of requests opens, uses and closes handles: programs [sys]
      of calls whose types say what they answer, their executions [run_sys] in an environment
      that answers anything, and the weakest precondition [wps], which is sound for all
      environments and refuses to use what is not open.
    - [Urls]: queries of addresses and file paths as [net/url] and [path/filepath] treat them.
    - [Migration]: [migration/migration.go], [runStartupMigration] and [cmd/migrate].
    - [Resources]: the constructors of [app/app.go], [database/database.go], [cache/redis.go],
      [logging/logging.go], [observability/tracing.go], [auth/jwt.go] and
      [outbound/registry.go] with what they open and their stop hooks, the listeners of both
      servers, [identityclient.New], [authorization/provider.go] and [cmd/api].
    - [Wiring]: [New] of [app/app.go] with every constructor by its signature, and the container
      of fx as a step relation: which constructor it runs next, and so in what order the hooks
      are appended.
    - [EventRuntime]: [app/eventbus.go], starting as a [sys], the loops and [stop] as a step
      relation. [Registration]: [app/dictionary_provider.go].
    - [Metrics]: [observability/metrics.go] and every place that counts.

    The other files are proofs: [Tables] (rows under keyed updates), [Invariants] (the
    database invariant [inv] and the class of statements that keep it), [Statements]
    (what each SQL statement changes), [Commits] (every transaction body keeps [inv]
    and records its event), [Paths] and [Trees] (organization paths), [Reads] (what
    read requests can return), [Concurrency], [DictionaryProofs], [Returns] (shapes of
    results), [Outcomes] (the full effect of a request without faults), [Tokens],
    [GrpcProofs], [Locks] (termination and lock ownership), [ConfigProofs] (the specification
    of a valid configuration), [Clients] (what any client of the domain service inherits,
    whatever it does between the calls), [HttpProofs], [ServerProofs] (both servers),
    [Transports] (HTTP against gRPC), [Replay], [Operations] (probes and pages),
    [OutboundProofs], [MigrationProofs], [ResourceProofs], [Startup], [Findings]; [Examples],
    [HttpExamples] and [RuntimeExamples] are a concrete deployment with a history of requests,
    and [Witnesses], [HttpWitnesses] and [RuntimeWitnesses] instantiate the properties there.

    ** Modelling conventions

    A Go method that returns [(T, error)] is a program returning the pair. Every call
    to the clock, the UUID source, the random source, the database, Redis and the
    idempotency store is one call of a program; the environment [Env] answers it by its
    number, so each call may fail on its own, also a rollback, a commit (with or
    without having reached the disk), and the taking or the release of a lock. The locks in
    Redis are a map of keys to values; the value is the number of the call that took the key. A
    key expires when the environment says so. A release that fails leaves its key unless it
    has reached Redis, and one that comes after the key has been taken by another releases
    nothing; a failed attempt to take a lock may leave a key behind. Integers that can
    overflow ([(page-1)*pageSize], durations, versions, quota sums) are wrapped with
    [wrap64] or refused by the database's [bigint]. Times are nanoseconds in Z. NULL in
    the nullable text columns is the empty string, as COALESCE makes it on every read.
    Outside of requests a constructor is a [sys] program that answers its value with the stop
    hooks it registers, or an error; the environment [SysEnv] answers every call by its
    number, and opening gives out a new handle.

    ** What the theorems show

    - Whole service, any interleaving of requests in any environment ([Concurrency]):
      keys, unique indexes, foreign keys and the tenancy of references hold in every
      reachable state; changes and outbox events commit together; a request
      changes rows of one tenant, which it may act on; a version is never reused for a
      different row; usage is raised within the limit only; an invitation is accepted
      from the pending state only; reads return rows of tenants the caller may access, of the
      caller's own memberships, or, to administrators, of all tenants.
    - Types ([Tables], [GrpcProofs]): the text columns keep the enumerations and the
      requirements that no constraint of the database enforces, and what gRPC answers for
      a stored status is never the unspecified number.
    - The same end to end ([HttpProofs], [ServerProofs]): whatever is sent to the HTTP and the
      gRPC server, in any interleaving, changes are made for an authenticated caller on the
      rows of one tenant this caller may act on; every route and method that is not listed as
      open is closed unless the authorizer allows it.
    - Liveness ([Locks], [Scheduler], [EventRuntime]): no interleaving goes on for ever;
      requests and jobs that have ended leave no key of a lock but those of calls of a lock that
      failed; two of them hold one lock only if it has expired in between, so runs of the job
      exclude each other as long as their lock lasts; the publisher stops when it is told to, and closes its bus once, after its loops.
    - Organization trees ([Trees]): for requests that do not race, paths follow
      parents, there are no cycles, and the scope of a member is exactly the active part
      of the subtree. [Findings] exhibits the race for which this fails.
    - Texts ([SqlProofs], [SqlWrites]): the statements the methods of the repository send, with
      their arguments, read and change exactly what the methods do on tables, and every row
      they select can be scanned.
    - Dictionary ([Returns], [DictionaryProofs]): node and depth bounds, exactness of the
      tree, of the search with ancestors, of sorting and of pages.
    - Single requests without faults ([Outcomes]): the complete effect of updating and
      creating tenants, idempotent creation, consuming quotas, accepting invitations and
      batch reads, on every branch.
    - Edges ([Returns], [Tokens], [Directory], [GrpcProofs], [Authn], [Authorization]):
      errors that leave the service, invitation tokens, the membership directory, gRPC
      codes and statuses, authentication, and the authorization policy.
    - Transports ([Transports], [Replay]): eighteen operations end in the same world and answer
      with the same rows or the same error over both transports; selecting a tenant; the response
      of the request that takes an idempotency key is stored, and replayed to later ones.
    - Start-up ([ConfigProofs], [Startup]): [Validate] accepts exactly the
      configurations of a declarative specification; a configuration that loads gives both
      servers, the domain service with its locks and its idempotency manager, a registry of
      clients and a store for the publisher, and its migrations work on the database and the
      schema the service connects to.
    - Life cycle ([MigrationProofs], [ResourceProofs]): migrations execute no statement but
      their own, around a validated name, and close what they open; the address of the
      migrations reads back; a constructor that fails leaves nothing open, and the hooks of one
      that succeeds close all it has opened. In whatever order the container runs the
      constructors, migrations come before the database and the hooks are appended in one
      order, those of the servers last ([Wiring]).
    - Panics and deadlines ([Edge], [GrpcEdge]): a request whose handler returns is answered as
      without them and logged and counted once; a panic becomes an internal error.
    - Operations ([Operations], [LocalTokens]): readiness over HTTP and gRPC's Check; pages of
      profiles and documentation are closed to strangers; tokens the service issues are
      accepted by it; counters are exact and nothing that counts panics ([Metrics]).
    - Calls to others ([OutboundProofs]): HTTP and gRPC clients refine one retry policy.
    - [Findings]: behaviours the code does not mean, each on concrete inputs.

    ** Bounds and fuel

    Recursion that is not structural is bounded by a number that is enough.
    [Dictionary.keep_chain] walks up the parents with fuel [S (length items)]: each step
    adds a new identifier of [items] to the kept set, and [ancestors_search_exact] shows
    the result is the whole chain. [build_tree] recurses on the levels that are left,
    as [maxDepth] bounds the source's recursion. [Repository.fetch_ancestors] walks the
    pieces of at most 500 identifiers that [chunks500] cuts, with the list's length as fuel
    (a piece is never empty). [Directory.search_pages] makes [maxCandidatePages] = 5
    rounds, as the source's loop. [Outbound.http_attempts] and [Outbound.grpc_attempts] have
    one turn per attempt the loop of the source allows. Programs are trees of calls and
    always return, as the source has no unbounded loop in a request.

    ** Assumptions

    PostgreSQL is the dialect (the migrations of the other two agree on the tables). A
    transaction takes effect atomically between the calls of other requests. The
    platform's audit, principal, event-bus and error-code packages, protobuf, Unicode
    case tables, collation, SHA-256, the mail parser, [path.Match], the media type parser,
    JWT verification, the text of JSON, viper, files and certificates, [net/url], the
    authorizer, the Redis limiter and the admission of a circuit breaker are parameters or
    answers of the environment, and so are the order in which a map is ranged over and the
    conversion of a [float64] beyond 64 bits; what is used of them are the classes
    [AuditLaws], [CodeLaws], [EnumLaws], [UrlLaws] (an address that is printed parses to the
    same host, path and query), [JwtLaws] (a token that is signed parses to its subject while
    it is valid), that events marshal, that JSON text parses back to
    an equivalent value, that generated names are distinct ([MethodLaws]), that the idempotency
    store is not the database ([InterceptorLaws]), and that ranging over a map visits each entry once, each with
    an instance in the examples or a witness. A request reaches the HTTP server as
    the gin context of its matched route ([Gin]).

    ** Not modelled

    The container of fx beyond what it documents, which [Wiring] states. A
    round of the dispatcher or the cleaner of the platform's outbox is one step of a loop. The
    time after which a Redis lock expires, beyond that it may expire at any call. What fx does
    with the hooks: that it starts them in their order, stops them in reverse, and which of them
    when one fails. Durations and spans, and what the logger makes of a record
    ([Edge] has which records there are); the text of an error, which nothing looks into; the
    name of the environment, which is put into the context and read nowhere; the limits on the
    size of a message, which show as bodies that cannot be read and calls that do not arrive:
    where a limit cuts a body short, what the JSON decoder still accepts depends on its buffer.
    The reflection service of gRPC. [docs/docs.go] is generated by swag. The idempotency manager
    and the authorizer are thin adapters over platform packages, and their answers are inputs.
    A deadline acts within a request as calls that fail; that it has passed when the chain
    returns is an input of [Edge]. What is left of the program is glue of this kind. *)

From Stdlib Require Import Ascii.
From stdpp Require Import base gmap sets list strings sorting.

#[export] Set Default Goal Selector "!".

(** ** Scope and automation of the development *)

Declare Scope tenant_scope.
Delimit Scope tenant_scope with tenant.

(** Lemmas on strings, lists and integers that close the common side goals. *)
Create HintDb tenant.
Create Rewrite HintDb tenant.

Infix "=?s" := String.eqb (at level 70, no associativity) : tenant_scope.
Notation "x '<>?s' y" := (negb (String.eqb x y)) (at level 70, no associativity) : tenant_scope.
Open Scope tenant_scope.

(** Turn boolean string, integer and connective tests of the context into
    propositions. *)
Ltac reflect_bools :=
  repeat match goal with
  | H : String.eqb _ _ = true |- _ => apply String.eqb_eq in H
  | H : String.eqb _ _ = false |- _ => apply String.eqb_neq in H
  | H : negb _ = true |- _ => apply negb_true_iff in H
  | H : negb _ = false |- _ => apply negb_false_iff in H
  | H : (_ && _)%bool = true |- _ => apply andb_true_iff in H as [? ?]
  | H : (_ || _)%bool = false |- _ => apply orb_false_iff in H as [? ?]
  | H : Z.ltb _ _ = true |- _ => apply Z.ltb_lt in H
  | H : Z.ltb _ _ = false |- _ => apply Z.ltb_ge in H
  | H : Z.leb _ _ = true |- _ => apply Z.leb_le in H
  | H : Z.leb _ _ = false |- _ => apply Z.leb_gt in H
  | H : Z.eqb _ _ = true |- _ => apply Z.eqb_eq in H
  | H : Z.eqb _ _ = false |- _ => apply Z.eqb_neq in H
  | H : bool_decide _ = true |- _ => apply bool_decide_eq_true_1 in H
  | H : bool_decide _ = false |- _ => apply bool_decide_eq_false_1 in H
  end.

(** Case analysis on every scrutinee of a [match] or [if] of the goal. *)
Ltac split_matches :=
  repeat (case_match; try done); simplify_eq/=.

(** ** Machine integers

    Go's [int] and [int64] are 64-bit two's complement: an expression that
    leaves the range wraps around. *)

Definition min_int64 : Z := - 2 ^ 63.
Definition max_int64 : Z := 2 ^ 63 - 1.
Definition in_int64 (z : Z) : Prop := (min_int64 ≤ z ≤ max_int64)%Z.
Definition wrap64 (z : Z) : Z := ((z + 2 ^ 63) mod 2 ^ 64 - 2 ^ 63)%Z.

(** [time.Millisecond], [time.Second], [time.Hour], in nanoseconds. *)
Definition millisecond : Z := 1000000.
Definition second : Z := 1000000000.
Definition hour : Z := 3600 * second.

Lemma wrap64_id z : in_int64 z → wrap64 z = z.
Proof.
  unfold in_int64, wrap64, min_int64, max_int64. intros H.
  rewrite Z.mod_small; lia.
Qed.

Lemma wrap64_range z : in_int64 (wrap64 z).
Proof.
  unfold in_int64, wrap64, min_int64, max_int64.
  pose proof (Z.mod_pos_bound (z + 2 ^ 63) (2 ^ 64)). lia.
Qed.

(** ** Go strings

    A Go string is a sequence of bytes: [string] with 8-bit [ascii]. *)

(** [strings.HasPrefix]. *)
Definition HasPrefix (s p : string) : bool := String.prefix p s.

(** [strings.Contains]. *)
Fixpoint Contains (s sub : string) : bool :=
  String.prefix sub s
  || match s with
     | EmptyString => false
     | String _ s' => Contains s' sub
     end.

(** [unicode.IsSpace] on the UTF-8 encodings of one, two and three bytes: the
    six ASCII spaces, U+0085, U+00A0, U+1680, U+2000 to U+200A, U+2028, U+2029,
    U+202F, U+205F and U+3000. *)
Definition space1 (a : ascii) : bool :=
  let n := N_of_ascii a in ((9 <=? n) && (n <=? 13) || (n =? 32))%N.
Definition space2 (a b : ascii) : bool :=
  ((N_of_ascii a =? 194) && ((N_of_ascii b =? 133) || (N_of_ascii b =? 160)))%N.
Definition space3 (a b c : ascii) : bool :=
  let x := N_of_ascii a in
  let y := N_of_ascii b in
  let z := N_of_ascii c in
  ((x =? 225) && (y =? 154) && (z =? 128)
   || (x =? 226) && (y =? 128)
      && ((128 <=? z) && (z <=? 138) || (z =? 168) || (z =? 169) || (z =? 175))
   || (x =? 226) && (y =? 129) && (z =? 159)
   || (x =? 227) && (y =? 128) && (z =? 128))%N.

(** [strings.TrimLeftFunc(s, unicode.IsSpace)]. *)
Fixpoint trim_left (l : list ascii) : list ascii :=
  match l with
  | [] => []
  | a :: l1 =>
      if space1 a then trim_left l1 else
      match l1 with
      | [] => l
      | b :: l2 =>
          if space2 a b then trim_left l2 else
          match l2 with
          | [] => l
          | c :: l3 => if space3 a b c then trim_left l3 else l
          end
      end
  end.

(** The same on a reversed string, where the bytes of an encoding come last
    byte first. *)
Fixpoint trim_left_rev (l : list ascii) : list ascii :=
  match l with
  | [] => []
  | c :: l1 =>
      if space1 c then trim_left_rev l1 else
      match l1 with
      | [] => l
      | b :: l2 =>
          if space2 b c then trim_left_rev l2 else
          match l2 with
          | [] => l
          | a :: l3 => if space3 a b c then trim_left_rev l3 else l
          end
      end
  end.

(** [strings.TrimSpace]. *)
Definition TrimSpace (s : string) : string :=
  String.string_of_list_ascii
    (rev (trim_left_rev (rev (trim_left (String.list_ascii_of_string s))))).

(** The simple case mappings of the Unicode tables, for strings that are not
    plain ASCII. *)
Class UnicodeTables := {
  unicode_to_lower : string → string;
  unicode_to_upper : string → string;
}.

Definition is_ascii (s : string) : bool :=
  forallb (λ a, N_of_ascii a <? 128)%N (String.list_ascii_of_string s).

Definition lower_byte (a : ascii) : ascii :=
  let n := N_of_ascii a in
  if ((65 <=? n) && (n <=? 90))%N then ascii_of_N (n + 32) else a.
Definition upper_byte (a : ascii) : ascii :=
  let n := N_of_ascii a in
  if ((97 <=? n) && (n <=? 122))%N then ascii_of_N (n - 32) else a.

Fixpoint map_bytes (f : ascii → ascii) (s : string) : string :=
  match s with
  | EmptyString => EmptyString
  | String a s' => String (f a) (map_bytes f s')
  end.

(** [strings.ToLower] and [strings.ToUpper]: byte-wise on ASCII strings, by the
    Unicode tables on the others. *)
Definition ToLower `{UnicodeTables} (s : string) : string :=
  if is_ascii s then map_bytes lower_byte s else unicode_to_lower s.
Definition ToUpper `{UnicodeTables} (s : string) : string :=
  if is_ascii s then map_bytes upper_byte s else unicode_to_upper s.

(** [strings.Trim(s, "/")] and [strings.Split(s, "/")]. *)
Fixpoint drop_slashes (s : string) : string :=
  match s with
  | String "/" s' => drop_slashes s'
  | _ => s
  end.
Definition trim_slashes (s : string) : string :=
  String.rev (drop_slashes (String.rev (drop_slashes s))).

Fixpoint split_slash (s : string) : list string :=
  match s with
  | EmptyString => [""]
  | String "/" s' => "" :: split_slash s'
  | String a s' =>
      match split_slash s' with
      | [] => [String a ""]
      | w :: ws => String a w :: ws
      end
  end.

(** *** Append, prefix and length *)

Lemma string_app_nil_l (s : string) : "" +:+ s = s.
Proof. done. Qed.

Lemma string_app_cons a (s t : string) : String a s +:+ t = String a (s +:+ t).
Proof. done. Qed.

Lemma string_app_nil_r (s : string) : s +:+ "" = s.
Proof. induction s as [|a s IH]; [done|]. by rewrite string_app_cons, IH. Qed.

Lemma string_app_assoc (s t u : string) : s +:+ (t +:+ u) = (s +:+ t) +:+ u.
Proof. induction s as [|a s IH]; [done|]. by rewrite !string_app_cons, IH. Qed.

Lemma string_length_app (s t : string) :
  String.length (s +:+ t) = String.length s + String.length t.
Proof. induction s as [|a s IH]; [done|]. rewrite string_app_cons. simpl. by rewrite IH. Qed.

Lemma prefix_iff (p s : string) : String.prefix p s = true ↔ ∃ t, s = p +:+ t.
Proof.
  revert s. induction p as [|a p IH]; intros s.
  - split; [by exists s|]. by destruct s.
  - destruct s as [|b s]; simpl.
    + split; [done|]. intros [t Ht]. by rewrite string_app_cons in Ht.
    + destruct (ascii_dec a b) as [->|Hne].
      * rewrite IH. split; intros [t Ht]; exists t.
        -- by rewrite string_app_cons, Ht.
        -- rewrite string_app_cons in Ht. by simplify_eq.
      * split; [done|]. intros [t Ht]. rewrite string_app_cons in Ht. by simplify_eq.
Qed.

Lemma prefix_app (p t : string) : String.prefix p (p +:+ t) = true.
Proof. apply prefix_iff. eauto. Qed.

Lemma prefix_refl (s : string) : String.prefix s s = true.
Proof. apply prefix_iff. exists "". by rewrite string_app_nil_r. Qed.

Lemma prefix_trans (p q s : string) :
  String.prefix p q = true → String.prefix q s = true → String.prefix p s = true.
Proof.
  rewrite !prefix_iff. intros [t ->] [u ->]. exists (t +:+ u).
  by rewrite string_app_assoc.
Qed.

(** Two prefixes of one string are comparable. *)
Lemma prefix_comparable (p q s : string) :
  String.prefix p s = true → String.prefix q s = true →
  String.prefix p q = true ∨ String.prefix q p = true.
Proof.
  rewrite !prefix_iff. intros [t ->] [u Hu]. revert q u Hu.
  induction p as [|a p IH]; intros q u Hu.
  - left. by exists q.
  - destruct q as [|b q]; [right; by exists (String a p)|].
    rewrite !string_app_cons in Hu. simplify_eq.
    destruct (IH q u) as [[v ->]|[v ->]]; [done|left|right]; exists v;
      by rewrite string_app_cons.
Qed.

Lemma prefix_length (p s : string) :
  String.prefix p s = true → String.length p ≤ String.length s.
Proof. rewrite prefix_iff. intros [t ->]. rewrite string_length_app. lia. Qed.

#[export] Hint Resolve prefix_app prefix_refl : tenant.

Lemma list_ascii_app (s t : string) :
  String.list_ascii_of_string (s +:+ t)
  = String.list_ascii_of_string s ++ String.list_ascii_of_string t.
Proof. induction s as [|a s IH]; [done|]. rewrite string_app_cons. simpl. by rewrite IH. Qed.

Lemma string_rev_app_spec (s t : string) :
  String.list_ascii_of_string (String.rev_app s t)
  = rev (String.list_ascii_of_string s) ++ String.list_ascii_of_string t.
Proof.
  revert t. induction s as [|a s IH]; intros t; simpl; [done|].
  by rewrite IH, <- app_assoc.
Qed.

Lemma list_ascii_inj (s t : string) :
  String.list_ascii_of_string s = String.list_ascii_of_string t → s = t.
Proof.
  intros H. rewrite <- (String.string_of_list_ascii_of_string s), H.
  apply String.string_of_list_ascii_of_string.
Qed.

(** *** Trimming *)

(** [l] does not begin with the encoding of a white-space character. *)
Definition starts_clean (l : list ascii) : bool :=
  match l with
  | [] => true
  | [a] => negb (space1 a)
  | [a; b] => negb (space1 a) && negb (space2 a b)
  | a :: b :: c :: _ => negb (space1 a) && negb (space2 a b) && negb (space3 a b c)
  end.
Definition starts_clean_rev (l : list ascii) : bool :=
  match l with
  | [] => true
  | [c] => negb (space1 c)
  | [c; b] => negb (space1 c) && negb (space2 b c)
  | c :: b :: a :: _ => negb (space1 c) && negb (space2 b c) && negb (space3 a b c)
  end.

Lemma list_ind3 {A} (P : list A → Prop) :
  P [] → (∀ a, P [a]) → (∀ a b, P [a; b]) →
  (∀ a b c l, P (b :: c :: l) → P (c :: l) → P l → P (a :: b :: c :: l)) →
  ∀ l, P l.
Proof.
  intros Pnil Pone Ptwo Pstep l.
  enough (P l ∧ P (tail l) ∧ P (tail (tail l))) as [Hl _]; [done|].
  induction l as [|a l (IH1 & IH2 & IH3)]; [done|].
  split; [|done]. destruct l as [|b [|c l]]; simpl in *; auto.
Qed.

Lemma trim_left_3 a b c l :
  trim_left (a :: b :: c :: l) =
    if space1 a then trim_left (b :: c :: l) else
    if space2 a b then trim_left (c :: l) else
    if space3 a b c then trim_left l else a :: b :: c :: l.
Proof. done. Qed.

Lemma trim_left_rev_3 a b c l :
  trim_left_rev (a :: b :: c :: l) =
    if space1 a then trim_left_rev (b :: c :: l) else
    if space2 b a then trim_left_rev (c :: l) else
    if space3 c b a then trim_left_rev l else a :: b :: c :: l.
Proof. done. Qed.

Lemma trim_left_clean l : starts_clean (trim_left l) = true.
Proof.
  induction l as [|a|a b|a b c l IH1 IH2 IH3] using list_ind3; [done|..].
  - simpl. destruct (space1 a) eqn:Ha; simpl; by rewrite ?Ha.
  - simpl. destruct (space1 a) eqn:Ha, (space1 b) eqn:Hb, (space2 a b) eqn:Hab;
      simpl; by rewrite ?Ha, ?Hb, ?Hab.
  - rewrite trim_left_3.
    destruct (space1 a) eqn:Ha; [done|]. destruct (space2 a b) eqn:Hab; [done|].
    destruct (space3 a b c) eqn:Habc; [done|]. simpl. by rewrite Ha, Hab, Habc.
Qed.

Lemma trim_left_rev_clean l : starts_clean_rev (trim_left_rev l) = true.
Proof.
  induction l as [|a|a b|a b c l IH1 IH2 IH3] using list_ind3; [done|..].
  - simpl. destruct (space1 a) eqn:Ha; simpl; by rewrite ?Ha.
  - simpl. destruct (space1 a) eqn:Ha, (space1 b) eqn:Hb, (space2 b a) eqn:Hab;
      simpl; by rewrite ?Ha, ?Hb, ?Hab.
  - rewrite trim_left_rev_3.
    destruct (space1 a) eqn:Ha; [done|]. destruct (space2 b a) eqn:Hab; [done|].
    destruct (space3 c b a) eqn:Habc; [done|]. simpl. by rewrite Ha, Hab, Habc.
Qed.

Lemma trim_left_id l : starts_clean l = true → trim_left l = l.
Proof.
  destruct l as [|a [|b [|c l]]]; simpl; [done|..]; intros H; reflect_bools;
    repeat match goal with E : _ = false |- _ => rewrite E; clear E end; done.
Qed.

Lemma trim_left_rev_id l : starts_clean_rev l = true → trim_left_rev l = l.
Proof.
  destruct l as [|a [|b [|c l]]]; simpl; [done|..]; intros H; reflect_bools;
    repeat match goal with E : _ = false |- _ => rewrite E; clear E end; done.
Qed.

Lemma trim_left_rev_suffix l : ∃ k, l = k ++ trim_left_rev l.
Proof.
  induction l as [|a|a b|a b c l [k1 IH1] [k2 IH2] [k3 IH3]] using list_ind3.
  - by exists [].
  - simpl. destruct (space1 a); [by exists [a]|by exists []].
  - simpl. destruct (space1 a), (space1 b), (space2 b a);
      first [by exists [a; b] | by exists [a] | by exists []].
  - rewrite trim_left_rev_3. destruct (space1 a); [exists (a :: k1); by rewrite IH1 at 1|].
    destruct (space2 b a); [exists (a :: b :: k2); by rewrite IH2 at 1|].
    destruct (space3 c b a); [exists (a :: b :: c :: k3); by rewrite IH3 at 1|].
    by exists [].
Qed.

(** A prefix of a string that begins clean begins clean. *)
Lemma starts_clean_prefix l k : starts_clean (l ++ k) = true → starts_clean l = true.
Proof.
  destruct l as [|a [|b [|c l]]]; [done|..]; simpl; try done;
    destruct k as [|? [|? ?]]; simpl; intros; reflect_bools;
    repeat match goal with H : _ = false |- _ => rewrite H; clear H end; done.
Qed.

Lemma trim_idemp l :
  let t := rev (trim_left_rev (rev (trim_left l))) in
  rev (trim_left_rev (rev (trim_left t))) = t.
Proof.
  intros t. destruct (trim_left_rev_suffix (rev (trim_left l))) as [k Hk].
  assert (starts_clean t = true) as Hc.
  { apply (starts_clean_prefix _ (rev k)). unfold t.
    rewrite <- rev_app_distr, <- Hk, rev_involutive. apply trim_left_clean. }
  rewrite (trim_left_id _ Hc). unfold t. rewrite rev_involutive.
  rewrite (trim_left_rev_id (trim_left_rev _)); [done|]. apply trim_left_rev_clean.
Qed.

Lemma TrimSpace_idemp s : TrimSpace (TrimSpace s) = TrimSpace s.
Proof.
  unfold TrimSpace. by rewrite String.list_ascii_of_string_of_list_ascii, trim_idemp.
Qed.

#[export] Hint Rewrite TrimSpace_idemp : tenant.

(** ** Sorting

    [sort.SliceStable] and [ORDER BY]: a stable merge sort by a boolean order. *)

Definition brel {A} (le : A → A → bool) : relation A := λ a b, le a b = true.

#[export] Instance brel_dec {A} (le : A → A → bool) a b : Decision (brel le a b).
Proof. unfold brel. apply _. Defined.

Definition sort_by {A} (le : A → A → bool) (l : list A) : list A := merge_sort (brel le) l.

Lemma sort_by_Permutation {A} (le : A → A → bool) l : sort_by le l ≡ₚ l.
Proof. apply merge_sort_Permutation. Qed.

Lemma elem_of_sort_by {A} (le : A → A → bool) l x : x ∈ sort_by le l ↔ x ∈ l.
Proof. by rewrite sort_by_Permutation. Qed.

Lemma length_sort_by {A} (le : A → A → bool) l : length (sort_by le l) = length l.
Proof. by rewrite sort_by_Permutation. Qed.

#[export] Hint Rewrite @elem_of_sort_by @length_sort_by : tenant.

Lemma elem_of_filter_bool {A} (p : A → bool) l x :
  x ∈ List.filter p l ↔ p x = true ∧ x ∈ l.
Proof. rewrite !list_elem_of_In, filter_In. tauto. Qed.
