(* ===== verification/GoErrors.v ===== *)
(** * Errors

    Go error values with their [Unwrap] structure, [errors.Is], [errors.As] and
    [errors.Join]; the application errors of [internal/apperror/error.go]; and
    [translate], the one place where the domain layer turns storage errors into
    application errors ([internal/tenant/service.go]). *)

From stdpp Require Import base list strings.
From S2P Require Import Prelude.

(** ** Error values *)

(** The package-level sentinels ([errors.New] values) the sources compare with
    [errors.Is]. *)
Inductive sentinel :=
| ErrNotFound
| ErrConflict
| ErrStaleVersion
| ErrDictionaryRequest
| ErrDictionaryUnsupported
| ErrNoRows
| ErrDirectoryUnavailable
| ErrIdentityUnavailable
| ErrDecisionUnavailable
| ContextCanceled
| ErrNoChange
| ErrFailed.

#[export] Instance sentinel_eq_dec : EqDecision sentinel.
Proof. solve_decision. Defined.

(** An error value and what its [Unwrap] method reaches: an [*apperror.Error],
    a sentinel, a driver error, redsync's [*ErrTaken], an opaque text, a [fmt.Errorf] with one [%w],
    and the value [errors.Join] builds. The text of a wrapped or opaque error names
    its cause and leaves out the values the source formats into it ([%q], [%v]):
    nothing in the program looks into these texts. *)
Inductive goerr :=
| AppError (Code : Z) (Message : string) (HTTPStatus : Z) (inner : option goerr)
| Sentinel (s : sentinel)
| MySQLError (Number : Z)
| PgError (Code : string)
| ErrTaken (Nodes : list nat)
| TextError (msg : string)
| Wrapped (msg : string) (e : goerr)
| Joined (e : goerr) (rest : option goerr).

(** The pre-order traversal [errors.Is] and [errors.As] make. *)
Fixpoint error_tree (e : goerr) : list goerr :=
  e :: match e with
       | AppError _ _ _ (Some i) => error_tree i
       | Wrapped _ i => error_tree i
       | Joined a (Some b) => error_tree a ++ error_tree b
       | Joined a None => error_tree a
       | _ => []
       end.

Definition is_sentinel (t : sentinel) (e : goerr) : bool :=
  match e with Sentinel s => bool_decide (s = t) | _ => false end.

(** [errors.Is(err, target)]. *)
Definition Is (e : goerr) (t : sentinel) : bool := existsb (is_sentinel t) (error_tree e).

Definition is_app (e : goerr) : bool := match e with AppError _ _ _ _ => true | _ => false end.
Definition is_mysql (e : goerr) : bool := match e with MySQLError _ => true | _ => false end.
Definition is_pg (e : goerr) : bool := match e with PgError _ => true | _ => false end.

Definition is_taken (e : goerr) : bool := match e with ErrTaken _ => true | _ => false end.

(** [errors.As(err, &target)], for a target type given by its test. *)
Definition As (test : goerr → bool) (e : goerr) : option goerr := List.find test (error_tree e).

(** [errors.Join(a, b)]. *)
Definition Join (a b : option goerr) : option goerr :=
  match a, b with
  | None, None => None
  | Some a, b => Some (Joined a b)
  | None, Some b => Some (Joined b None)
  end.

(** ** [internal/apperror] *)

(** The numeric codes are constants of the shared [errorcode] package. *)
Class ErrorCodes := {
  CodeOK : Z;
  CodeInvalidArgument : Z;
  CodeNotFound : Z;
  CodeRequestTimeout : Z;
  CodeTooManyRequests : Z;
  CodeUnauthorized : Z;
  CodeForbidden : Z;
  CodeConflict : Z;
  CodeRequestInProgress : Z;
  CodeStaleVersion : Z;
  CodeInternal : Z;
  CodeDependencyUnavailable : Z;
}.

Section AppErrors.
Context `{ErrorCodes}.

Definition New (code : Z) (message : string) (status : Z) (err : option goerr) : goerr :=
  AppError code message status err.
Definition Invalid (message : string) (err : option goerr) : goerr :=
  New CodeInvalidArgument message 400 err.
Definition NotFound (message : string) : goerr := New CodeNotFound message 404 None.
Definition Conflict (message : string) (err : option goerr) : goerr :=
  New CodeConflict message 409 err.
Definition StaleVersion (err : goerr) : goerr :=
  New CodeStaleVersion "resource version is stale" 409 (Some err).
Definition RequestInProgress : goerr :=
  New CodeRequestInProgress "request is already processing" 409 None.
Definition Unauthorized (message : string) : goerr := New CodeUnauthorized message 401 None.
Definition Forbidden (message : string) : goerr := New CodeForbidden message 403 None.
Definition TooManyRequests : goerr := New CodeTooManyRequests "too many requests" 429 None.
Definition RequestTimeout : goerr := New CodeRequestTimeout "request timeout" 504 None.
Definition Unavailable (message : string) (err : option goerr) : goerr :=
  New CodeDependencyUnavailable message 503 err.
Definition Internal (err : goerr) : goerr :=
  New CodeInternal "internal server error" 500 (Some err).

(** [apperror.Error.Unwrap]. *)
Definition Unwrap (e : goerr) : option goerr :=
  match e with AppError _ _ _ i => i | _ => None end.

(** ** [translate] *)

Definition uniqueViolation (err : goerr) : bool :=
  match As is_mysql err with
  | Some (MySQLError n) => (n =? 1062)%Z
  | _ =>
      match As is_pg err with
      | Some (PgError c) => c =?s "23505"
      | _ => false
      end
  end.

Definition translate (err : option goerr) : option goerr :=
  match err with
  | None => None
  | Some err =>
      match As is_app err with
      | Some appErr => Some appErr
      | None =>
          if Is err ErrNotFound then Some (NotFound "tenant resource not found")
          else if Is err ErrConflict then
            Some (Conflict "tenant resource already exists" (Some err))
          else if uniqueViolation err then
            Some (Conflict "tenant resource already exists" (Some err))
          else if Is err ErrStaleVersion then Some (StaleVersion err)
          else Some (Internal err)
      end
  end.

(** ** Properties *)

Lemma As_test test e a : As test e = Some a → test a = true.
Proof. intros Hf. by apply find_some in Hf as [_ ?]. Qed.

Lemma As_app_self c m s i : As is_app (AppError c m s i) = Some (AppError c m s i).
Proof. done. Qed.

Lemma As_wrapped test msg e :
  (∀ m x, test (Wrapped m x) = false) → As test (Wrapped msg e) = As test e.
Proof. intros Ht. unfold As. simpl. by rewrite Ht. Qed.

Lemma Is_wrapped t msg e : Is (Wrapped msg e) t = Is e t.
Proof. done. Qed.

(** Every error the domain layer lets out through [translate] is an application
    error, and [translate] changes nothing on a second pass. *)
Lemma translate_is_app err e : translate err = Some e → is_app e = true.
Proof.
  destruct err as [err|]; [|done]. simpl.
  destruct (As is_app err) eqn:Ha.
  - intros [= <-]. by apply As_test in Ha.
  - intros. repeat case_match; by simplify_eq.
Qed.

Lemma translate_app e : is_app e = true → translate (Some e) = Some e.
Proof. by destruct e. Qed.

Lemma translate_Some e : ∃ e', translate (Some e) = Some e' ∧ is_app e' = true.
Proof.
  destruct (translate (Some e)) as [e'|] eqn:Ht.
  - exists e'. split; [done|]. by eapply translate_is_app.
  - simpl in Ht. repeat case_match; done.
Qed.

Lemma translate_None err : translate err = None ↔ err = None.
Proof.
  split; [|by intros ->]. destruct err as [e|]; [|done].
  destruct (translate_Some e) as (? & -> & ?); done.
Qed.

Lemma translate_translate err : translate (translate err) = translate err.
Proof.
  destruct (translate err) as [e|] eqn:Ht; [|done].
  apply translate_app. by eapply translate_is_app.
Qed.

(** A join is nil exactly when both arguments are. *)
Lemma Join_None a b : Join a b = None ↔ a = None ∧ b = None.
Proof. destruct a, b; naive_solver. Qed.

End AppErrors.

#[export] Hint Rewrite @translate_translate : tenant.
#[export] Hint Resolve translate_is_app : tenant.

(** ** Fallible results

    A Go pair [(T, error)] whose value is the zero value, and is not looked at,
    when the error is not nil. *)
Inductive result (A : Type) :=
| Ok (a : A)
| Err (e : goerr).
Arguments Ok {A} a.
Arguments Err {A} e.

Definition result_map {A B} (f : A → B) (r : result A) : result B :=
  match r with Ok a => Ok (f a) | Err e => Err e end.
