(* ===== verification/Model.v ===== *)
(** * Domain data

    The structs of [internal/tenant/model.go], field by field. A projection is
    named after its struct and field ([Tenant_ID] is [Tenant.ID]). An [int64] is
    a [Z] and a [time.Time] its nanoseconds since the Unix epoch; each type has
    its Go zero value and decidable equality. *)

From stdpp Require Import base list strings.
From S2P Require Import Prelude.

(** [time.Time{}]: January 1, year 1. *)
Definition zero_time : Z := (-62135596800 * 1000000000)%Z.

(** ** Structs *)

Record Tenant := Build_Tenant {
  Tenant_ID : string;
  Tenant_Code : string;
  Tenant_Name : string;
  Tenant_Status : string;
  Tenant_Version : Z;
  Tenant_CreatedAt : Z;
  Tenant_UpdatedAt : Z;
  Tenant_CreatedBy : string;
  Tenant_UpdatedBy : string;
}.

Record Membership := Build_Membership {
  Membership_ID : string;
  Membership_TenantID : string;
  Membership_UserID : string;
  Membership_Status : string;
  Membership_PrimaryOrganizationUnitID : string;
  Membership_JoinedAt : Z;
  Membership_Version : Z;
  Membership_CreatedAt : Z;
  Membership_UpdatedAt : Z;
  Membership_CreatedBy : string;
  Membership_UpdatedBy : string;
}.

Record OrganizationUnit := Build_OrganizationUnit {
  OrganizationUnit_ID : string;
  OrganizationUnit_TenantID : string;
  OrganizationUnit_ParentID : string;
  OrganizationUnit_Code : string;
  OrganizationUnit_Name : string;
  OrganizationUnit_Path : string;
  OrganizationUnit_Status : string;
  OrganizationUnit_Version : Z;
  OrganizationUnit_CreatedAt : Z;
  OrganizationUnit_UpdatedAt : Z;
  OrganizationUnit_CreatedBy : string;
  OrganizationUnit_UpdatedBy : string;
}.

Record Invitation := Build_Invitation {
  Invitation_ID : string;
  Invitation_TenantID : string;
  Invitation_Email : string;
  Invitation_TokenHash : string;
  Invitation_Status : string;
  Invitation_ExpiresAt : Z;
  Invitation_AcceptedByUserID : string;
  Invitation_Version : Z;
  Invitation_CreatedAt : Z;
  Invitation_UpdatedAt : Z;
  Invitation_CreatedBy : string;
  Invitation_UpdatedBy : string;
}.

Record Group := Build_Group {
  Group_ID : string;
  Group_TenantID : string;
  Group_Code : string;
  Group_Name : string;
  Group_Status : string;
  Group_Version : Z;
  Group_CreatedAt : Z;
  Group_UpdatedAt : Z;
  Group_CreatedBy : string;
  Group_UpdatedBy : string;
}.

Record GroupMember := Build_GroupMember {
  GroupMember_ID : string;
  GroupMember_TenantID : string;
  GroupMember_GroupID : string;
  GroupMember_MembershipID : string;
  GroupMember_Status : string;
  GroupMember_Version : Z;
  GroupMember_CreatedAt : Z;
  GroupMember_UpdatedAt : Z;
  GroupMember_CreatedBy : string;
  GroupMember_UpdatedBy : string;
}.

Record Quota := Build_Quota {
  Quota_TenantID : string;
  Quota_Key : string;
  Quota_Limit : Z;
  Quota_Used : Z;
  Quota_Version : Z;
  Quota_CreatedAt : Z;
  Quota_UpdatedAt : Z;
  Quota_CreatedBy : string;
  Quota_UpdatedBy : string;
}.

Record OutboxEvent := Build_OutboxEvent {
  OutboxEvent_ID : string;
  OutboxEvent_Subject : string;
  OutboxEvent_Envelope : string;
  OutboxEvent_AvailableAt : Z;
  OutboxEvent_Version : Z;
  OutboxEvent_CreatedAt : Z;
  OutboxEvent_UpdatedAt : Z;
  OutboxEvent_CreatedBy : string;
  OutboxEvent_UpdatedBy : string;
}.

Record QuotaPage := Build_QuotaPage {
  QuotaPage_Quotas : list Quota;
  QuotaPage_Total : Z;
  QuotaPage_Page : Z;
  QuotaPage_PageSize : Z;
}.

Record InvitationPage := Build_InvitationPage {
  InvitationPage_Invitations : list Invitation;
  InvitationPage_Total : Z;
  InvitationPage_Page : Z;
  InvitationPage_PageSize : Z;
}.

Record Page := Build_Page {
  Page_Tenants : list Tenant;
  Page_Total : Z;
  Page_Page : Z;
  Page_PageSize : Z;
}.

Record MembershipPage := Build_MembershipPage {
  MembershipPage_Memberships : list Membership;
  MembershipPage_Total : Z;
  MembershipPage_Page : Z;
  MembershipPage_PageSize : Z;
}.

Record GroupPage := Build_GroupPage {
  GroupPage_Groups : list Group;
  GroupPage_Total : Z;
  GroupPage_Page : Z;
  GroupPage_PageSize : Z;
}.

(** A node of the organization tree ([dictionary_provider.go]). *)
Inductive OrganizationTreeNode := Build_OrganizationTreeNode {
  OrganizationTreeNode_Item : OrganizationUnit;
  OrganizationTreeNode_Children : list OrganizationTreeNode;
  OrganizationTreeNode_HasChildren : bool;
}.

(** ** Zero values *)

Definition Tenant0 : Tenant := Build_Tenant "" "" "" "" 0 zero_time zero_time "" "".
Definition Membership0 : Membership := Build_Membership "" "" "" "" "" zero_time 0 zero_time zero_time "" "".
Definition OrganizationUnit0 : OrganizationUnit := Build_OrganizationUnit "" "" "" "" "" "" "" 0 zero_time zero_time "" "".
Definition Invitation0 : Invitation := Build_Invitation "" "" "" "" "" zero_time "" 0 zero_time zero_time "" "".
Definition Group0 : Group := Build_Group "" "" "" "" "" 0 zero_time zero_time "" "".
Definition GroupMember0 : GroupMember := Build_GroupMember "" "" "" "" "" 0 zero_time zero_time "" "".
Definition Quota0 : Quota := Build_Quota "" "" 0 0 0 zero_time zero_time "" "".
Definition OutboxEvent0 : OutboxEvent := Build_OutboxEvent "" "" "" zero_time 0 zero_time zero_time "" "".
Definition QuotaPage0 : QuotaPage := Build_QuotaPage [] 0 0 0.
Definition InvitationPage0 : InvitationPage := Build_InvitationPage [] 0 0 0.
Definition Page0 : Page := Build_Page [] 0 0 0.
Definition MembershipPage0 : MembershipPage := Build_MembershipPage [] 0 0 0.
Definition GroupPage0 : GroupPage := Build_GroupPage [] 0 0 0.

(** ** Decidable equality *)

#[export] Instance Tenant_eq_dec : EqDecision Tenant.
Proof. solve_decision. Defined.
#[export] Instance Membership_eq_dec : EqDecision Membership.
Proof. solve_decision. Defined.
#[export] Instance OrganizationUnit_eq_dec : EqDecision OrganizationUnit.
Proof. solve_decision. Defined.
#[export] Instance Invitation_eq_dec : EqDecision Invitation.
Proof. solve_decision. Defined.
#[export] Instance Group_eq_dec : EqDecision Group.
Proof. solve_decision. Defined.
#[export] Instance GroupMember_eq_dec : EqDecision GroupMember.
Proof. solve_decision. Defined.
#[export] Instance Quota_eq_dec : EqDecision Quota.
Proof. solve_decision. Defined.
#[export] Instance OutboxEvent_eq_dec : EqDecision OutboxEvent.
Proof. solve_decision. Defined.
