(* ===== verification/Store.v ===== *)
(** * The relational store

    The tables the migrations create ([migrations/postgres/*.sql]) and the
    meaning of the SQL statements the repository sends: selection, ordering,
    [LIMIT]/[OFFSET], [LIKE], insertion and conditional update with the schema's
    primary keys, unique indexes, foreign keys and checks. Constraint violations
    are PostgreSQL errors by their SQLSTATE. A row is represented by its Go
    struct; a [NULL] identifier column is the empty string, which the repository
    never stores as a non-null value ([nullableID], [COALESCE]). *)

From Stdlib Require Import Ascii.
From stdpp Require Import base gmap list strings sorting.
From S2P Require Import Prelude GoErrors Model.

(** What depends on the database's locale: [LOWER] and the collation of
    [ORDER BY]. *)
Class SqlDialect := {
  sql_lower : string → string;
  collate_le : string → string → bool;
}.

(** ** Tables *)

Record OutboxRow := Build_OutboxRow {
  OutboxRow_event : OutboxEvent;
  OutboxRow_attempts : Z;
  OutboxRow_published_at : option Z;
  OutboxRow_last_error : string;
}.

Record DB := Build_DB {
  tenants : gmap string Tenant;
  memberships : gmap string Membership;
  organization_units : gmap string OrganizationUnit;
  invitations : gmap string Invitation;
  member_groups : gmap string Group;
  group_members : gmap string GroupMember;
  tenant_quotas : gmap (string * string) Quota;
  tenant_outbox_events : list OutboxRow;
}.

Definition empty_db : DB := Build_DB ∅ ∅ ∅ ∅ ∅ ∅ ∅ [].

Definition set_tenants t (d : DB) : DB :=
  Build_DB t (memberships d) (organization_units d) (invitations d) (member_groups d)
    (group_members d) (tenant_quotas d) (tenant_outbox_events d).
Definition set_memberships t (d : DB) : DB :=
  Build_DB (tenants d) t (organization_units d) (invitations d) (member_groups d)
    (group_members d) (tenant_quotas d) (tenant_outbox_events d).
Definition set_organization_units t (d : DB) : DB :=
  Build_DB (tenants d) (memberships d) t (invitations d) (member_groups d)
    (group_members d) (tenant_quotas d) (tenant_outbox_events d).
Definition set_invitations t (d : DB) : DB :=
  Build_DB (tenants d) (memberships d) (organization_units d) t (member_groups d)
    (group_members d) (tenant_quotas d) (tenant_outbox_events d).
Definition set_member_groups t (d : DB) : DB :=
  Build_DB (tenants d) (memberships d) (organization_units d) (invitations d) t
    (group_members d) (tenant_quotas d) (tenant_outbox_events d).
Definition set_group_members t (d : DB) : DB :=
  Build_DB (tenants d) (memberships d) (organization_units d) (invitations d)
    (member_groups d) t (tenant_quotas d) (tenant_outbox_events d).
Definition set_tenant_quotas t (d : DB) : DB :=
  Build_DB (tenants d) (memberships d) (organization_units d) (invitations d)
    (member_groups d) (group_members d) t (tenant_outbox_events d).
Definition set_tenant_outbox_events t (d : DB) : DB :=
  Build_DB (tenants d) (memberships d) (organization_units d) (invitations d)
    (member_groups d) (group_members d) (tenant_quotas d) t.

(** ** Statements

    A statement that changes the database or fails and changes nothing. *)
Definition stmt (X : Type) : Type := DB → result (X * DB).

Definition rows {K R} `{Countable K} (t : gmap K R) : list R := snd <$> map_to_list t.

Definition any_row {K R} `{Countable K} (p : R → bool) (t : gmap K R) : bool :=
  existsb p (rows t).

(** [SELECT ... WHERE p] with the order [le] of its [ORDER BY]. *)
Definition select {K R} `{Countable K} (p : R → bool) (le : R → R → bool) (t : gmap K R)
  : list R :=
  sort_by le (List.filter p (rows t)).

(** [LIMIT limit OFFSET offset]. *)
Definition limit_offset {R} (limit offset : Z) (l : list R) : result (list R) :=
  if (limit <? 0)%Z then Err (PgError "2201W")
  else if (offset <? 0)%Z then Err (PgError "2201X")
  else if (Z.of_nat (length l) <=? offset)%Z then Ok []
  else Ok (take (Z.to_nat (Z.min limit (Z.of_nat (length l)))) (drop (Z.to_nat offset) l)).

(** The [bigint] result of [version + 1]. *)
Definition bigint (z : Z) : result Z :=
  if ((min_int64 <=? z) && (z <=? max_int64))%Z then Ok z else Err (PgError "22003").

(** *** [LIKE]

    Patterns and strings are compared character by character, a character being
    a byte with the UTF-8 continuation bytes that follow it. *)
Definition is_continuation (s : string) : bool :=
  match s with
  | String a _ => ((128 <=? N_of_ascii a) && (N_of_ascii a <? 192))%N
  | EmptyString => false
  end.

Fixpoint utf8_chars (s : string) : list string :=
  match s with
  | EmptyString => []
  | String a s' =>
      match utf8_chars s' with
      | [] => [String a ""]
      | w :: ws => if is_continuation w then String a w :: ws else String a "" :: w :: ws
      end
  end.

Fixpoint like_chars (p s : list string) {struct p} : bool :=
  match p with
  | [] => match s with [] => true | _ => false end
  | c :: p' =>
      if c =?s "%" then
        (fix any (s : list string) : bool :=
           like_chars p' s || match s with [] => false | _ :: s' => any s' end) s
      else if c =?s "_" then
        match s with [] => false | _ :: s' => like_chars p' s' end
      else if c =?s "\" then
        match p' with
        | [] => false
        | c' :: p'' => match s with [] => false | x :: s' => (x =?s c') && like_chars p'' s' end
        end
      else match s with [] => false | x :: s' => (x =?s c) && like_chars p' s' end
  end.

(** [s LIKE pattern]. *)
Definition sql_like (s pattern : string) : bool := like_chars (utf8_chars pattern) (utf8_chars s).

(** [SUBSTRING(s FROM start)], counted in characters from 1. *)
Definition sql_substring (s : string) (start : Z) : string :=
  String.concat "" (drop (Z.to_nat (start - 1)) (utf8_chars s)).

(** [ORDER BY a, b] on two text columns and [ORDER BY t DESC, s DESC] on a
    timestamp and a text column. *)
Definition order_text2 `{SqlDialect} (a1 b1 a2 b2 : string) : bool :=
  if a1 =?s a2 then collate_le b1 b2 else collate_le a1 a2.
Definition order_time `{SqlDialect} (t1 : Z) (s1 : string) (t2 : Z) (s2 : string) : bool :=
  if (t1 =? t2)%Z then collate_le s1 s2 else (t1 <? t2)%Z.

(** ** Insertions, with the schema's constraints *)

Definition unique_violation : goerr := PgError "23505".
Definition foreign_key_violation : goerr := PgError "23503".
Definition check_violation : goerr := PgError "23514".

(** [b] or the violation [e]. *)
Definition check {X} (b : bool) (e : goerr) (k : result X) : result X :=
  if b then k else Err e.

Definition has {K R} `{Countable K} (t : gmap K R) (k : K) : bool :=
  match t !! k with Some _ => true | None => false end.

(** A nullable reference: [NULL] satisfies a foreign key. *)
Definition null_or_has {R} (t : gmap string R) (k : string) : bool := (k =?s "") || has t k.

Definition insert_tenants `{SqlDialect} (v : Tenant) : stmt unit := λ d,
  check (negb (has (tenants d) (Tenant_ID v))) unique_violation
  (check (negb (any_row (λ r, sql_lower (Tenant_Code r) =?s sql_lower (Tenant_Code v)) (tenants d)))
     unique_violation
  (Ok (tt, set_tenants (<[Tenant_ID v := v]> (tenants d)) d))).

Definition insert_memberships (v : Membership) : stmt unit := λ d,
  check (negb (has (memberships d) (Membership_ID v))) unique_violation
  (check (negb (any_row (λ r, (Membership_TenantID r =?s Membership_TenantID v)
                           && (Membership_UserID r =?s Membership_UserID v)) (memberships d)))
     unique_violation
  (check (has (tenants d) (Membership_TenantID v)) foreign_key_violation
  (check (null_or_has (organization_units d) (Membership_PrimaryOrganizationUnitID v))
     foreign_key_violation
  (Ok (tt, set_memberships (<[Membership_ID v := v]> (memberships d)) d))))).

Definition insert_organization_units (v : OrganizationUnit) : stmt unit := λ d,
  check (negb (has (organization_units d) (OrganizationUnit_ID v))) unique_violation
  (check (negb (any_row (λ r, (OrganizationUnit_TenantID r =?s OrganizationUnit_TenantID v)
                           && ((OrganizationUnit_Code r =?s OrganizationUnit_Code v)
                               || (OrganizationUnit_Path r =?s OrganizationUnit_Path v)))
                  (organization_units d)))
     unique_violation
  (check (has (tenants d) (OrganizationUnit_TenantID v)) foreign_key_violation
  (check (null_or_has (organization_units d) (OrganizationUnit_ParentID v)) foreign_key_violation
  (Ok (tt, set_organization_units (<[OrganizationUnit_ID v := v]> (organization_units d)) d))))).

Definition insert_invitations (v : Invitation) : stmt unit := λ d,
  check (negb (has (invitations d) (Invitation_ID v))) unique_violation
  (check (negb (any_row (λ r, Invitation_TokenHash r =?s Invitation_TokenHash v) (invitations d)))
     unique_violation
  (check (has (tenants d) (Invitation_TenantID v)) foreign_key_violation
  (Ok (tt, set_invitations (<[Invitation_ID v := v]> (invitations d)) d)))).

Definition insert_member_groups (v : Group) : stmt unit := λ d,
  check (negb (has (member_groups d) (Group_ID v))) unique_violation
  (check (negb (any_row (λ r, (Group_TenantID r =?s Group_TenantID v)
                           && (Group_Code r =?s Group_Code v)) (member_groups d)))
     unique_violation
  (check (has (tenants d) (Group_TenantID v)) foreign_key_violation
  (Ok (tt, set_member_groups (<[Group_ID v := v]> (member_groups d)) d)))).

Definition insert_group_members (v : GroupMember) : stmt unit := λ d,
  check (negb (has (group_members d) (GroupMember_ID v))) unique_violation
  (check (negb (any_row (λ r, (GroupMember_GroupID r =?s GroupMember_GroupID v)
                           && (GroupMember_MembershipID r =?s GroupMember_MembershipID v))
                  (group_members d)))
     unique_violation
  (check (has (tenants d) (GroupMember_TenantID v)) foreign_key_violation
  (check (has (member_groups d) (GroupMember_GroupID v)) foreign_key_violation
  (check (has (memberships d) (GroupMember_MembershipID v)) foreign_key_violation
  (Ok (tt, set_group_members (<[GroupMember_ID v := v]> (group_members d)) d)))))).

Definition insert_tenant_quotas (v : Quota) : stmt unit := λ d,
  check ((0 <=? Quota_Limit v) && (0 <=? Quota_Used v))%Z check_violation
  (check (negb (has (tenant_quotas d) (Quota_TenantID v, Quota_Key v))) unique_violation
  (check (has (tenants d) (Quota_TenantID v)) foreign_key_violation
  (Ok (tt, set_tenant_quotas (<[(Quota_TenantID v, Quota_Key v) := v]> (tenant_quotas d)) d)))).

Definition insert_tenant_outbox_events (v : OutboxRow) : stmt unit := λ d,
  let key r := (OutboxEvent_ID (OutboxRow_event r), OutboxEvent_CreatedAt (OutboxRow_event r)) in
  check (negb (existsb (λ r, bool_decide (key r = key v)) (tenant_outbox_events d)))
    unique_violation
  (Ok (tt, set_tenant_outbox_events (tenant_outbox_events d ++ [v]) d)).

(** ** Conditional updates

    [UPDATE t SET ... , version = version + 1 WHERE key = ? AND p]: the number of
    rows changed and the new table. *)
Definition update_row {K R} `{Countable K} (key : K) (p : R → bool) (version : R → Z)
    (upd : R → R) (t : gmap K R) : result (Z * gmap K R) :=
  match t !! key with
  | Some r =>
      if p r then
        match bigint (version r + 1) with
        | Ok _ => Ok (1%Z, <[key := upd r]> t)
        | Err e => Err e
        end
      else Ok (0%Z, t)
  | None => Ok (0%Z, t)
  end.
