(* ===== verification/Effects.v ===== *)
(** * Programs and their executions

    A service method is a [prog]: the tree of calls it makes to the clock, the
    random sources, the database, the Redis locks and the idempotency store. One
    tree has two executions: [run], alone on a world, and [pool_step], one call
    at a time interleaved with the calls of other requests. [wp] is the weakest
    precondition that is sound for both: it quantifies over every answer of the
    environment (faults included) and over the interference [R] of other
    requests between two calls, and asks every commit to satisfy [G]. *)

From stdpp Require Import base gmap list strings.
From S2P Require Import Prelude GoErrors Model Store.

(** ** The idempotency store's answers *)

Inductive IdemState :=
| StateAcquired | StateProcessing | StateCompleted | StateFailed | StateConflict | StateOther.

Record Failure := Build_Failure {
  Failure_Code : Z; Failure_Message : string; Failure_HTTPStatus : Z }.

Record Decision := Build_Decision {
  Decision_State : IdemState;
  Decision_Owner : string;
  Decision_Response : string;
  Decision_Failure : Failure }.

Record createResult := Build_createResult {
  createResult_Tenant : Tenant; createResult_Membership : Membership }.

(** ** Transactions and programs *)

(** The body of a transaction: statements, and the identifiers drawn between
    them. *)
Inductive tx (A : Type) : Type :=
| TRet (a : A)
| TUuid (k : string → tx A)
| TStmt {X : Type} (s : stmt X) (k : result X → tx A).
Arguments TRet {A} a.
Arguments TUuid {A} k.
Arguments TStmt {A X} s k.

Fixpoint tbind {A B} (m : tx A) (f : A → tx B) : tx B :=
  match m with
  | TRet a => f a
  | TUuid k => TUuid (λ u, tbind (k u) f)
  | TStmt s k => TStmt s (λ r, tbind (k r) f)
  end.

Definition exec {X} (s : stmt X) : tx (result X) := TStmt s TRet.

Inductive prog (A : Type) : Type :=
| Ret (a : A)
| Now (k : Z → prog A)
| NewUUID (k : string → prog A)
| RandRead (k : result string → prog A)
| Query {X : Type} (q : DB → result X) (k : result X → prog A)
| Transact {X : Type} (available : bool) (x0 : X) (body : tx (X * option goerr))
    (k : X * option goerr → prog A)
| MutexLock (name : string) (k : nat + (bool * goerr) → prog A)
| MutexUnlock (name : string) (value : nat) (k : result bool → prog A)
| IdemBegin (key fingerprint : string) (k : result Decision → prog A)
| IdemComplete {V : Type} (key owner : string) (value : V) (k : option goerr → prog A)
| IdemFail (key owner : string) (value : Failure) (k : option goerr → prog A).
Arguments Ret {A} a.
Arguments Now {A} k.
Arguments NewUUID {A} k.
Arguments RandRead {A} k.
Arguments Query {A X} q k.
Arguments Transact {A X} available x0 body k.
Arguments MutexLock {A} name k.
Arguments MutexUnlock {A} name value k.
Arguments IdemBegin {A} key fingerprint k.
Arguments IdemComplete {A V} key owner value k.
Arguments IdemFail {A} key owner value k.

Fixpoint bind {A B} (m : prog A) (f : A → prog B) : prog B :=
  match m with
  | Ret a => f a
  | Now k => Now (λ x, bind (k x) f)
  | NewUUID k => NewUUID (λ x, bind (k x) f)
  | RandRead k => RandRead (λ x, bind (k x) f)
  | Query q k => Query q (λ x, bind (k x) f)
  | Transact v x0 b k => Transact v x0 b (λ x, bind (k x) f)
  | MutexLock n k => MutexLock n (λ x, bind (k x) f)
  | MutexUnlock n v k => MutexUnlock n v (λ x, bind (k x) f)
  | IdemBegin a b k => IdemBegin a b (λ x, bind (k x) f)
  | IdemComplete a b c k => IdemComplete a b c (λ x, bind (k x) f)
  | IdemFail a b c k => IdemFail a b c (λ x, bind (k x) f)
  end.

Declare Scope prog_scope.
Delimit Scope prog_scope with prog.
Notation "x <- m ;; k" := (bind m (λ x, k))
  (at level 100, m at next level, right associativity, only parsing) : prog_scope.
(** [v, err := m; if err != nil { return h }; k] *)
Notation "x <-? m 'else' e => h ;; k" :=
  (bind m (λ r, match r with Ok x => k | Err e => h end))
  (at level 100, m at next level, e name, h at next level, right associativity, only parsing) : prog_scope.
(** [if err := c; err != nil { return h }; k] *)
Notation "'guard' c 'else' e => h ;; k" :=
  (match c with None => k | Some e => h end)
  (at level 100, c at next level, e name, h at next level, right associativity, only parsing) : prog_scope.
(** [v, err := c; if err != nil { return h }; k] for a call without effects. *)
Notation "x <-! c 'else' e => h ;; k" :=
  (match c with Ok x => k | Err e => h end)
  (at level 100, c at next level, e name, h at next level, right associativity, only parsing) : prog_scope.
(** [if b { return h }; k] *)
Notation "'stop_if' b => h ;; k" := (if b then h else k)
  (at level 100, b at next level, h at next level, right associativity, only parsing) : prog_scope.
Open Scope prog_scope.

Definition now : prog Z := Now Ret.
Definition newUUID : prog string := NewUUID Ret.
Definition query {X} (q : DB → result X) : prog (result X) := Query q Ret.

(** ** Environments and worlds *)

(** The answers of the outside, by the number of the call. [env_commit] says
    whether a failed commit reached the disk all the same. A call of a lock may fail, and may
    have reached Redis all the same ([env_reached]); [env_expired] says whether a key has
    outlived its time when the call arrives. *)
Record Env := Build_Env {
  env_now : nat → Z;
  env_uuid : nat → string;
  env_rand : nat → result string;
  env_fault : nat → option goerr;
  env_commit : nat → option (goerr * bool);
  env_lock : nat → option (bool * goerr);
  env_unlock : nat → option goerr;
  env_reached : nat → bool;
  env_expired : nat → string → bool;
  env_begin : nat → result Decision;
}.

(** [w_locks]: the keys of the locks in Redis, with their values. The value redsync draws for a
    lock is its own: here the number of the call that took it. *)
Record World := Build_World { w_tick : nat; w_db : DB; w_locks : gmap string nat }.

Definition tick (w : World) : World := Build_World (S (w_tick w)) (w_db w) (w_locks w).
Definition set_db (n : nat) (d : DB) (w : World) : World := Build_World n d (w_locks w).
Definition set_locks (l : gmap string nat) (w : World) : World :=
  Build_World (S (w_tick w)) (w_db w) l.

(** What call [n] finds in Redis of the key [name]. *)
Definition live_locks (env : Env) (n : nat) (name : string) (locks : gmap string nat) : gmap string nat :=
  if env_expired env n name then delete name locks else locks.

(** Taking a lock: [SET NX] with the lock's value; the value is answered, or an error with
    whether the context has ended. *)
Definition lock_call (env : Env) (n : nat) (name : string) (locks : gmap string nat)
  : (nat + (bool * goerr)) * gmap string nat :=
  let live := live_locks env n name locks in
  match live !! name, env_lock env n with
  | Some _, Some e => (inr e, live)
  | Some _, None => (inr (false, Sentinel ErrFailed), live)
  | None, Some e => (inr e, if env_reached env n then <[name := n]> live else live)
  | None, None => (inl n, <[name := n]> live)
  end.

(** Releasing it: the key is deleted if it has the value still, which is the answer. A release
    that fails leaves the key where it is, unless only its answer was lost. *)
Definition unlock_call (env : Env) (n : nat) (name : string) (value : nat) (locks : gmap string nat)
  : result bool * gmap string nat :=
  let live := live_locks env n name locks in
  let mine := bool_decide (live !! name = Some value) in
  match env_unlock env n with
  | Some e => (Err e, if mine && env_reached env n then delete name live else live)
  | None => (Ok mine, if mine then delete name live else live)
  end.

(** The body of a transaction on its own view of the database. *)
Fixpoint run_tx {A} (env : Env) (b : tx A) (n : nat) (d : DB) : A * nat * DB :=
  match b with
  | TRet a => (a, n, d)
  | TUuid k => run_tx env (k (env_uuid env n)) (S n) d
  | TStmt s k =>
      match env_fault env n with
      | Some e => run_tx env (k (Err e)) (S n) d
      | None =>
          match s d with
          | Ok (x, d') => run_tx env (k (Ok x)) (S n) d'
          | Err e => run_tx env (k (Err e)) (S n) d
          end
      end
  end.

(** [Transactor.Within]: begin, run the body, commit or roll back. A transaction
    takes effect as a whole, between the calls of other requests. *)
Definition Within {X} (env : Env) (available : bool) (x0 : X) (body : tx (X * option goerr))
    (n : nat) (d : DB) : (X * option goerr) * nat * DB :=
  if negb available then
    ((x0, Some (TextError "begin transaction: database is disabled")), n, d)
  else
    match env_fault env n with
    | Some e => ((x0, Some (Wrapped "begin transaction" e)), S n, d)
    | None =>
        let '((x, err), n', d') := run_tx env body (S n) d in
        match err with
        | Some e =>
            match env_fault env n' with
            | Some re => ((x, Some (Wrapped "rollback transaction" re)), S n', d)
            | None => ((x, Some e), S n', d)
            end
        | None =>
            match env_commit env n' with
            | Some (ce, durable) =>
                ((x, Some (Wrapped "commit transaction" ce)), S n', if durable then d' else d)
            | None => ((x, None), S n', d')
            end
        end
    end.

(** One call of a program; [None] when it has returned. *)
Definition step {A} (env : Env) (p : prog A) (w : World) : option (prog A * World) :=
  let n := w_tick w in
  match p with
  | Ret _ => None
  | Now k => Some (k (env_now env n), tick w)
  | NewUUID k => Some (k (env_uuid env n), tick w)
  | RandRead k => Some (k (env_rand env n), tick w)
  | Query q k =>
      Some (k (match env_fault env n with Some e => Err e | None => q (w_db w) end), tick w)
  | Transact v x0 b k =>
      let '(r, n', d') := Within env v x0 b n (w_db w) in Some (k r, set_db n' d' w)
  | MutexLock name k =>
      let r := lock_call env n name (w_locks w) in Some (k (fst r), set_locks (snd r) w)
  | MutexUnlock name value k =>
      let r := unlock_call env n name value (w_locks w) in Some (k (fst r), set_locks (snd r) w)
  | IdemBegin _ _ k => Some (k (env_begin env n), tick w)
  | IdemComplete _ _ _ k => Some (k (env_fault env n), tick w)
  | IdemFail _ _ _ k => Some (k (env_fault env n), tick w)
  end.

(** A request on its own. *)
Fixpoint run {A} (env : Env) (p : prog A) (w : World) : A * World :=
  let n := w_tick w in
  match p with
  | Ret a => (a, w)
  | Now k => run env (k (env_now env n)) (tick w)
  | NewUUID k => run env (k (env_uuid env n)) (tick w)
  | RandRead k => run env (k (env_rand env n)) (tick w)
  | Query q k =>
      run env (k (match env_fault env n with Some e => Err e | None => q (w_db w) end)) (tick w)
  | Transact v x0 b k =>
      let '(r, n', d') := Within env v x0 b n (w_db w) in run env (k r) (set_db n' d' w)
  | MutexLock name k =>
      let r := lock_call env n name (w_locks w) in run env (k (fst r)) (set_locks (snd r) w)
  | MutexUnlock name value k =>
      let r := unlock_call env n name value (w_locks w) in run env (k (fst r)) (set_locks (snd r) w)
  | IdemBegin _ _ k => run env (k (env_begin env n)) (tick w)
  | IdemComplete _ _ _ k => run env (k (env_fault env n)) (tick w)
  | IdemFail _ _ _ k => run env (k (env_fault env n)) (tick w)
  end.

(** Concurrent requests: one of them makes its next call. *)
Inductive pool_step {A} (env : Env) : list (prog A) * World → list (prog A) * World → Prop :=
| pool_step_at ps i p p' w w' :
    ps !! i = Some p → step env p w = Some (p', w') →
    pool_step env (ps, w) (<[i := p']> ps, w').

Definition pool_steps {A} (env : Env) := rtc (@pool_step A env).

(** A schedule of thread numbers, executed. *)
Fixpoint run_schedule {A} (env : Env) (sched : list nat) (ps : list (prog A)) (w : World)
  : list (prog A) * World :=
  match sched with
  | [] => (ps, w)
  | i :: sched' =>
      match ps !! i with
      | Some p =>
          match step env p w with
          | Some (p', w') => run_schedule env sched' (<[i := p']> ps) w'
          | None => run_schedule env sched' ps w
          end
      | None => run_schedule env sched' ps w
      end
  end.

Definition returned {A} (p : prog A) : option A := match p with Ret a => Some a | _ => None end.

(** ** Weakest preconditions *)

Section Wp.
(** [R]: what other requests may do to the database between two calls; [G]: what
    a commit of this one may do; [U]: what is known of generated identifiers. *)
Context (R G : DB → DB → Prop) (U : string → Prop).

Fixpoint twp {A} (b : tx A) (Q : A → DB → Prop) (d : DB) : Prop :=
  match b with
  | TRet a => Q a d
  | TUuid k => ∀ u, U u → twp (k u) Q d
  | TStmt s k =>
      (∀ e, twp (k (Err e)) Q d) ∧
      match s d with
      | Ok (x, d') => twp (k (Ok x)) Q d'
      | Err e => True
      end
  end.

Fixpoint wp {A} (p : prog A) (Q : A → DB → Prop) (d : DB) : Prop :=
  ∀ d1, R d d1 →
  match p with
  | Ret a => Q a d1
  | Now k => ∀ t, wp (k t) Q d1
  | NewUUID k => ∀ u, U u → wp (k u) Q d1
  | RandRead k => ∀ r, wp (k r) Q d1
  | Query q k => (∀ e, wp (k (Err e)) Q d1) ∧ wp (k (q d1)) Q d1
  | Transact v x0 b k =>
      (∀ e, wp (k (x0, Some e)) Q d1) ∧
      twp b (λ '(x, err) d2,
        match err with
        | Some e =>
            wp (k (x, Some e)) Q d1 ∧
            (∀ re, wp (k (x, Some (Wrapped "rollback transaction" re))) Q d1)
        | None =>
            G d1 d2 ∧ wp (k (x, None)) Q d2 ∧
            (∀ ce, wp (k (x, Some (Wrapped "commit transaction" ce))) Q d1) ∧
            (∀ ce, wp (k (x, Some (Wrapped "commit transaction" ce))) Q d2)
        end) d1
  | MutexLock _ k => ∀ r, wp (k r) Q d1
  | MutexUnlock _ _ k => ∀ r, wp (k r) Q d1
  | IdemBegin _ _ k => ∀ r, wp (k r) Q d1
  | IdemComplete _ _ _ k => ∀ r, wp (k r) Q d1
  | IdemFail _ _ _ k => ∀ r, wp (k r) Q d1
  end.
End Wp.

(** ** Executions agree *)

Lemma run_bind {A B} env (m : prog A) (f : A → prog B) w :
  run env (bind m f) w = let '(a, w') := run env m w in run env (f a) w'.
Proof.
  revert w. induction m as [a|k IH|k IH|k IH|X q k IH|X v x0 b k IH|n k IH|n u k IH|x y k IH
    |V x y z k IH|x y z k IH]; intros w; simpl; auto.
  destruct (Within _ _ _ _ _ _) as [[r n'] d']. auto.
Qed.

(** A request alone makes the calls [step] makes. *)
Lemma run_step {A} env (p p' : prog A) w w' :
  step env p w = Some (p', w') → run env p w = run env p' w'.
Proof.
  destruct p; simpl; intros; try (simplify_eq; done).
  destruct (Within _ _ _ _ _ _) as [[r n'] d']. by simplify_eq.
Qed.

Lemma run_schedule_steps {A} env sched (ps : list (prog A)) w :
  pool_steps env (ps, w) (run_schedule env sched ps w).
Proof.
  revert ps w. induction sched as [|i sched IH]; intros ps w; simpl; [apply rtc_refl|].
  destruct (ps !! i) as [p|] eqn:Hp; [|apply IH].
  destruct (step env p w) as [[p' w']|] eqn:Hs; [|apply IH].
  eapply rtc_l; [by econstructor|apply IH].
Qed.

(** ** Soundness of the weakest precondition *)

Definition env_ok (U : string → Prop) (env : Env) : Prop := ∀ n, U (env_uuid env n).

Section Soundness.
Context (R G : DB → DB → Prop) (U : string → Prop).

Lemma twp_mono {A} (b : tx A) (Q Q' : A → DB → Prop) d :
  (∀ a d', Q a d' → Q' a d') → twp U b Q d → twp U b Q' d.
Proof.
  intros HQ. revert d. induction b as [a|k IH|X s k IH]; intros d; simpl; auto.
  intros [He Hs]. split; [auto|]. destruct (s d) as [[x d']|e]; auto.
Qed.

Lemma twp_bind {A B} (m : tx A) (f : A → tx B) Q d :
  twp U m (λ a d', twp U (f a) Q d') d → twp U (tbind m f) Q d.
Proof.
  revert d. induction m as [a|k IH|X s k IH]; intros d; simpl; auto.
  intros [He Hs]. split; [auto|]. destruct (s d) as [[x d']|e]; auto.
Qed.

Lemma twp_run {A} env (b : tx A) Q n d :
  env_ok U env → twp U b Q d →
  let '(a, _, d') := run_tx env b n d in Q a d'.
Proof.
  intros Hu. revert n d. induction b as [a|k IH|X s k IH]; intros n d; simpl.
  - done.
  - intros Hk. apply IH. auto.
  - intros [He Hs]. destruct (env_fault env n) as [e|]; [by apply IH|].
    destruct (s d) as [[x d']|e]; by apply IH.
Qed.

Context `{!Reflexive R, !Transitive R}.

(** Interference the environment may cause anyway can be skipped. *)
Lemma wp_interfere {A} (p : prog A) Q d d' : R d d' → wp R G U p Q d → wp R G U p Q d'.
Proof. destruct p; simpl; intros HR Hp d1 HR1; apply Hp; by etrans. Qed.

Lemma wp_mono {A} (p : prog A) (Q Q' : A → DB → Prop) d :
  (∀ a d', Q a d' → Q' a d') → wp R G U p Q d → wp R G U p Q' d.
Proof.
  intros HQ. revert d. induction p as [a|k IH|k IH|k IH|X q k IH|X v x0 b k IH|n k IH|n u k IH
    |x y k IH|V x y z k IH|x y z k IH]; simpl; intros d Hp d1 HR;
    specialize (Hp d1 HR); auto.
  - destruct Hp as [He Hq]. auto.
  - destruct Hp as [He Hb]. split; [auto|]. eapply twp_mono; [|done].
    intros [x [e|]] d2; simpl; [intros [? ?]; auto|].
    intros (? & ? & ? & ?). repeat split; auto.
Qed.

Lemma wp_bind {A B} (m : prog A) (f : A → prog B) Q d :
  wp R G U m (λ a d', wp R G U (f a) Q d') d → wp R G U (bind m f) Q d.
Proof.
  revert d. induction m as [a|k IH|k IH|k IH|X q k IH|X v x0 b k IH|n k IH|n u k IH
    |x y k IH|V x y z k IH|x y z k IH]; simpl; intros d Hp;
    [by apply Hp|intros d1 HR; specialize (Hp d1 HR); auto..].
  - destruct Hp as [He Hq]. auto.
  - destruct Hp as [He Hb]. split; [auto|]. eapply twp_mono; [|done].
    intros [x [e|]] d2; simpl; [intros [? ?]; auto|].
    intros (? & ? & ? & ?). repeat split; auto.
Qed.

(** Less interference, a weaker guarantee. *)
Lemma wp_weaken (R' G' : DB → DB → Prop) {A} (p : prog A) Q d :
  (∀ d d', R' d d' → R d d') → (∀ d d', G d d' → G' d d') →
  wp R G U p Q d → wp R' G' U p Q d.
Proof.
  intros HR HG. revert d. induction p as [a|k IH|k IH|k IH|X q k IH|X v x0 b k IH|n k IH|n u k IH
    |x y k IH|V x y z k IH|x y z k IH]; simpl; intros d Hp d1 HR1;
    specialize (Hp d1 (HR _ _ HR1)); auto.
  - destruct Hp as [He Hq]. auto.
  - destruct Hp as [He Hb]. split; [auto|]. eapply twp_mono; [|done].
    intros [x [e|]] d2; simpl; [intros [? ?]; auto|].
    intros (? & ? & ? & ?). repeat split; auto.
Qed.

(** The state a program ends in is one the others may rely on. *)
Lemma wp_rely_post {A} (p : prog A) Q d0 d :
  (∀ d d', G d d' → R d d') → R d0 d → wp R G U p Q d → wp R G U p (λ a d', Q a d' ∧ R d0 d') d.
Proof.
  intros HGR. revert d. induction p as [a|k IH|k IH|k IH|X q k IH|X v x0 b k IH|n k IH|n u k IH
    |x y k IH|V x y z k IH|x y z k IH]; simpl; intros d H0 Hp d1 HR;
    specialize (Hp d1 HR); assert (R d0 d1) as H1 by (by etrans); auto.
  - destruct Hp as [He Hq]. auto.
  - destruct Hp as [He Hb]. split; [auto|]. eapply twp_mono; [|done].
    intros [x [e|]] d2; simpl; [intros [? ?]; auto|].
    intros (HG & ? & ? & ?). assert (R d0 d2) by (etrans; eauto). repeat split; auto.
Qed.

(** Giving the result another form changes nothing. *)
Lemma wp_map_inv {A B} (m : prog A) (f : A → B) d :
  wp R G U (bind m (λ a, Ret (f a))) (λ _ _, True) d → wp R G U m (λ _ _, True) d.
Proof.
  revert d. induction m as [a|k IH|k IH|k IH|X q k IH|X v x0 b k IH|n k IH|n u k IH
    |x y k IH|V x y z k IH|x y z k IH]; simpl; intros d Hp d1 HR; specialize (Hp d1 HR); auto.
  - destruct Hp as [He Hq]. auto.
  - destruct Hp as [He Hb]. split; [auto|]. eapply twp_mono; [|done].
    intros [x [e|]] d2; simpl; [intros [? ?]; auto|].
    intros (? & ? & ? & ?). repeat split; auto.
Qed.

Context (env : Env) (Henv : env_ok U env).

(** One call of a program: the database is unchanged or changes by [G], and what
    remains to run still satisfies its precondition. *)
Lemma wp_step {A} (p p' : prog A) Q d w w' :
  wp R G U p Q d → R d (w_db w) → step env p w = Some (p', w') →
  (w_db w' = w_db w ∨ G (w_db w) (w_db w')) ∧ wp R G U p' Q (w_db w').
Proof using Henv.
  intros Hp HR Hs. destruct p as [a|k|k|k|X q k|X v x0 b k|n k|n u k|x y k|x y z k|x y z k];
    simpl in *; specialize (Hp _ HR); simplify_eq/=; auto.
  - split; [auto|]. destruct Hp as [He Hq]. by destruct (env_fault env (w_tick w)).
  - destruct Hp as [He Hb]. unfold Within in Hs.
    destruct v; simpl in Hs; [|simplify_eq/=; auto].
    destruct (env_fault env (w_tick w)) as [e|]; [simplify_eq/=; auto|].
    apply (twp_run env _ _ (S (w_tick w))) in Hb; [|done].
    destruct (run_tx _ _ _ _) as [[[x err] n'] d']. destruct err as [e|]; simpl in Hb.
    + destruct Hb as [Hb1 Hb2]. destruct (env_fault env n') as [re|]; simplify_eq/=; auto.
    + destruct Hb as (HG & Hb1 & Hb2 & Hb3).
      destruct (env_commit env n') as [[ce []]|]; simplify_eq/=; auto.
Qed.

(** A request alone. *)
Lemma wp_run {A} (p : prog A) Q w :
  wp R G U p Q (w_db w) → let '(a, w') := run env p w in Q a (w_db w').
Proof using All.
  revert w. induction p as [a|k IH|k IH|k IH|X q k IH|X v x0 b k IH|n k IH|n u k IH
    |x y k IH|V x y z k IH|x y z k IH]; intros w Hp; [by apply Hp|..];
    pose proof (λ p' w', wp_step _ p' Q _ w w' Hp (reflexivity _)) as Hstep; clear Hp;
    simpl in *; try (apply IH; by destruct (Hstep _ _ eq_refl)).
  destruct (Within _ _ _ _ _ _) as [[r n'] d']. apply IH. by destruct (Hstep _ _ eq_refl).
Qed.

(** A request alone keeps what the others rely on. *)
Lemma wp_run_rely {A} (p : prog A) Q w :
  (∀ d d', G d d' → R d d') → wp R G U p Q (w_db w) → R (w_db w) (w_db (snd (run env p w))).
Proof using All.
  intros HGR. revert w.
  assert (∀ (p p' : prog A) w w', wp R G U p Q (w_db w) → step env p w = Some (p', w') →
    R (w_db w) (w_db w') ∧ wp R G U p' Q (w_db w')) as Hstep.
  { intros q q' w w' Hq Hs. destruct (wp_step _ _ _ _ _ _ Hq (reflexivity _) Hs) as [[->|HG] Hq'];
      split; auto. }
  induction p as [a|k IH|k IH|k IH|X q k IH|X v x0 b k IH|n k IH|n u k IH
    |x y k IH|V x y z k IH|x y z k IH]; intros w Hp; [done|..];
    pose proof (λ p' w', Hstep _ p' w w' Hp) as Hs; clear Hstep Hp; simpl in *;
    try (destruct (Hs _ _ eq_refl) as [HR Hk]; etrans; [exact HR|by apply IH]).
  destruct (Within _ _ _ _ _ _) as [[r n'] d'].
  destruct (Hs _ _ eq_refl) as [HR Hk]. etrans; [exact HR|by apply IH].
Qed.

(** Concurrent requests that guarantee what the others rely on. *)
Context (HGR : ∀ d d', G d d' → R d d').

Definition pool_ok {A} (Q : nat → A → DB → Prop) (ps : list (prog A)) (w : World) : Prop :=
  ∀ i p, ps !! i = Some p → wp R G U p (Q i) (w_db w).

Lemma pool_step_ok {A} (Q : nat → A → DB → Prop) ps w ps' w' :
  pool_ok Q ps w → pool_step env (ps, w) (ps', w') →
  (w_db w' = w_db w ∨ G (w_db w) (w_db w')) ∧ pool_ok Q ps' w'.
Proof using All.
  intros Hok Hs. inversion Hs as [ps0 i p p' w0 w0' Hp Hstep]; subst.
  destruct (wp_step _ _ _ _ _ _ (Hok i p Hp) (reflexivity _) Hstep) as [HG Hwp].
  split; [done|]. intros j q Hq. destruct (decide (i = j)) as [->|Hne].
  - rewrite list_lookup_insert_eq in Hq by eauto using lookup_lt_Some. by simplify_eq.
  - rewrite list_lookup_insert_ne in Hq by done. apply (wp_interfere _ _ (w_db w)); [|eauto].
    destruct HG as [->|HG]; [done|auto].
Qed.

Lemma pool_steps_ok {A} (Q : nat → A → DB → Prop) ps w ps' w' :
  pool_ok Q ps w → pool_steps env (ps, w) (ps', w') →
  rtc G (w_db w) (w_db w') ∧ pool_ok Q ps' w'.
Proof using All.
  intros Hok Hs. remember (ps, w) as c eqn:Hc. remember (ps', w') as c' eqn:Hc'.
  revert ps w Hc Hok. induction Hs as [c|c [ps1 w1] c' H1 Hs IH]; intros ps w -> Hok.
  - simplify_eq. split; [apply rtc_refl|done].
  - destruct (pool_step_ok _ _ _ _ _ Hok H1) as [HG Hok1].
    destruct (IH Hc' ps1 w1 eq_refl Hok1) as [HG' Hok']. split; [|done].
    destruct HG as [HG|HG]; [by rewrite <- HG|by eapply rtc_l].
Qed.

End Soundness.

(** ** Programs that write nothing *)

Fixpoint readonly {A} (p : prog A) : Prop :=
  match p with
  | Ret _ => True
  | Now k => ∀ x, readonly (k x)
  | NewUUID k => ∀ x, readonly (k x)
  | RandRead k => ∀ x, readonly (k x)
  | Query _ k => ∀ x, readonly (k x)
  | Transact _ _ _ _ => False
  | MutexLock _ k => ∀ x, readonly (k x)
  | MutexUnlock _ _ k => ∀ x, readonly (k x)
  | IdemBegin _ _ k => ∀ x, readonly (k x)
  | IdemComplete _ _ _ k => ∀ x, readonly (k x)
  | IdemFail _ _ _ k => ∀ x, readonly (k x)
  end.

Lemma readonly_bind {A B} (m : prog A) (f : A → prog B) :
  readonly m → (∀ a, readonly (f a)) → readonly (bind m f).
Proof. intros Hm Hf. induction m; simpl in *; auto. Qed.

Lemma readonly_bind_inv {A B} (m : prog A) (f : A → prog B) : readonly (bind m f) → readonly m.
Proof. induction m; simpl in *; auto. Qed.

Lemma readonly_wp R G U {A} (p : prog A) d : readonly p → wp R G U p (λ _ _, True) d.
Proof. revert d. induction p; simpl; intros d Hp d1 HR; auto. done. Qed.

(** A program that writes nothing leaves the database as it is. *)
Lemma readonly_run {A} env (p : prog A) w :
  readonly p → w_db (snd (run env p w)) = w_db w.
Proof.
  revert w. induction p as [a|k IH|k IH|k IH|X q k IH|X v x0 b k IH|n k IH|n u k IH
    |x y k IH|V x y z k IH|x y z k IH]; intros w Hp; simpl in *; try done;
    try (rewrite IH by done; done).
Qed.

(** ** Proof rules *)

Section Rules.
Context (R G : DB → DB → Prop) (U : string → Prop).

Lemma wp_ret {A} (a : A) (Q : A → DB → Prop) d :
  (∀ d1, R d d1 → Q a d1) → wp R G U (Ret a) Q d.
Proof. done. Qed.

Lemma wp_now {A} (k : Z → prog A) Q d :
  (∀ d1 t, R d d1 → wp R G U (k t) Q d1) → wp R G U (Now k) Q d.
Proof. simpl. auto. Qed.

Lemma wp_uuid {A} (k : string → prog A) Q d :
  (∀ d1 u, R d d1 → U u → wp R G U (k u) Q d1) → wp R G U (NewUUID k) Q d.
Proof. simpl. auto. Qed.

Lemma wp_rand {A} (k : result string → prog A) Q d :
  (∀ d1 r, R d d1 → wp R G U (k r) Q d1) → wp R G U (RandRead k) Q d.
Proof. simpl. auto. Qed.

Lemma wp_query {A X} (q : DB → result X) (k : result X → prog A) Q d :
  (∀ d1, R d d1 → (∀ e, wp R G U (k (Err e)) Q d1) ∧ wp R G U (k (q d1)) Q d1) →
  wp R G U (Query q k) Q d.
Proof. done. Qed.

Lemma wp_lock {A} n (k : nat + (bool * goerr) → prog A) Q d :
  (∀ d1 r, R d d1 → wp R G U (k r) Q d1) → wp R G U (MutexLock n k) Q d.
Proof. simpl. auto. Qed.

Lemma wp_unlock {A} n v (k : result bool → prog A) Q d :
  (∀ d1 r, R d d1 → wp R G U (k r) Q d1) → wp R G U (MutexUnlock n v k) Q d.
Proof. simpl. auto. Qed.

Lemma wp_begin {A} a b (k : result Decision → prog A) Q d :
  (∀ d1 r, R d d1 → wp R G U (k r) Q d1) → wp R G U (IdemBegin a b k) Q d.
Proof. simpl. auto. Qed.

Lemma wp_complete {A V} a b (c : V) (k : option goerr → prog A) Q d :
  (∀ d1 r, R d d1 → wp R G U (k r) Q d1) → wp R G U (IdemComplete a b c k) Q d.
Proof. simpl. auto. Qed.

Lemma wp_fail {A} a b c (k : option goerr → prog A) Q d :
  (∀ d1 r, R d d1 → wp R G U (k r) Q d1) → wp R G U (IdemFail a b c k) Q d.
Proof. simpl. auto. Qed.

(** A transaction whose continuation is known to satisfy its postcondition
    whatever the outcome. *)
Lemma wp_transact {A X} v (x0 : X) b (k : X * option goerr → prog A) Q d :
  (∀ d1, R d d1 →
     (∀ e, wp R G U (k (x0, Some e)) Q d1) ∧
     twp U b (λ '(x, err) d2,
       (∀ e, wp R G U (k (x, Some e)) Q d1) ∧
       match err with
       | Some _ => True
       | None => G d1 d2 ∧ wp R G U (k (x, None)) Q d2 ∧ ∀ e, wp R G U (k (x, Some e)) Q d2
       end) d1) →
  wp R G U (Transact v x0 b k) Q d.
Proof.
  intros Hk d1 HR. destruct (Hk d1 HR) as [H0 Hb]. split; [done|].
  eapply twp_mono; [|done]. intros [x [e|]] d2; simpl; [naive_solver|].
  intros (H1 & HG & H2 & H3). repeat split; auto.
Qed.

End Rules.
