(* ===== verification/Platform.v ===== *)
(** * What the service takes from outside the repository

    The shared platform packages (principals, audit fields, event envelopes,
    error codes), the generated protobuf enums, the Unicode and collation tables,
    SHA-256 and the mail address parser are not part of the repository: they are
    the fields of the class [Platform], and every definition that uses one takes
    it as an argument. Their documented behaviour appears as named hypotheses
    ([AuditLaws]) where a theorem needs it. *)

From stdpp Require Import base list strings.
From S2P Require Import Prelude GoErrors Model Store Effects.

(** ** Principals and request contexts *)

Inductive PrincipalType :=
| TypeUser
| TypeServiceAccount
| TypeSystem
| TypeOther (name : string).

#[export] Instance PrincipalType_eq_dec : EqDecision PrincipalType.
Proof. solve_decision. Defined.

Record Principal := Build_Principal {
  Principal_ID : string;
  Principal_Type : PrincipalType;
  Principal_TenantID : string;
  Principal_SessionID : string;
}.

(** A [context.Context] by what the code reads from it: the answer of
    [principal.Require], the process-local platform-administration marker and the
    idempotency key. *)
Record Context := Build_Context {
  ctx_principal : result Principal;
  ctx_platformAdministration : bool;
  ctx_idempotencyKey : option string;
}.

(** [audit.New]: the audit columns of a new row. *)
Record AuditFields := Build_AuditFields {
  AuditFields_Version : Z;
  AuditFields_CreatedAt : Z;
  AuditFields_UpdatedAt : Z;
  AuditFields_CreatedBy : string;
  AuditFields_UpdatedBy : string;
}.

(** ** Event payloads

    The [platform.tenant.v1] messages as the sources build them. *)

Record PbTenant := Build_PbTenant {
  PbTenant_Id : string; PbTenant_Code : string; PbTenant_Name : string; PbTenant_Status : Z;
  PbTenant_Version : Z; PbTenant_CreatedAt : Z; PbTenant_UpdatedAt : Z;
  PbTenant_CreatedBy : string; PbTenant_UpdatedBy : string }.
Record PbOrganizationUnit := Build_PbOrganizationUnit {
  PbOrganizationUnit_Id : string; PbOrganizationUnit_TenantId : string;
  PbOrganizationUnit_ParentId : string; PbOrganizationUnit_Code : string;
  PbOrganizationUnit_Name : string; PbOrganizationUnit_Path : string;
  PbOrganizationUnit_Status : string; PbOrganizationUnit_Version : Z;
  PbOrganizationUnit_CreatedAt : Z; PbOrganizationUnit_UpdatedAt : Z;
  PbOrganizationUnit_CreatedBy : string; PbOrganizationUnit_UpdatedBy : string }.
Record PbInvitation := Build_PbInvitation {
  PbInvitation_Id : string; PbInvitation_TenantId : string; PbInvitation_Email : string;
  PbInvitation_Status : string; PbInvitation_ExpiresAt : Z;
  PbInvitation_AcceptedByUserId : string; PbInvitation_Version : Z;
  PbInvitation_CreatedAt : Z; PbInvitation_UpdatedAt : Z;
  PbInvitation_CreatedBy : string; PbInvitation_UpdatedBy : string }.
Record PbGroup := Build_PbGroup {
  PbGroup_Id : string; PbGroup_TenantId : string; PbGroup_Code : string; PbGroup_Name : string;
  PbGroup_Status : string; PbGroup_Version : Z; PbGroup_CreatedAt : Z; PbGroup_UpdatedAt : Z;
  PbGroup_CreatedBy : string; PbGroup_UpdatedBy : string }.
Record PbQuota := Build_PbQuota {
  PbQuota_TenantId : string; PbQuota_Key : string; PbQuota_Limit : Z; PbQuota_Used : Z;
  PbQuota_Version : Z; PbQuota_CreatedAt : Z; PbQuota_UpdatedAt : Z;
  PbQuota_CreatedBy : string; PbQuota_UpdatedBy : string }.

Inductive EventPayload :=
| TenantCreatedEvent (Tenant : PbTenant) (OwnerMembershipId OwnerUserId : string)
| TenantStatusChangedEvent (TenantId : string) (PreviousStatus CurrentStatus : Z)
| MembershipChangedEvent (MembershipId TenantId UserId : string)
    (PreviousStatus CurrentStatus : Z)
| OrganizationUnitChangedEvent (OrganizationUnit : PbOrganizationUnit)
    (PreviousParentId ChangeType : string)
| InvitationChangedEvent (Invitation : PbInvitation) (ChangeType : string)
| GroupChangedEvent (Group : PbGroup) (MembershipId ChangeType : string)
| QuotaChangedEvent (Quota : PbQuota) (Delta : Z) (ChangeType : string).

(** [eventbus.Metadata]. *)
Record Metadata := Build_Metadata {
  Metadata_EventID : string; Metadata_EventType : string; Metadata_AggregateID : string;
  Metadata_AggregateType : string; Metadata_TenantID : string; Metadata_SchemaVersion : Z;
  Metadata_ActorID : string; Metadata_ActorType : string; Metadata_OccurredAt : Z }.

(** ** The class *)

Class Platform := {
  platform_unicode :: UnicodeTables;
  platform_codes :: ErrorCodes;
  platform_sql :: SqlDialect;
  (** [audit.New(ctx, now)] and [audit.UpdatedBy(ctx, now)] *)
  audit_New : Context → Z → result AuditFields;
  audit_UpdatedBy : Context → Z → result (string * Z);
  (** the string of a [principal.Type] *)
  principal_type_string : PrincipalType → string;
  (** hex of [sha256.Sum256] *)
  sha256_hex : string → string;
  (** [mail.ParseAddress(s)], its [Address] field *)
  mail_ParseAddress : string → result string;
  (** the generated [TenantStatus_value] and [MembershipStatus_value] maps, 0 for
      a missing key *)
  TenantStatus_value : string → Z;
  MembershipStatus_value : string → Z;
  MEMBERSHIP_STATUS_ACTIVE : Z;
  (** [eventbus.NewEnvelope] followed by [proto.Marshal] *)
  marshal_envelope : Metadata → EventPayload → result string;
  (** [json.Unmarshal] into a [createResult] *)
  unmarshal_createResult : string → result createResult;
}.

(** The audit package stamps the given time and the authenticated principal, and
    a new row starts at version 1. *)
Class AuditLaws `{Platform} := {
  audit_New_fields ctx t f :
    audit_New ctx t = Ok f →
    AuditFields_Version f = 1%Z ∧ AuditFields_CreatedAt f = t ∧ AuditFields_UpdatedAt f = t;
  audit_New_actor ctx t f :
    audit_New ctx t = Ok f →
    ∃ p, ctx_principal ctx = Ok p ∧
         AuditFields_CreatedBy f = Principal_ID p ∧ AuditFields_UpdatedBy f = Principal_ID p;
  audit_UpdatedBy_actor ctx t actor t' :
    audit_UpdatedBy ctx t = Ok (actor, t') →
    t' = t ∧ ∃ p, ctx_principal ctx = Ok p ∧ actor = Principal_ID p;
}.
