(* ===== verification/Authorization.v ===== *)
(** * Tenant authorization

    The domain-level checks of [internal/tenant/service.go]: who may act on a
    tenant ([authorizeTenant]), who may use the platform directory
    ([authorizePlatformAdministration]), and the process-local marker that the
    HTTP authorization middleware sets. *)

From stdpp Require Import base list strings.
From S2P Require Import Prelude GoErrors Model Store Effects Platform.

Section Authorization.
Context `{Platform}.

Definition WithPlatformAdministration (ctx : Context) : Context :=
  Build_Context (ctx_principal ctx) true (ctx_idempotencyKey ctx).

Definition is_type (t : PrincipalType) (identity : Principal) : bool :=
  bool_decide (Principal_Type identity = t).

Definition authorizePlatformAdministration (ctx : Context) : option goerr :=
  identity <-! ctx_principal ctx else _ =>
    Some (Unauthorized "authenticated actor is required");;
  stop_if is_type TypeServiceAccount identity || is_type TypeSystem identity => None;;
  stop_if is_type TypeUser identity && ctx_platformAdministration ctx => None;;
  Some (Forbidden "platform administration is required").

Definition authorizeTenant (ctx : Context) (tenantID : string) : option goerr :=
  identity <-! ctx_principal ctx else _ =>
    Some (Unauthorized "authenticated actor is required");;
  stop_if is_type TypeServiceAccount identity || is_type TypeSystem identity => None;;
  stop_if is_type TypeUser identity && ctx_platformAdministration ctx => None;;
  stop_if negb (is_type TypeUser identity)
          || (TrimSpace (Principal_TenantID identity) =?s "")
          || (Principal_TenantID identity <>?s TrimSpace tenantID) =>
    Some (Forbidden "tenant access denied");;
  None.

(** ** The access policy

    A context may act on a tenant iff it belongs to a service account, to the
    system, to a user whose request carries the platform marker, or to a user
    whose trusted token names that very tenant. *)
Inductive may_access (ctx : Context) (tenantID : string) : Prop :=
| access_service p :
    ctx_principal ctx = Ok p → Principal_Type p = TypeServiceAccount → may_access ctx tenantID
| access_system p :
    ctx_principal ctx = Ok p → Principal_Type p = TypeSystem → may_access ctx tenantID
| access_platform p :
    ctx_principal ctx = Ok p → Principal_Type p = TypeUser →
    ctx_platformAdministration ctx = true → may_access ctx tenantID
| access_member p :
    ctx_principal ctx = Ok p → Principal_Type p = TypeUser →
    TrimSpace (Principal_TenantID p) ≠ "" → Principal_TenantID p = TrimSpace tenantID →
    may_access ctx tenantID.

Lemma authorizeTenant_iff ctx tenantID :
  authorizeTenant ctx tenantID = None ↔ may_access ctx tenantID.
Proof.
  unfold authorizeTenant, is_type. split.
  - destruct (ctx_principal ctx) as [p|e] eqn:Hp; [|done].
    repeat case_bool_decide; simpl; try by eauto using may_access.
    destruct (ctx_platformAdministration ctx) eqn:Hm; simpl; [by eauto using may_access|].
    case_match; [done|]. intros _. reflect_bools. by eapply access_member.
  - intros [p Hp Ht|p Hp Ht|p Hp Ht Hm|p Hp Ht Hn He]; rewrite Hp, Ht; simpl; [done..|by rewrite Hm|].
    rewrite He in Hn |- *. rewrite String.eqb_refl.
    destruct (String.eqb_spec (TrimSpace (TrimSpace tenantID)) ""); [done|].
    by destruct (ctx_platformAdministration ctx).
Qed.

(** The check answers with an application error, [Unauthorized] exactly when
    nobody is authenticated. *)
Lemma authorizeTenant_error ctx tenantID e :
  authorizeTenant ctx tenantID = Some e →
  e = match ctx_principal ctx with
      | Err _ => Unauthorized "authenticated actor is required"
      | Ok _ => Forbidden "tenant access denied"
      end.
Proof. unfold authorizeTenant. intros. repeat case_match; by simplify_eq. Qed.

Lemma authorizeTenant_is_app ctx tenantID e :
  authorizeTenant ctx tenantID = Some e → is_app e = true.
Proof. intros He%authorizeTenant_error. subst. by case_match. Qed.

(** A user without the platform marker acts on one tenant at most: the one of
    the token. *)
Lemma authorizeTenant_user_unique ctx p t1 t2 :
  ctx_principal ctx = Ok p → Principal_Type p = TypeUser →
  ctx_platformAdministration ctx = false →
  authorizeTenant ctx t1 = None → authorizeTenant ctx t2 = None →
  TrimSpace t1 = TrimSpace t2.
Proof.
  intros Hp Ht Hm H1%authorizeTenant_iff H2%authorizeTenant_iff.
  destruct H1, H2; congruence.
Qed.

Lemma authorizePlatformAdministration_is_app ctx e :
  authorizePlatformAdministration ctx = Some e → is_app e = true.
Proof. unfold authorizePlatformAdministration. intros. repeat case_match; by simplify_eq. Qed.

(** (C28) The access policy: the domain check admits exactly the contexts the policy
    admits; it refuses as unauthorized when nobody is authenticated and as forbidden
    otherwise; and a user without the platform marker passes it for one tenant at most. *)
Theorem authorization_policy ctx tenantID :
  (authorizeTenant ctx tenantID = None ↔ may_access ctx tenantID) ∧
  (¬ may_access ctx tenantID →
     authorizeTenant ctx tenantID
     = Some (match ctx_principal ctx with
             | Err _ => Unauthorized "authenticated actor is required"
             | Ok _ => Forbidden "tenant access denied"
             end)) ∧
  (∀ p other, ctx_principal ctx = Ok p → Principal_Type p = TypeUser →
     ctx_platformAdministration ctx = false → authorizeTenant ctx tenantID = None →
     authorizeTenant ctx other = None → TrimSpace tenantID = TrimSpace other).
Proof.
  split_and!; [apply authorizeTenant_iff| |].
  - intros Hn. destruct (authorizeTenant ctx tenantID) as [e|] eqn:He.
    + by rewrite (authorizeTenant_error _ _ _ He).
    + by apply authorizeTenant_iff in He.
  - intros p other Hp Ht Hm. by apply authorizeTenant_user_unique with (p := p).
Qed.

End Authorization.

#[export] Hint Resolve authorizeTenant_is_app authorizePlatformAdministration_is_app : tenant.
