(* ===== verification/Events.v ===== *)
(** * Domain events

    The event payloads built from rows and the outbox record every write stores
    beside its change ([newOutboxEvent] and the [event*] converters of
    [internal/tenant/service.go] and [collaboration_service.go]). *)

From stdpp Require Import base list strings.
From S2P Require Import Prelude GoErrors Model Store Effects Platform.

Section Events.
Context `{Platform}.

Definition tenantStatusEvent (value : string) : Z :=
  TenantStatus_value ("TENANT_STATUS_" +:+ ToUpper value).
Definition membershipStatusEvent (value : string) : Z :=
  MembershipStatus_value ("MEMBERSHIP_STATUS_" +:+ ToUpper value).

Definition eventTenant (v : Tenant) : PbTenant :=
  Build_PbTenant (Tenant_ID v) (Tenant_Code v) (Tenant_Name v) (tenantStatusEvent (Tenant_Status v))
    (Tenant_Version v) (Tenant_CreatedAt v) (Tenant_UpdatedAt v) (Tenant_CreatedBy v)
    (Tenant_UpdatedBy v).

Definition eventOrganizationUnit (v : OrganizationUnit) : PbOrganizationUnit :=
  Build_PbOrganizationUnit (OrganizationUnit_ID v) (OrganizationUnit_TenantID v)
    (OrganizationUnit_ParentID v) (OrganizationUnit_Code v) (OrganizationUnit_Name v)
    (OrganizationUnit_Path v) (OrganizationUnit_Status v) (OrganizationUnit_Version v)
    (OrganizationUnit_CreatedAt v) (OrganizationUnit_UpdatedAt v) (OrganizationUnit_CreatedBy v)
    (OrganizationUnit_UpdatedBy v).

Definition eventInvitation (v : Invitation) : PbInvitation :=
  Build_PbInvitation (Invitation_ID v) (Invitation_TenantID v) (Invitation_Email v)
    (Invitation_Status v) (Invitation_ExpiresAt v) (Invitation_AcceptedByUserID v)
    (Invitation_Version v) (Invitation_CreatedAt v) (Invitation_UpdatedAt v)
    (Invitation_CreatedBy v) (Invitation_UpdatedBy v).

Definition eventGroup (v : Group) : PbGroup :=
  Build_PbGroup (Group_ID v) (Group_TenantID v) (Group_Code v) (Group_Name v) (Group_Status v)
    (Group_Version v) (Group_CreatedAt v) (Group_UpdatedAt v) (Group_CreatedBy v)
    (Group_UpdatedBy v).

Definition eventQuota (v : Quota) : PbQuota :=
  Build_PbQuota (Quota_TenantID v) (Quota_Key v) (Quota_Limit v) (Quota_Used v) (Quota_Version v)
    (Quota_CreatedAt v) (Quota_UpdatedAt v) (Quota_CreatedBy v) (Quota_UpdatedBy v).

(** What [newOutboxEvent] does once the actor and the event identifier are
    known. *)
Definition outboxEventWith (actor : Principal) (id : string)
    (subject eventType aggregateID tenantID : string) (occurredAt : Z) (payload : EventPayload)
  : result OutboxEvent :=
  encoded <-! marshal_envelope
    (Build_Metadata id eventType aggregateID "tenant" tenantID 1 (Principal_ID actor)
       (principal_type_string (Principal_Type actor)) occurredAt) payload else err => Err err;;
  Ok (Build_OutboxEvent id subject encoded occurredAt 1 occurredAt occurredAt
        (Principal_ID actor) (Principal_ID actor)).

Definition newOutboxEvent (ctx : Context) (subject eventType aggregateID tenantID : string)
    (occurredAt : Z) (payload : EventPayload) : prog (result OutboxEvent) :=
  actor <-! ctx_principal ctx else err => Ret (Err err);;
  id <- newUUID;;
  Ret (outboxEventWith actor id subject eventType aggregateID tenantID occurredAt payload).

(** The same call inside a transaction body. *)
Definition newOutboxEventTx (ctx : Context) (subject eventType aggregateID tenantID : string)
    (occurredAt : Z) (payload : EventPayload) : tx (result OutboxEvent) :=
  actor <-! ctx_principal ctx else err => TRet (Err err);;
  TUuid (λ id,
    TRet (outboxEventWith actor id subject eventType aggregateID tenantID occurredAt payload)).

(** The outbox record carries the event's identifier and time, the actor, and an
    envelope for exactly this payload. *)
Lemma outboxEventWith_spec actor id subject eventType aggregateID tenantID t payload ev :
  outboxEventWith actor id subject eventType aggregateID tenantID t payload = Ok ev →
  OutboxEvent_ID ev = id ∧ OutboxEvent_Subject ev = subject ∧
  OutboxEvent_CreatedAt ev = t ∧ OutboxEvent_CreatedBy ev = Principal_ID actor ∧
  ∃ md, Metadata_EventID md = id ∧ Metadata_TenantID md = tenantID ∧
        Metadata_ActorID md = Principal_ID actor ∧
        marshal_envelope md payload = Ok (OutboxEvent_Envelope ev).
Proof.
  unfold outboxEventWith. intros He. destruct (marshal_envelope _ _) as [enc|e] eqn:Hm; [|done].
  simplify_eq/=. repeat split. eexists. by split_and!; [..|done].
Qed.

End Events.
