(* ===== verification/Repository.v ===== *)
(** * The SQL repository

    [internal/tenant/repository.go], method by method. A read is one [Query] on
    the shared database; a write is a statement of a transaction body. The text
    of each query is in the source; its meaning is given here with the operators
    of [Store]. *)

From stdpp Require Import base gmap list strings sorting.
From S2P Require Import Prelude GoErrors Model Store Effects Platform.

Section Repository.
Context `{Platform}.

(** ** Helpers *)

Definition mapNotFound (err : goerr) (operation : string) : goerr :=
  if Is err ErrNoRows then Sentinel ErrNotFound else Wrapped operation err.

(** [affected(result, err, operation)]; the inner result is [RowsAffected]. *)
Definition affected (r : result (result Z)) (operation : string) : option goerr :=
  match r with
  | Err err => Some (Wrapped operation err)
  | Ok (Err err) => Some (Wrapped (operation +:+ " affected rows") err)
  | Ok (Ok count) => if (count =? 0)%Z then Some (Sentinel ErrStaleVersion) else None
  end.

Definition nullableID (value : string) : option string :=
  if value =?s "" then None else Some value.

(** [COALESCE(column, '')]. *)
Definition coalesce (value : option string) : string := default "" value.

Lemma coalesce_nullableID v : coalesce (nullableID v) = v.
Proof. unfold nullableID. destruct (String.eqb_spec v ""); by subst. Qed.

(** [fmt.Errorf("operation: %w", err)] around a failed [Exec]. *)
Definition wrap_exec {X} (r : result X) (operation : string) : option goerr :=
  match r with Ok _ => None | Err e => Some (Wrapped operation e) end.

Definition wrap_query {X} (r : result X) (operation : string) : result X :=
  match r with Ok x => Ok x | Err e => Err (Wrapped operation e) end.

Definition get_result {X} (r : result X) (operation : string) : result X :=
  match r with Ok x => Ok x | Err e => Err (mapNotFound e operation) end.

(** [GetContext] into one row. *)
Definition one_row {X} (o : option X) : result X :=
  match o with Some x => Ok x | None => Err (Sentinel ErrNoRows) end.

Lemma get_result_Ok {X} (o : option X) operation x :
  get_result (one_row o) operation = Ok x → o = Some x.
Proof. destruct o; simpl; congruence. Qed.

(** An [UPDATE] lifted to the database. *)
Definition lift_update {T} (get : DB → T) (set : T → DB → DB) (u : T → result (Z * T))
  : stmt (result Z) := λ d,
  match u (get d) with
  | Ok (n, t) => Ok (Ok n, set t d)
  | Err e => Err e
  end.

(** ** Tenants *)

Definition CreateTenant (value : Tenant) : tx (option goerr) :=
  tbind (exec (insert_tenants value)) (λ r, TRet (wrap_exec r "insert tenant")).

Definition GetTenant (id : string) : prog (result Tenant) :=
  r <- query (λ d, one_row (tenants d !! id));;
  Ret (get_result r "select tenant").

Definition update_tenants (value : Tenant) : stmt (result Z) :=
  lift_update tenants set_tenants
    (update_row (Tenant_ID value) (λ r, Tenant_Version r =? Tenant_Version value)%Z Tenant_Version
       (λ r, Build_Tenant (Tenant_ID r) (Tenant_Code r) (Tenant_Name value) (Tenant_Status value)
               (Tenant_Version r + 1) (Tenant_CreatedAt r) (Tenant_UpdatedAt value)
               (Tenant_CreatedBy r) (Tenant_UpdatedBy value))).

Definition UpdateTenant (value : Tenant) : tx (option goerr) :=
  tbind (exec (update_tenants value)) (λ r, TRet (affected r "update tenant")).

(** [created_at DESC, id DESC] *)
Definition tenant_order (a b : Tenant) : bool :=
  order_time (Tenant_CreatedAt b) (Tenant_ID b) (Tenant_CreatedAt a) (Tenant_ID a).

(** [memberships m JOIN tenants t ON t.id = m.tenant_id WHERE m.user_id = ? AND
    m.status = 'active' AND t.status = 'active'] *)
Definition user_tenants (userID : string) (d : DB) : list Tenant :=
  omap (λ m,
    if (Membership_UserID m =?s userID) && (Membership_Status m =?s "active") then
      match tenants d !! Membership_TenantID m with
      | Some t => if Tenant_Status t =?s "active" then Some t else None
      | None => None
      end
    else None) (rows (memberships d)).

Definition ListUserTenants (userID : string) (limit offset : Z) : prog (result (list Tenant * Z)) :=
  total <-? query (λ d, Ok (Z.of_nat (length (user_tenants userID d)))) else err =>
    Ret (Err (Wrapped "count user tenants" err));;
  items <-? query (λ d, limit_offset limit offset (sort_by tenant_order (user_tenants userID d)))
    else err => Ret (Err (Wrapped "list user tenants" err));;
  Ret (Ok (items, total)).

(** [LOWER(a) LIKE LOWER('%keyword%') OR LOWER(b) LIKE LOWER('%keyword%')] *)
Definition keyword_filter (keyword a b : string) : bool :=
  (keyword =?s "")
  || sql_like (sql_lower a) (sql_lower ("%" +:+ keyword +:+ "%"))
  || sql_like (sql_lower b) (sql_lower ("%" +:+ keyword +:+ "%")).

(** An optional equality filter. *)
Definition optional_filter (wanted actual : string) : bool := (wanted =?s "") || (actual =?s wanted).

Definition ListTenants (keyword status : string) (limit offset : Z)
  : prog (result (list Tenant * Z)) :=
  let p t := optional_filter status (Tenant_Status t)
             && keyword_filter keyword (Tenant_Code t) (Tenant_Name t) in
  total <-? query (λ d, Ok (Z.of_nat (length (select p tenant_order (tenants d))))) else err =>
    Ret (Err (Wrapped "count tenants" err));;
  items <-? query (λ d, limit_offset limit offset (select p tenant_order (tenants d)))
    else err => Ret (Err (Wrapped "list tenants" err));;
  Ret (Ok (items, total)).

(** ** Memberships *)

Definition CreateMembership (value : Membership) : tx (option goerr) :=
  tbind (exec (insert_memberships value)) (λ r, TRet (wrap_exec r "insert membership")).

Definition GetMembership (id : string) : prog (result Membership) :=
  r <- query (λ d, one_row (memberships d !! id));;
  Ret (get_result r "select membership").

(** The active membership of a user in a tenant. *)
Definition active_membership (userID tenantID : string) (d : DB) : option Membership :=
  head (List.filter (λ m, (Membership_UserID m =?s userID) && (Membership_TenantID m =?s tenantID)
                          && (Membership_Status m =?s "active")) (rows (memberships d))).

Definition ValidateMembership (userID tenantID : string)
  : prog (Tenant * Membership * option goerr) :=
  membership <-? query (λ d, one_row (active_membership userID tenantID d)) else err =>
    Ret (Tenant0, Membership0, Some (mapNotFound err "validate membership"));;
  r <- GetTenant tenantID;;
  Ret (match r with
       | Ok t => (t, membership, None)
       | Err e => (Tenant0, membership, Some e)
       end).

(** [joined_at DESC, id DESC] *)
Definition membership_order (a b : Membership) : bool :=
  order_time (Membership_JoinedAt b) (Membership_ID b) (Membership_JoinedAt a) (Membership_ID a).

Definition ListMemberships (tenantID userID status : string) (limit offset : Z)
  : prog (result (list Membership * Z)) :=
  let p m := (Membership_TenantID m =?s tenantID)
             && optional_filter userID (Membership_UserID m)
             && optional_filter status (Membership_Status m) in
  total <-? query (λ d, Ok (Z.of_nat (length (select p membership_order (memberships d)))))
    else err => Ret (Err (Wrapped "count memberships" err));;
  items <-? query (λ d, limit_offset limit offset (select p membership_order (memberships d)))
    else err => Ret (Err (Wrapped "list memberships" err));;
  Ret (Ok (items, total)).

Definition mem (x : string) (l : list string) : bool := bool_decide (x ∈ l).

(** [sqlx.In] refuses an empty slice. *)
Definition empty_in : goerr := TextError "empty slice passed to 'in' query".

Definition BatchGetMemberships (tenantID : string) (ids : list string)
  : prog (result (list Membership)) :=
  stop_if bool_decide (ids = []) => Ret (Err (Wrapped "build batch membership query" empty_in));;
  r <- query (λ d, Ok (select
         (λ m, (Membership_TenantID m =?s tenantID) && mem (Membership_ID m) ids)
         (λ a b, collate_le (Membership_ID a) (Membership_ID b)) (memberships d)));;
  Ret (wrap_query r "batch get memberships").

Definition FindMembershipsByUserIDs (tenantID : string) (userIDs : list string) (status : string)
  : prog (result (list Membership)) :=
  stop_if bool_decide (userIDs = []) =>
    Ret (Err (Wrapped "build membership directory query" empty_in));;
  r <- query (λ d, Ok (select
         (λ m, (Membership_TenantID m =?s tenantID) && mem (Membership_UserID m) userIDs
               && optional_filter status (Membership_Status m))
         (λ a b, collate_le (Membership_ID a) (Membership_ID b)) (memberships d)));;
  Ret (wrap_query r "find memberships by users").

Definition update_memberships (value : Membership) : stmt (result Z) :=
  λ d,
    check (negb (any_row (λ r, (Membership_ID r =?s Membership_ID value)
                               && (Membership_Version r =? Membership_Version value)%Z) (memberships d))
           || null_or_has (organization_units d) (Membership_PrimaryOrganizationUnitID value))
      foreign_key_violation
    (lift_update memberships set_memberships
      (update_row (Membership_ID value) (λ r, Membership_Version r =? Membership_Version value)%Z
         Membership_Version
         (λ r, Build_Membership (Membership_ID r) (Membership_TenantID r) (Membership_UserID r)
                 (Membership_Status value)
                 (coalesce (nullableID (Membership_PrimaryOrganizationUnitID value)))
                 (Membership_JoinedAt r) (Membership_Version r + 1) (Membership_CreatedAt r)
                 (Membership_UpdatedAt value) (Membership_CreatedBy r)
                 (Membership_UpdatedBy value))) d).

Definition UpdateMembership (value : Membership) : tx (option goerr) :=
  tbind (exec (update_memberships value)) (λ r, TRet (affected r "update membership")).

(** ** The outbox *)

Definition AddOutbox (event : OutboxEvent) : tx (option goerr) :=
  tbind (exec (insert_tenant_outbox_events
    (Build_OutboxRow event 0 None "")))
    (λ r, TRet (wrap_exec r "insert tenant outbox event")).

(** ** Organization units *)

Definition CreateOrganizationUnit (value : OrganizationUnit) : tx (option goerr) :=
  tbind (exec (insert_organization_units value))
    (λ r, TRet (wrap_exec r "insert organization unit")).

Definition GetOrganizationUnit (id : string) : prog (result OrganizationUnit) :=
  r <- query (λ d, one_row (organization_units d !! id));;
  Ret (get_result r "select organization unit").

Definition BatchGetOrganizationUnits (tenantID : string) (ids : list string)
  : prog (result (list OrganizationUnit)) :=
  stop_if bool_decide (ids = []) =>
    Ret (Err (Wrapped "build batch organization unit query" empty_in));;
  r <- query (λ d, Ok (select
         (λ u, (OrganizationUnit_TenantID u =?s tenantID) && mem (OrganizationUnit_ID u) ids)
         (λ a b, collate_le (OrganizationUnit_ID a) (OrganizationUnit_ID b))
         (organization_units d)));;
  Ret (wrap_query r "batch get organization units").

(** [ORDER BY path, id] *)
Definition path_order (a b : OrganizationUnit) : bool :=
  order_text2 (OrganizationUnit_Path a) (OrganizationUnit_ID a)
              (OrganizationUnit_Path b) (OrganizationUnit_ID b).

Definition ListOrganizationUnits (tenantID : string) : prog (result (list OrganizationUnit)) :=
  r <- query (λ d, Ok (select (λ u, OrganizationUnit_TenantID u =?s tenantID) path_order
                         (organization_units d)));;
  Ret (wrap_query r "list organization units").

(** [EXISTS (SELECT 1 FROM organization_units child WHERE child.tenant_id =
    unit.tenant_id AND child.parent_id = unit.id [AND child.status = ?])]; a [NULL]
    parent equals nothing. *)
Definition has_child (status : string) (d : DB) (unit : OrganizationUnit) : bool :=
  any_row (λ child,
    (OrganizationUnit_TenantID child =?s OrganizationUnit_TenantID unit)
    && (OrganizationUnit_ParentID child <>?s "")
    && (OrganizationUnit_ParentID child =?s OrganizationUnit_ID unit)
    && optional_filter status (OrganizationUnit_Status child)) (organization_units d).

Definition ListOrganizationChildren (tenantID parentID status : string) (limit : Z)
  : prog (result (list OrganizationTreeNode * bool)) :=
  rows <-? query (λ d,
      result_map (map (λ u, (u, has_child status d u)))
        (limit_offset (wrap64 (limit + 1)) 0 (select
           (λ u, (OrganizationUnit_TenantID u =?s tenantID)
                 && (OrganizationUnit_ParentID u =?s parentID)
                 && optional_filter status (OrganizationUnit_Status u))
           path_order (organization_units d))))
    else err => Ret (Err (Wrapped "list organization children" err));;
  let truncated := (limit <? Z.of_nat (length rows))%Z in
  let rows := if truncated then take (Z.to_nat limit) rows else rows in
  Ret (Ok (map (λ '(u, hasChildren), Build_OrganizationTreeNode u [] hasChildren) rows, truncated)).

(** [sortOrganizationUnits] of [dictionary_provider.go]: a stable sort by path,
    code or name in Go's byte order, ties broken by identifier. *)
Definition organization_sort_key (field : string) (u : OrganizationUnit) : string :=
  if field =?s "code" then OrganizationUnit_Code u
  else if field =?s "name" then OrganizationUnit_Name u
  else OrganizationUnit_Path u.

Definition organization_less (field : string) (descending : bool) (a b : OrganizationUnit) : bool :=
  let x := organization_sort_key field a in
  let y := organization_sort_key field b in
  let '(x, y) := if x =?s y then (OrganizationUnit_ID a, OrganizationUnit_ID b) else (x, y) in
  if descending then String.ltb y x else String.ltb x y.

Definition sortOrganizationUnits (items : list OrganizationUnit) (field : string)
    (descending : bool) : list OrganizationUnit :=
  sort_by (λ a b, negb (organization_less field descending b a)) items.

(** The identifiers on a path that [byID] does not know yet, each added to it
    with an empty unit. *)
Definition note_ancestor (acc : gmap string OrganizationUnit * list string) (id : string)
  : gmap string OrganizationUnit * list string :=
  let '(byID, ancestorIDs) := acc in
  if (id =?s "") || has byID id then acc
  else (<[id := Build_OrganizationUnit id "" "" "" "" "" "" 0 zero_time zero_time "" ""]> byID,
        ancestorIDs ++ [id]).

Definition note_ancestors (acc : gmap string OrganizationUnit * list string)
    (item : OrganizationUnit) : gmap string OrganizationUnit * list string :=
  foldl note_ancestor acc (split_slash (trim_slashes (OrganizationUnit_Path item))).

(** The slices [ancestorIDs[start:end]] of at most 500 identifiers; [fuel] is the
    number of identifiers. *)
Fixpoint chunks500 (fuel : nat) (ids : list string) : list (list string) :=
  match fuel, ids with
  | S fuel', _ :: _ => take 500 ids :: chunks500 fuel' (drop 500 ids)
  | _, _ => []
  end.

Fixpoint fetch_ancestors (tenantID status : string) (slices : list (list string))
    (byID : gmap string OrganizationUnit) : prog (result (gmap string OrganizationUnit)) :=
  match slices with
  | [] => Ret (Ok byID)
  | slice :: slices' =>
      ancestors <-? BatchGetOrganizationUnits tenantID slice else err => Ret (Err err);;
      fetch_ancestors tenantID status slices'
        (foldl (λ m item,
           if (status =?s "") || (OrganizationUnit_Status item =?s status)
           then <[OrganizationUnit_ID item := item]> m else m) byID ancestors)
  end.

Definition SearchOrganizationUnitsWithAncestors (tenantID keyword status : string) (limit : Z)
  : prog (result (list OrganizationUnit * bool)) :=
  let keyword := ToLower (TrimSpace keyword) in
  let like := "%" +:+ keyword +:+ "%" in
  matches <-? query (λ d, limit_offset (wrap64 (limit + 1)) 0 (select
      (λ u, (OrganizationUnit_TenantID u =?s tenantID)
            && optional_filter status (OrganizationUnit_Status u)
            && ((keyword =?s "")
                || sql_like (sql_lower (OrganizationUnit_Code u)) like
                || sql_like (sql_lower (OrganizationUnit_Name u)) like))
      path_order (organization_units d)))
    else err => Ret (Err (Wrapped "search organization units" err));;
  let truncated := (limit <? Z.of_nat (length matches))%Z in
  let matches := if truncated then take (Z.to_nat limit) matches else matches in
  let byID := foldl (λ m item, <[OrganizationUnit_ID item := item]> m) ∅ matches in
  let '(byID, ancestorIDs) := foldl note_ancestors (byID, []) matches in
  byID <-? fetch_ancestors tenantID status (chunks500 (length ancestorIDs) ancestorIDs) byID
    else err => Ret (Err err);;
  let items := List.filter (λ item, OrganizationUnit_TenantID item <>?s "") (rows byID) in
  Ret (Ok (sortOrganizationUnits items "path" false, truncated)).

(** The first statement of [UpdateOrganizationUnit]: the unit itself. *)
Definition update_unit (value : OrganizationUnit) : stmt (result Z) := λ d,
  let hit r := (OrganizationUnit_ID r =?s OrganizationUnit_ID value)
               && (OrganizationUnit_Version r =? OrganizationUnit_Version value)%Z in
  check (negb (any_row hit (organization_units d))
         || null_or_has (organization_units d) (OrganizationUnit_ParentID value))
    foreign_key_violation
  (check (negb (any_row (λ r, hit r && any_row (λ u,
              (OrganizationUnit_ID u <>?s OrganizationUnit_ID r)
              && (OrganizationUnit_TenantID u =?s OrganizationUnit_TenantID r)
              && (OrganizationUnit_Path u =?s OrganizationUnit_Path value)) (organization_units d))
            (organization_units d)))
     unique_violation
  (lift_update organization_units set_organization_units
    (update_row (OrganizationUnit_ID value)
       (λ r, OrganizationUnit_Version r =? OrganizationUnit_Version value)%Z OrganizationUnit_Version
       (λ r, Build_OrganizationUnit (OrganizationUnit_ID r) (OrganizationUnit_TenantID r)
               (coalesce (nullableID (OrganizationUnit_ParentID value))) (OrganizationUnit_Code r)
               (OrganizationUnit_Name value) (OrganizationUnit_Path value)
               (OrganizationUnit_Status value) (OrganizationUnit_Version r + 1)
               (OrganizationUnit_CreatedAt r) (OrganizationUnit_UpdatedAt value)
               (OrganizationUnit_CreatedBy r) (OrganizationUnit_UpdatedBy value))) d)).

(** [WHERE tenant_id = ? AND path LIKE ? AND id <> ?] of [descendantMoveSQL]. *)
Definition descendant (value : OrganizationUnit) (oldPath : string) (u : OrganizationUnit) : bool :=
  (OrganizationUnit_TenantID u =?s OrganizationUnit_TenantID value)
  && sql_like (OrganizationUnit_Path u) (oldPath +:+ "%")
  && (OrganizationUnit_ID u <>?s OrganizationUnit_ID value).

(** [SET path = ? || SUBSTRING(path FROM start), version = version + 1, ...] *)
Definition moved (value : OrganizationUnit) (oldPath : string) (u : OrganizationUnit)
  : OrganizationUnit :=
  Build_OrganizationUnit (OrganizationUnit_ID u) (OrganizationUnit_TenantID u)
    (OrganizationUnit_ParentID u) (OrganizationUnit_Code u) (OrganizationUnit_Name u)
    (OrganizationUnit_Path value
       +:+ sql_substring (OrganizationUnit_Path u) (Z.of_nat (String.length oldPath) + 1))
    (OrganizationUnit_Status u) (OrganizationUnit_Version u + 1) (OrganizationUnit_CreatedAt u)
    (OrganizationUnit_UpdatedAt value) (OrganizationUnit_CreatedBy u)
    (OrganizationUnit_UpdatedBy value).

Definition move_unit (value : OrganizationUnit) (oldPath : string) (u : OrganizationUnit)
  : OrganizationUnit :=
  if descendant value oldPath u then moved value oldPath u else u.

(** Two different rows of one tenant with one path. *)
Definition duplicate_path (t : gmap string OrganizationUnit) : bool :=
  any_row (λ u, any_row (λ v,
    (OrganizationUnit_ID u <>?s OrganizationUnit_ID v)
    && (OrganizationUnit_TenantID u =?s OrganizationUnit_TenantID v)
    && (OrganizationUnit_Path u =?s OrganizationUnit_Path v)) t) t.

(** The second statement: every descendant, at once. The unique constraint is
    checked on the table the statement leaves. *)
Definition move_descendants (value : OrganizationUnit) (oldPath : string) : stmt unit := λ d,
  check (negb (any_row (λ u, descendant value oldPath u
                             && (max_int64 <? OrganizationUnit_Version u + 1)%Z)
                 (organization_units d)))
    (PgError "22003")
  (check (negb (duplicate_path (move_unit value oldPath <$> organization_units d)))
     unique_violation
  (Ok (tt, set_organization_units (move_unit value oldPath <$> organization_units d) d))).

Definition UpdateOrganizationUnit (value : OrganizationUnit) (oldPath : string)
  : tx (option goerr) :=
  tbind (exec (update_unit value)) (λ r,
    guard affected r "update organization unit" else err => TRet (Some err);;
    stop_if oldPath =?s OrganizationUnit_Path value => TRet None;;
    tbind (exec (move_descendants value oldPath)) (λ r,
      TRet (wrap_exec r "move organization descendants"))).

Definition ResolveOrganizationScope (tenantID rootPath : string) : prog (result (list string)) :=
  r <- query (λ d, Ok (map OrganizationUnit_ID (select
         (λ u, (OrganizationUnit_TenantID u =?s tenantID)
               && sql_like (OrganizationUnit_Path u) (rootPath +:+ "%")
               && (OrganizationUnit_Status u =?s "active")) path_order (organization_units d))));;
  Ret (wrap_query r "resolve organization scope").

(** ** Invitations *)

Definition CreateInvitation (value : Invitation) : tx (option goerr) :=
  tbind (exec (insert_invitations value)) (λ r, TRet (wrap_exec r "insert invitation")).

Definition GetInvitation (id : string) : prog (result Invitation) :=
  r <- query (λ d, one_row (invitations d !! id));;
  Ret (get_result r "select invitation").

Definition invitation_by_hash (hash : string) (d : DB) : option Invitation :=
  head (List.filter (λ i, Invitation_TokenHash i =?s hash) (rows (invitations d))).

Definition GetInvitationByTokenHash (hash : string) : prog (result Invitation) :=
  r <- query (λ d, one_row (invitation_by_hash hash d));;
  Ret (get_result r "select invitation by token").

Definition update_invitations (value : Invitation) : stmt (result Z) :=
  lift_update invitations set_invitations
    (update_row (Invitation_ID value) (λ r, Invitation_Version r =? Invitation_Version value)%Z
       Invitation_Version
       (λ r, Build_Invitation (Invitation_ID r) (Invitation_TenantID r) (Invitation_Email r)
               (Invitation_TokenHash r) (Invitation_Status value) (Invitation_ExpiresAt r)
               (coalesce (nullableID (Invitation_AcceptedByUserID value)))
               (Invitation_Version r + 1) (Invitation_CreatedAt r) (Invitation_UpdatedAt value)
               (Invitation_CreatedBy r) (Invitation_UpdatedBy value))).

Definition UpdateInvitation (value : Invitation) : tx (option goerr) :=
  tbind (exec (update_invitations value)) (λ r, TRet (affected r "update invitation")).

(** [created_at DESC, id DESC] *)
Definition invitation_order (a b : Invitation) : bool :=
  order_time (Invitation_CreatedAt b) (Invitation_ID b) (Invitation_CreatedAt a) (Invitation_ID a).

Definition ListInvitations (tenantID : string) (limit offset : Z)
  : prog (result (list Invitation * Z)) :=
  let found d := select (λ i, Invitation_TenantID i =?s tenantID) invitation_order (invitations d) in
  total <-? query (λ d, Ok (Z.of_nat (length (found d)))) else err =>
    Ret (Err (Wrapped "count invitations" err));;
  items <-? query (λ d, limit_offset limit offset (found d)) else err =>
    Ret (Err (Wrapped "list invitations" err));;
  Ret (Ok (items, total)).

(** ** Groups *)

Definition CreateGroup (value : Group) : tx (option goerr) :=
  tbind (exec (insert_member_groups value)) (λ r, TRet (wrap_exec r "insert member group")).

Definition GetGroup (id : string) : prog (result Group) :=
  r <- query (λ d, one_row (member_groups d !! id));;
  Ret (get_result r "select member group").

Definition update_member_groups (value : Group) : stmt (result Z) :=
  lift_update member_groups set_member_groups
    (update_row (Group_ID value) (λ r, Group_Version r =? Group_Version value)%Z Group_Version
       (λ r, Build_Group (Group_ID r) (Group_TenantID r) (Group_Code r) (Group_Name value)
               (Group_Status value) (Group_Version r + 1) (Group_CreatedAt r)
               (Group_UpdatedAt value) (Group_CreatedBy r) (Group_UpdatedBy value))).

Definition UpdateGroup (value : Group) : tx (option goerr) :=
  tbind (exec (update_member_groups value)) (λ r, TRet (affected r "update member group")).

(** [created_at, id] *)
Definition group_order (a b : Group) : bool :=
  order_time (Group_CreatedAt a) (Group_ID a) (Group_CreatedAt b) (Group_ID b).

Definition ListGroups (tenantID : string) : prog (result (list Group)) :=
  r <- query (λ d, Ok (select (λ g, Group_TenantID g =?s tenantID) group_order (member_groups d)));;
  Ret (wrap_query r "list member groups").

Definition SearchGroups (tenantID keyword status : string) (limit offset : Z)
  : prog (result (list Group * Z)) :=
  let found d := select
    (λ g, (Group_TenantID g =?s tenantID) && optional_filter status (Group_Status g)
          && keyword_filter keyword (Group_Code g) (Group_Name g))
    (λ a b, group_order b a) (member_groups d) in
  total <-? query (λ d, Ok (Z.of_nat (length (found d)))) else err =>
    Ret (Err (Wrapped "count member groups" err));;
  items <-? query (λ d, limit_offset limit offset (found d)) else err =>
    Ret (Err (Wrapped "search member groups" err));;
  Ret (Ok (items, total)).

Definition CreateGroupMember (value : GroupMember) : tx (option goerr) :=
  tbind (exec (insert_group_members value)) (λ r, TRet (wrap_exec r "insert group member")).

Definition group_member (groupID membershipID : string) (d : DB) : option GroupMember :=
  head (List.filter (λ m, (GroupMember_GroupID m =?s groupID)
                          && (GroupMember_MembershipID m =?s membershipID))
          (rows (group_members d))).

Definition GetGroupMember (groupID membershipID : string) : prog (result GroupMember) :=
  r <- query (λ d, one_row (group_member groupID membershipID d));;
  Ret (get_result r "select group member").

Definition update_group_members (value : GroupMember) : stmt (result Z) :=
  lift_update group_members set_group_members
    (update_row (GroupMember_ID value)
       (λ r, GroupMember_Version r =? GroupMember_Version value)%Z GroupMember_Version
       (λ r, Build_GroupMember (GroupMember_ID r) (GroupMember_TenantID r) (GroupMember_GroupID r)
               (GroupMember_MembershipID r) (GroupMember_Status value) (GroupMember_Version r + 1)
               (GroupMember_CreatedAt r) (GroupMember_UpdatedAt value) (GroupMember_CreatedBy r)
               (GroupMember_UpdatedBy value))).

Definition UpdateGroupMember (value : GroupMember) : tx (option goerr) :=
  tbind (exec (update_group_members value)) (λ r, TRet (affected r "update group member")).

Definition ListGroupMembers (groupID : string) : prog (result (list GroupMember)) :=
  r <- query (λ d, Ok (select (λ m, GroupMember_GroupID m =?s groupID)
         (λ a b, order_time (GroupMember_CreatedAt a) (GroupMember_ID a)
                   (GroupMember_CreatedAt b) (GroupMember_ID b)) (group_members d)));;
  Ret (wrap_query r "list group members").

Definition BatchGetGroupMembers (groupID : string) (membershipIDs : list string)
  : prog (result (list GroupMember)) :=
  stop_if bool_decide (membershipIDs = []) =>
    Ret (Err (Wrapped "build batch group member query" empty_in));;
  r <- query (λ d, Ok (select
         (λ m, (GroupMember_GroupID m =?s groupID) && mem (GroupMember_MembershipID m) membershipIDs)
         (λ a b, collate_le (GroupMember_ID a) (GroupMember_ID b)) (group_members d)));;
  Ret (wrap_query r "batch get group members").

(** ** Quotas *)

Definition GetQuota (tenantID key : string) : prog (result Quota) :=
  r <- query (λ d, one_row (tenant_quotas d !! (tenantID, key)));;
  Ret (get_result r "select tenant quota").

Definition ListQuotas (tenantID keyword : string) (limit offset : Z)
  : prog (result (list Quota * Z)) :=
  let found d := select
    (λ q, (Quota_TenantID q =?s tenantID)
          && ((keyword =?s "")
              || sql_like (sql_lower (Quota_Key q)) (sql_lower ("%" +:+ keyword +:+ "%"))))
    (λ a b, order_text2 (Quota_Key a) (Quota_TenantID a) (Quota_Key b) (Quota_TenantID b))
    (tenant_quotas d) in
  total <-? query (λ d, Ok (Z.of_nat (length (found d)))) else err =>
    Ret (Err (Wrapped "count tenant quotas" err));;
  items <-? query (λ d, limit_offset limit offset (found d)) else err =>
    Ret (Err (Wrapped "list tenant quotas" err));;
  Ret (Ok (items, total)).

Definition CreateQuota (value : Quota) : tx (option goerr) :=
  tbind (exec (insert_tenant_quotas value)) (λ r, TRet (wrap_exec r "insert tenant quota")).

(** The check [limit_value >= 0] applies to the row that is written. *)
Definition update_quota_limit (value : Quota) : stmt (result Z) := λ d,
  match tenant_quotas d !! (Quota_TenantID value, Quota_Key value) with
  | Some r =>
      if (Quota_Version r =? Quota_Version value)%Z then
        check (0 <=? Quota_Limit value)%Z check_violation
        (lift_update tenant_quotas set_tenant_quotas
          (update_row (Quota_TenantID value, Quota_Key value)
             (λ r, Quota_Version r =? Quota_Version value)%Z Quota_Version
             (λ r, Build_Quota (Quota_TenantID r) (Quota_Key r) (Quota_Limit value) (Quota_Used r)
                     (Quota_Version r + 1) (Quota_CreatedAt r) (Quota_UpdatedAt value)
                     (Quota_CreatedBy r) (Quota_UpdatedBy value))) d)
      else Ok (Ok 0%Z, d)
  | None => Ok (Ok 0%Z, d)
  end.

Definition UpdateQuota (value : Quota) : tx (option goerr) :=
  tbind (exec (update_quota_limit value)) (λ r, TRet (affected r "update tenant quota")).

(** [UPDATE ... SET used_value = used_value + ? ... WHERE ... AND used_value + ? <=
    limit_value]: the sum is a [bigint]. *)
Definition consume_quota (tenantID key : string) (amount now : Z) (actor : string)
  : stmt (result Z) := λ d,
  match tenant_quotas d !! (tenantID, key) with
  | Some r =>
      match bigint (Quota_Used r + amount) with
      | Err e => Err e
      | Ok used =>
          if (used <=? Quota_Limit r)%Z then
            check (0 <=? used)%Z check_violation
            (lift_update tenant_quotas set_tenant_quotas
              (update_row (tenantID, key) (λ _, true) Quota_Version
                 (λ r, Build_Quota (Quota_TenantID r) (Quota_Key r) (Quota_Limit r) used
                         (Quota_Version r + 1) (Quota_CreatedAt r) now (Quota_CreatedBy r)
                         actor)) d)
          else Ok (Ok 0%Z, d)
      end
  | None => Ok (Ok 0%Z, d)
  end.

Definition select_quota (tenantID key : string) : stmt Quota := λ d,
  match tenant_quotas d !! (tenantID, key) with
  | Some q => Ok (q, d)
  | None => Err (Sentinel ErrNoRows)
  end.

Definition ConsumeQuota (tenantID key : string) (amount now : Z) (actor : string)
  : tx (Quota * bool * option goerr) :=
  tbind (exec (consume_quota tenantID key amount now actor)) (λ r,
    result <-! r else err => TRet (Quota0, false, Some (Wrapped "consume tenant quota" err));;
    count <-! result else err =>
      TRet (Quota0, false, Some (Wrapped "consume tenant quota affected rows" err));;
    stop_if (count =? 0)%Z => TRet (Quota0, false, None);;
    tbind (exec (select_quota tenantID key)) (λ r,
      value <-! r else err =>
        TRet (Quota0, false, Some (Wrapped "select consumed tenant quota" err));;
      TRet (value, true, None))).

End Repository.
