(* ===== verification/Tables.v ===== *)
(** * Tables and how they change

    The interface [Row] of a versioned row (key, tenant, version, immutable
    columns), with an instance per table, and the relations every statement of
    the repository respects: rows are never deleted, immutable columns never
    change, and a row that changes gets a greater version ([row_le]); the rows of
    other tenants stay as they are ([only_tenant]). *)

From stdpp Require Import base gmap list strings.
From S2P Require Import Prelude GoErrors Model Store.

(** ** Rows *)

Class Row (K R : Type) := {
  row_key : R → K;
  row_tenant : R → string;
  row_version : R → Z;
  row_frame_type : Type;
  row_frame : R → row_frame_type;
  row_typed : R → Prop;
}.

(** *** The types of columns the schema declares as text

    The values each table's status takes, and what else holds of a row by itself: the columns
    that are required are not empty; an invitation names who accepted it exactly when it is
    accepted, and expires within thirty days of its creation. *)

Definition tenant_statuses : list string := ["pending"; "active"; "suspended"; "closing"; "closed"].
Definition membership_statuses : list string := ["invited"; "active"; "disabled"; "removed"].
Definition unit_statuses : list string := ["active"; "disabled"].
Definition invitation_statuses : list string := ["pending"; "accepted"; "revoked"].
Definition group_member_statuses : list string := ["active"; "removed"].

Definition Tenant_typed (r : Tenant) : Prop :=
  Tenant_Status r ∈ tenant_statuses ∧ Tenant_Code r ≠ "" ∧ Tenant_Name r ≠ "".
Definition Membership_typed (r : Membership) : Prop :=
  Membership_Status r ∈ membership_statuses ∧ Membership_UserID r ≠ "".
Definition OrganizationUnit_typed (r : OrganizationUnit) : Prop :=
  OrganizationUnit_Status r ∈ unit_statuses ∧ OrganizationUnit_Code r ≠ "" ∧
  OrganizationUnit_Name r ≠ "".
Definition Invitation_typed (r : Invitation) : Prop :=
  Invitation_Status r ∈ invitation_statuses ∧
  (Invitation_Status r = "accepted" ↔ Invitation_AcceptedByUserID r ≠ "") ∧
  (Invitation_CreatedAt r < Invitation_ExpiresAt r ≤ Invitation_CreatedAt r + 30 * 24 * hour)%Z.
Definition Group_typed (r : Group) : Prop :=
  Group_Status r ∈ unit_statuses ∧ Group_Code r ≠ "" ∧ Group_Name r ≠ "".
Definition GroupMember_typed (r : GroupMember) : Prop :=
  GroupMember_Status r ∈ group_member_statuses.
Definition Quota_typed (r : Quota) : Prop := Quota_Key r ≠ "".

(** The key and the tenant are among the immutable columns. *)
Class RowLaws (K R : Type) `{!Row K R} := {
  frame_key (r r' : R) : row_frame r = row_frame r' → row_key r = row_key r';
  frame_tenant (r r' : R) : row_frame r = row_frame r' → row_tenant r = row_tenant r';
}.

#[export] Instance Tenant_row : Row string Tenant := {|
  row_key := Tenant_ID; row_tenant := Tenant_ID; row_version := Tenant_Version;
  row_frame r := (Tenant_ID r, Tenant_Code r, Tenant_CreatedAt r, Tenant_CreatedBy r);
  row_typed := Tenant_typed |}.
#[export] Instance Membership_row : Row string Membership := {|
  row_key := Membership_ID; row_tenant := Membership_TenantID; row_version := Membership_Version;
  row_frame r := (Membership_ID r, Membership_TenantID r, Membership_UserID r,
                  Membership_JoinedAt r, Membership_CreatedAt r, Membership_CreatedBy r);
  row_typed := Membership_typed |}.
#[export] Instance OrganizationUnit_row : Row string OrganizationUnit := {|
  row_key := OrganizationUnit_ID; row_tenant := OrganizationUnit_TenantID;
  row_version := OrganizationUnit_Version;
  row_frame r := (OrganizationUnit_ID r, OrganizationUnit_TenantID r, OrganizationUnit_Code r,
                  OrganizationUnit_CreatedAt r, OrganizationUnit_CreatedBy r);
  row_typed := OrganizationUnit_typed |}.
#[export] Instance Invitation_row : Row string Invitation := {|
  row_key := Invitation_ID; row_tenant := Invitation_TenantID; row_version := Invitation_Version;
  row_frame r := (Invitation_ID r, Invitation_TenantID r, Invitation_Email r,
                  Invitation_TokenHash r, Invitation_ExpiresAt r, Invitation_CreatedAt r,
                  Invitation_CreatedBy r);
  row_typed := Invitation_typed |}.
#[export] Instance Group_row : Row string Group := {|
  row_key := Group_ID; row_tenant := Group_TenantID; row_version := Group_Version;
  row_frame r := (Group_ID r, Group_TenantID r, Group_Code r, Group_CreatedAt r,
                  Group_CreatedBy r);
  row_typed := Group_typed |}.
#[export] Instance GroupMember_row : Row string GroupMember := {|
  row_key := GroupMember_ID; row_tenant := GroupMember_TenantID;
  row_version := GroupMember_Version;
  row_frame r := (GroupMember_ID r, GroupMember_TenantID r, GroupMember_GroupID r,
                  GroupMember_MembershipID r, GroupMember_CreatedAt r, GroupMember_CreatedBy r);
  row_typed := GroupMember_typed |}.
#[export] Instance Quota_row : Row (string * string) Quota := {|
  row_key r := (Quota_TenantID r, Quota_Key r); row_tenant := Quota_TenantID;
  row_version := Quota_Version;
  row_frame r := (Quota_TenantID r, Quota_Key r, Quota_CreatedAt r, Quota_CreatedBy r);
  row_typed := Quota_typed |}.

Ltac solve_row_laws := split; simpl; intros; simplify_eq; congruence.

#[export] Instance Tenant_row_laws : RowLaws string Tenant.
Proof. solve_row_laws. Qed.
#[export] Instance Membership_row_laws : RowLaws string Membership.
Proof. solve_row_laws. Qed.
#[export] Instance OrganizationUnit_row_laws : RowLaws string OrganizationUnit.
Proof. solve_row_laws. Qed.
#[export] Instance Invitation_row_laws : RowLaws string Invitation.
Proof. solve_row_laws. Qed.
#[export] Instance Group_row_laws : RowLaws string Group.
Proof. solve_row_laws. Qed.
#[export] Instance GroupMember_row_laws : RowLaws string GroupMember.
Proof. solve_row_laws. Qed.
#[export] Instance Quota_row_laws : RowLaws (string * string) Quota.
Proof. solve_row_laws. Qed.

(** ** Relations on tables *)

Section Tables.
Context `{Countable K} {R : Type} `{!Row K R} `{!RowLaws K R}.
Implicit Types (t u : gmap K R) (r v : R) (k : K).

(** A row now and later: the same, or the same immutable columns with a greater
    version. *)
Definition row_le r r' : Prop :=
  r = r' ∨ (row_frame r = row_frame r' ∧ (row_version r < row_version r')%Z).

#[export] Instance row_le_preorder : PreOrder row_le.
Proof.
  split; [by left|]. intros a b c [->|[Hf Hv]] [->|[Hf' Hv']]; [by left|by right..|].
  right. split; [congruence|lia].
Qed.

(** Two states of a row with one version are one state: what makes a version
    test enough for optimistic locking. *)
Lemma row_le_version r r' : row_le r r' → row_version r = row_version r' → r = r'.
Proof. intros [->|[_ Hv]] He; [done|lia]. Qed.

Lemma row_le_tenant r r' : row_le r r' → row_tenant r = row_tenant r'.
Proof using RowLaws0. intros [->|[Hf _]]; [done|by apply frame_tenant]. Qed.

Lemma row_le_key r r' : row_le r r' → row_key r = row_key r'.
Proof using RowLaws0. intros [->|[Hf _]]; [done|by apply frame_key]. Qed.

Definition table_le t u : Prop :=
  ∀ k r, t !! k = Some r → ∃ r', u !! k = Some r' ∧ row_le r r'.

#[export] Instance table_le_preorder : PreOrder table_le.
Proof.
  split; [by intros t k r ?; exists r|].
  intros t1 t2 t3 H12 H23 k r Hr. destruct (H12 _ _ Hr) as (r' & Hr' & Hle).
  destruct (H23 _ _ Hr') as (r'' & ? & ?). exists r''. split; [done|by etrans].
Qed.

(** A row found twice: the same tenant, and the same row if the version is the
    same. *)
Lemma later_tenant t u k r r' :
  table_le t u → t !! k = Some r → u !! k = Some r' → row_tenant r = row_tenant r'.
Proof using RowLaws0.
  intros Hle Hr Hr'. destruct (Hle _ _ Hr) as (r2 & ? & Hrr). simplify_eq.
  by apply row_le_tenant.
Qed.

Lemma later_same t u k r r' :
  table_le t u → t !! k = Some r → u !! k = Some r' → row_version r = row_version r' → r = r'.
Proof.
  intros Hle Hr Hr' Hv. destruct (Hle _ _ Hr) as (r2 & ? & Hrr). simplify_eq.
  by apply row_le_version.
Qed.

Lemma later_exists t u k r :
  table_le t u → t !! k = Some r → ∃ r', u !! k = Some r' ∧ row_tenant r' = row_tenant r.
Proof using RowLaws0.
  intros Hle Hr. destruct (Hle _ _ Hr) as (r2 & ? & Hrr). exists r2. split; [done|].
  by symmetry; apply row_le_tenant.
Qed.

(** The rows of other tenants than [T] are the same. *)
Definition only_tenant (T : string) t u : Prop :=
  ∀ k, t !! k = u !! k ∨
       (∀ r, t !! k = Some r → row_tenant r = T) ∧ (∀ r, u !! k = Some r → row_tenant r = T).

Lemma only_tenant_refl T t : only_tenant T t t.
Proof. by left. Qed.

Lemma only_tenant_trans T t1 t2 t3 :
  only_tenant T t1 t2 → only_tenant T t2 t3 → only_tenant T t1 t3.
Proof.
  intros H12 H23 k. destruct (H12 k) as [E1|[A1 B1]], (H23 k) as [E2|[A2 B2]].
  - left. by rewrite E1.
  - right. by rewrite E1.
  - right. by rewrite <- E2.
  - by right.
Qed.

(** A row of its type with a version a [bigint] holds. *)
Definition wf_row r : Prop := (1 ≤ row_version r ≤ max_int64)%Z ∧ row_typed r.

(** Each row is under its own key and is well formed. *)
Definition wf_table t : Prop := map_Forall (λ k r, row_key r = k ∧ wf_row r) t.

(** The columns [f] identify a row. *)
Definition unique_on {A} (f : R → A) t : Prop :=
  ∀ k1 k2 r1 r2, t !! k1 = Some r1 → t !! k2 = Some r2 → f r1 = f r2 → k1 = k2.

(** *** Insertion of a new row *)

Lemma table_le_insert t k v : t !! k = None → table_le t (<[k := v]> t).
Proof.
  intros Hk k' r Hr. exists r. split; [|reflexivity]. by rewrite lookup_insert_ne by congruence.
Qed.

Lemma only_tenant_insert T t k v :
  t !! k = None → row_tenant v = T → only_tenant T t (<[k := v]> t).
Proof.
  intros Hk <- k'. destruct (decide (k = k')) as [->|Hne].
  - right. rewrite lookup_insert_eq. split; intros; simplify_eq; congruence.
  - left. by rewrite lookup_insert_ne.
Qed.

Lemma wf_table_insert t k v :
  wf_table t → row_key v = k → wf_row v → wf_table (<[k := v]> t).
Proof. intros Ht <- Hv. by apply map_Forall_insert_2. Qed.

Lemma unique_on_insert {A} (f : R → A) t k v :
  unique_on f t → (∀ k' r, t !! k' = Some r → f r ≠ f v) → unique_on f (<[k := v]> t).
Proof.
  intros Hu Hn k1 k2 r1 r2. rewrite !lookup_insert_Some. intros [[-> ->]|[? ?]] [[-> ->]|[? ?]] He;
    [done|..|by eauto]; naive_solver.
Qed.

(** *** Update of a row in place *)

Lemma table_le_update t k r v : t !! k = Some r → row_le r v → table_le t (<[k := v]> t).
Proof.
  intros Hk Hv k' r' Hr'. destruct (decide (k = k')) as [->|Hne].
  - exists v. rewrite lookup_insert_eq. by simplify_eq.
  - exists r'. split; [by rewrite lookup_insert_ne|reflexivity].
Qed.

Lemma only_tenant_update T t k r v :
  t !! k = Some r → row_tenant r = T → row_tenant v = T → only_tenant T t (<[k := v]> t).
Proof.
  intros Hk Ht Hv k'. destruct (decide (k = k')) as [->|Hne].
  - right. rewrite lookup_insert_eq. split; intros; simplify_eq; congruence.
  - left. by rewrite lookup_insert_ne.
Qed.

Lemma wf_table_update t k r v :
  wf_table t → t !! k = Some r → row_le r v → (row_version v ≤ max_int64)%Z → row_typed v →
  wf_table (<[k := v]> t).
Proof using RowLaws0.
  intros Ht Hk Hle Hv Hty. destruct (Ht k r Hk) as [Hkey [Hver _]]. apply map_Forall_insert_2; [|done].
  split; [by rewrite <- (row_le_key _ _ Hle)|]. split; [|done].
  destruct Hle as [->|[_ ?]]; lia.
Qed.

Lemma unique_on_update {A} (f : R → A) t k r v :
  unique_on f t → t !! k = Some r → f r = f v → unique_on f (<[k := v]> t).
Proof.
  intros Hu Hk Hf k1 k2 r1 r2. rewrite !lookup_insert_Some. intros [[-> ->]|[? ?]] [[-> ->]|[? ?]] He;
    [done|..|by eauto]; eapply Hu; eauto; congruence.
Qed.

Lemma unique_on_update_fresh {A} (f : R → A) t k v :
  unique_on f t → (∀ k' r, t !! k' = Some r → k' ≠ k → f r ≠ f v) → unique_on f (<[k := v]> t).
Proof.
  intros Hu Hn k1 k2 r1 r2. rewrite !lookup_insert_Some. intros [[-> ->]|[? ?]] [[-> ->]|[? ?]] He;
    [done|..|by eauto]; naive_solver.
Qed.

(** *** The statements' row tests *)

Lemma any_row_false (p : R → bool) t :
  any_row p t = false ↔ ∀ k r, t !! k = Some r → p r = false.
Proof.
  unfold any_row, rows. split.
  - intros He k r Hr. apply not_true_is_false. intros Hp. apply not_true_iff_false in He.
    apply He, existsb_exists. exists r. split; [|done].
    rewrite <- list_elem_of_In. apply list_elem_of_fmap. exists (k, r).
    split; [done|]. by apply elem_of_map_to_list.
  - intros Hn. apply not_true_is_false. intros (r & Hr & Hp)%existsb_exists.
    rewrite <- list_elem_of_In in Hr. apply list_elem_of_fmap in Hr as ([k r'] & -> & Hk).
    apply elem_of_map_to_list in Hk. simpl in Hp. by rewrite (Hn _ _ Hk) in Hp.
Qed.

Lemma elem_of_rows t r : r ∈ rows t ↔ ∃ k, t !! k = Some r.
Proof.
  unfold rows. rewrite list_elem_of_fmap. split.
  - intros ([k r'] & -> & Hk). exists k. by apply elem_of_map_to_list.
  - intros (k & Hk). exists (k, r). split; [done|]. by apply elem_of_map_to_list.
Qed.

Lemma NoDup_filter_bool {A} (p : A → bool) l : NoDup l → NoDup (List.filter p l).
Proof.
  induction 1 as [|x l Hx Hl IH]; simpl; [constructor|]. case_match; [|done].
  constructor; [|done]. rewrite elem_of_filter_bool. by intros [_ ?].
Qed.

Lemma NoDup_rows t : wf_table t → NoDup (rows t).
Proof.
  intros Hwf. unfold rows. apply NoDup_fmap_2_strong; [|apply NoDup_map_to_list].
  intros [k1 r1] [k2 r2] H1%elem_of_map_to_list H2%elem_of_map_to_list He. simpl in He. subst r2.
  destruct (Hwf _ _ H1) as [<- _], (Hwf _ _ H2) as [<- _]. done.
Qed.

(** The rows with a given key. *)
Lemma filter_key (p : R → bool) t k :
  wf_table t → (∀ r, p r = true ↔ row_key r = k) →
  List.filter p (rows t) = match t !! k with Some r => [r] | None => [] end.
Proof.
  intros Hwf Hk.
  assert (Hin : ∀ r, r ∈ List.filter p (rows t) ↔ t !! k = Some r).
  { intros r. rewrite elem_of_filter_bool, Hk, elem_of_rows. split.
    - intros [<- [k' Hk']]. by rewrite (proj1 (Hwf k' r Hk')).
    - intros Hr. split; [apply (Hwf k r Hr)|by exists k]. }
  destruct (t !! k) as [r|].
  - apply Permutation_singleton_r, NoDup_Permutation; [by apply NoDup_filter_bool, NoDup_rows|apply NoDup_singleton|].
    intros x. rewrite Hin, list_elem_of_singleton. naive_solver.
  - destruct (List.filter p (rows t)) as [|r l]; [done|].
    by pose proof (proj1 (Hin r) (list_elem_of_here _ _)).
Qed.

Lemma has_false t k : has t k = false ↔ t !! k = None.
Proof. unfold has. by destruct (t !! k). Qed.

Lemma has_true t k : has t k = true ↔ is_Some (t !! k).
Proof. unfold has. destruct (t !! k); split; intros Hh; try done; by destruct Hh. Qed.

(** A conditional update: which row it changes, and how. *)
Lemma update_row_inv (key : K) p ver upd t n t' :
  update_row key p ver upd t = Ok (n, t') →
  (n = 0%Z ∧ t' = t) ∨
  (∃ r, t !! key = Some r ∧ p r = true ∧ n = 1%Z ∧ t' = <[key := upd r]> t ∧
        (ver r + 1 ≤ max_int64)%Z).
Proof.
  unfold update_row, bigint. destruct (t !! key) as [r|] eqn:Hr; [|naive_solver].
  destruct (p r) eqn:Hp; [|naive_solver].
  destruct (_ && _)%bool eqn:Hb; [|done]. reflect_bools. intros. simplify_eq. naive_solver.
Qed.

End Tables.

(** ** References *)

(** [ref] points from the rows of [t] to rows of [u] of the same tenant. *)
Definition refers `{!Row K A, !Row string B} `{Countable K} (ref : A → option string)
    (t : gmap K A) (u : gmap string B) : Prop :=
  ∀ k a k', t !! k = Some a → ref a = Some k' →
  ∃ b, u !! k' = Some b ∧ row_tenant b = row_tenant a.

Section References.
Context `{Countable K} {A B : Type} `{!Row K A, !Row string B, !RowLaws K A, !RowLaws string B}.
Implicit Types (t : gmap K A) (u : gmap string B).

Lemma refers_target ref t u u' : refers ref t u → table_le u u' → refers ref t u'.
Proof using All.
  intros Hr Hle k a k' Ha Hk. destruct (Hr _ _ _ Ha Hk) as (b & Hb & Ht).
  destruct (Hle _ _ Hb) as (b' & ? & Hbb). exists b'. split; [done|].
  by rewrite <- (row_le_tenant _ _ Hbb).
Qed.

Lemma refers_insert ref t u k v :
  refers ref t u →
  (∀ k', ref v = Some k' → ∃ b, u !! k' = Some b ∧ row_tenant b = row_tenant v) →
  refers ref (<[k := v]> t) u.
Proof.
  intros Hr Hv k1 a k' [[-> ->]|[? ?]]%lookup_insert_Some Hk; [by apply Hv|by eapply Hr].
Qed.

(** A row that keeps its reference and its tenant. *)
Lemma refers_same ref t u k r v :
  refers ref t u → t !! k = Some r → ref v = ref r → row_tenant v = row_tenant r →
  refers ref (<[k := v]> t) u.
Proof.
  intros Hr Hk Href Ht. apply refers_insert; [done|]. intros k' Hk'.
  rewrite Href in Hk'. destruct (Hr _ _ _ Hk Hk') as (b & ? & ?). exists b. split; congruence.
Qed.

End References.

#[export] Hint Resolve only_tenant_refl : tenant.
