(* ===== verification/Sql.v ===== *)
(** * SQL text

    The part of SQL the texts of [internal/tenant/repository.go] are written in: a lexer, a
    parser and an executable meaning over tables of rows whose columns are found by name. A
    parameter [?] is bound by its position. Conditions have three truth values, and [AND] and
    [OR] stop at the first operand that decides. [SqlText] gives the texts of the repository
    this meaning and compares it with [Repository]. *)

From Stdlib Require Import Ascii.
From stdpp Require Import base gmap list strings sorting.
From S2P Require Import Prelude GoErrors Model Store.

Definition rbind {A B} (m : result A) (f : A → result B) : result B :=
  match m with Ok x => f x | Err e => Err e end.
Notation "'let!' x ':=' m 'in' k" := (rbind m (λ x, k))
  (at level 100, x name, m at next level, right associativity) : tenant_scope.

Fixpoint rmap {A B} (f : A → result B) (l : list A) : result (list B) :=
  match l with
  | [] => Ok []
  | x :: l' => let! y := f x in let! ys := rmap f l' in Ok (y :: ys)
  end.

(** The rows for which the condition does not fail and is true. *)
Fixpoint rfilter {A} (f : A → result bool) (l : list A) : result (list A) :=
  match l with
  | [] => Ok []
  | x :: l' => let! b := f x in let! ys := rfilter f l' in Ok (if b then x :: ys else ys)
  end.

(** ** Values and rows *)

(** [VList] is a slice that [sqlx.In] has expanded to a parameter per element. *)
Inductive value :=
| VNull
| VText (s : string)
| VInt (z : Z)
| VTime (t : Z)
| VBool (b : bool)
| VList (l : list string).

Definition row : Type := list (string * value).

Fixpoint assoc {X} (c : string) (r : list (string * X)) : option X :=
  match r with
  | [] => None
  | (c', v) :: r' => if c' =?s c then Some v else assoc c r'
  end.

Definition syntax_error : goerr := PgError "42601".
Definition undefined_column : goerr := PgError "42703".
Definition undefined_table : goerr := PgError "42P01".
Definition undefined_operator : goerr := PgError "42883".
Definition missing_parameter : goerr := PgError "08P01".

Definition of_option {X} (o : option X) (e : goerr) : result X :=
  match o with Some x => Ok x | None => Err e end.

(** ** Tokens *)

(** Words are names, keywords and numbers; a parameter has its position. *)
Inductive token :=
| TWord (w : string)
| TParam (n : nat)
| TString (s : string)
| TSym (s : string).

Definition in_range (lo a hi : ascii) : bool := ((N_of_ascii lo <=? N_of_ascii a) && (N_of_ascii a <=? N_of_ascii hi))%N.
Definition word_char (a : ascii) : bool :=
  in_range "a" a "z" || in_range "A" a "Z" || in_range "0" a "9" || Ascii.eqb a "_" || Ascii.eqb a ".".

Definition flush (word : string) (ts : list token) : list token :=
  if word =?s "" then ts else TWord word :: ts.
Definition add_char (word : string) (a : ascii) : string := word +:+ String a "".

Fixpoint lex (s word : string) (quoted : bool) (n : nat) : option (list token) :=
  match s with
  | "" => if quoted then None else Some (flush word [])
  | String a s' =>
      if quoted then
        if Ascii.eqb a "'" then cons (TString word) <$> lex s' "" false n else lex s' (add_char word a) true n
      else if word_char a then lex s' (add_char word a) false n
      else flush word <$>
        if Ascii.eqb a " " then lex s' "" false n
        else if Ascii.eqb a "?" then cons (TParam n) <$> lex s' "" false (S n)
        else if Ascii.eqb a "'" then lex s' "" true n
        else match s' with
             | String b s'' =>
                 if bool_decide (String a (String b "") ∈ ["<="; "<>"; "||"])
                 then cons (TSym (String a (String b ""))) <$> lex s'' "" false n
                 else cons (TSym (String a "")) <$> lex s' "" false n
             | "" => Some [TSym (String a "")]
             end
  end.

(** ** Expressions *)

Inductive binop := OEq | ONe | OLe | OPlus | OConcat | OLike | OAnd | OOr | OCoalesce | OSubstring.

Inductive expr :=
| EParam (n : nat)
| EInt (z : Z)
| EStr (s : string)
| ENull
| ECol (c : string)
| EBin (o : binop) (a b : expr)
| ELower (a : expr)
| EIsNull (a : expr)
| EIn (a : expr) (n : nat)
| EExists (table alias : string) (cond : expr).

Fixpoint number (s : string) (acc : Z) : option Z :=
  match s with
  | "" => Some acc
  | String a s' => if in_range "0" a "9" then number s' (acc * 10 + Z.of_N (N_of_ascii a - 48))%Z else None
  end.

Inductive level := LOr | LAnd | LCompare | LSum | LAtom.

#[export] Instance token_eq_dec : EqDecision token.
Proof. solve_decision. Defined.

(** The rest after the given tokens. *)
Fixpoint eat (expected ts : list token) : option (list token) :=
  match expected, ts with
  | [], _ => Some ts
  | t :: expected', t' :: ts' => if decide (t = t') then eat expected' ts' else None
  | _ :: _, [] => None
  end.
Notation "'eating' l , ts 'as' ts' => k ;; k'" :=
  (match eat l ts with Some ts' => k | None => k' end)
  (at level 100, l at next level, ts at next level, ts' name, k at next level, right associativity) : tenant_scope.

(** A binary operator between two expressions of a level, and the level of the second one. *)
Definition operator (lvl : level) (ts : list token) : option (binop * level * list token) :=
  match lvl with
  | LOr => ts ← eat [TWord "OR"] ts; Some (OOr, LOr, ts)
  | LAnd => ts ← eat [TWord "AND"] ts; Some (OAnd, LAnd, ts)
  | LCompare =>
      eating [TSym "="], ts as ts => Some (OEq, LSum, ts);;
      eating [TSym "<>"], ts as ts => Some (ONe, LSum, ts);;
      eating [TSym "<="], ts as ts => Some (OLe, LSum, ts);;
      ts ← eat [TWord "LIKE"] ts; Some (OLike, LSum, ts)
  | LSum =>
      eating [TSym "+"], ts as ts => Some (OPlus, LSum, ts);;
      ts ← eat [TSym "||"] ts; Some (OConcat, LSum, ts)
  | LAtom => None
  end.
Definition below (lvl : level) : level :=
  match lvl with LOr => LAnd | LAnd => LCompare | LCompare => LSum | LSum | LAtom => LAtom end.

(** A function of two arguments. *)
Definition function2 (ts : list token) : option (binop * list token) :=
  eating [TWord "COALESCE"; TSym "("], ts as ts => Some (OCoalesce, ts);;
  eating [TWord "CONCAT"; TSym "("], ts as ts => Some (OConcat, ts);;
  ts ← eat [TWord "SUBSTRING"; TSym "("] ts; Some (OSubstring, ts).

(** What may follow a comparison's first operand besides an operator. *)
Definition postfix (a : expr) (ts : list token) : expr * list token :=
  eating [TWord "IS"; TWord "NULL"], ts as ts => (EIsNull a, ts);;
  match eat [TWord "IN"; TSym "("] ts with
  | Some (TParam n :: ts') => eating [TSym ")"], ts' as ts'' => (EIn a n, ts'');; (a, ts)
  | _ => (a, ts)
  end.

(** Each level reads the next one and then, perhaps, an operator of its own; the fuel bounds the
    depth of readings. *)
Fixpoint parse_expr (fuel : nat) (lvl : level) (ts : list token) : option (expr * list token) :=
  match fuel with
  | O => None
  | S fuel =>
      match lvl with
      | LAtom =>
          let closed (f : expr → expr) (closing ts : list token) :=
            '(a, ts) ← parse_expr fuel LOr ts; ts ← eat closing ts; Some (f a, ts) in
          match function2 ts with
          | Some (o, ts) =>
              '(a, ts) ← parse_expr fuel LOr ts;
              ts ← (eating [TSym ","], ts as ts => Some ts;; eat [TWord "FROM"] ts);
              closed (EBin o a) [TSym ")"] ts
          | None =>
              eating [TSym "("], ts as ts => closed id [TSym ")"] ts;;
              eating [TWord "LOWER"; TSym "("], ts as ts => closed ELower [TSym ")"] ts;;
              eating [TWord "CAST"; TSym "("], ts as ts =>
                closed id [TWord "AS"; TWord "INTEGER"; TSym ")"] ts;;
              eating [TWord "EXISTS"; TSym "("; TWord "SELECT"; TWord "1"; TWord "FROM"], ts as ts =>
                match ts with
                | TWord table :: TWord alias :: ts =>
                    ts ← eat [TWord "WHERE"] ts; closed (EExists table alias) [TSym ")"] ts
                | _ => None
                end;;
              eating [TWord "NULL"], ts as ts => Some (ENull, ts);;
              match ts with
              | TParam n :: ts => Some (EParam n, ts)
              | TString s :: ts => Some (EStr s, ts)
              | TWord w :: ts => Some (match number w 0 with Some z => EInt z | None => ECol w end, ts)
              | _ => None
              end
          end
      | _ =>
          '(a, ts) ← parse_expr fuel (below lvl) ts;
          match operator lvl ts with
          | Some (o, lvl', ts) => '(b, ts) ← parse_expr fuel lvl' ts; Some (EBin o a b, ts)
          | None => Some (match lvl with LCompare => postfix a ts | _ => (a, ts) end)
          end
      end
  end.

(** ** Statements *)

(** [FROM table], [FROM table alias] or [FROM a x JOIN b y ON condition]. *)
Inductive source :=
| From (table : string) (alias : option string)
| FromJoin (table1 alias1 table2 alias2 : string) (on : expr).

Inductive statement :=
| SInsert (table : string) (columns : list string) (values : list expr)
| SUpdate (table : string) (assignments : list (string * expr)) (cond : expr)
| SSelect (items : list (expr * string)) (from : source) (cond : expr)
    (order : list (string * bool)) (limit offset : option expr)
| SCount (from : source) (cond : expr).

(** A list [x, x, ..., x], whose elements [p] reads. *)
Fixpoint parse_list {X} (p : list token → option (X * list token)) (fuel : nat) (ts : list token)
  : option (list X * list token) :=
  match fuel with
  | O => None
  | S fuel =>
      '(x, ts) ← p ts;
      eating [TSym ","], ts as ts => ('(l, ts) ← parse_list p fuel ts; Some (x :: l, ts));;
      Some ([x], ts)
  end.

Definition parse_name (ts : list token) : option (string * list token) :=
  match ts with TWord w :: ts => Some (w, ts) | _ => None end.

Definition parse_assignment (fuel : nat) (ts : list token) : option (string * expr * list token) :=
  '(c, ts) ← parse_name ts; ts ← eat [TSym "="] ts; '(e, ts) ← parse_expr fuel LSum ts; Some (c, e, ts).

(** The name of a column without its alias. *)
Definition unqualified (c : string) : string :=
  match String.index 0 "." c with
  | Some n => String.substring (S n) (String.length c) c
  | None => c
  end.

Definition parse_item (fuel : nat) (ts : list token) : option (expr * string * list token) :=
  '(e, ts) ← parse_expr fuel LOr ts;
  eating [TWord "AS"], ts as ts => ('(name, ts) ← parse_name ts; Some (e, name, ts));;
  match e with ECol c => Some (e, unqualified c, ts) | _ => None end.

Definition parse_key (ts : list token) : option (string * bool * list token) :=
  '(c, ts) ← parse_name ts;
  eating [TWord "DESC"], ts as ts => Some (c, true, ts);; Some (c, false, ts).

(** The tables up to [WHERE]. *)
Definition parse_source (fuel : nat) (ts : list token) : option (source * list token) :=
  '(t1, ts) ← parse_name ts;
  eating [TWord "WHERE"], ts as ts => Some (From t1 None, ts);;
  '(a1, ts) ← parse_name ts;
  eating [TWord "WHERE"], ts as ts => Some (From t1 (Some a1), ts);;
  ts ← eat [TWord "JOIN"] ts;
  '(t2, ts) ← parse_name ts;
  '(a2, ts) ← parse_name ts;
  ts ← eat [TWord "ON"] ts;
  '(e, ts) ← parse_expr fuel LOr ts;
  ts ← eat [TWord "WHERE"] ts;
  Some (FromJoin t1 a1 t2 a2 e, ts).

(** [keyword e], perhaps. *)
Definition parse_clause (keyword : string) (fuel : nat) (ts : list token) : option (option expr * list token) :=
  eating [TWord keyword], ts as ts => ('(e, ts) ← parse_expr fuel LSum ts; Some (Some e, ts));;
  Some (None, ts).

Definition the_end {X} (x : X) (ts : list token) : option X := match ts with [] => Some x | _ => None end.

Definition parse_insert (fuel : nat) (ts : list token) : option statement :=
  '(table, ts) ← parse_name ts;
  ts ← eat [TSym "("] ts;
  '(columns, ts) ← parse_list parse_name fuel ts;
  ts ← eat [TSym ")"; TWord "VALUES"; TSym "("] ts;
  '(values, ts) ← parse_list (parse_expr fuel LSum) fuel ts;
  ts ← eat [TSym ")"] ts;
  the_end (SInsert table columns values) ts.

Definition parse_update (fuel : nat) (ts : list token) : option statement :=
  '(table, ts) ← parse_name ts;
  ts ← eat [TWord "SET"] ts;
  '(assignments, ts) ← parse_list (parse_assignment fuel) fuel ts;
  ts ← eat [TWord "WHERE"] ts;
  '(cond, ts) ← parse_expr fuel LOr ts;
  the_end (SUpdate table assignments cond) ts.

Definition parse_count (fuel : nat) (ts : list token) : option statement :=
  '(from, ts) ← parse_source fuel ts;
  '(cond, ts) ← parse_expr fuel LOr ts;
  the_end (SCount from cond) ts.

Definition parse_select (fuel : nat) (ts : list token) : option statement :=
  '(items, ts) ← parse_list (parse_item fuel) fuel ts;
  ts ← eat [TWord "FROM"] ts;
  '(from, ts) ← parse_source fuel ts;
  '(cond, ts) ← parse_expr fuel LOr ts;
  '(order, ts) ← (eating [TWord "ORDER"; TWord "BY"], ts as ts => parse_list parse_key fuel ts;;
                  Some ([], ts));
  '(limit, ts) ← parse_clause "LIMIT" fuel ts;
  '(offset, ts) ← parse_clause "OFFSET" fuel ts;
  the_end (SSelect items from cond order limit offset) ts.

Definition parse_tokens (ts : list token) : option statement :=
  let fuel := S (5 * length ts) in
  eating [TWord "INSERT"; TWord "INTO"], ts as ts => parse_insert fuel ts;;
  eating [TWord "UPDATE"], ts as ts => parse_update fuel ts;;
  eating [TWord "SELECT"; TWord "COUNT"; TSym "("; TSym "*"; TSym ")"; TWord "FROM"], ts as ts =>
    parse_count fuel ts;;
  ts ← eat [TWord "SELECT"] ts; parse_select fuel ts.

Definition parse (text : string) : option statement := ts ← lex text "" false 0; parse_tokens ts.

(** ** Meaning *)

(** The tables by their names, each with its columns and its rows. *)
Definition tables : Type := string → option (list string * list row).

Definition aliased (alias : string) (r : row) : row := (λ '(c, v), (alias +:+ "." +:+ c, v)) <$> r.

Definition same_value (x y : value) : option bool :=
  match x, y with
  | VText a, VText b => Some (a =?s b)
  | VInt a, VInt b | VTime a, VTime b => Some (a =? b)%Z
  | VBool a, VBool b => Some (Bool.eqb a b)
  | _, _ => None
  end.

(** An operator on values of which none is [NULL]. *)
Definition strict (o : binop) (x y : value) : result value :=
  match o, x, y with
  | OEq, _, _ => of_option (VBool <$> same_value x y) undefined_operator
  | ONe, _, _ => of_option ((λ b, VBool (negb b)) <$> same_value x y) undefined_operator
  | OLe, VInt a, VInt b => Ok (VBool (a <=? b)%Z)
  | OPlus, VInt a, VInt b => let! z := bigint (a + b) in Ok (VInt z)
  | OConcat, VText a, VText b => Ok (VText (a +:+ b))
  | OLike, VText a, VText b => Ok (VBool (sql_like a b))
  | OSubstring, VText a, VInt b => Ok (VText (sql_substring a b))
  | _, _, _ => Err undefined_operator
  end.

Definition binary (o : binop) (x y : value) : result value :=
  match o, x, y with
  | OCoalesce, VNull, _ => Ok y
  | OCoalesce, _, _ => Ok x
  | _, VNull, _ | _, _, VNull => Ok VNull
  | _, _, _ => strict o x y
  end.

(** [x AND y] and [x OR y] when [x] has not decided; [decided] is the value that decides. *)
Definition connect (decided : bool) (x y : value) : result value :=
  match x, y with
  | (VNull | VBool _), VBool b => Ok (if Bool.eqb b decided then VBool decided else x)
  | (VNull | VBool _), VNull => Ok VNull
  | _, _ => Err undefined_operator
  end.

Definition truth (v : value) : bool := match v with VBool b => b | _ => false end.

Section Meaning.
Context `{SqlDialect}.
Context (D : tables) (args : list value).

Fixpoint eval (r : row) (e : expr) : result value :=
  match e with
  | EParam n => of_option (args !! n) missing_parameter
  | EInt z => Ok (VInt z)
  | EStr s => Ok (VText s)
  | ENull => Ok VNull
  | ECol c => of_option (assoc c r) undefined_column
  | EBin ((OAnd | OOr) as o) a b =>
      let decided := match o with OAnd => false | _ => true end in
      let! x := eval r a in
      if match x with VBool v => Bool.eqb v decided | _ => false end then Ok x
      else let! y := eval r b in connect decided x y
  | EBin o a b => let! x := eval r a in let! y := eval r b in binary o x y
  | ELower a =>
      let! x := eval r a in
      match x with VText s => Ok (VText (sql_lower s)) | VNull => Ok VNull | _ => Err undefined_operator end
  | EIsNull a => let! x := eval r a in Ok (VBool match x with VNull => true | _ => false end)
  | EIn a n =>
      let! x := eval r a in
      let! y := of_option (args !! n) missing_parameter in
      match x, y with
      | VText s, VList l => Ok (VBool (bool_decide (s ∈ l)))
      | VNull, VList _ => Ok VNull
      | _, _ => binary OEq x y
      end
  | EExists table alias cond =>
      let! t := of_option (D table) undefined_table in
      let! found := rfilter (λ inner, let! v := eval (aliased alias inner ++ r) cond in Ok (truth v)) (snd t) in
      Ok (VBool (negb (bool_decide (found = []))))
  end.

Definition holds (cond : expr) (r : row) : result bool := let! v := eval r cond in Ok (truth v).

(** *** Reading *)

Definition source_rows (s : source) : result (list row) :=
  match s with
  | From t alias =>
      let! rows := of_option (snd <$> D t) undefined_table in
      Ok (match alias with Some a => aliased a <$> rows | None => rows end)
  | FromJoin t1 a1 t2 a2 on =>
      let! rows1 := of_option (snd <$> D t1) undefined_table in
      let! rows2 := of_option (snd <$> D t2) undefined_table in
      let! joined := rmap (λ r1, rfilter (holds on) ((λ r2, aliased a1 r1 ++ aliased a2 r2) <$> rows2)) rows1 in
      Ok (concat joined)
  end.

(** Ascending order of values of one type, as [ORDER BY] compares them. *)
Definition value_le (x y : value) : bool :=
  match x, y with
  | VText a, VText b => collate_le a b
  | VInt a, VInt b | VTime a, VTime b => (a <=? b)%Z
  | _, _ => false
  end.

Fixpoint order_le (keys : list (string * bool)) (a b : row) : bool :=
  match keys with
  | [] => true
  | (c, desc) :: keys' =>
      match assoc c a, assoc c b with
      | Some x, Some y =>
          let before := if desc then value_le y x else value_le x y in
          match keys' with
          | [] => before
          | _ => if default false (same_value x y) then order_le keys' a b else before
          end
      | _, _ => false
      end
  end.

Definition item_row (items : list (expr * string)) (r : row) : result row :=
  rmap (λ '(e, name), let! v := eval r e in Ok (name, v)) items.

Definition row_number (e : expr) : result Z :=
  let! v := eval [] e in match v with VInt z => Ok z | _ => Err undefined_operator end.

Definition limited {R} (limit offset : option expr) (l : list R) : result (list R) :=
  match limit with
  | None => Ok l
  | Some e =>
      let! n := row_number e in
      let! m := match offset with Some e => row_number e | None => Ok 0%Z end in
      limit_offset n m l
  end.

(** The rows a statement answers; a count is a row of one column. *)
Definition answer_rows (s : statement) : result (list row) :=
  match s with
  | SSelect items from cond order limit offset =>
      let! rows := source_rows from in
      let! rows := rfilter (holds cond) rows in
      let! rows := limited limit offset (match order with [] => rows | _ => sort_by (order_le order) rows end) in
      rmap (item_row items) rows
  | SCount from cond =>
      let! rows := source_rows from in
      let! rows := rfilter (holds cond) rows in
      Ok [[("count", VInt (Z.of_nat (length rows)))]]
  | _ => Err syntax_error
  end.

(** *** Writing *)

(** The row of an insertion: a column that is not named is [NULL]. *)
Definition inserted_row (columns : list string) (names : list string) (values : list expr) : result row :=
  if negb (length names =? length values)%nat then Err syntax_error
  else if negb (forallb (λ c, bool_decide (c ∈ columns)) names) then Err undefined_column
  else let! values := rmap (eval []) values in
       Ok ((λ c, (c, default VNull (assoc c (zip names values)))) <$> columns).

(** The assignments are evaluated on the old row. *)
Definition assigned_row (assignments : list (string * expr)) (r : row) : result row :=
  if negb (forallb (λ a, match assoc (fst a) r with Some _ => true | None => false end) assignments)
  then Err undefined_column
  else rmap (λ '(c, v), match assoc c assignments with
                        | Some e => let! v := eval r e in Ok (c, v)
                        | None => Ok (c, v)
                        end) r.

(** A row after [UPDATE], with the number of rows changed. *)
Definition updated_row (cond : expr) (assignments : list (string * expr)) (r : row) : result (Z * row) :=
  let! b := holds cond r in
  if b then let! r' := assigned_row assignments r in Ok (1%Z, r') else Ok (0%Z, r).

Definition with_table (t : string) (columns : list string) (rows : list row) : tables := λ t',
  if t' =?s t then Some (columns, rows) else D t'.

(** The number of rows written, and the tables after the statement, before any constraint of
    the schema is looked at. *)
Definition written (s : statement) : result (Z * tables) :=
  match s with
  | SInsert t names values =>
      let! table := of_option (D t) undefined_table in
      let! r := inserted_row (fst table) names values in
      Ok (1%Z, with_table t (fst table) (r :: snd table))
  | SUpdate t assignments cond =>
      let! table := of_option (D t) undefined_table in
      let! rows := rmap (updated_row cond assignments) (snd table) in
      Ok (foldr Z.add 0%Z (fst <$> rows), with_table t (fst table) (snd <$> rows))
  | _ => Err syntax_error
  end.

End Meaning.

(** A text with its arguments: one for each parameter. *)
Definition prepare (text : string) (args : list value) : result statement :=
  match lex text "" false 0 with
  | Some ts =>
      let params := length (List.filter (λ t, match t with TParam _ => true | _ => false end) ts) in
      if (params =? length args)%nat then of_option (parse_tokens ts) syntax_error else Err missing_parameter
  | None => Err syntax_error
  end.

(** [SelectContext] before it scans, and [ExecContext]. *)
Definition sql_query `{SqlDialect} (text : string) (args : list value) (D : tables) : result (list row) :=
  let! s := prepare text args in answer_rows D args s.
Definition sql_exec `{SqlDialect} (text : string) (args : list value) (D : tables) : result (Z * tables) :=
  let! s := prepare text args in written D args s.
