(* ===== verification/Invariants.v ===== *)
(** * The database invariant and what a commit may do

    [inv] is what holds of the database between transactions: the schema's keys,
    unique indexes, foreign keys and checks, and the domain's own rule that every
    reference stays inside its tenant. [commit] is what one transaction of a
    request does to it. Both are stated for all tables; the lemmas on the setters
    reduce them to the table a statement changes. *)

From stdpp Require Import base gmap list strings.
From S2P Require Import Prelude GoErrors Model Store Effects Platform Authorization Repository.
From S2P Require Import Tables.

Section Invariants.
Context `{Platform}.

(** ** The whole database, later *)

Record db_le (d d' : DB) : Prop := {
  le_tenants : table_le (tenants d) (tenants d');
  le_memberships : table_le (memberships d) (memberships d');
  le_organization_units : table_le (organization_units d) (organization_units d');
  le_invitations : table_le (invitations d) (invitations d');
  le_member_groups : table_le (member_groups d) (member_groups d');
  le_group_members : table_le (group_members d) (group_members d');
  le_tenant_quotas : table_le (tenant_quotas d) (tenant_quotas d');
  le_outbox : tenant_outbox_events d `prefix_of` tenant_outbox_events d';
}.

#[export] Instance db_le_preorder : PreOrder db_le.
Proof.
  split.
  - intros d. by split.
  - intros d1 d2 d3 [] []. split; by etrans.
Qed.

Record db_only (T : string) (d d' : DB) : Prop := {
  only_tenants : only_tenant T (tenants d) (tenants d');
  only_memberships : only_tenant T (memberships d) (memberships d');
  only_organization_units : only_tenant T (organization_units d) (organization_units d');
  only_invitations : only_tenant T (invitations d) (invitations d');
  only_member_groups : only_tenant T (member_groups d) (member_groups d');
  only_group_members : only_tenant T (group_members d) (group_members d');
  only_tenant_quotas : only_tenant T (tenant_quotas d) (tenant_quotas d');
}.

(** ** The invariant, table by table *)

Definition tenants_ok (d : DB) (t : gmap string Tenant) : Prop :=
  wf_table t ∧ unique_on (λ r, sql_lower (Tenant_Code r)) t.

Definition memberships_ok (d : DB) (t : gmap string Membership) : Prop :=
  wf_table t ∧
  unique_on (λ r, (Membership_TenantID r, Membership_UserID r)) t ∧
  refers (λ r, Some (Membership_TenantID r)) t (tenants d) ∧
  refers (λ r, nullableID (Membership_PrimaryOrganizationUnitID r)) t (organization_units d).

Definition units_ok (d : DB) (t : gmap string OrganizationUnit) : Prop :=
  wf_table t ∧
  unique_on (λ r, (OrganizationUnit_TenantID r, OrganizationUnit_Code r)) t ∧
  unique_on (λ r, (OrganizationUnit_TenantID r, OrganizationUnit_Path r)) t ∧
  refers (λ r, Some (OrganizationUnit_TenantID r)) t (tenants d) ∧
  refers (λ r, nullableID (OrganizationUnit_ParentID r)) t t.

Definition invitations_ok (d : DB) (t : gmap string Invitation) : Prop :=
  wf_table t ∧ unique_on Invitation_TokenHash t ∧
  refers (λ r, Some (Invitation_TenantID r)) t (tenants d).

Definition groups_ok (d : DB) (t : gmap string Group) : Prop :=
  wf_table t ∧ unique_on (λ r, (Group_TenantID r, Group_Code r)) t ∧
  refers (λ r, Some (Group_TenantID r)) t (tenants d).

Definition group_members_ok (d : DB) (t : gmap string GroupMember) : Prop :=
  wf_table t ∧
  unique_on (λ r, (GroupMember_GroupID r, GroupMember_MembershipID r)) t ∧
  refers (λ r, Some (GroupMember_TenantID r)) t (tenants d) ∧
  refers (λ r, Some (GroupMember_GroupID r)) t (member_groups d) ∧
  refers (λ r, Some (GroupMember_MembershipID r)) t (memberships d).

Definition quotas_ok (d : DB) (t : gmap (string * string) Quota) : Prop :=
  wf_table t ∧ map_Forall (λ _ q, (0 ≤ Quota_Limit q)%Z ∧ (0 ≤ Quota_Used q)%Z) t ∧
  refers (λ r, Some (Quota_TenantID r)) t (tenants d).

Record inv (d : DB) : Prop := {
  inv_tenants : tenants_ok d (tenants d);
  inv_memberships : memberships_ok d (memberships d);
  inv_units : units_ok d (organization_units d);
  inv_invitations : invitations_ok d (invitations d);
  inv_groups : groups_ok d (member_groups d);
  inv_group_members : group_members_ok d (group_members d);
  inv_quotas : quotas_ok d (tenant_quotas d);
}.

Lemma inv_empty : inv empty_db.
Proof.
  split; unfold tenants_ok, memberships_ok, units_ok, invitations_ok, groups_ok, group_members_ok,
    quotas_ok; split_and?; first [apply map_Forall_empty | by intros k1 k2 r1 r2 ? | by intros k a k' ?].
Qed.

(** ** Changing one table *)

Ltac solve_set := intros [] Hle Hok; split; simpl; try done;
  unfold tenants_ok, memberships_ok, units_ok, invitations_ok, groups_ok, group_members_ok,
    quotas_ok in *; simpl in *; destruct_and?; split_and?;
  first [assumption | eapply refers_target; eassumption].

Lemma inv_set_tenants d t :
  inv d → table_le (tenants d) t → tenants_ok d t → inv (set_tenants t d).
Proof. solve_set. Qed.

Lemma inv_set_memberships d t :
  inv d → table_le (memberships d) t → memberships_ok d t → inv (set_memberships t d).
Proof. solve_set. Qed.

Lemma inv_set_organization_units d t :
  inv d → table_le (organization_units d) t → units_ok d t → inv (set_organization_units t d).
Proof. solve_set. Qed.

Lemma inv_set_invitations d t :
  inv d → table_le (invitations d) t → invitations_ok d t → inv (set_invitations t d).
Proof. solve_set. Qed.

Lemma inv_set_member_groups d t :
  inv d → table_le (member_groups d) t → groups_ok d t → inv (set_member_groups t d).
Proof. solve_set. Qed.

Lemma inv_set_group_members d t :
  inv d → table_le (group_members d) t → group_members_ok d t → inv (set_group_members t d).
Proof. solve_set. Qed.

Lemma inv_set_tenant_quotas d t :
  inv d → table_le (tenant_quotas d) t → quotas_ok d t → inv (set_tenant_quotas t d).
Proof. solve_set. Qed.

Lemma inv_set_outbox d l : inv d → inv (set_tenant_outbox_events l d).
Proof. intros []. by split. Qed.

(** ** Keys *)

Lemma tenant_key d k r : inv d → tenants d !! k = Some r → Tenant_ID r = k.
Proof. intros Hd Hr. apply (proj1 (inv_tenants _ Hd) _ _ Hr). Qed.
Lemma invitation_key d k r : inv d → invitations d !! k = Some r → Invitation_ID r = k.
Proof. intros Hd Hr. apply (proj1 (inv_invitations _ Hd) _ _ Hr). Qed.
Lemma unit_key d k r : inv d → organization_units d !! k = Some r → OrganizationUnit_ID r = k.
Proof. intros Hd Hr. apply (proj1 (inv_units _ Hd) _ _ Hr). Qed.
Lemma group_key d k r : inv d → member_groups d !! k = Some r → Group_ID r = k.
Proof. intros Hd Hr. apply (proj1 (inv_groups _ Hd) _ _ Hr). Qed.
Lemma group_member_key d k r : inv d → group_members d !! k = Some r → GroupMember_ID r = k.
Proof. intros Hd Hr. apply (proj1 (inv_group_members _ Hd) _ _ Hr). Qed.
Lemma quota_key d k r :
  inv d → tenant_quotas d !! k = Some r → (Quota_TenantID r, Quota_Key r) = k.
Proof. intros Hd Hr. apply (proj1 (inv_quotas _ Hd) _ _ Hr). Qed.

(** An optional reference to a unit of tenant [T], which no later state breaks. *)
Definition unit_in (d : DB) (T unitID : string) : Prop :=
  ∀ k, nullableID unitID = Some k →
  ∃ u, organization_units d !! k = Some u ∧ OrganizationUnit_TenantID u = T.

Lemma unit_in_later d d' T unitID : unit_in d T unitID → db_le d d' → unit_in d' T unitID.
Proof.
  intros Hu Hle k Hk. destruct (Hu k Hk) as (u & Hlk & Ht).
  destruct (later_exists _ _ _ _ (le_organization_units _ _ Hle) Hlk) as (u' & ? & Ht').
  exists u'. split; [done|]. simpl in Ht'. congruence.
Qed.

(** ** What a commit does *)

(** A quota's counter: unchanged, or raised within the limit of the moment. *)
Definition quota_rule (q q' : Quota) : Prop :=
  Quota_Used q' = Quota_Used q ∨
  (Quota_Limit q' = Quota_Limit q ∧ (Quota_Used q < Quota_Used q' ≤ Quota_Limit q)%Z).

(** An invitation becomes accepted only from pending, together with an active
    membership of the accepting user. *)
Definition invitation_rule (d' : DB) (i i' : Invitation) : Prop :=
  i' = i ∨ Invitation_Status i' ≠ "accepted" ∨
  (Invitation_Status i = "pending" ∧
   ∃ k m, memberships d' !! k = Some m ∧ Membership_TenantID m = Invitation_TenantID i ∧
          Membership_UserID m = Invitation_AcceptedByUserID i' ∧ Membership_Status m = "active").

(** Why a request may change rows of tenant [T]. *)
Definition authorised (ctx : Context) (T : string) (d d' : DB) : Prop :=
  may_access ctx T ∨ tenants d !! T = None ∨
  ∃ k i i', invitations d !! k = Some i ∧ Invitation_TenantID i = T ∧
    Invitation_Status i = "pending" ∧
    invitations d' !! k = Some i' ∧ Invitation_Status i' = "accepted".

(** [moves]: the request is one that may change organization units. *)
Record commit (ctx : Context) (moves : bool) (d d' : DB) : Prop := {
  commit_inv : inv d';
  commit_le : db_le d d';
  commit_event : ∃ e, tenant_outbox_events d' = tenant_outbox_events d ++ [Build_OutboxRow e 0 None ""];
  commit_units : moves = false → organization_units d' = organization_units d;
  commit_tenant : ∃ T, db_only T d d' ∧ authorised ctx T d d';
  commit_quota k q q' :
    tenant_quotas d !! k = Some q → tenant_quotas d' !! k = Some q' → quota_rule q q';
  commit_new_quota k q' :
    tenant_quotas d !! k = None → tenant_quotas d' !! k = Some q' → Quota_Used q' = 0%Z;
  commit_invitation k i i' :
    invitations d !! k = Some i → invitations d' !! k = Some i' → invitation_rule d' i i';
}.

(** What the other requests may do between two calls, and what a commit of a
    request with context [ctx] may do. *)
Definition rely (d d' : DB) : Prop := inv d → inv d' ∧ db_le d d'.
Definition guarantee (ctx : Context) (moves : bool) (d d' : DB) : Prop :=
  inv d → d' = d ∨ commit ctx moves d d'.

#[export] Instance rely_preorder : PreOrder rely.
Proof.
  split; [by intros d Hd|]. intros d1 d2 d3 H12 H23 H1.
  destruct (H12 H1) as [H2 L12]. destruct (H23 H2) as [H3 L23]. split; [done|by etrans].
Qed.

Lemma guarantee_rely ctx moves d d' : guarantee ctx moves d d' → rely d d'.
Proof. intros HG Hd. destruct (HG Hd) as [->|[]]; by split. Qed.

(** A rule on the rows two versions of a table share holds when the table is the
    same. *)
Lemma same_quota_rule (t : gmap (string * string) Quota) k q q' :
  t !! k = Some q → t !! k = Some q' → quota_rule q q'.
Proof. intros. simplify_eq. by left. Qed.

Lemma same_invitation_rule (t : gmap string Invitation) d k i i' :
  t !! k = Some i → t !! k = Some i' → invitation_rule d i i'.
Proof. intros. simplify_eq. by left. Qed.

End Invariants.

#[export] Hint Resolve same_quota_rule same_invitation_rule : tenant.
