(* ===== verification/SqlText.v ===== *)
(** * The repository as SQL text

    [internal/tenant/repository.go] once more, as it is written: every method with the text it
    sends, its arguments by position and the struct its rows are scanned into by the [db] tags
    of [internal/tenant/model.go]. [SqlProofs] shows that [Repository] says the same. *)

From stdpp Require Import base gmap list strings sorting.
From S2P Require Import Prelude GoErrors Model Store Effects Platform Repository Sql.

(** ** Rows and structs *)

(** What a row is scanned into. A column without a field is an error, and so is [NULL] for a
    field that is not a pointer; a field without a column keeps its zero value. *)
Class Scan (R : Type) := scan : row → result R.

(** A struct with the table that keeps it and its row there. *)
Class Stored (R : Type) := {
  table_name : string;
  columns : list string;
  to_row : R → row;
}.

Definition scan_error : goerr := TextError "sql: Scan error".
Definition missing_destination : goerr := TextError "missing destination name".

Definition text_field (c : string) (r : row) : result string :=
  match assoc c r with None => Ok "" | Some (VText s) => Ok s | Some _ => Err scan_error end.
Definition int_field (c : string) (r : row) : result Z :=
  match assoc c r with None => Ok 0%Z | Some (VInt z) => Ok z | Some _ => Err scan_error end.
Definition time_field (c : string) (r : row) : result Z :=
  match assoc c r with None => Ok zero_time | Some (VTime t) => Ok t | Some _ => Err scan_error end.
Definition bool_field (c : string) (r : row) : result bool :=
  match assoc c r with None => Ok false | Some (VBool b) => Ok b | Some _ => Err scan_error end.

Definition known (tags : list string) {X} (r : row) (k : result X) : result X :=
  if forallb (λ c, bool_decide (c ∈ tags)) (fst <$> r) then k else Err missing_destination.

(** A column that is [NULL] for the empty string. *)
Definition nullable (s : string) : value := match nullableID s with Some s => VText s | None => VNull end.

Definition tenant_tags : list string :=
  ["id"; "code"; "name"; "status"; "version"; "created_at"; "updated_at"; "created_by"; "updated_by"].
#[export] Instance scan_Tenant : Scan Tenant := λ r,
  known tenant_tags r (
    let! id := text_field "id" r in let! code := text_field "code" r in
    let! name := text_field "name" r in let! status := text_field "status" r in
    let! version := int_field "version" r in
    let! created := time_field "created_at" r in let! updated := time_field "updated_at" r in
    let! creator := text_field "created_by" r in let! updater := text_field "updated_by" r in
    Ok (Build_Tenant id code name status version created updated creator updater)).
#[export] Instance Tenant_stored : Stored Tenant := {|
  table_name := "tenants"; columns := tenant_tags;
  to_row r := [
    ("id", VText (Tenant_ID r)); ("code", VText (Tenant_Code r)); ("name", VText (Tenant_Name r));
    ("status", VText (Tenant_Status r)); ("version", VInt (Tenant_Version r));
    ("created_at", VTime (Tenant_CreatedAt r)); ("updated_at", VTime (Tenant_UpdatedAt r));
    ("created_by", VText (Tenant_CreatedBy r)); ("updated_by", VText (Tenant_UpdatedBy r))] |}.

Definition membership_tags : list string :=
  ["id"; "tenant_id"; "user_id"; "status"; "primary_organization_unit_id"; "joined_at"; "version";
   "created_at"; "updated_at"; "created_by"; "updated_by"].
#[export] Instance scan_Membership : Scan Membership := λ r,
  known membership_tags r (
    let! id := text_field "id" r in let! tenant := text_field "tenant_id" r in
    let! user := text_field "user_id" r in let! status := text_field "status" r in
    let! unit := text_field "primary_organization_unit_id" r in
    let! joined := time_field "joined_at" r in let! version := int_field "version" r in
    let! created := time_field "created_at" r in let! updated := time_field "updated_at" r in
    let! creator := text_field "created_by" r in let! updater := text_field "updated_by" r in
    Ok (Build_Membership id tenant user status unit joined version created updated creator updater)).
#[export] Instance Membership_stored : Stored Membership := {|
  table_name := "memberships"; columns := membership_tags;
  to_row r := [
    ("id", VText (Membership_ID r)); ("tenant_id", VText (Membership_TenantID r));
    ("user_id", VText (Membership_UserID r)); ("status", VText (Membership_Status r));
    ("primary_organization_unit_id", nullable (Membership_PrimaryOrganizationUnitID r));
    ("joined_at", VTime (Membership_JoinedAt r)); ("version", VInt (Membership_Version r));
    ("created_at", VTime (Membership_CreatedAt r)); ("updated_at", VTime (Membership_UpdatedAt r));
    ("created_by", VText (Membership_CreatedBy r)); ("updated_by", VText (Membership_UpdatedBy r))] |}.

Definition unit_tags : list string :=
  ["id"; "tenant_id"; "parent_id"; "code"; "name"; "path"; "status"; "version"; "created_at";
   "updated_at"; "created_by"; "updated_by"].
Definition unit_of (r : row) : result OrganizationUnit :=
  let! id := text_field "id" r in let! tenant := text_field "tenant_id" r in
  let! parent := text_field "parent_id" r in let! code := text_field "code" r in
  let! name := text_field "name" r in let! path := text_field "path" r in
  let! status := text_field "status" r in let! version := int_field "version" r in
  let! created := time_field "created_at" r in let! updated := time_field "updated_at" r in
  let! creator := text_field "created_by" r in let! updater := text_field "updated_by" r in
  Ok (Build_OrganizationUnit id tenant parent code name path status version created updated creator updater).
#[export] Instance scan_OrganizationUnit : Scan OrganizationUnit := λ r, known unit_tags r (unit_of r).
(** [organizationChildRow], which embeds the unit. *)
#[export] Instance scan_organizationChildRow : Scan (OrganizationUnit * bool) := λ r,
  known ("has_children" :: unit_tags) r (
    let! u := unit_of r in let! b := bool_field "has_children" r in Ok (u, b)).
#[export] Instance OrganizationUnit_stored : Stored OrganizationUnit := {|
  table_name := "organization_units"; columns := unit_tags;
  to_row r := [
    ("id", VText (OrganizationUnit_ID r)); ("tenant_id", VText (OrganizationUnit_TenantID r));
    ("parent_id", nullable (OrganizationUnit_ParentID r)); ("code", VText (OrganizationUnit_Code r));
    ("name", VText (OrganizationUnit_Name r)); ("path", VText (OrganizationUnit_Path r));
    ("status", VText (OrganizationUnit_Status r)); ("version", VInt (OrganizationUnit_Version r));
    ("created_at", VTime (OrganizationUnit_CreatedAt r)); ("updated_at", VTime (OrganizationUnit_UpdatedAt r));
    ("created_by", VText (OrganizationUnit_CreatedBy r)); ("updated_by", VText (OrganizationUnit_UpdatedBy r))] |}.

Definition invitation_tags : list string :=
  ["id"; "tenant_id"; "email"; "token_hash"; "status"; "expires_at"; "accepted_by_user_id"; "version";
   "created_at"; "updated_at"; "created_by"; "updated_by"].
#[export] Instance scan_Invitation : Scan Invitation := λ r,
  known invitation_tags r (
    let! id := text_field "id" r in let! tenant := text_field "tenant_id" r in
    let! email := text_field "email" r in let! hash := text_field "token_hash" r in
    let! status := text_field "status" r in let! expires := time_field "expires_at" r in
    let! user := text_field "accepted_by_user_id" r in let! version := int_field "version" r in
    let! created := time_field "created_at" r in let! updated := time_field "updated_at" r in
    let! creator := text_field "created_by" r in let! updater := text_field "updated_by" r in
    Ok (Build_Invitation id tenant email hash status expires user version created updated creator updater)).
#[export] Instance Invitation_stored : Stored Invitation := {|
  table_name := "invitations"; columns := invitation_tags;
  to_row r := [
    ("id", VText (Invitation_ID r)); ("tenant_id", VText (Invitation_TenantID r));
    ("email", VText (Invitation_Email r)); ("token_hash", VText (Invitation_TokenHash r));
    ("status", VText (Invitation_Status r)); ("expires_at", VTime (Invitation_ExpiresAt r));
    ("accepted_by_user_id", nullable (Invitation_AcceptedByUserID r)); ("version", VInt (Invitation_Version r));
    ("created_at", VTime (Invitation_CreatedAt r)); ("updated_at", VTime (Invitation_UpdatedAt r));
    ("created_by", VText (Invitation_CreatedBy r)); ("updated_by", VText (Invitation_UpdatedBy r))] |}.

Definition group_tags : list string :=
  ["id"; "tenant_id"; "code"; "name"; "status"; "version"; "created_at"; "updated_at"; "created_by"; "updated_by"].
#[export] Instance scan_Group : Scan Group := λ r,
  known group_tags r (
    let! id := text_field "id" r in let! tenant := text_field "tenant_id" r in
    let! code := text_field "code" r in let! name := text_field "name" r in
    let! status := text_field "status" r in let! version := int_field "version" r in
    let! created := time_field "created_at" r in let! updated := time_field "updated_at" r in
    let! creator := text_field "created_by" r in let! updater := text_field "updated_by" r in
    Ok (Build_Group id tenant code name status version created updated creator updater)).
#[export] Instance Group_stored : Stored Group := {|
  table_name := "member_groups"; columns := group_tags;
  to_row r := [
    ("id", VText (Group_ID r)); ("tenant_id", VText (Group_TenantID r)); ("code", VText (Group_Code r));
    ("name", VText (Group_Name r)); ("status", VText (Group_Status r)); ("version", VInt (Group_Version r));
    ("created_at", VTime (Group_CreatedAt r)); ("updated_at", VTime (Group_UpdatedAt r));
    ("created_by", VText (Group_CreatedBy r)); ("updated_by", VText (Group_UpdatedBy r))] |}.

Definition group_member_tags : list string :=
  ["id"; "tenant_id"; "group_id"; "membership_id"; "status"; "version"; "created_at"; "updated_at";
   "created_by"; "updated_by"].
#[export] Instance scan_GroupMember : Scan GroupMember := λ r,
  known group_member_tags r (
    let! id := text_field "id" r in let! tenant := text_field "tenant_id" r in
    let! group := text_field "group_id" r in let! member := text_field "membership_id" r in
    let! status := text_field "status" r in let! version := int_field "version" r in
    let! created := time_field "created_at" r in let! updated := time_field "updated_at" r in
    let! creator := text_field "created_by" r in let! updater := text_field "updated_by" r in
    Ok (Build_GroupMember id tenant group member status version created updated creator updater)).
#[export] Instance GroupMember_stored : Stored GroupMember := {|
  table_name := "group_members"; columns := group_member_tags;
  to_row r := [
    ("id", VText (GroupMember_ID r)); ("tenant_id", VText (GroupMember_TenantID r));
    ("group_id", VText (GroupMember_GroupID r)); ("membership_id", VText (GroupMember_MembershipID r));
    ("status", VText (GroupMember_Status r)); ("version", VInt (GroupMember_Version r));
    ("created_at", VTime (GroupMember_CreatedAt r)); ("updated_at", VTime (GroupMember_UpdatedAt r));
    ("created_by", VText (GroupMember_CreatedBy r)); ("updated_by", VText (GroupMember_UpdatedBy r))] |}.

Definition quota_tags : list string :=
  ["tenant_id"; "quota_key"; "limit_value"; "used_value"; "version"; "created_at"; "updated_at";
   "created_by"; "updated_by"].
#[export] Instance scan_Quota : Scan Quota := λ r,
  known quota_tags r (
    let! tenant := text_field "tenant_id" r in let! key := text_field "quota_key" r in
    let! limit := int_field "limit_value" r in let! used := int_field "used_value" r in
    let! version := int_field "version" r in
    let! created := time_field "created_at" r in let! updated := time_field "updated_at" r in
    let! creator := text_field "created_by" r in let! updater := text_field "updated_by" r in
    Ok (Build_Quota tenant key limit used version created updated creator updater)).
#[export] Instance Quota_stored : Stored Quota := {|
  table_name := "tenant_quotas"; columns := quota_tags;
  to_row r := [
    ("tenant_id", VText (Quota_TenantID r)); ("quota_key", VText (Quota_Key r));
    ("limit_value", VInt (Quota_Limit r)); ("used_value", VInt (Quota_Used r));
    ("version", VInt (Quota_Version r));
    ("created_at", VTime (Quota_CreatedAt r)); ("updated_at", VTime (Quota_UpdatedAt r));
    ("created_by", VText (Quota_CreatedBy r)); ("updated_by", VText (Quota_UpdatedBy r))] |}.

(** The outbox is only written to. *)
#[export] Instance OutboxRow_stored : Stored OutboxRow := {|
  table_name := "tenant_outbox_events";
  columns := ["id"; "subject"; "envelope"; "attempts"; "available_at"; "published_at"; "last_error";
              "version"; "created_at"; "updated_at"; "created_by"; "updated_by"];
  to_row r := let e := OutboxRow_event r in [
    ("id", VText (OutboxEvent_ID e)); ("subject", VText (OutboxEvent_Subject e));
    ("envelope", VText (OutboxEvent_Envelope e)); ("attempts", VInt (OutboxRow_attempts r));
    ("available_at", VTime (OutboxEvent_AvailableAt e));
    ("published_at", match OutboxRow_published_at r with Some t => VTime t | None => VNull end);
    ("last_error", VText (OutboxRow_last_error r)); ("version", VInt (OutboxEvent_Version e));
    ("created_at", VTime (OutboxEvent_CreatedAt e)); ("updated_at", VTime (OutboxEvent_UpdatedAt e));
    ("created_by", VText (OutboxEvent_CreatedBy e)); ("updated_by", VText (OutboxEvent_UpdatedBy e))] |}.

(** One column, as [COUNT] and the list of identifiers have. *)
#[export] Instance scan_count : Scan Z := λ r, match r with [(_, VInt z)] => Ok z | _ => Err scan_error end.
#[export] Instance scan_id : Scan string := λ r, match r with [(_, VText s)] => Ok s | _ => Err scan_error end.

(** The tables of the database. *)
Definition table_of {R} `{Stored R} (l : list R) (others : tables) : tables := λ t,
  if t =?s table_name then Some (columns, to_row <$> l) else others t.
Definition db_tables (d : DB) : tables :=
  table_of (rows (tenants d))
  (table_of (rows (memberships d))
  (table_of (rows (organization_units d))
  (table_of (rows (invitations d))
  (table_of (rows (member_groups d))
  (table_of (rows (group_members d))
  (table_of (rows (tenant_quotas d))
  (table_of (tenant_outbox_events d) (λ _, None)))))))).

(** ** Columns *)

Definition tenantColumns : string := "id, code, name, status, version, created_at, updated_at, created_by, updated_by".
Definition membershipColumns : string := "id, tenant_id, user_id, status, primary_organization_unit_id, joined_at, version, created_at, updated_at, created_by, updated_by".
Definition membershipSelectColumns : string := "id, tenant_id, user_id, status, COALESCE(primary_organization_unit_id, '') AS primary_organization_unit_id, joined_at, version, created_at, updated_at, created_by, updated_by".
Definition organizationColumns : string := "id, tenant_id, COALESCE(parent_id, '') AS parent_id, code, name, path, status, version, created_at, updated_at, created_by, updated_by".
Definition invitationColumns : string := "id, tenant_id, email, token_hash, status, expires_at, COALESCE(accepted_by_user_id, '') AS accepted_by_user_id, version, created_at, updated_at, created_by, updated_by".
Definition groupColumns : string := "id, tenant_id, code, name, status, version, created_at, updated_at, created_by, updated_by".
Definition groupMemberColumns : string := "id, tenant_id, group_id, membership_id, status, version, created_at, updated_at, created_by, updated_by".
Definition quotaColumns : string := "tenant_id, quota_key, limit_value, used_value, version, created_at, updated_at, created_by, updated_by".

Definition prefixedTenantColumns (alias : string) : string :=
  alias +:+ ".id, " +:+ alias +:+ ".code, " +:+ alias +:+ ".name, " +:+ alias +:+ ".status, " +:+ alias
  +:+ ".version, " +:+ alias +:+ ".created_at, " +:+ alias +:+ ".updated_at, " +:+ alias
  +:+ ".created_by, " +:+ alias +:+ ".updated_by".

(** The columns of [ListOrganizationChildren]. *)
Definition selectedColumns : string := "unit.id, unit.tenant_id, COALESCE(unit.parent_id, '') AS parent_id, unit.code, unit.name, unit.path, unit.status, unit.version, unit.created_at, unit.updated_at, unit.created_by, unit.updated_by".

(** A text with its arguments. *)
Definition sent : Type := string * list value.

Module Text.
Section Reads.
Context `{Platform}.

(** ** Reads *)

(** [GetContext] scans the first row, [SelectContext] every row. *)
Definition GetContext {R} `{Scan R} (text : string) (args : list value) (d : DB) : result R :=
  let! rows := sql_query text args (db_tables d) in
  match rows with [] => Err (Sentinel ErrNoRows) | r :: _ => scan r end.
Definition SelectContext {R} `{Scan R} (text : string) (args : list value) (d : DB) : result (list R) :=
  let! rows := sql_query text args (db_tables d) in rmap scan rows.

(** [sqlx.In] refuses an empty slice. *)
Definition In (l : list string) : option goerr := if bool_decide (l = []) then Some empty_in else None.

(** A condition that is added to the text with its arguments unless the filter is empty. *)
Definition filtered (filter text : string) (args : list value) (q : sent) : sent :=
  if filter =?s "" then q else (fst q +:+ text, snd q ++ args).

Definition GetTenant (id : string) : prog (result Tenant) :=
  r <- query (GetContext ("SELECT " +:+ tenantColumns +:+ " FROM tenants WHERE id = ?") [VText id]);;
  Ret (get_result r "select tenant").

Definition GetMembership (id : string) : prog (result Membership) :=
  r <- query (GetContext ("SELECT " +:+ membershipSelectColumns +:+ " FROM memberships WHERE id = ?") [VText id]);;
  Ret (get_result r "select membership").

Definition ValidateMembership (userID tenantID : string) : prog (Tenant * Membership * option goerr) :=
  membership <-? query (GetContext
      ("SELECT " +:+ membershipSelectColumns +:+ " FROM memberships WHERE user_id = ? AND tenant_id = ? AND status = 'active'")
      [VText userID; VText tenantID]) else err =>
    Ret (Tenant0, Membership0, Some (mapNotFound err "validate membership"));;
  r <- GetTenant tenantID;;
  Ret (match r with Ok t => (t, membership, None) | Err e => (Tenant0, membership, Some e) end).

Definition ListUserTenants (userID : string) (limit offset : Z) : prog (result (list Tenant * Z)) :=
  total <-? query (GetContext
      "SELECT COUNT(*) FROM memberships m JOIN tenants t ON t.id = m.tenant_id WHERE m.user_id = ? AND m.status = 'active' AND t.status = 'active'"
      [VText userID]) else err =>
    Ret (Err (Wrapped "count user tenants" err));;
  items <-? query (SelectContext
      ("SELECT " +:+ prefixedTenantColumns "t" +:+ " FROM memberships m JOIN tenants t ON t.id = m.tenant_id WHERE m.user_id = ? AND m.status = 'active' AND t.status = 'active' ORDER BY t.created_at DESC, t.id DESC LIMIT ? OFFSET ?")
      [VText userID; VInt limit; VInt offset]) else err =>
    Ret (Err (Wrapped "list user tenants" err));;
  Ret (Ok (items, total)).

(** [SELECT COUNT( * )] and then a page of the same rows. *)
Definition count_and_page {R} `{Scan R} (columns table : string) (q : sent) (order : string)
    (limit offset : Z) (counting listing : string) : prog (result (list R * Z)) :=
  total <-? query (GetContext ("SELECT COUNT(*) FROM " +:+ table +:+ fst q) (snd q)) else err =>
    Ret (Err (Wrapped counting err));;
  items <-? query (SelectContext
      ("SELECT " +:+ columns +:+ " FROM " +:+ table +:+ fst q +:+ " ORDER BY " +:+ order +:+ " LIMIT ? OFFSET ?")
      (snd q ++ [VInt limit; VInt offset])) else err =>
    Ret (Err (Wrapped listing err));;
  Ret (Ok (items, total)).

Definition ListMemberships (tenantID userID status : string) (limit offset : Z)
  : prog (result (list Membership * Z)) :=
  let conditions := filtered status " AND status = ?" [VText status]
    (filtered userID " AND user_id = ?" [VText userID] (" WHERE tenant_id = ?", [VText tenantID])) in
  count_and_page membershipSelectColumns "memberships" conditions "joined_at DESC, id DESC" limit offset
    "count memberships" "list memberships".

Definition BatchGetMemberships (tenantID : string) (ids : list string) : prog (result (list Membership)) :=
  guard In ids else err => Ret (Err (Wrapped "build batch membership query" err));;
  r <- query (SelectContext
    ("SELECT " +:+ membershipSelectColumns +:+ " FROM memberships WHERE tenant_id = ? AND id IN (?) ORDER BY id")
    [VText tenantID; VList ids]);;
  Ret (wrap_query r "batch get memberships").

Definition FindMembershipsByUserIDs (tenantID : string) (userIDs : list string) (status : string)
  : prog (result (list Membership)) :=
  let base := filtered status " AND status = ?" [VText status]
    ("SELECT " +:+ membershipSelectColumns +:+ " FROM memberships WHERE tenant_id = ? AND user_id IN (?)",
     [VText tenantID; VList userIDs]) in
  guard In userIDs else err => Ret (Err (Wrapped "build membership directory query" err));;
  r <- query (SelectContext (fst base +:+ " ORDER BY id") (snd base));;
  Ret (wrap_query r "find memberships by users").

(** A keyword in the code or the name. *)
Definition keyword_text (keyword : string) (q : sent) : sent :=
  let pattern := "%" +:+ keyword +:+ "%" in
  filtered keyword " AND (LOWER(code) LIKE LOWER(?) OR LOWER(name) LIKE LOWER(?))" [VText pattern; VText pattern] q.

Definition ListTenants (keyword status : string) (limit offset : Z) : prog (result (list Tenant * Z)) :=
  let conditions := keyword_text keyword (filtered status " AND status = ?" [VText status] (" WHERE 1=1", [])) in
  count_and_page tenantColumns "tenants" conditions "created_at DESC, id DESC" limit offset
    "count tenants" "list tenants".

Definition GetOrganizationUnit (id : string) : prog (result OrganizationUnit) :=
  r <- query (GetContext ("SELECT " +:+ organizationColumns +:+ " FROM organization_units WHERE id = ?") [VText id]);;
  Ret (get_result r "select organization unit").

Definition BatchGetOrganizationUnits (tenantID : string) (ids : list string) : prog (result (list OrganizationUnit)) :=
  guard In ids else err => Ret (Err (Wrapped "build batch organization unit query" err));;
  r <- query (SelectContext
    ("SELECT " +:+ organizationColumns +:+ " FROM organization_units WHERE tenant_id = ? AND id IN (?) ORDER BY id")
    [VText tenantID; VList ids]);;
  Ret (wrap_query r "batch get organization units").

Definition ListOrganizationUnits (tenantID : string) : prog (result (list OrganizationUnit)) :=
  r <- query (SelectContext
    ("SELECT " +:+ organizationColumns +:+ " FROM organization_units WHERE tenant_id = ? ORDER BY path, id")
    [VText tenantID]);;
  Ret (wrap_query r "list organization units").

Definition ListOrganizationChildren (tenantID parentID status : string) (limit : Z)
  : prog (result (list OrganizationTreeNode * bool)) :=
  let '(parentPredicate, args) :=
    if parentID =?s "" then ("unit.parent_id IS NULL", [VText tenantID])
    else ("unit.parent_id = ?", [VText tenantID; VText parentID]) in
  let '(statusPredicate, args, childArgs) :=
    if status =?s "" then ("", args, []) else (" AND unit.status = ?", args ++ [VText status], [VText status]) in
  rows <-? query (SelectContext
      ("SELECT " +:+ selectedColumns
       +:+ ", EXISTS (SELECT 1 FROM organization_units child WHERE child.tenant_id = unit.tenant_id AND child.parent_id = unit.id"
       +:+ (if status =?s "" then "" else " AND child.status = ?")
       +:+ ") AS has_children FROM organization_units unit WHERE unit.tenant_id = ? AND " +:+ parentPredicate
       +:+ statusPredicate +:+ " ORDER BY unit.path, unit.id LIMIT ?")
      (childArgs ++ args ++ [VInt (wrap64 (limit + 1))]))
    else err => Ret (Err (Wrapped "list organization children" err));;
  let truncated := (limit <? Z.of_nat (length rows))%Z in
  let rows := if truncated then take (Z.to_nat limit) rows else rows in
  Ret (Ok (map (λ '(u, hasChildren), Build_OrganizationTreeNode u [] hasChildren) rows, truncated)).

(** The slices of ancestors, read by [BatchGetOrganizationUnits]. *)
Fixpoint fetch_ancestors (tenantID status : string) (slices : list (list string))
    (byID : gmap string OrganizationUnit) : prog (result (gmap string OrganizationUnit)) :=
  match slices with
  | [] => Ret (Ok byID)
  | slice :: slices' =>
      ancestors <-? BatchGetOrganizationUnits tenantID slice else err => Ret (Err err);;
      fetch_ancestors tenantID status slices'
        (foldl (λ m item,
           if (status =?s "") || (OrganizationUnit_Status item =?s status)
           then <[OrganizationUnit_ID item := item]> m else m) byID ancestors)
  end.

Definition SearchOrganizationUnitsWithAncestors (tenantID keyword status : string) (limit : Z)
  : prog (result (list OrganizationUnit * bool)) :=
  let conditions := filtered status " AND status = ?" [VText status] ("tenant_id = ?", [VText tenantID]) in
  let keyword := ToLower (TrimSpace keyword) in
  let like := "%" +:+ keyword +:+ "%" in
  let conditions := filtered keyword " AND (LOWER(code) LIKE ? OR LOWER(name) LIKE ?)" [VText like; VText like] conditions in
  matches <-? query (SelectContext
      ("SELECT " +:+ organizationColumns +:+ " FROM organization_units WHERE " +:+ fst conditions
       +:+ " ORDER BY path, id LIMIT ?")
      (snd conditions ++ [VInt (wrap64 (limit + 1))]))
    else err => Ret (Err (Wrapped "search organization units" err));;
  let truncated := (limit <? Z.of_nat (length matches))%Z in
  let matches := if truncated then take (Z.to_nat limit) matches else matches in
  let byID := foldl (λ m item, <[OrganizationUnit_ID item := item]> m) ∅ matches in
  let '(byID, ancestorIDs) := foldl note_ancestors (byID, []) matches in
  byID <-? fetch_ancestors tenantID status (chunks500 (length ancestorIDs) ancestorIDs) byID
    else err => Ret (Err err);;
  let items := List.filter (λ item, OrganizationUnit_TenantID item <>?s "") (rows byID) in
  Ret (Ok (sortOrganizationUnits items "path" false, truncated)).

Definition ResolveOrganizationScope (tenantID rootPath : string) : prog (result (list string)) :=
  r <- query (SelectContext
    "SELECT id FROM organization_units WHERE tenant_id = ? AND path LIKE ? AND status = 'active' ORDER BY path, id"
    [VText tenantID; VText (rootPath +:+ "%")]);;
  Ret (wrap_query r "resolve organization scope").

Definition GetInvitation (id : string) : prog (result Invitation) :=
  r <- query (GetContext ("SELECT " +:+ invitationColumns +:+ " FROM invitations WHERE id = ?") [VText id]);;
  Ret (get_result r "select invitation").

Definition GetInvitationByTokenHash (hash : string) : prog (result Invitation) :=
  r <- query (GetContext ("SELECT " +:+ invitationColumns +:+ " FROM invitations WHERE token_hash = ?") [VText hash]);;
  Ret (get_result r "select invitation by token").

Definition ListInvitations (tenantID : string) (limit offset : Z) : prog (result (list Invitation * Z)) :=
  count_and_page invitationColumns "invitations" (" WHERE tenant_id = ?", [VText tenantID])
    "created_at DESC, id DESC" limit offset "count invitations" "list invitations".

Definition GetGroup (id : string) : prog (result Group) :=
  r <- query (GetContext ("SELECT " +:+ groupColumns +:+ " FROM member_groups WHERE id = ?") [VText id]);;
  Ret (get_result r "select member group").

Definition ListGroups (tenantID : string) : prog (result (list Group)) :=
  r <- query (SelectContext
    ("SELECT " +:+ groupColumns +:+ " FROM member_groups WHERE tenant_id = ? ORDER BY created_at, id") [VText tenantID]);;
  Ret (wrap_query r "list member groups").

Definition SearchGroups (tenantID keyword status : string) (limit offset : Z) : prog (result (list Group * Z)) :=
  let conditions := keyword_text keyword
    (filtered status " AND status = ?" [VText status] (" WHERE tenant_id = ?", [VText tenantID])) in
  count_and_page groupColumns "member_groups" conditions "created_at DESC, id DESC" limit offset
    "count member groups" "search member groups".

Definition GetGroupMember (groupID membershipID : string) : prog (result GroupMember) :=
  r <- query (GetContext
    ("SELECT " +:+ groupMemberColumns +:+ " FROM group_members WHERE group_id = ? AND membership_id = ?")
    [VText groupID; VText membershipID]);;
  Ret (get_result r "select group member").

Definition ListGroupMembers (groupID : string) : prog (result (list GroupMember)) :=
  r <- query (SelectContext
    ("SELECT " +:+ groupMemberColumns +:+ " FROM group_members WHERE group_id = ? ORDER BY created_at, id")
    [VText groupID]);;
  Ret (wrap_query r "list group members").

Definition BatchGetGroupMembers (groupID : string) (membershipIDs : list string) : prog (result (list GroupMember)) :=
  guard In membershipIDs else err => Ret (Err (Wrapped "build batch group member query" err));;
  r <- query (SelectContext
    ("SELECT " +:+ groupMemberColumns +:+ " FROM group_members WHERE group_id = ? AND membership_id IN (?) ORDER BY id")
    [VText groupID; VList membershipIDs]);;
  Ret (wrap_query r "batch get group members").

Definition GetQuota (tenantID key : string) : prog (result Quota) :=
  r <- query (GetContext
    ("SELECT " +:+ quotaColumns +:+ " FROM tenant_quotas WHERE tenant_id = ? AND quota_key = ?")
    [VText tenantID; VText key]);;
  Ret (get_result r "select tenant quota").

Definition ListQuotas (tenantID keyword : string) (limit offset : Z) : prog (result (list Quota * Z)) :=
  let conditions := filtered keyword " AND LOWER(quota_key) LIKE LOWER(?)" [VText ("%" +:+ keyword +:+ "%")]
    (" WHERE tenant_id = ?", [VText tenantID]) in
  count_and_page quotaColumns "tenant_quotas" conditions "quota_key, tenant_id" limit offset
    "count tenant quotas" "list tenant quotas".

End Reads.

(** ** Writes: a text with its arguments *)

Definition CreateTenant (value : Tenant) : sent := (
  "INSERT INTO tenants (" +:+ tenantColumns +:+ ") VALUES (?, ?, ?, ?, ?, ?, ?, ?, ?)",
  [VText (Tenant_ID value); VText (Tenant_Code value); VText (Tenant_Name value); VText (Tenant_Status value);
   VInt (Tenant_Version value); VTime (Tenant_CreatedAt value); VTime (Tenant_UpdatedAt value);
   VText (Tenant_CreatedBy value); VText (Tenant_UpdatedBy value)]).

Definition CreateMembership (value : Membership) : sent := (
  "INSERT INTO memberships (" +:+ membershipColumns +:+ ") VALUES (?, ?, ?, ?, ?, ?, ?, ?, ?, ?, ?)",
  [VText (Membership_ID value); VText (Membership_TenantID value); VText (Membership_UserID value);
   VText (Membership_Status value); nullable (Membership_PrimaryOrganizationUnitID value);
   VTime (Membership_JoinedAt value); VInt (Membership_Version value); VTime (Membership_CreatedAt value);
   VTime (Membership_UpdatedAt value); VText (Membership_CreatedBy value); VText (Membership_UpdatedBy value)]).

Definition UpdateTenant (value : Tenant) : sent := (
  "UPDATE tenants SET name = ?, status = ?, version = version + 1, updated_at = ?, updated_by = ? WHERE id = ? AND version = ?",
  [VText (Tenant_Name value); VText (Tenant_Status value); VTime (Tenant_UpdatedAt value);
   VText (Tenant_UpdatedBy value); VText (Tenant_ID value); VInt (Tenant_Version value)]).

Definition UpdateMembership (value : Membership) : sent := (
  "UPDATE memberships SET status = ?, primary_organization_unit_id = ?, version = version + 1, updated_at = ?, updated_by = ? WHERE id = ? AND version = ?",
  [VText (Membership_Status value); nullable (Membership_PrimaryOrganizationUnitID value);
   VTime (Membership_UpdatedAt value); VText (Membership_UpdatedBy value); VText (Membership_ID value);
   VInt (Membership_Version value)]).

Definition AddOutbox (event : OutboxEvent) : sent := (
  "INSERT INTO tenant_outbox_events (id, subject, envelope, attempts, available_at, published_at, last_error, version, created_at, updated_at, created_by, updated_by) VALUES (?, ?, ?, 0, ?, NULL, '', ?, ?, ?, ?, ?)",
  [VText (OutboxEvent_ID event); VText (OutboxEvent_Subject event); VText (OutboxEvent_Envelope event);
   VTime (OutboxEvent_AvailableAt event); VInt (OutboxEvent_Version event); VTime (OutboxEvent_CreatedAt event);
   VTime (OutboxEvent_UpdatedAt event); VText (OutboxEvent_CreatedBy event); VText (OutboxEvent_UpdatedBy event)]).

Definition CreateOrganizationUnit (value : OrganizationUnit) : sent := (
  "INSERT INTO organization_units (id, tenant_id, parent_id, code, name, path, status, version, created_at, updated_at, created_by, updated_by) VALUES (?, ?, ?, ?, ?, ?, ?, ?, ?, ?, ?, ?)",
  [VText (OrganizationUnit_ID value); VText (OrganizationUnit_TenantID value);
   nullable (OrganizationUnit_ParentID value); VText (OrganizationUnit_Code value);
   VText (OrganizationUnit_Name value); VText (OrganizationUnit_Path value); VText (OrganizationUnit_Status value);
   VInt (OrganizationUnit_Version value); VTime (OrganizationUnit_CreatedAt value);
   VTime (OrganizationUnit_UpdatedAt value); VText (OrganizationUnit_CreatedBy value);
   VText (OrganizationUnit_UpdatedBy value)]).

(** The two statements of [UpdateOrganizationUnit]. *)
Definition UpdateOrganizationUnit (value : OrganizationUnit) : sent := (
  "UPDATE organization_units SET parent_id = ?, name = ?, path = ?, status = ?, version = version + 1, updated_at = ?, updated_by = ? WHERE id = ? AND version = ?",
  [nullable (OrganizationUnit_ParentID value); VText (OrganizationUnit_Name value);
   VText (OrganizationUnit_Path value); VText (OrganizationUnit_Status value);
   VTime (OrganizationUnit_UpdatedAt value); VText (OrganizationUnit_UpdatedBy value);
   VText (OrganizationUnit_ID value); VInt (OrganizationUnit_Version value)]).

Definition descendantMoveSQL (driver : string) : string :=
  if driver =?s "mysql" then
    "UPDATE organization_units SET path = CONCAT(?, SUBSTRING(path, ?)), version = version + 1, updated_at = ?, updated_by = ? WHERE tenant_id = ? AND path LIKE ? AND id <> ?"
  else
    "UPDATE organization_units SET path = ? || SUBSTRING(path FROM CAST(? AS INTEGER)), version = version + 1, updated_at = ?, updated_by = ? WHERE tenant_id = ? AND path LIKE ? AND id <> ?".

Definition move_descendants (driver : string) (value : OrganizationUnit) (oldPath : string)
  : sent := (
  descendantMoveSQL driver,
  [VText (OrganizationUnit_Path value); VInt (Z.of_nat (String.length oldPath) + 1);
   VTime (OrganizationUnit_UpdatedAt value); VText (OrganizationUnit_UpdatedBy value);
   VText (OrganizationUnit_TenantID value); VText (oldPath +:+ "%"); VText (OrganizationUnit_ID value)]).

Definition CreateInvitation (value : Invitation) : sent := (
  "INSERT INTO invitations (id, tenant_id, email, token_hash, status, expires_at, accepted_by_user_id, version, created_at, updated_at, created_by, updated_by) VALUES (?, ?, ?, ?, ?, ?, ?, ?, ?, ?, ?, ?)",
  [VText (Invitation_ID value); VText (Invitation_TenantID value); VText (Invitation_Email value);
   VText (Invitation_TokenHash value); VText (Invitation_Status value); VTime (Invitation_ExpiresAt value);
   nullable (Invitation_AcceptedByUserID value); VInt (Invitation_Version value);
   VTime (Invitation_CreatedAt value); VTime (Invitation_UpdatedAt value); VText (Invitation_CreatedBy value);
   VText (Invitation_UpdatedBy value)]).

Definition UpdateInvitation (value : Invitation) : sent := (
  "UPDATE invitations SET status = ?, accepted_by_user_id = ?, version = version + 1, updated_at = ?, updated_by = ? WHERE id = ? AND version = ?",
  [VText (Invitation_Status value); nullable (Invitation_AcceptedByUserID value);
   VTime (Invitation_UpdatedAt value); VText (Invitation_UpdatedBy value); VText (Invitation_ID value);
   VInt (Invitation_Version value)]).

Definition CreateGroup (value : Group) : sent := (
  "INSERT INTO member_groups (" +:+ groupColumns +:+ ") VALUES (?, ?, ?, ?, ?, ?, ?, ?, ?, ?)",
  [VText (Group_ID value); VText (Group_TenantID value); VText (Group_Code value); VText (Group_Name value);
   VText (Group_Status value); VInt (Group_Version value); VTime (Group_CreatedAt value);
   VTime (Group_UpdatedAt value); VText (Group_CreatedBy value); VText (Group_UpdatedBy value)]).

Definition UpdateGroup (value : Group) : sent := (
  "UPDATE member_groups SET name = ?, status = ?, version = version + 1, updated_at = ?, updated_by = ? WHERE id = ? AND version = ?",
  [VText (Group_Name value); VText (Group_Status value); VTime (Group_UpdatedAt value);
   VText (Group_UpdatedBy value); VText (Group_ID value); VInt (Group_Version value)]).

Definition createGroupMemberSQL : string :=
  "INSERT INTO group_members (" +:+ groupMemberColumns +:+ ") VALUES (?, ?, ?, ?, ?, ?, ?, ?, ?, ?)".
Definition CreateGroupMember (value : GroupMember) : sent := (
  createGroupMemberSQL,
  [VText (GroupMember_ID value); VText (GroupMember_TenantID value); VText (GroupMember_GroupID value);
   VText (GroupMember_MembershipID value); VText (GroupMember_Status value); VInt (GroupMember_Version value);
   VTime (GroupMember_CreatedAt value); VTime (GroupMember_UpdatedAt value); VText (GroupMember_CreatedBy value);
   VText (GroupMember_UpdatedBy value)]).

Definition UpdateGroupMember (value : GroupMember) : sent := (
  "UPDATE group_members SET status = ?, version = version + 1, updated_at = ?, updated_by = ? WHERE id = ? AND version = ?",
  [VText (GroupMember_Status value); VTime (GroupMember_UpdatedAt value); VText (GroupMember_UpdatedBy value);
   VText (GroupMember_ID value); VInt (GroupMember_Version value)]).

Definition CreateQuota (value : Quota) : sent := (
  "INSERT INTO tenant_quotas (" +:+ quotaColumns +:+ ") VALUES (?, ?, ?, ?, ?, ?, ?, ?, ?)",
  [VText (Quota_TenantID value); VText (Quota_Key value); VInt (Quota_Limit value); VInt (Quota_Used value);
   VInt (Quota_Version value); VTime (Quota_CreatedAt value); VTime (Quota_UpdatedAt value);
   VText (Quota_CreatedBy value); VText (Quota_UpdatedBy value)]).

Definition UpdateQuota (value : Quota) : sent := (
  "UPDATE tenant_quotas SET limit_value = ?, version = version + 1, updated_at = ?, updated_by = ? WHERE tenant_id = ? AND quota_key = ? AND version = ?",
  [VInt (Quota_Limit value); VTime (Quota_UpdatedAt value); VText (Quota_UpdatedBy value);
   VText (Quota_TenantID value); VText (Quota_Key value); VInt (Quota_Version value)]).

Definition ConsumeQuota (tenantID key : string) (amount now : Z) (actor : string) : sent := (
  "UPDATE tenant_quotas SET used_value = used_value + ?, version = version + 1, updated_at = ?, updated_by = ? WHERE tenant_id = ? AND quota_key = ? AND used_value + ? <= limit_value",
  [VInt amount; VTime now; VText actor; VText tenantID; VText key; VInt amount]).

(** The read at the end of [ConsumeQuota], in its transaction. *)
Definition consumed (tenantID key : string) : sent := (
  "SELECT " +:+ quotaColumns +:+ " FROM tenant_quotas WHERE tenant_id = ? AND quota_key = ?",
  [VText tenantID; VText key]).

End Text.
