(* ===== verification/SqlProofs.v ===== *)
(** * The reads of the repository mean what their SQL says

    [Repository] gives the statements of [internal/tenant/repository.go] a meaning by hand;
    [SqlText] keeps their texts, which [Sql] parses and executes on tables of rows. The reads
    answer the same on every database that meets the invariant. *)

From stdpp Require Import base gmap list strings sorting.
From S2P Require Import Prelude GoErrors Model Store Effects Platform Repository Tables Sql.
From S2P Require Import Invariants SqlText.

(** ** Reading rows *)

Lemma rfilter_fmap {A B} (g : A → B) (f : B → result bool) (p : A → bool) l :
  (∀ x, x ∈ l → f (g x) = Ok (p x)) → rfilter f (g <$> l) = Ok (g <$> List.filter p l).
Proof.
  intros Hf. induction l as [|x l IH]; [done|]. csimpl. rewrite Hf by by left. simpl.
  rewrite IH by (intros y Hy; apply Hf; by right). simpl. by destruct (p x).
Qed.

Lemma rmap_fmap {A B C} (g : A → B) (f : B → result C) (h : A → C) l :
  (∀ x, x ∈ l → f (g x) = Ok (h x)) → rmap f (g <$> l) = Ok (h <$> l).
Proof.
  intros Hf. induction l as [|x l IH]; [done|]. csimpl. rewrite Hf by by left. simpl.
  by rewrite IH by (intros y Hy; apply Hf; by right).
Qed.

Lemma rmap_rmap {A B C D} (k : A → B) (f : B → result C) (g : C → result D) (h : A → D) l :
  (∀ x, x ∈ l → (let! y := f (k x) in g y) = Ok (h x)) →
  (let! ys := rmap f (k <$> l) in rmap g ys) = Ok (h <$> l).
Proof.
  induction l as [|x l IH]; intros Hf; [done|]. csimpl.
  pose proof (Hf x (list_elem_of_here _ _)) as Hx. destruct (f (k x)) as [y|e]; [|done].
  specialize (IH (λ z Hz, Hf z (list_elem_of_further _ _ _ Hz))).
  destruct (rmap f (k <$> l)) as [ys|e]; [|done]. simpl in *. by rewrite Hx, IH.
Qed.

Section Sorting.
Context {A B : Type} (le : A → A → bool) (le' : B → B → bool) (g : A → B).
Hypothesis Hle : ∀ a b, le' (g a) (g b) = le a b.

Lemma list_merge_fmap l1 l2 :
  list_merge (brel le') (g <$> l1) (g <$> l2) = g <$> list_merge (brel le) l1 l2.
Proof using Hle.
  revert l2. induction l1 as [|x l1 IH1]; [by intros []|]. induction l2 as [|y l2 IH2]; [done|]. simpl in *.
  destruct (decide (brel le x y)) as [Hxy|Hxy]; unfold brel in *.
  - rewrite decide_True by by rewrite Hle. simpl. f_equal. apply (IH1 (y :: l2)).
  - rewrite decide_False by by rewrite Hle. simpl. f_equal. apply IH2.
Qed.

Notation gs := (fmap (fmap (M := option) (fmap (M := list) g))).

Lemma merge_list_to_stack_fmap st l :
  merge_list_to_stack (brel le') (gs st) (g <$> l) = gs (merge_list_to_stack (brel le) st l).
Proof using Hle.
  revert l. induction st as [|[l'|] st IH]; intros l; [done| |done]. csimpl. by rewrite list_merge_fmap, IH.
Qed.

Lemma merge_stack_fmap st : merge_stack (brel le') (gs st) = g <$> merge_stack (brel le) st.
Proof using Hle. induction st as [|[l|] st IH]; [done| |done]. csimpl. by rewrite IH, list_merge_fmap. Qed.

Lemma sort_by_fmap l : sort_by le' (g <$> l) = g <$> sort_by le l.
Proof using Hle.
  unfold sort_by, merge_sort. change [] with (gs ([] : list (option (list A)))) at 1.
  generalize ([] : list (option (list A))). induction l as [|x l IH]; intros st; csimpl.
  - apply merge_stack_fmap.
  - rewrite <- IH. f_equal. apply (merge_list_to_stack_fmap st [x]).
Qed.

End Sorting.

Lemma limit_offset_fmap {A B} (g : A → B) n m l :
  limit_offset n m (g <$> l) = result_map (fmap g) (limit_offset n m l).
Proof.
  unfold limit_offset. rewrite length_fmap. repeat (case_match; try done). simpl.
  by rewrite fmap_take, fmap_drop.
Qed.

Lemma elem_of_limit_offset {A} n m (l l' : list A) x : limit_offset n m l = Ok l' → x ∈ l' → x ∈ l.
Proof.
  unfold limit_offset. repeat (case_match; try done); intros [= <-] Hx; [by apply elem_of_nil in Hx|].
  by eapply (subseteq_drop _ l), subseteq_take.
Qed.

(** The rows of a statement [SELECT items FROM t WHERE cond ORDER BY order] with a limit, scanned. *)
Definition cut {R} (lim : option (Z * Z)) (l : list R) : result (list R) :=
  match lim with Some (n, m) => limit_offset n m l | None => Ok l end.

Section Selecting.
Context `{Platform} {R A : Type} `{Scan A} (D : tables) (args : list value) (g : R → row).

Lemma select_answer items from cond order limit offset rs p le lim (f : R → A) :
  source_rows D args from = Ok (g <$> rs) →
  (∀ r, r ∈ rs → holds D args cond (g r) = Ok (p r)) →
  (∀ a b, order_le order (g a) (g b) = le a b) →
  (∀ X (l : list X), limited D args limit offset l = cut lim l) →
  (∀ r, r ∈ rs → (let! x := item_row D args items (g r) in scan x) = Ok (f r)) →
  (let! l := answer_rows D args (SSelect items from cond order limit offset) in rmap scan l)
  = result_map (fmap f) (cut lim (match order with [] => List.filter p rs | _ => sort_by le (List.filter p rs) end)).
Proof.
  intros Hfrom Hcond Hord Hlim Hitem. simpl. rewrite Hfrom. simpl. rewrite (rfilter_fmap g _ p) by done. simpl.
  rewrite Hlim.
  assert (Hs : match order with [] => g <$> List.filter p rs | _ => sort_by (order_le order) (g <$> List.filter p rs) end
    = g <$> match order with [] => List.filter p rs | _ => sort_by le (List.filter p rs) end)
    by (destruct order; [done|by rewrite (sort_by_fmap le)]).
  rewrite Hs. set (l := match order with [] => List.filter p rs | _ => sort_by le (List.filter p rs) end).
  assert (Hl : ∀ r, r ∈ l → r ∈ rs).
  { intros r. subst l. destruct order; rewrite ?elem_of_sort_by, elem_of_filter_bool; tauto. }
  clearbody l. clear Hs Hfrom.
  assert (Hm : ∀ l', (∀ r, r ∈ l' → r ∈ rs) →
    (let! ys := rmap (item_row D args items) (g <$> l') in rmap scan ys) = Ok (f <$> l')).
  { intros l' Hl'. apply rmap_rmap. intros x Hx. apply Hitem, Hl', Hx. }
  destruct lim as [[n m]|]; simpl; [|by apply Hm].
  rewrite limit_offset_fmap. destruct (limit_offset n m l) as [l'|e] eqn:Hl'; [|done]. simpl. apply Hm.
  intros r Hr. eapply Hl, elem_of_limit_offset; done.
Qed.

Lemma count_answer from cond rs p :
  source_rows D args from = Ok (g <$> rs) →
  (∀ r, r ∈ rs → holds D args cond (g r) = Ok (p r)) →
  (let! l := answer_rows D args (SCount from cond) in
   match l with [] => Err (Sentinel ErrNoRows) | r :: _ => scan (R := Z) r end)
  = Ok (Z.of_nat (length (List.filter p rs))).
Proof.
  intros Hfrom Hcond. simpl. rewrite Hfrom. simpl. rewrite (rfilter_fmap g _ p) by done. simpl.
  by rewrite length_fmap.
Qed.

End Selecting.

(** ** The reads *)

(** Two programs that make the same reads of every database that meets the invariant, and do
    nothing else. *)
Inductive same_reads `{Platform} {A} : prog A → prog A → Prop :=
| same_return a : same_reads (Ret a) (Ret a)
| same_query X (q q' : DB → result X) k k' :
    (∀ d, inv d → q d = q' d) → (∀ r, same_reads (k r) (k' r)) → same_reads (Query q k) (Query q' k').

Section Context.
Context `{Platform} {R A : Type} `{Stored R, Scan A}.

Lemma SelectContext_select text args d items cond order limit offset rs p le lim (f : R → A) :
  prepare text args = Ok (SSelect items (From table_name None) cond order limit offset) →
  db_tables d table_name = Some (columns, to_row <$> rs) →
  (∀ r : R, holds (db_tables d) args cond (to_row r) = Ok (p r)) →
  (∀ a b : R, order_le order (to_row a) (to_row b) = le a b) →
  (∀ X (l : list X), limited (db_tables d) args limit offset l = cut lim l) →
  (∀ r, (let! x := item_row (db_tables d) args items (to_row r) in scan x) = Ok (f r)) →
  Text.SelectContext text args d
  = result_map (fmap f) (cut lim (match order with [] => List.filter p rs | _ => sort_by le (List.filter p rs) end)).
Proof.
  intros Hp Ht Hc Ho Hl Hi. unfold Text.SelectContext, sql_query. rewrite Hp. cbn [rbind].
  apply select_answer with (g := to_row); [|done..]. simpl. by rewrite Ht.
Qed.

Lemma GetContext_select text args d items cond rs p (f : R → A) :
  prepare text args = Ok (SSelect items (From table_name None) cond [] None None) →
  db_tables d table_name = Some (columns, to_row <$> rs) →
  (∀ r : R, holds (db_tables d) args cond (to_row r) = Ok (p r)) →
  (∀ r, (let! x := item_row (db_tables d) args items (to_row r) in scan x) = Ok (f r)) →
  Text.GetContext text args d = one_row (f <$> head (List.filter p rs)).
Proof.
  intros Hp Ht Hc Hi. unfold Text.GetContext, sql_query. rewrite Hp. cbn [rbind]. simpl. rewrite Ht. simpl.
  rewrite (rfilter_fmap to_row _ p) by done. simpl. destruct (List.filter p rs) as [|x l]; [done|]. csimpl.
  pose proof (Hi x) as Hx. destruct (item_row _ _ items (to_row x)) as [y|e]; [|done]. simpl.
  assert (∃ ys, rmap (item_row (db_tables d) args items) (to_row <$> l) = Ok ys) as [ys ->]; [|done].
  clear -Hi. induction l as [|z l [ys IH]]; [by eexists|]. csimpl. pose proof (Hi z) as Hz.
  destruct (item_row _ _ items (to_row z)) as [y|e]; [|done]. simpl. rewrite IH. by eexists.
Qed.

Lemma GetContext_count text args d cond rs p :
  prepare text args = Ok (SCount (From table_name None) cond) →
  db_tables d table_name = Some (columns, to_row <$> rs) →
  (∀ r : R, holds (db_tables d) args cond (to_row r) = Ok (p r)) →
  Text.GetContext text args d = Ok (Z.of_nat (length (List.filter p rs))).
Proof.
  intros Hp Ht Hc. unfold Text.GetContext, sql_query. rewrite Hp. cbn [rbind].
  apply count_answer with (g := to_row); [|done]. simpl. by rewrite Ht.
Qed.

Lemma SelectContext_mapped {K} `{Countable K} text args d items cond k order (t : gmap K R) p le (f : R → A) :
  prepare text args = Ok (SSelect items (From table_name None) cond (k :: order) None None) →
  db_tables d table_name = Some (columns, to_row <$> rows t) →
  (∀ r : R, holds (db_tables d) args cond (to_row r) = Ok (p r)) →
  (∀ a b : R, order_le (k :: order) (to_row a) (to_row b) = le a b) →
  (∀ r, (let! x := item_row (db_tables d) args items (to_row r) in scan x) = Ok (f r)) →
  Ok (map f (select p le t)) = Text.SelectContext text args d.
Proof.
  intros Hp Ht Hc Ho Hi.
  by rewrite (SelectContext_select text args d items cond (k :: order) None None (rows t) p le None f).
Qed.
End Context.

Section Tables.
Context `{Platform} {K R : Type} `{Countable K, Stored R, Scan R}.
Context (d : DB) (text : string) (args : list value) (t : gmap K R).
Context (items : list (expr * string)) (cond : expr) (p : R → bool) (le : R → R → bool).
Hypothesis Htable : db_tables d table_name = Some (columns, to_row <$> rows t).
Hypothesis Hcond : ∀ r : R, holds (db_tables d) args cond (to_row r) = Ok (p r).
Hypothesis Hitems : ∀ r : R, (let! x := item_row (db_tables d) args items (to_row r) in scan x) = Ok r.

Lemma SelectContext_cut k order limit offset lim :
  prepare text args = Ok (SSelect items (From table_name None) cond (k :: order) limit offset) →
  (∀ a b : R, order_le (k :: order) (to_row a) (to_row b) = le a b) →
  (∀ X (l : list X), limited (db_tables d) args limit offset l = cut lim l) →
  Text.SelectContext text args d = cut lim (select p le t).
Proof using Htable Hcond Hitems.
  intros Hp Ho Hl. rewrite (SelectContext_select text args d items cond (k :: order) limit offset _ p le lim id) by done.
  unfold select. destruct (cut lim _); [|done]. simpl. by rewrite list_fmap_id.
Qed.

Lemma SelectContext_all k order :
  prepare text args = Ok (SSelect items (From table_name None) cond (k :: order) None None) →
  (∀ a b : R, order_le (k :: order) (to_row a) (to_row b) = le a b) →
  Ok (select p le t) = Text.SelectContext text args d.
Proof using Htable Hcond Hitems. intros Hp Ho. by rewrite (SelectContext_cut k order None None None). Qed.

Lemma SelectContext_page k order limit offset n m :
  prepare text args = Ok (SSelect items (From table_name None) cond (k :: order) limit offset) →
  (∀ a b : R, order_le (k :: order) (to_row a) (to_row b) = le a b) →
  (∀ X (l : list X), limited (db_tables d) args limit offset l = limit_offset n m l) →
  limit_offset n m (select p le t) = Text.SelectContext text args d.
Proof using Htable Hcond Hitems. intros Hp Ho Hl. by rewrite (SelectContext_cut k order limit offset (Some (n, m))). Qed.

Lemma SelectContext_count :
  prepare text args = Ok (SCount (From table_name None) cond) →
  Ok (Z.of_nat (length (select p le t))) = Text.GetContext text args d.
Proof using Htable Hcond.
  intros Hp. rewrite (GetContext_count text args d cond (rows t) p) by done. unfold select. by rewrite length_sort_by.
Qed.

Lemma GetContext_first :
  prepare text args = Ok (SSelect items (From table_name None) cond [] None None) →
  one_row (head (List.filter p (rows t))) = Text.GetContext text args d.
Proof using Htable Hcond Hitems.
  intros Hp. rewrite (GetContext_select text args d items cond (rows t) p id) by done.
  by destruct (head _).
Qed.

(** A row by its key. *)
Lemma GetContext_key `{!Row K R} k :
  prepare text args = Ok (SSelect items (From table_name None) cond [] None None) →
  wf_table t → (∀ r, p r = true ↔ row_key r = k) →
  one_row (t !! k) = Text.GetContext text args d.
Proof using Htable Hcond Hitems.
  intros Hp Hwf Hk. rewrite <- (GetContext_first Hp), (filter_key _ t k) by done. by destruct (t !! k).
Qed.

End Tables.

(** The side conditions of these lemmas, by computation on a row of variables. *)
Ltac atoms :=
  repeat match goal with
  | |- context [String.eqb ?a ?b] => destruct (String.eqb a b)
  | |- context [sql_like ?a ?b] => destruct (sql_like a b)
  | |- context [bool_decide ?P] => destruct (bool_decide P)
  | |- context [Z.eqb ?a ?b] => destruct (Z.eqb a b)
  end.
Ltac compute_prepare := vm_compute; reflexivity.
Ltac open_rows := intros []; unfold holds, item_row; cbn; unfold nullable, nullableID; cbn.
Ltac replace_prepare :=
  match goal with |- context [prepare ?t ?a] =>
    let s := eval vm_compute in (prepare t a) in
    replace (prepare t a) with s by compute_prepare
  end; cbn [rbind].
Ltac compute_cond :=
  open_rows; unfold optional_filter, keyword_filter, mem; cbn;
  repeat match goal with Hf : (?a =?s "") = _ |- _ => rewrite !Hf end; atoms; reflexivity.
Ltac order_cases :=
  unfold tenant_order, membership_order, path_order, invitation_order, group_order,
    order_text2, order_time; cbn;
  repeat match goal with
  | |- context [Z.eqb ?a ?b] => destruct (Z.eqb_spec a b)
  | |- context [Z.leb ?a ?b] => destruct (Z.leb_spec a b)
  | |- context [Z.ltb ?a ?b] => destruct (Z.ltb_spec a b)
  end; subst; try reflexivity; lia.
Ltac compute_order := intros [] []; order_cases.
Ltac compute_items :=
  open_rows;
  repeat match goal with |- context [String.eqb ?a ""] => destruct (String.eqb_spec a ""); subst; cbn end;
  reflexivity.

(** A row by its key, all rows, a page, a count, the first row. *)
Ltac key p := eapply (GetContext_key _ _ _ _ _ _ p); [reflexivity| | |compute_prepare| | ];
  [compute_cond|compute_items| |intros []; simpl; rewrite ?andb_true_iff, ?String.eqb_eq; intuition congruence].
Ltac all_rows := eapply SelectContext_all; [reflexivity| | |compute_prepare| ];
  [compute_cond|compute_items|compute_order].
Ltac page := eapply SelectContext_page; [reflexivity| | |compute_prepare| | ];
  [compute_cond|compute_items|compute_order|done].
Ltac counted := eapply SelectContext_count; [reflexivity| |compute_prepare]; compute_cond.
Ltac first_row := eapply GetContext_first; [reflexivity| | |compute_prepare]; [compute_cond|compute_items].

(** *** Programs of reads *)

Section Reads.
Context `{Platform}.

Lemma same_bind {A B} (m m' : prog A) (f f' : A → prog B) :
  same_reads m m' → (∀ a, same_reads (f a) (f' a)) → same_reads (bind m f) (bind m' f').
Proof. intros Hm Hf. induction Hm as [a|X q q' k k' Hq Hk IH]; [apply Hf|by apply same_query]. Qed.

(** A query whose answer is only wrapped. *)
Lemma same_one {X A} (q q' : DB → result X) (f : result X → A) :
  (∀ d, inv d → q d = q' d) → same_reads (r <- query q;; Ret (f r)) (r <- query q';; Ret (f r)).
Proof. intros Hq. apply same_query; [done|]. intros r. apply same_return. Qed.

Lemma same_count_and_page {R} `{Scan R} cols table (q : sent) order limit offset counting listing
    (count : DB → result Z) (page : DB → result (list R)) :
  (∀ d, inv d → count d = Text.GetContext ("SELECT COUNT(*) FROM " +:+ table +:+ fst q) (snd q) d) →
  (∀ d, inv d → page d = Text.SelectContext
     ("SELECT " +:+ cols +:+ " FROM " +:+ table +:+ fst q +:+ " ORDER BY " +:+ order +:+ " LIMIT ? OFFSET ?")
     (snd q ++ [VInt limit; VInt offset]) d) →
  same_reads
    (total <-? query count else err => Ret (Err (Wrapped counting err));;
     items <-? query page else err => Ret (Err (Wrapped listing err));;
     Ret (Ok (items, total)))
    (Text.count_and_page cols table q order limit offset counting listing).
Proof.
  intros Hc Hp. unfold Text.count_and_page. apply same_query; [done|]. intros [total|e]; [|apply same_return].
  apply same_query; [done|]. intros [items|e]; apply same_return.
Qed.

Lemma GetTenant_text id : same_reads (GetTenant id) (Text.GetTenant id).
Proof. apply same_one. intros d Hd. key (λ r, Tenant_ID r =?s id). apply Hd. Qed.
Lemma GetMembership_text id : same_reads (GetMembership id) (Text.GetMembership id).
Proof. apply same_one. intros d Hd. key (λ r, Membership_ID r =?s id). apply Hd. Qed.
Lemma ValidateMembership_text userID tenantID :
  same_reads (ValidateMembership userID tenantID) (Text.ValidateMembership userID tenantID).
Proof.
  apply same_query; [intros d _; first_row|]. intros [m|e]; [|apply same_return].
  apply same_bind; [apply GetTenant_text|]. intros r. apply same_return.
Qed.
Lemma ListMemberships_text tenantID userID status limit offset :
  same_reads (ListMemberships tenantID userID status limit offset)
    (Text.ListMemberships tenantID userID status limit offset).
Proof.
  unfold Text.ListMemberships, Text.filtered. apply same_count_and_page; intros d _;
    destruct (userID =?s "") eqn:Hu, (status =?s "") eqn:Hs.
  1-4: counted.
  all: page.
Qed.

Lemma ListTenants_text keyword status limit offset :
  same_reads (ListTenants keyword status limit offset) (Text.ListTenants keyword status limit offset).
Proof.
  unfold Text.ListTenants, Text.keyword_text, Text.filtered. apply same_count_and_page; intros d _;
    destruct (keyword =?s "") eqn:Hk, (status =?s "") eqn:Hs.
  1-4: counted.
  all: page.
Qed.

Lemma same_batch {R} `{Scan R} ids (building wrapping : string) (q : DB → result (list R)) text args :
  (∀ d, inv d → q d = Text.SelectContext text args d) →
  same_reads
    (stop_if bool_decide (ids = []) => Ret (Err (Wrapped building empty_in));;
     r <- query q;; Ret (wrap_query r wrapping))
    (guard Text.In ids else err => Ret (Err (Wrapped building err));;
     r <- query (Text.SelectContext text args);; Ret (wrap_query r wrapping)).
Proof.
  intros Hq. unfold Text.In. case_bool_decide; [apply same_return|]. by apply same_one.
Qed.

Lemma BatchGetMemberships_text tenantID ids :
  same_reads (BatchGetMemberships tenantID ids) (Text.BatchGetMemberships tenantID ids).
Proof. apply same_batch. intros d _. all_rows. Qed.
Lemma FindMembershipsByUserIDs_text tenantID userIDs status :
  same_reads (FindMembershipsByUserIDs tenantID userIDs status)
    (Text.FindMembershipsByUserIDs tenantID userIDs status).
Proof.
  unfold Text.FindMembershipsByUserIDs, Text.filtered. apply same_batch. intros d _.
  destruct (status =?s "") eqn:Hs; all_rows.
Qed.

Lemma GetOrganizationUnit_text id : same_reads (GetOrganizationUnit id) (Text.GetOrganizationUnit id).
Proof. apply same_one. intros d Hd. key (λ r, OrganizationUnit_ID r =?s id). apply Hd. Qed.
Lemma BatchGetOrganizationUnits_text tenantID ids :
  same_reads (BatchGetOrganizationUnits tenantID ids) (Text.BatchGetOrganizationUnits tenantID ids).
Proof. apply same_batch. intros d _. all_rows. Qed.
Lemma ListOrganizationUnits_text tenantID :
  same_reads (ListOrganizationUnits tenantID) (Text.ListOrganizationUnits tenantID).
Proof. apply same_one. intros d _. all_rows. Qed.

Lemma fetch_ancestors_text tenantID status slices byID :
  same_reads (fetch_ancestors tenantID status slices byID) (Text.fetch_ancestors tenantID status slices byID).
Proof.
  revert byID. induction slices as [|slice slices IH]; intros byID; [apply same_return|].
  apply same_bind; [apply BatchGetOrganizationUnits_text|]. intros [ancestors|e]; [apply IH|apply same_return].
Qed.
Lemma SearchOrganizationUnitsWithAncestors_text tenantID keyword status limit :
  same_reads (SearchOrganizationUnitsWithAncestors tenantID keyword status limit)
    (Text.SearchOrganizationUnitsWithAncestors tenantID keyword status limit).
Proof.
  unfold SearchOrganizationUnitsWithAncestors, Text.SearchOrganizationUnitsWithAncestors, Text.filtered.
  generalize (ToLower (TrimSpace keyword)). intros kw. apply same_bind.
  - apply same_query; [|intros r; apply same_return]. intros d _.
    destruct (kw =?s "") eqn:Hk, (status =?s "") eqn:Hs; page.
  - intros [matches|e]; [|apply same_return]. cbv zeta. destruct (foldl note_ancestors _ _) as [byID ids].
    apply same_bind; [apply fetch_ancestors_text|]. intros [m|e]; apply same_return.
Qed.
Lemma ResolveOrganizationScope_text tenantID rootPath :
  same_reads (ResolveOrganizationScope tenantID rootPath) (Text.ResolveOrganizationScope tenantID rootPath).
Proof.
  apply same_one. intros d _. eapply SelectContext_mapped; [compute_prepare|reflexivity| | | ];
    [compute_cond|compute_order|compute_items].
Qed.

Lemma GetInvitation_text id : same_reads (GetInvitation id) (Text.GetInvitation id).
Proof. apply same_one. intros d Hd. key (λ r, Invitation_ID r =?s id). apply Hd. Qed.
Lemma GetInvitationByTokenHash_text hash :
  same_reads (GetInvitationByTokenHash hash) (Text.GetInvitationByTokenHash hash).
Proof. apply same_one. intros d _. first_row. Qed.
Lemma ListInvitations_text tenantID limit offset :
  same_reads (ListInvitations tenantID limit offset) (Text.ListInvitations tenantID limit offset).
Proof.
  unfold ListInvitations, Text.ListInvitations. cbv zeta.
  apply same_count_and_page; intros d _; cbv beta; [counted|page].
Qed.

Lemma GetGroup_text id : same_reads (GetGroup id) (Text.GetGroup id).
Proof. apply same_one. intros d Hd. key (λ r, Group_ID r =?s id). apply Hd. Qed.
Lemma ListGroups_text tenantID : same_reads (ListGroups tenantID) (Text.ListGroups tenantID).
Proof. apply same_one. intros d _. all_rows. Qed.
Lemma SearchGroups_text tenantID keyword status limit offset :
  same_reads (SearchGroups tenantID keyword status limit offset)
    (Text.SearchGroups tenantID keyword status limit offset).
Proof.
  unfold SearchGroups, Text.SearchGroups, Text.keyword_text, Text.filtered. cbv zeta.
  apply same_count_and_page; intros d _; cbv beta;
    destruct (keyword =?s "") eqn:Hk, (status =?s "") eqn:Hs.
  1-4: counted.
  all: page.
Qed.

Lemma GetGroupMember_text groupID membershipID :
  same_reads (GetGroupMember groupID membershipID) (Text.GetGroupMember groupID membershipID).
Proof. apply same_one. intros d _. first_row. Qed.
Lemma ListGroupMembers_text groupID : same_reads (ListGroupMembers groupID) (Text.ListGroupMembers groupID).
Proof. apply same_one. intros d _. all_rows. Qed.
Lemma BatchGetGroupMembers_text groupID membershipIDs :
  same_reads (BatchGetGroupMembers groupID membershipIDs) (Text.BatchGetGroupMembers groupID membershipIDs).
Proof. apply same_batch. intros d _. all_rows. Qed.

Lemma GetQuota_text tenantID key : same_reads (GetQuota tenantID key) (Text.GetQuota tenantID key).
Proof.
  apply same_one. intros d Hd. key (λ r, (Quota_TenantID r =?s tenantID) && (Quota_Key r =?s key)). apply Hd.
Qed.
Lemma ListQuotas_text tenantID keyword limit offset :
  same_reads (ListQuotas tenantID keyword limit offset) (Text.ListQuotas tenantID keyword limit offset).
Proof.
  unfold ListQuotas, Text.ListQuotas, Text.filtered. cbv zeta. apply same_count_and_page; intros d _; cbv beta;
    destruct (keyword =?s "") eqn:Hk; [counted..|page|page].
Qed.

(** *** The join *)

#[local] Arguments String.append : simpl nomatch.

Definition joined_rows (d : DB) : list (Membership * Tenant) :=
  rows (memberships d) ≫= λ m, match tenants d !! Membership_TenantID m with Some t => [(m, t)] | None => [] end.
Definition joined_row (x : Membership * Tenant) : row :=
  aliased "m" (to_row (fst x)) ++ aliased "t" (to_row (snd x)).
Definition joined_from : source :=
  FromJoin "memberships" "m" "tenants" "t" (EBin OEq (ECol "t.id") (ECol "m.tenant_id")).
Definition joined_active (userID : string) (x : Membership * Tenant) : bool :=
  (Membership_UserID (fst x) =?s userID) && (Membership_Status (fst x) =?s "active") && (Tenant_Status (snd x) =?s "active").

Lemma source_joined d args : inv d → source_rows (db_tables d) args joined_from = Ok (joined_row <$> joined_rows d).
Proof.
  intros Hd. unfold joined_from, source_rows.
  assert (snd <$> db_tables d "memberships" = Some (to_row <$> rows (memberships d))) as -> by done.
  assert (snd <$> db_tables d "tenants" = Some (to_row <$> rows (tenants d))) as -> by done.
  cbn [of_option rbind].
  rewrite (rmap_fmap to_row _ (λ m, joined_row <$> match tenants d !! Membership_TenantID m with
                                                 Some t => [(m, t)] | None => [] end)).
  - simpl. f_equal. unfold joined_rows. induction (rows (memberships d)) as [|m l IH]; [done|].
    csimpl. by rewrite IH, fmap_app.
  - intros m _. rewrite <- list_fmap_compose.
    rewrite (rfilter_fmap _ _ (λ t, Tenant_ID t =?s Membership_TenantID m));
      [|intros t _; destruct m, t; unfold holds; cbn; by atoms].
    rewrite (filter_key _ _ (Membership_TenantID m)); [|apply Hd|intros t; apply String.eqb_eq].
    by destruct (tenants d !! _).
Qed.

Lemma joined_user_tenants d userID :
  snd <$> List.filter (joined_active userID) (joined_rows d) = user_tenants userID d.
Proof.
  unfold joined_rows, user_tenants. induction (rows (memberships d)) as [|m l IH]; [done|]. csimpl.
  rewrite List.filter_app, fmap_app, IH. unfold joined_active at 1.
  destruct (tenants d !! Membership_TenantID m) as [t|]; simpl; [|by repeat case_match].
  by destruct (Membership_UserID m =?s userID), (Membership_Status m =?s "active"), (Tenant_Status t =?s "active").
Qed.

Lemma ListUserTenants_text userID limit offset :
  same_reads (ListUserTenants userID limit offset) (Text.ListUserTenants userID limit offset).
Proof.
  apply same_query; [|intros [total|e]; [|apply same_return]; apply same_query;
                      [|intros [items|e]; apply same_return]]; intros d Hd.
  - rewrite <- joined_user_tenants, length_fmap. unfold Text.GetContext, sql_query.
    replace_prepare. symmetry.
    apply (count_answer _ _ joined_row); [by apply source_joined|].
    intros [[] []] _. unfold holds, joined_active. cbn. by atoms.
  - rewrite <- joined_user_tenants. unfold Text.SelectContext, sql_query.
    replace_prepare. symmetry.
    rewrite (select_answer _ _ joined_row _ _ _ _ _ _ (joined_rows d) (joined_active userID)
               (λ x y, tenant_order (snd x) (snd y)) (Some (limit, offset)) snd).
    + by rewrite (sort_by_fmap (λ x y, tenant_order (snd x) (snd y))), limit_offset_fmap.
    + by apply source_joined.
    + intros [[] []] _. unfold holds, joined_active. cbn. by atoms.
    + intros [[] []] [[] []]. order_cases.
    + done.
    + intros [[] []] _. reflexivity.
Qed.

(** *** Units with a child *)

Lemma eval_exists D args r table alias cond names {X} (g : X → row) l q :
  D table = Some (names, g <$> l) →
  (∀ x, x ∈ l → (let! v := eval D args (aliased alias (g x) ++ r) cond in Ok (truth v)) = Ok (q x)) →
  eval D args r (EExists table alias cond) = Ok (VBool (existsb q l)).
Proof.
  intros Ht Hq. simpl. rewrite Ht. simpl. rewrite (rfilter_fmap g _ q) by done. simpl. do 2 f_equal.
  clear. induction l as [|x l IH]; [done|]. simpl. by destruct (q x).
Qed.

Lemma source_alias D args table alias names {X} (g : X → row) l :
  D table = Some (names, g <$> l) →
  source_rows D args (From table (Some alias)) = Ok ((λ x, aliased alias (g x)) <$> l).
Proof. intros Ht. simpl. rewrite Ht. simpl. f_equal. symmetry. apply (list_fmap_compose g (aliased alias)). Qed.

(** The rows of the outer query, and their columns with that of the subquery. *)
Ltac null_cases :=
  cbn; unfold nullable, nullableID, optional_filter; cbn;
  repeat match goal with Hf : (?a =?s "") = _ |- _ => rewrite !Hf end;
  repeat match goal with |- context [String.eqb ?a ""] => is_var a; destruct (String.eqb_spec a ""); subst; cbn end.
Ltac child_cond := intros [] _; unfold holds; null_cases; by atoms.
Ltac child_items status :=
  let u := fresh "u" in let e := fresh "e" in let He := fresh "He" in
  intros u _; set (e := EExists _ _ _);
  lazymatch goal with |- (let! x := item_row ?D ?args _ _ in _) = Ok (_, has_child _ ?d _) =>
    assert (eval D args (aliased "unit" (to_row u)) e = Ok (VBool (has_child status d u))) as He;
    [apply (eval_exists _ _ _ _ _ _ unit_tags to_row); [done|]; intros [] _; destruct u; null_cases; by atoms|]
  end;
  clearbody e; destruct u; cbn in He |- *; rewrite He; null_cases; reflexivity.

Lemma ListOrganizationChildren_text tenantID parentID status limit :
  same_reads (ListOrganizationChildren tenantID parentID status limit)
    (Text.ListOrganizationChildren tenantID parentID status limit).
Proof.
  unfold Text.ListOrganizationChildren. destruct (status =?s "") eqn:Hs, parentID as [|a parent]; simpl String.eqb; cbv zeta.
  all: apply same_query; [|intros [l|e]; apply same_return]; intros d _.
  all: unfold Text.SelectContext, sql_query; replace_prepare; symmetry.
  all: lazymatch goal with |- context [OrganizationUnit_ParentID _ =?s ?parent] =>
    etrans; [apply (select_answer _ _ (λ u, aliased "unit" (to_row u)) _ _ _ _ _ _ (rows (organization_units d))
    (λ u, (OrganizationUnit_TenantID u =?s tenantID) && (OrganizationUnit_ParentID u =?s parent)
          && optional_filter status (OrganizationUnit_Status u))
    path_order (Some (wrap64 (limit + 1), 0%Z)) (λ u, (u, has_child status d u)))|reflexivity] end.
  all: [> by eapply source_alias|child_cond|compute_order|done|child_items status
          |by eapply source_alias|child_cond|compute_order|done|child_items status
          |by eapply source_alias|child_cond|compute_order|done|child_items status
          |by eapply source_alias|child_cond|compute_order|done|child_items status].
Qed.
(** *** Every read *)

(** The methods of the repository that read, with what they return. *)
Inductive read : Type → Type :=
| RGetTenant (id : string) : read (result Tenant)
| RGetMembership (id : string) : read (result Membership)
| RValidateMembership (userID tenantID : string) : read (Tenant * Membership * option goerr)
| RListUserTenants (userID : string) (limit offset : Z) : read (result (list Tenant * Z))
| RListMemberships (tenantID userID status : string) (limit offset : Z) : read (result (list Membership * Z))
| RBatchGetMemberships (tenantID : string) (ids : list string) : read (result (list Membership))
| RFindMembershipsByUserIDs (tenantID : string) (userIDs : list string) (status : string) : read (result (list Membership))
| RListTenants (keyword status : string) (limit offset : Z) : read (result (list Tenant * Z))
| RGetOrganizationUnit (id : string) : read (result OrganizationUnit)
| RBatchGetOrganizationUnits (tenantID : string) (ids : list string) : read (result (list OrganizationUnit))
| RListOrganizationUnits (tenantID : string) : read (result (list OrganizationUnit))
| RListOrganizationChildren (tenantID parentID status : string) (limit : Z) : read (result (list OrganizationTreeNode * bool))
| RSearchOrganizationUnitsWithAncestors (tenantID keyword status : string) (limit : Z) : read (result (list OrganizationUnit * bool))
| RResolveOrganizationScope (tenantID rootPath : string) : read (result (list string))
| RGetInvitation (id : string) : read (result Invitation)
| RGetInvitationByTokenHash (hash : string) : read (result Invitation)
| RListInvitations (tenantID : string) (limit offset : Z) : read (result (list Invitation * Z))
| RGetGroup (id : string) : read (result Group)
| RListGroups (tenantID : string) : read (result (list Group))
| RSearchGroups (tenantID keyword status : string) (limit offset : Z) : read (result (list Group * Z))
| RGetGroupMember (groupID membershipID : string) : read (result GroupMember)
| RListGroupMembers (groupID : string) : read (result (list GroupMember))
| RBatchGetGroupMembers (groupID : string) (membershipIDs : list string) : read (result (list GroupMember))
| RGetQuota (tenantID key : string) : read (result Quota)
| RListQuotas (tenantID keyword : string) (limit offset : Z) : read (result (list Quota * Z)).

Definition modelled {A} (m : read A) : prog A :=
  match m with
  | RGetTenant id => GetTenant id
  | RGetMembership id => GetMembership id
  | RValidateMembership userID tenantID => ValidateMembership userID tenantID
  | RListUserTenants userID limit offset => ListUserTenants userID limit offset
  | RListMemberships tenantID userID status limit offset => ListMemberships tenantID userID status limit offset
  | RBatchGetMemberships tenantID ids => BatchGetMemberships tenantID ids
  | RFindMembershipsByUserIDs tenantID userIDs status => FindMembershipsByUserIDs tenantID userIDs status
  | RListTenants keyword status limit offset => ListTenants keyword status limit offset
  | RGetOrganizationUnit id => GetOrganizationUnit id
  | RBatchGetOrganizationUnits tenantID ids => BatchGetOrganizationUnits tenantID ids
  | RListOrganizationUnits tenantID => ListOrganizationUnits tenantID
  | RListOrganizationChildren tenantID parentID status limit => ListOrganizationChildren tenantID parentID status limit
  | RSearchOrganizationUnitsWithAncestors tenantID keyword status limit => SearchOrganizationUnitsWithAncestors tenantID keyword status limit
  | RResolveOrganizationScope tenantID rootPath => ResolveOrganizationScope tenantID rootPath
  | RGetInvitation id => GetInvitation id
  | RGetInvitationByTokenHash hash => GetInvitationByTokenHash hash
  | RListInvitations tenantID limit offset => ListInvitations tenantID limit offset
  | RGetGroup id => GetGroup id
  | RListGroups tenantID => ListGroups tenantID
  | RSearchGroups tenantID keyword status limit offset => SearchGroups tenantID keyword status limit offset
  | RGetGroupMember groupID membershipID => GetGroupMember groupID membershipID
  | RListGroupMembers groupID => ListGroupMembers groupID
  | RBatchGetGroupMembers groupID membershipIDs => BatchGetGroupMembers groupID membershipIDs
  | RGetQuota tenantID key => GetQuota tenantID key
  | RListQuotas tenantID keyword limit offset => ListQuotas tenantID keyword limit offset
  end.

Definition as_text {A} (m : read A) : prog A :=
  match m with
  | RGetTenant id => Text.GetTenant id
  | RGetMembership id => Text.GetMembership id
  | RValidateMembership userID tenantID => Text.ValidateMembership userID tenantID
  | RListUserTenants userID limit offset => Text.ListUserTenants userID limit offset
  | RListMemberships tenantID userID status limit offset => Text.ListMemberships tenantID userID status limit offset
  | RBatchGetMemberships tenantID ids => Text.BatchGetMemberships tenantID ids
  | RFindMembershipsByUserIDs tenantID userIDs status => Text.FindMembershipsByUserIDs tenantID userIDs status
  | RListTenants keyword status limit offset => Text.ListTenants keyword status limit offset
  | RGetOrganizationUnit id => Text.GetOrganizationUnit id
  | RBatchGetOrganizationUnits tenantID ids => Text.BatchGetOrganizationUnits tenantID ids
  | RListOrganizationUnits tenantID => Text.ListOrganizationUnits tenantID
  | RListOrganizationChildren tenantID parentID status limit => Text.ListOrganizationChildren tenantID parentID status limit
  | RSearchOrganizationUnitsWithAncestors tenantID keyword status limit => Text.SearchOrganizationUnitsWithAncestors tenantID keyword status limit
  | RResolveOrganizationScope tenantID rootPath => Text.ResolveOrganizationScope tenantID rootPath
  | RGetInvitation id => Text.GetInvitation id
  | RGetInvitationByTokenHash hash => Text.GetInvitationByTokenHash hash
  | RListInvitations tenantID limit offset => Text.ListInvitations tenantID limit offset
  | RGetGroup id => Text.GetGroup id
  | RListGroups tenantID => Text.ListGroups tenantID
  | RSearchGroups tenantID keyword status limit offset => Text.SearchGroups tenantID keyword status limit offset
  | RGetGroupMember groupID membershipID => Text.GetGroupMember groupID membershipID
  | RListGroupMembers groupID => Text.ListGroupMembers groupID
  | RBatchGetGroupMembers groupID membershipIDs => Text.BatchGetGroupMembers groupID membershipIDs
  | RGetQuota tenantID key => Text.GetQuota tenantID key
  | RListQuotas tenantID keyword limit offset => Text.ListQuotas tenantID keyword limit offset
  end.

(** (C12) The reads mean what their SQL says: every method that reads, as [Repository] models it, and
    the same method with the text it sends -- parsed, with the arguments bound by position,
    executed on the tables, and the rows scanned by the tags of the structs -- make the same
    queries, which answer the same on every database that meets the invariant, errors
    included. In particular no statement is ill formed, no parameter or column is missing, and
    no [NULL] reaches a string. *)
Theorem reads_mean_their_text {A} (m : read A) : same_reads (modelled m) (as_text m).
Proof.
  destruct m; cbn [modelled as_text];
    auto using GetTenant_text, GetMembership_text, ValidateMembership_text, ListUserTenants_text,
      ListMemberships_text, BatchGetMemberships_text, FindMembershipsByUserIDs_text, ListTenants_text,
      GetOrganizationUnit_text, BatchGetOrganizationUnits_text, ListOrganizationUnits_text,
      ListOrganizationChildren_text, SearchOrganizationUnitsWithAncestors_text,
      ResolveOrganizationScope_text, GetInvitation_text, GetInvitationByTokenHash_text,
      ListInvitations_text, GetGroup_text, ListGroups_text, SearchGroups_text, GetGroupMember_text,
      ListGroupMembers_text, BatchGetGroupMembers_text, GetQuota_text, ListQuotas_text.
Qed.

(** What such programs answer, on their own and in any environment. *)
Lemma same_reads_run {A} (m m' : prog A) env w :
  same_reads m m' → inv (w_db w) → run env m w = run env m' w.
Proof.
  intros Hm. revert w. induction Hm as [a|X q q' k k' Hq Hk IH]; intros w Hw; [done|]. simpl.
  rewrite (Hq _ Hw). by apply IH.
Qed.

End Reads.
