(* ===== verification/SqlWrites.v ===== *)
(** * The writes of the repository mean what their SQL says

    The statements of [Repository] that write against the execution of their texts by [Sql] on
    the tables of [SqlText]: the same rows change in the same way, up to the constraints of the
    schema, which only the model of a statement checks. *)

From stdpp Require Import base gmap list strings sorting.
From S2P Require Import Prelude GoErrors Model Store Effects Platform Repository Tables Sql.
From S2P Require Import Invariants SqlText SqlProofs.

#[local] Arguments String.append : simpl nomatch.

(** ** The writes *)

(** The same tables, with the same columns and the same rows in some order. *)
Definition same_tables (D D' : tables) : Prop := ∀ t,
  match D t, D' t with
  | Some (names, l), Some (names', l') => names = names' ∧ l ≡ₚ l'
  | None, None => True
  | _, _ => False
  end.

Definition sum (l : list Z) : Z := foldr Z.add 0%Z l.

Lemma rmap_app {A B} (f : A → result B) l1 l2 :
  rmap f (l1 ++ l2) = let! a := rmap f l1 in let! b := rmap f l2 in Ok (a ++ b).
Proof.
  induction l1 as [|x l1 IH]; simpl; [by destruct (rmap f l2)|]. destruct (f x); [|done]. simpl. rewrite IH.
  destruct (rmap f l1); [|done]. simpl. by destruct (rmap f l2).
Qed.

Section Keyed.
Context {K R : Type} `{Countable K, Stored R, !Row K R, !RowLaws K R}.
Implicit Types (t : gmap K R).

Lemma rows_insert_new t k v : t !! k = None → rows (<[k := v]> t) ≡ₚ v :: rows t.
Proof. intros Hk. unfold rows. by rewrite map_to_list_insert. Qed.

(** An update of the row with a key: what becomes of it, if anything. *)
Definition keyed_update (key : K) (g : R → result (option R)) t : result (Z * gmap K R) :=
  match t !! key with
  | Some r => let! o := g r in Ok (match o with Some r' => (1%Z, <[key := r']> t) | None => (0%Z, t) end)
  | None => Ok (0%Z, t)
  end.

Lemma update_row_keyed key p version upd t :
  update_row key p version upd t
  = keyed_update key (λ r, if p r then let! _ := bigint (version r + 1) in Ok (Some (upd r)) else Ok None) t.
Proof.
  unfold update_row, keyed_update. destruct (t !! key) as [r|]; [|done]. destruct (p r); [|done].
  by destruct (bigint _).
Qed.

Definition updated (g : R → result (option R)) (key : K) (r : R) : result (Z * row) :=
  if bool_decide (row_key r = key)
  then let! o := g r in Ok (match o with Some r' => (1%Z, to_row r') | None => (0%Z, to_row r) end)
  else Ok (0%Z, to_row r).

Lemma unchanged (f : row → result (Z * row)) l :
  (∀ r, r ∈ l → f (to_row r) = Ok (0%Z, to_row r)) →
  ∃ l', rmap f (to_row <$> l) = Ok l' ∧ sum (fst <$> l') = 0%Z ∧ snd <$> l' = to_row <$> l.
Proof.
  intros Hf. exists ((λ r, (0%Z, to_row r)) <$> l). rewrite (rmap_fmap to_row f _ l Hf).
  split; [done|]. rewrite <- !list_fmap_compose. split; [|done].
  clear. induction l as [|x l IH]; [done|]. done.
Qed.

Lemma sum_app l1 l2 : sum (l1 ++ l2) = (sum l1 + sum l2)%Z.
Proof. induction l1; simpl; lia. Qed.

Lemma rmap_keyed (f : row → result (Z * row)) key g t :
  wf_table t → (∀ r : R, f (to_row r) = updated g key r) →
  match keyed_update key g t with
  | Ok (n, t') => ∃ l, rmap f (to_row <$> rows t) = Ok l ∧ sum (fst <$> l) = n ∧ snd <$> l ≡ₚ to_row <$> rows t'
  | Err e => rmap f (to_row <$> rows t) = Err e
  end.
Proof using RowLaws0.
  intros Hwf Hf.
  assert (Hkey : ∀ r, r ∈ rows t → row_key r = key → t !! key = Some r).
  { intros r [k Hk]%elem_of_rows <-. by rewrite (proj1 (Hwf k r Hk)). }
  assert (Hother : ∀ r, row_key r ≠ key → f (to_row r) = Ok (0%Z, to_row r)).
  { intros r Hr. rewrite Hf. unfold updated. by rewrite bool_decide_eq_false_2. }
  unfold keyed_update. destruct (t !! key) as [r|] eqn:Hr.
  2: { destruct (unchanged f (rows t)) as (l & ? & ? & Hl); [|exists l; by rewrite Hl].
       intros x Hx. apply Hother. intros Hk. by specialize (Hkey x Hx Hk). }
  assert (Hin : r ∈ rows t) by (apply elem_of_rows; by exists key).
  apply list_elem_of_split in Hin as (l1 & l2 & Hl).
  pose proof (NoDup_rows t Hwf) as Hnd. rewrite Hl in Hnd. apply NoDup_app in Hnd as (_ & Hnd1 & Hnd2%NoDup_cons).
  assert (Hrest : ∀ x, x ∈ l1 ∨ x ∈ l2 → f (to_row x) = Ok (0%Z, to_row x)).
  { intros x Hx. apply Hother. intros Hk.
    assert (x ∈ rows t) as Hxt by (rewrite Hl; set_solver).
    specialize (Hkey x Hxt Hk). simplify_eq. destruct Hx as [Hx|Hx]; [|by apply Hnd2].
    apply (Hnd1 _ Hx). by left. }
  destruct (unchanged f l1) as (m1 & Hm1 & Hs1 & Hr1); [by auto|].
  destruct (unchanged f l2) as (m2 & Hm2 & Hs2 & Hr2); [by auto|].
  assert (Hall : rmap f (to_row <$> rows t) = let! y := f (to_row r) in Ok (m1 ++ y :: m2)).
  { rewrite Hl, fmap_app, rmap_app, Hm1. csimpl. rewrite Hm2. by destruct (f (to_row r)). }
  rewrite Hall, Hf. unfold updated. rewrite bool_decide_eq_true_2 by apply (Hwf key r Hr).
  destruct (g r) as [[r'|]|e]; simpl; [| |done]; eexists; (split; [done|]);
    rewrite !fmap_app, sum_app; csimpl; rewrite Hs1, Hr1, Hs2, Hr2; (split; [done|]).
  - assert (rows t ≡ₚ r :: rows (delete key t)) as Hp.
    { rewrite <- (insert_id t key r) at 1 by done. rewrite <- insert_delete_eq.
      apply rows_insert_new, lookup_delete_eq. }
    rewrite <- insert_delete_eq, rows_insert_new by apply lookup_delete_eq.
    rewrite Hl, <- Permutation_middle in Hp. apply Permutation_cons_inv in Hp. csimpl.
    rewrite <- Hp, fmap_app. by rewrite <- Permutation_middle.
  - by rewrite Hl, fmap_app.
Qed.

End Keyed.

(** *** The statements that write *)

Section Writes.
Context `{Platform}.

Inductive write :=
| WCreateTenant (value : Tenant)
| WCreateMembership (value : Membership)
| WUpdateTenant (value : Tenant)
| WUpdateMembership (value : Membership)
| WAddOutbox (event : OutboxEvent)
| WCreateOrganizationUnit (value : OrganizationUnit)
| WUpdateOrganizationUnit (value : OrganizationUnit)
| WMoveDescendants (value : OrganizationUnit) (oldPath : string)
| WCreateInvitation (value : Invitation)
| WUpdateInvitation (value : Invitation)
| WCreateGroup (value : Group)
| WUpdateGroup (value : Group)
| WCreateGroupMember (value : GroupMember)
| WUpdateGroupMember (value : GroupMember)
| WCreateQuota (value : Quota)
| WUpdateQuota (value : Quota)
| WConsumeQuota (tenantID key : string) (amount now : Z) (actor : string).

Definition write_text (driver : string) (w : write) : sent :=
  match w with
  | WCreateTenant value => Text.CreateTenant value
  | WCreateMembership value => Text.CreateMembership value
  | WUpdateTenant value => Text.UpdateTenant value
  | WUpdateMembership value => Text.UpdateMembership value
  | WAddOutbox event => Text.AddOutbox event
  | WCreateOrganizationUnit value => Text.CreateOrganizationUnit value
  | WUpdateOrganizationUnit value => Text.UpdateOrganizationUnit value
  | WMoveDescendants value oldPath => Text.move_descendants driver value oldPath
  | WCreateInvitation value => Text.CreateInvitation value
  | WUpdateInvitation value => Text.UpdateInvitation value
  | WCreateGroup value => Text.CreateGroup value
  | WUpdateGroup value => Text.UpdateGroup value
  | WCreateGroupMember value => Text.CreateGroupMember value
  | WUpdateGroupMember value => Text.UpdateGroupMember value
  | WCreateQuota value => Text.CreateQuota value
  | WUpdateQuota value => Text.UpdateQuota value
  | WConsumeQuota tenantID key amount now actor => Text.ConsumeQuota tenantID key amount now actor
  end.

(** The statement of [Repository]: the number of rows, where the code reads it, and the database. *)
Definition inserting (s : stmt unit) (d : DB) : result (option Z * DB) := result_map (λ x, (Some 1%Z, snd x)) (s d).
Definition updating (s : stmt (result Z)) (d : DB) : result (option Z * DB) :=
  let! x := s d in let! n := fst x in Ok (Some n, snd x).

Definition write_stmt (w : write) : DB → result (option Z * DB) :=
  match w with
  | WCreateTenant value => inserting (insert_tenants value)
  | WCreateMembership value => inserting (insert_memberships value)
  | WUpdateTenant value => updating (update_tenants value)
  | WUpdateMembership value => updating (update_memberships value)
  | WAddOutbox event => inserting (insert_tenant_outbox_events (Build_OutboxRow event 0 None ""))
  | WCreateOrganizationUnit value => inserting (insert_organization_units value)
  | WUpdateOrganizationUnit value => updating (update_unit value)
  | WMoveDescendants value oldPath => λ d, result_map (λ x, (None, snd x)) (move_descendants value oldPath d)
  | WCreateInvitation value => inserting (insert_invitations value)
  | WUpdateInvitation value => updating (update_invitations value)
  | WCreateGroup value => inserting (insert_member_groups value)
  | WUpdateGroup value => updating (update_member_groups value)
  | WCreateGroupMember value => inserting (insert_group_members value)
  | WUpdateGroupMember value => updating (update_group_members value)
  | WCreateQuota value => inserting (insert_tenant_quotas value)
  | WUpdateQuota value => updating (update_quota_limit value)
  | WConsumeQuota tenantID key amount now actor => updating (consume_quota tenantID key amount now actor)
  end.

Definition violations : list goerr := [unique_violation; foreign_key_violation; check_violation].

(** What the model says of a statement is what its text does, up to the constraints. *)
Definition agrees (d : DB) (model : result (option Z * DB)) (text : result (Z * tables)) : Prop :=
  match model with
  | Ok (n, d') => ∃ m D', text = Ok (m, D') ∧ default m n = m ∧ same_tables D' (db_tables d')
  | Err e => e ∈ violations ∨ text = Err e
  end.

Ltac tables_cases :=
  intros Hl tb; unfold with_table, db_tables, table_of; simpl;
  repeat match goal with |- context [String.eqb tb ?n] =>
    destruct (String.eqb_spec tb n) as [->|]; [simpl; by split|]
  end; done.

Lemma same_set_tenants d t l : l ≡ₚ to_row <$> rows t →
  same_tables (with_table (db_tables d) "tenants" tenant_tags l) (db_tables (set_tenants t d)).
Proof. tables_cases. Qed.
Lemma same_set_memberships d t l : l ≡ₚ to_row <$> rows t →
  same_tables (with_table (db_tables d) "memberships" membership_tags l) (db_tables (set_memberships t d)).
Proof. tables_cases. Qed.
Lemma same_set_organization_units d t l : l ≡ₚ to_row <$> rows t →
  same_tables (with_table (db_tables d) "organization_units" unit_tags l) (db_tables (set_organization_units t d)).
Proof. tables_cases. Qed.
Lemma same_set_invitations d t l : l ≡ₚ to_row <$> rows t →
  same_tables (with_table (db_tables d) "invitations" invitation_tags l) (db_tables (set_invitations t d)).
Proof. tables_cases. Qed.
Lemma same_set_member_groups d t l : l ≡ₚ to_row <$> rows t →
  same_tables (with_table (db_tables d) "member_groups" group_tags l) (db_tables (set_member_groups t d)).
Proof. tables_cases. Qed.
Lemma same_set_group_members d t l : l ≡ₚ to_row <$> rows t →
  same_tables (with_table (db_tables d) "group_members" group_member_tags l) (db_tables (set_group_members t d)).
Proof. tables_cases. Qed.
Lemma same_set_tenant_quotas d t l : l ≡ₚ to_row <$> rows t →
  same_tables (with_table (db_tables d) "tenant_quotas" quota_tags l) (db_tables (set_tenant_quotas t d)).
Proof. tables_cases. Qed.
Lemma same_set_tenant_outbox_events d t l : l ≡ₚ to_row <$> t →
  same_tables (with_table (db_tables d) "tenant_outbox_events" (columns (R := OutboxRow)) l)
    (db_tables (set_tenant_outbox_events t d)).
Proof. tables_cases. Qed.

Lemma agrees_check {X} d b e (k : result X) f text :
  e ∈ violations → (b = true → agrees d (result_map f k) text) → agrees d (result_map f (check b e k)) text.
Proof. intros He Hm. destruct b; simpl; [by apply Hm|by left]. Qed.

Lemma agrees_insert {R} `{Stored R} d d' text args names values v l :
  prepare text args = Ok (SInsert table_name names values) →
  db_tables d table_name = Some (columns, to_row <$> l) →
  inserted_row (db_tables d) args columns names values = Ok (to_row v) →
  (∀ l', l' ≡ₚ to_row <$> v :: l → same_tables (with_table (db_tables d) table_name columns l') (db_tables d')) →
  agrees d (Ok (Some 1%Z, d')) (sql_exec text args (db_tables d)).
Proof.
  intros Hp Ht Hi Hs. unfold sql_exec. rewrite Hp. simpl. rewrite Ht. simpl. rewrite Hi. simpl.
  eexists _, _. split; [done|]. split; [done|]. apply Hs. by rewrite fmap_cons.
Qed.

Section Update.
Context {K R : Type} `{Countable K, Stored R, !Row K R, !RowLaws K R}.
Context (get : DB → gmap K R) (set : gmap K R → DB → DB) (d : DB) (text : string) (args : list value).
Context (assignments : list (string * expr)) (cond : expr) (key : K) (g : R → result (option R)).
Hypothesis Hprepare : prepare text args = Ok (SUpdate table_name assignments cond).
Hypothesis Htable : db_tables d table_name = Some (columns, to_row <$> rows (get d)).
Hypothesis Hwf : wf_table (get d).
Hypothesis Hset : ∀ l t, l ≡ₚ to_row <$> rows t →
  same_tables (with_table (db_tables d) table_name columns l) (db_tables (set t d)).
Hypothesis Hrow : ∀ r : R, updated_row (db_tables d) args cond assignments (to_row r) = updated g key r.

Lemma agrees_update : agrees d (updating (lift_update get set (keyed_update key g)) d) (sql_exec text args (db_tables d)).
Proof using All.
  unfold updating, lift_update, sql_exec. rewrite Hprepare. simpl. rewrite Htable. simpl.
  pose proof (rmap_keyed _ key g (get d) Hwf Hrow) as Hk.
  destruct (keyed_update key g (get d)) as [[n t]|e]; simpl.
  - destruct Hk as (l & -> & Hn & Hl). simpl. eexists _, _. split; [done|]. split; [done|]. by apply Hset.
  - right. by rewrite Hk.
Qed.

End Update.

Lemma lift_update_ext {T} (get : DB → T) set (u u' : T → result (Z * T)) d :
  u (get d) = u' (get d) → lift_update get set u d = lift_update get set u' d.
Proof. unfold lift_update. by intros ->. Qed.

Lemma bool_decide_eqb (a b : string) : bool_decide (a = b) = (a =?s b).
Proof. destruct (String.eqb_spec a b); by case_bool_decide. Qed.
Lemma bool_decide_eqb2 (a b a' b' : string) : bool_decide ((a, b) = (a', b')) = (a =?s a') && (b =?s b').
Proof. destruct (String.eqb_spec a a'), (String.eqb_spec b b'); case_bool_decide; naive_solver. Qed.

Ltac compute_update :=
  intros []; unfold updated_row, assigned_row, holds, updated; cbn;
  rewrite ?bool_decide_eqb, ?bool_decide_eqb2, ?coalesce_nullableID; unfold bigint;
  repeat match goal with
  | |- context [String.eqb ?a ?b] => destruct (String.eqb a b); cbn
  | |- context [Z.eqb ?a ?b] => destruct (Z.eqb a b); cbn
  | |- context [Z.leb ?a ?b && Z.leb ?c ?e] => destruct (Z.leb a b && Z.leb c e); cbn
  | |- context [Z.leb ?a ?b] => destruct (Z.leb a b); cbn
  end; reflexivity.

(** The text of a write, executed. *)
Definition executed (driver : string) (w : write) (d : DB) : result (Z * tables) :=
  sql_exec (fst (write_text driver w)) (snd (write_text driver w)) (db_tables d).

Ltac insert value same :=
  unfold inserting; repeat (apply agrees_check; [set_solver|intros ?]);
  eapply (agrees_insert _ _ _ _ _ _ value); [compute_prepare|done|by destruct value|];
  intros l' Hl'; apply same; rewrite Hl'; f_equiv; symmetry; apply rows_insert_new;
  by apply has_false, negb_true_iff.

Lemma inserts_agree driver w d :
  match w with
  | WCreateTenant _ | WCreateMembership _ | WAddOutbox _ | WCreateOrganizationUnit _ | WCreateInvitation _
  | WCreateGroup _ | WCreateGroupMember _ | WCreateQuota _ => agrees d (write_stmt w d) (executed driver w d)
  | _ => True
  end.
Proof.
  destruct w; try done; unfold executed; cbn [write_stmt write_text].
  - unfold insert_tenants. insert value same_set_tenants.
  - unfold insert_memberships. insert value same_set_memberships.
  - unfold insert_tenant_outbox_events, inserting. cbv zeta. apply agrees_check; [set_solver|intros _].
    eapply (agrees_insert _ _ _ _ _ _ (Build_OutboxRow event 0 None "")); [compute_prepare|done|by destruct event|].
    intros l' Hl'. apply same_set_tenant_outbox_events. by rewrite Hl', <- Permutation_cons_append.
  - unfold insert_organization_units. insert value same_set_organization_units.
  - unfold insert_invitations. insert value same_set_invitations.
  - unfold insert_member_groups. insert value same_set_member_groups.
  - unfold insert_group_members. insert value same_set_group_members.
  - unfold insert_tenant_quotas. insert value same_set_tenant_quotas.
Qed.

Lemma agrees_check_updating {X} d b e (k : result X) f text :
  e ∈ violations → (b = true → agrees d (let! x := k in f x) text) → agrees d (let! x := check b e k in f x) text.
Proof. intros He Hm. destruct b; simpl; [by apply Hm|by left]. Qed.

Ltac checked := repeat (apply agrees_check_updating; [set_solver|intros ?]).
Ltac update same Hd :=
  unfold updating; checked; rewrite (lift_update_ext _ _ _ _ _ (update_row_keyed _ _ _ _ _));
  eapply agrees_update; [compute_prepare|done|apply Hd|intros l t; apply same|]; compute_update.

Lemma updates_agree driver w d : inv d →
  match w with
  | WUpdateTenant _ | WUpdateMembership _ | WUpdateOrganizationUnit _ | WUpdateInvitation _ | WUpdateGroup _
  | WUpdateGroupMember _ => agrees d (write_stmt w d) (executed driver w d)
  | _ => True
  end.
Proof.
  intros Hd. destruct w; try done; unfold executed; cbn [write_stmt write_text].
  - unfold update_tenants. update same_set_tenants Hd.
  - unfold update_memberships. update same_set_memberships Hd.
  - unfold update_unit. cbv zeta. update same_set_organization_units Hd.
  - unfold update_invitations. update same_set_invitations Hd.
  - unfold update_member_groups. update same_set_member_groups Hd.
  - unfold update_group_members. update same_set_group_members Hd.
Qed.

Lemma UpdateQuota_agrees driver value d : inv d →
  agrees d (write_stmt (WUpdateQuota value) d) (executed driver (WUpdateQuota value) d).
Proof.
  intros Hd. unfold executed; cbn [write_stmt write_text].
  assert (Hu : agrees d (updating (lift_update tenant_quotas set_tenant_quotas
    (update_row (Quota_TenantID value, Quota_Key value) (λ r, Quota_Version r =? Quota_Version value)%Z
      Quota_Version (λ r, Build_Quota (Quota_TenantID r) (Quota_Key r) (Quota_Limit value) (Quota_Used r)
        (Quota_Version r + 1) (Quota_CreatedAt r) (Quota_UpdatedAt value) (Quota_CreatedBy r)
        (Quota_UpdatedBy value)))) d)
    (sql_exec (fst (Text.UpdateQuota value)) (snd (Text.UpdateQuota value)) (db_tables d)))
    by (update same_set_tenant_quotas Hd).
  unfold updating, update_quota_limit in *.
  destruct (tenant_quotas d !! _) as [r|] eqn:Hr; [destruct (Quota_Version r =? Quota_Version value)%Z eqn:Hv|].
  - by checked.
  - unfold lift_update, update_row in Hu. rewrite Hr, Hv in Hu. by destruct d.
  - unfold lift_update, update_row in Hu. rewrite Hr in Hu. by destruct d.
Qed.

(** What a consumption makes of the row of its quota. *)
Definition consumption (amount now : Z) (actor : string) (r : Quota) : result (option Quota) :=
  let! used := bigint (Quota_Used r + amount) in
  if (used <=? Quota_Limit r)%Z
  then let! version := bigint (Quota_Version r + 1) in
       Ok (Some (Build_Quota (Quota_TenantID r) (Quota_Key r) (Quota_Limit r) used version
                   (Quota_CreatedAt r) now (Quota_CreatedBy r) actor))
  else Ok None.

Lemma ConsumeQuota_agrees driver tenantID key amount now actor d : inv d →
  agrees d (write_stmt (WConsumeQuota tenantID key amount now actor) d)
    (executed driver (WConsumeQuota tenantID key amount now actor) d).
Proof.
  intros Hd. unfold executed; cbn [write_stmt write_text].
  assert (Hu : agrees d (updating (lift_update tenant_quotas set_tenant_quotas
      (keyed_update (tenantID, key) (consumption amount now actor))) d)
    (sql_exec (fst (Text.ConsumeQuota tenantID key amount now actor))
       (snd (Text.ConsumeQuota tenantID key amount now actor)) (db_tables d))).
  { eapply agrees_update; [compute_prepare|done|apply Hd|intros l t; apply same_set_tenant_quotas|].
    unfold consumption. compute_update. }
  unfold updating, consume_quota, lift_update, keyed_update, update_row, consumption in *.
  destruct (tenant_quotas d !! _) as [r|] eqn:Hr; [|by destruct d].
  destruct (bigint (Quota_Used r + amount)) as [used|e]; simpl in *; [|done].
  destruct (used <=? Quota_Limit r)%Z; [|by destruct d].
  apply agrees_check_updating; [set_solver|intros _].
  unfold bigint in *. by destruct (_ && _)%bool.
Qed.

(** The subtree: every row on its own. *)
Lemma rows_fmap {K R} `{Countable K} (f : R → R) (t : gmap K R) : rows (f <$> t) = f <$> rows t.
Proof. unfold rows. by rewrite map_to_list_fmap, <- !list_fmap_compose. Qed.

Lemma rmap_or_fail {A B C} (g : A → B) (f : B → result C) (h : A → C) (bad : A → bool) e l :
  (∀ x, x ∈ l → f (g x) = if bad x then Err e else Ok (h x)) →
  rmap f (g <$> l) = if existsb bad l then Err e else Ok (h <$> l).
Proof.
  intros Hf. induction l as [|x l IH]; [done|]. csimpl. rewrite Hf by by left.
  destruct (bad x); [done|]. simpl. rewrite IH by (intros y Hy; apply Hf; by right). by destruct (existsb bad l).
Qed.

Lemma MoveDescendants_agrees driver value oldPath d : inv d →
  agrees d (write_stmt (WMoveDescendants value oldPath) d) (executed driver (WMoveDescendants value oldPath) d).
Proof.
  intros Hd. unfold executed; cbn [write_stmt write_text].
  set (bad u := descendant value oldPath u && (max_int64 <? OrganizationUnit_Version u + 1)%Z).
  set (h u := (if descendant value oldPath u then 1 else 0, to_row (move_unit value oldPath u))%Z).
  assert (Ht : sql_exec (fst (Text.move_descendants driver value oldPath))
      (snd (Text.move_descendants driver value oldPath)) (db_tables d)
    = if any_row bad (organization_units d) then Err (PgError "22003")
      else Ok (sum (fst <$> (h <$> rows (organization_units d))),
               with_table (db_tables d) "organization_units" unit_tags (snd <$> (h <$> rows (organization_units d))))).
  { assert (Hv : ∀ u, u ∈ rows (organization_units d) → (1 ≤ OrganizationUnit_Version u)%Z).
    { intros u [k Hk]%elem_of_rows. by destruct (proj1 (inv_units d Hd) k u Hk) as (_ & (? & _) & _). }
    assert (prepare (Text.descendantMoveSQL driver) (snd (Text.move_descendants driver value oldPath))
            = prepare (Text.descendantMoveSQL "postgres") (snd (Text.move_descendants driver value oldPath))) as Hdriver
      by (unfold Text.descendantMoveSQL; destruct (driver =?s "mysql"); compute_prepare).
    unfold sql_exec, Text.move_descendants in *. cbn [fst snd] in *. rewrite Hdriver. replace_prepare. cbn [written].
    assert (db_tables d "organization_units" = Some (unit_tags, to_row <$> rows (organization_units d))) as -> by done.
    cbn [of_option rbind fst snd].
    rewrite (rmap_or_fail to_row _ h bad (PgError "22003")); [by unfold any_row; destruct (existsb _ _)|].
    intros u Hu%Hv. subst h bad. unfold updated_row, move_unit. cbv beta.
    match goal with |- context [holds ?D ?a ?c (to_row u)] =>
      assert (holds D a c (to_row u) = Ok (descendant value oldPath u)) as ->
        by (destruct u; unfold holds, descendant; cbn; by atoms) end.
    cbn [rbind]. destruct (descendant value oldPath u); [|done]. unfold moved. destruct u. cbn in Hu |- *.
    unfold bigint. rewrite (proj2 (Z.leb_le min_int64 _)) by (unfold min_int64; lia). simpl andb.
    destruct (Z.leb_spec (OrganizationUnit_Version + 1) max_int64), (Z.ltb_spec max_int64 (OrganizationUnit_Version + 1));
      [lia|reflexivity|reflexivity|lia]. }
  rewrite Ht. unfold move_descendants. fold bad. destruct (any_row bad _); [right; done|]. simpl.
  apply agrees_check; [set_solver|intros _]. simpl. eexists _, _. split; [done|]. split; [done|].
  apply same_set_organization_units. rewrite rows_fmap, <- !list_fmap_compose. done.
Qed.

(** (C11) The writes mean what their SQL says, whatever the driver: if the model of a statement
    succeeds, its text -- parsed and executed on the tables, with the arguments bound by
    position -- succeeds, changes the number of rows the code reads, and leaves the tables of the
    database the model leaves, in some order; if the model fails, it is with the violation of a
    constraint, or the text fails with the same error. *)
Theorem writes_mean_their_text driver w d : inv d → agrees d (write_stmt w d) (executed driver w d).
Proof.
  intros Hd. pose proof (inserts_agree driver w d) as Hi. pose proof (updates_agree driver w d Hd) as Hu.
  destruct w; try done;
    auto using MoveDescendants_agrees, UpdateQuota_agrees, ConsumeQuota_agrees.
Qed.

(** The quota a consumption reads back in its transaction. *)
Lemma consumed_text tenantID key d : inv d →
  Text.GetContext (fst (Text.consumed tenantID key)) (snd (Text.consumed tenantID key)) d
  = result_map fst (select_quota tenantID key d).
Proof.
  intros Hd. unfold select_quota, Text.consumed. cbn [fst snd].
  assert (one_row (tenant_quotas d !! (tenantID, key))
    = Text.GetContext ("SELECT " +:+ quotaColumns +:+ " FROM tenant_quotas WHERE tenant_id = ? AND quota_key = ?")
        [VText tenantID; VText key] d) as <-
    by (key (λ r, (Quota_TenantID r =?s tenantID) && (Quota_Key r =?s key)); apply Hd).
  by destruct (tenant_quotas d !! _).
Qed.

End Writes.
