(* ===== verification/Statements.v ===== *)
(** * What the repository's statements do to a good database

    Every insertion and update of the repository, on a database that satisfies
    the invariant: the table it leaves, and that the invariant, the order of
    versions and the other tenants' rows survive ([effect]). The queries' [WHERE]
    clauses and the constraints of the schema are what these proofs rest on. *)

From stdpp Require Import base gmap list strings.
From S2P Require Import Prelude GoErrors Model Store Effects Platform Authorization Repository.
From S2P Require Import Tables Invariants.

(** Resolve the constraint checks of a statement that succeeded. *)
Ltac checks Hs :=
  unfold check in Hs;
  repeat match type of Hs with
  | (if ?b then _ else _) = _ => destruct b eqn:?; [|discriminate Hs]
  end;
  reflect_bools.

Section Statements.
Context `{Platform}.

Record effect (T : string) (d d' : DB) : Prop := {
  eff_inv : inv d';
  eff_le : db_le d d';
  eff_only : db_only T d d';
  eff_outbox : tenant_outbox_events d' = tenant_outbox_events d;
}.

Lemma effect_trans T d1 d2 d3 : effect T d1 d2 → effect T d2 d3 → effect T d1 d3.
Proof.
  intros [? ? [] ?] [? ? [] ?]. split; [done|by etrans| |congruence].
  split; by eapply only_tenant_trans.
Qed.

(** The two ways a table changes: a new row, or a newer version of a row. *)
Ltac effect_of_table set_lemma :=
  intros Hd Hle Honly Hok; split; [by apply set_lemma|..|done];
  split; simpl; try reflexivity; auto with tenant.

Lemma effect_tenants T d t :
  inv d → table_le (tenants d) t → only_tenant T (tenants d) t → tenants_ok d t →
  effect T d (set_tenants t d).
Proof. effect_of_table inv_set_tenants. Qed.
Lemma effect_memberships T d t :
  inv d → table_le (memberships d) t → only_tenant T (memberships d) t → memberships_ok d t →
  effect T d (set_memberships t d).
Proof. effect_of_table inv_set_memberships. Qed.
Lemma effect_units T d t :
  inv d → table_le (organization_units d) t → only_tenant T (organization_units d) t →
  units_ok d t → effect T d (set_organization_units t d).
Proof. effect_of_table inv_set_organization_units. Qed.
Lemma effect_invitations T d t :
  inv d → table_le (invitations d) t → only_tenant T (invitations d) t → invitations_ok d t →
  effect T d (set_invitations t d).
Proof. effect_of_table inv_set_invitations. Qed.
Lemma effect_groups T d t :
  inv d → table_le (member_groups d) t → only_tenant T (member_groups d) t → groups_ok d t →
  effect T d (set_member_groups t d).
Proof. effect_of_table inv_set_member_groups. Qed.
Lemma effect_group_members T d t :
  inv d → table_le (group_members d) t → only_tenant T (group_members d) t →
  group_members_ok d t → effect T d (set_group_members t d).
Proof. effect_of_table inv_set_group_members. Qed.
Lemma effect_quotas T d t :
  inv d → table_le (tenant_quotas d) t → only_tenant T (tenant_quotas d) t → quotas_ok d t →
  effect T d (set_tenant_quotas t d).
Proof. effect_of_table inv_set_tenant_quotas. Qed.

(** A tenant that exists is the tenant its key names. *)
Lemma tenant_exists d T :
  inv d → has (tenants d) T = true → ∃ t, tenants d !! T = Some t ∧ row_tenant t = T.
Proof.
  intros Hd [t Ht]%has_true. exists t. split; [done|].
  by destruct (proj1 (inv_tenants _ Hd) _ _ Ht).
Qed.

(** ** Insertions *)

Lemma insert_tenants_effect v d x d' :
  inv d → insert_tenants v d = Ok (x, d') → wf_row v →
  tenants d !! Tenant_ID v = None ∧ d' = set_tenants (<[Tenant_ID v := v]> (tenants d)) d ∧
  effect (Tenant_ID v) d d'.
Proof.
  intros Hd Hs Hv. unfold insert_tenants in Hs. checks Hs. simplify_eq.
  rewrite has_false in *. split_and!; [done..|].
  destruct (inv_tenants _ Hd) as [Hwf Hu].
  apply effect_tenants; [done|by apply table_le_insert|by apply only_tenant_insert|].
  split; [by apply wf_table_insert|].
  apply unique_on_insert; [done|]. intros k r Hr He.
  match goal with Ha : any_row _ _ = false |- _ => rewrite any_row_false in Ha; apply Ha in Hr end.
  by rewrite He, String.eqb_refl in Hr.
Qed.

(** The unique index on two columns, as its test and as its meaning. *)
Lemma pair_eqb_false (a b x y : string) :
  ((a =?s x) && (b =?s y))%bool = false → (a, b) ≠ (x, y).
Proof. intros He [= -> ->]. by rewrite !String.eqb_refl in He. Qed.

Lemma insert_memberships_effect v d x d' :
  inv d → insert_memberships v d = Ok (x, d') → wf_row v →
  unit_in d (Membership_TenantID v) (Membership_PrimaryOrganizationUnitID v) →
  memberships d !! Membership_ID v = None ∧
  d' = set_memberships (<[Membership_ID v := v]> (memberships d)) d ∧
  effect (Membership_TenantID v) d d'.
Proof.
  intros Hd Hs Hv Hunit. unfold insert_memberships in Hs. checks Hs. simplify_eq.
  rewrite has_false, any_row_false in *. split_and!; [done..|].
  destruct (inv_memberships _ Hd) as (Hwf & Hu & Hft & Hfu).
  apply effect_memberships; [done|by apply table_le_insert|by apply only_tenant_insert|].
  split_and!.
  - by apply wf_table_insert.
  - apply unique_on_insert; [done|]. intros k r Hr. eauto using pair_eqb_false.
  - apply refers_insert; [done|]. intros k [= <-]. by apply tenant_exists.
  - by apply refers_insert.
Qed.

Lemma insert_organization_units_effect v d x d' :
  inv d → insert_organization_units v d = Ok (x, d') →
  wf_row v →
  unit_in d (OrganizationUnit_TenantID v) (OrganizationUnit_ParentID v) →
  organization_units d !! OrganizationUnit_ID v = None ∧
  d' = set_organization_units (<[OrganizationUnit_ID v := v]> (organization_units d)) d ∧
  effect (OrganizationUnit_TenantID v) d d'.
Proof.
  intros Hd Hs Hv Hparent. unfold insert_organization_units in Hs. checks Hs. simplify_eq.
  rewrite has_false, any_row_false in *. split_and!; [done..|].
  destruct (inv_units _ Hd) as (Hwf & Hc & Hp & Hft & Hfp).
  assert (table_le (organization_units d)
            (<[OrganizationUnit_ID v := v]> (organization_units d))) by by apply table_le_insert.
  apply effect_units; [done..|by apply only_tenant_insert|]. split_and!.
  - by apply wf_table_insert.
  - apply unique_on_insert; [done|]. intros k r Hr [= He1 He2].
    match goal with Ha : ∀ k r, _ |- _ => apply Ha in Hr end.
    by rewrite He1, He2, !String.eqb_refl in Hr.
  - apply unique_on_insert; [done|]. intros k r Hr [= He1 He2].
    match goal with Ha : ∀ k r, _ |- _ => apply Ha in Hr end.
    by rewrite He1, He2, !String.eqb_refl, orb_true_r in Hr.
  - apply refers_insert; [done|]. intros k [= <-]. by apply tenant_exists.
  - eapply refers_target; [|done]. by apply refers_insert.
Qed.

Lemma insert_invitations_effect v d x d' :
  inv d → insert_invitations v d = Ok (x, d') → wf_row v →
  invitations d !! Invitation_ID v = None ∧
  d' = set_invitations (<[Invitation_ID v := v]> (invitations d)) d ∧
  effect (Invitation_TenantID v) d d'.
Proof.
  intros Hd Hs Hv. unfold insert_invitations in Hs. checks Hs. simplify_eq.
  rewrite has_false, any_row_false in *. split_and!; [done..|].
  destruct (inv_invitations _ Hd) as (Hwf & Hu & Hft).
  apply effect_invitations; [done|by apply table_le_insert|by apply only_tenant_insert|].
  split_and!.
  - by apply wf_table_insert.
  - apply unique_on_insert; [done|]. intros k r Hr He.
    match goal with Ha : ∀ k r, _ |- _ => apply Ha in Hr end. by rewrite He, String.eqb_refl in Hr.
  - apply refers_insert; [done|]. intros k [= <-]. by apply tenant_exists.
Qed.

Lemma insert_member_groups_effect v d x d' :
  inv d → insert_member_groups v d = Ok (x, d') → wf_row v →
  member_groups d !! Group_ID v = None ∧
  d' = set_member_groups (<[Group_ID v := v]> (member_groups d)) d ∧
  effect (Group_TenantID v) d d'.
Proof.
  intros Hd Hs Hv. unfold insert_member_groups in Hs. checks Hs. simplify_eq.
  rewrite has_false, any_row_false in *. split_and!; [done..|].
  destruct (inv_groups _ Hd) as (Hwf & Hu & Hft).
  apply effect_groups; [done|by apply table_le_insert|by apply only_tenant_insert|].
  split_and!.
  - by apply wf_table_insert.
  - apply unique_on_insert; [done|]. intros k r Hr. eauto using pair_eqb_false.
  - apply refers_insert; [done|]. intros k [= <-]. by apply tenant_exists.
Qed.

Lemma insert_group_members_effect v d x d' :
  inv d → insert_group_members v d = Ok (x, d') → wf_row v →
  (∃ g, member_groups d !! GroupMember_GroupID v = Some g ∧
        Group_TenantID g = GroupMember_TenantID v) →
  (∃ m, memberships d !! GroupMember_MembershipID v = Some m ∧
        Membership_TenantID m = GroupMember_TenantID v) →
  group_members d !! GroupMember_ID v = None ∧
  d' = set_group_members (<[GroupMember_ID v := v]> (group_members d)) d ∧
  effect (GroupMember_TenantID v) d d'.
Proof.
  intros Hd Hs Hv Hg Hm. unfold insert_group_members in Hs. checks Hs. simplify_eq.
  rewrite has_false, any_row_false in *. split_and!; [done..|].
  destruct (inv_group_members _ Hd) as (Hwf & Hu & Hft & Hfg & Hfm).
  apply effect_group_members; [done|by apply table_le_insert|by apply only_tenant_insert|].
  split_and!.
  - by apply wf_table_insert.
  - apply unique_on_insert; [done|]. intros k r Hr. eauto using pair_eqb_false.
  - apply refers_insert; [done|]. intros k [= <-]. by apply tenant_exists.
  - apply refers_insert; [done|]. by intros k [= <-].
  - apply refers_insert; [done|]. by intros k [= <-].
Qed.

Lemma insert_tenant_quotas_effect v d x d' :
  inv d → insert_tenant_quotas v d = Ok (x, d') → wf_row v →
  tenant_quotas d !! (Quota_TenantID v, Quota_Key v) = None ∧
  d' = set_tenant_quotas (<[(Quota_TenantID v, Quota_Key v) := v]> (tenant_quotas d)) d ∧
  effect (Quota_TenantID v) d d'.
Proof.
  intros Hd Hs Hv. unfold insert_tenant_quotas in Hs. checks Hs. simplify_eq.
  rewrite has_false in *. split_and!; [done..|].
  destruct (inv_quotas _ Hd) as (Hwf & Hp & Hft).
  apply effect_quotas; [done|by apply table_le_insert|by apply only_tenant_insert|].
  split_and!.
  - by apply wf_table_insert.
  - apply map_Forall_insert_2; [|done]. split; lia.
  - apply refers_insert; [done|]. intros k [= <-]. by apply tenant_exists.
Qed.

(** ** Updates *)

(** An [UPDATE] that reports a row changed it. *)
Lemma lift_update_row `{Countable K} {R} (get : DB → gmap K R) set (key : K) p ver upd d n d' :
  lift_update get set (update_row key p ver upd) d = Ok (Ok n, d') → n ≠ 0%Z →
  ∃ r, get d !! key = Some r ∧ p r = true ∧ d' = set (<[key := upd r]> (get d)) d ∧
       (ver r + 1 ≤ max_int64)%Z.
Proof.
  unfold lift_update. intros Hs Hn. destruct (update_row _ _ _ _ _) as [[n' t']|e] eqn:Hu; [|done].
  simplify_eq. apply update_row_inv in Hu as [[-> _]|(r & ? & ? & ? & -> & ?)]; [done|eauto].
Qed.

(** The side conditions of an update that keeps the immutable columns and
    increments the version. *)
Ltac solve_newer := right; split; [done|simpl; lia].
(** The new row has its type: what does not change had it before. *)
Ltac solve_typed :=
  first [ assumption
        | match goal with H : row_typed _ |- _ => destruct H; destruct_and?; by split_and? end ].

Lemma update_tenants_effect v d n d' :
  inv d → update_tenants v d = Ok (Ok n, d') → n ≠ 0%Z →
  Tenant_Status v ∈ tenant_statuses → Tenant_Name v ≠ "" →
  ∃ r, tenants d !! Tenant_ID v = Some r ∧ Tenant_Version r = Tenant_Version v ∧
       effect (Tenant_ID v) d d' ∧ organization_units d' = organization_units d ∧
       tenant_quotas d' = tenant_quotas d ∧
       invitations d' = invitations d.
Proof.
  intros Hd Hs Hn Hst Hty. apply lift_update_row in Hs as (r & Hr & Hp & -> & Hv); [|done].
  reflect_bools. exists r. split_and!; [done|done| |done..].
  destruct (inv_tenants _ Hd) as [Hwf Hu]. destruct (Hwf _ _ Hr) as [Hk [_ Htyped]]. simpl in Hk.
  apply effect_tenants; [done|eapply table_le_update; [done|solve_newer]
    |by eapply only_tenant_update|].
  split; [eapply wf_table_update; [done..|solve_newer|done|solve_typed]|by eapply unique_on_update].
Qed.

Lemma update_memberships_effect v d n d' :
  inv d → update_memberships v d = Ok (Ok n, d') → n ≠ 0%Z →
  Membership_Status v ∈ membership_statuses →
  ∃ r, memberships d !! Membership_ID v = Some r ∧ Membership_Version r = Membership_Version v ∧
  (unit_in d (Membership_TenantID r) (Membership_PrimaryOrganizationUnitID v) →
   effect (Membership_TenantID r) d d' ∧ organization_units d' = organization_units d ∧
       tenant_quotas d' = tenant_quotas d ∧
   invitations d' = invitations d).
Proof.
  intros Hd Hs Hn Hst. unfold update_memberships in Hs. checks Hs.
  apply lift_update_row in Hs as (r & Hr & Hp & -> & Hv); [|done].
  reflect_bools. exists r. split_and!; [done..|]. intros Hunit. split_and!; [|done..].
  destruct (inv_memberships _ Hd) as (Hwf & Hu & Hft & Hfu). destruct (Hwf _ _ Hr) as [Hk [_ Htyped]].
  apply effect_memberships; [done|eapply table_le_update; [done|solve_newer]
    |by eapply only_tenant_update|]. split_and!.
  - eapply wf_table_update; [done..|solve_newer|done|solve_typed].
  - by eapply unique_on_update.
  - by eapply refers_same.
  - apply refers_insert; [done|]. simpl. by rewrite coalesce_nullableID.
Qed.

Lemma update_invitations_effect v d n d' :
  inv d → update_invitations v d = Ok (Ok n, d') → n ≠ 0%Z →
  Invitation_Status v ∈ invitation_statuses →
  (Invitation_Status v = "accepted" ↔ Invitation_AcceptedByUserID v ≠ "") →
  ∃ r, invitations d !! Invitation_ID v = Some r ∧ Invitation_Version r = Invitation_Version v ∧
       d' = set_invitations (<[Invitation_ID v :=
         Build_Invitation (Invitation_ID r) (Invitation_TenantID r) (Invitation_Email r)
               (Invitation_TokenHash r) (Invitation_Status v) (Invitation_ExpiresAt r)
               (Invitation_AcceptedByUserID v)
               (Invitation_Version r + 1) (Invitation_CreatedAt r) (Invitation_UpdatedAt v)
               (Invitation_CreatedBy r) (Invitation_UpdatedBy v)]> (invitations d)) d ∧
       effect (Invitation_TenantID r) d d'.
Proof.
  intros Hd Hs Hn Hst Hty. apply lift_update_row in Hs as (r & Hr & Hp & Hd' & Hv); [|done].
  rewrite coalesce_nullableID in Hd'.
  reflect_bools. exists r. split_and!; [done..|]. subst d'.
  destruct (inv_invitations _ Hd) as (Hwf & Hu & Hft). destruct (Hwf _ _ Hr) as [Hk [_ Htyped]].
  apply effect_invitations; [done|eapply table_le_update; [done|solve_newer]
    |by eapply only_tenant_update|]. split_and!.
  - eapply wf_table_update; [done..|solve_newer|done|solve_typed].
  - by eapply unique_on_update.
  - by eapply refers_same.
Qed.

Lemma update_member_groups_effect v d n d' :
  inv d → update_member_groups v d = Ok (Ok n, d') → n ≠ 0%Z →
  Group_Status v ∈ unit_statuses → Group_Name v ≠ "" →
  ∃ r, member_groups d !! Group_ID v = Some r ∧ Group_Version r = Group_Version v ∧
       effect (Group_TenantID r) d d' ∧ organization_units d' = organization_units d ∧
       tenant_quotas d' = tenant_quotas d ∧
       invitations d' = invitations d.
Proof.
  intros Hd Hs Hn Hst Hty. apply lift_update_row in Hs as (r & Hr & Hp & -> & Hv); [|done].
  reflect_bools. exists r. split_and!; [done|done| |done..].
  destruct (inv_groups _ Hd) as (Hwf & Hu & Hft). destruct (Hwf _ _ Hr) as [Hk [_ Htyped]].
  apply effect_groups; [done|eapply table_le_update; [done|solve_newer]
    |by eapply only_tenant_update|]. split_and!.
  - eapply wf_table_update; [done..|solve_newer|done|solve_typed].
  - by eapply unique_on_update.
  - by eapply refers_same.
Qed.

Lemma update_group_members_effect v d n d' :
  inv d → update_group_members v d = Ok (Ok n, d') → n ≠ 0%Z →
  GroupMember_Status v ∈ group_member_statuses →
  ∃ r, group_members d !! GroupMember_ID v = Some r ∧
       GroupMember_Version r = GroupMember_Version v ∧
       effect (GroupMember_TenantID r) d d' ∧ organization_units d' = organization_units d ∧
       tenant_quotas d' = tenant_quotas d ∧
       invitations d' = invitations d.
Proof.
  intros Hd Hs Hn Hst. apply lift_update_row in Hs as (r & Hr & Hp & -> & Hv); [|done].
  reflect_bools. exists r. split_and!; [done|done| |done..].
  destruct (inv_group_members _ Hd) as (Hwf & Hu & Hft & Hfg & Hfm).
  destruct (Hwf _ _ Hr) as [Hk [_ Htyped]].
  apply effect_group_members; [done|eapply table_le_update; [done|solve_newer]
    |by eapply only_tenant_update|]. split_and!.
  - eapply wf_table_update; [done..|solve_newer|done|solve_typed].
  - by eapply unique_on_update.
  - by eapply refers_same.
  - by eapply refers_same.
  - by eapply refers_same.
Qed.

(** *** Quotas *)

Lemma update_quota_limit_effect v d n d' :
  inv d → update_quota_limit v d = Ok (Ok n, d') → n ≠ 0%Z →
  let k := (Quota_TenantID v, Quota_Key v) in
  ∃ r, tenant_quotas d !! k = Some r ∧ Quota_Version r = Quota_Version v ∧
       d' = set_tenant_quotas (<[k := Build_Quota (Quota_TenantID r) (Quota_Key r) (Quota_Limit v)
                     (Quota_Used r) (Quota_Version r + 1) (Quota_CreatedAt r) (Quota_UpdatedAt v)
                     (Quota_CreatedBy r) (Quota_UpdatedBy v)]> (tenant_quotas d)) d ∧
       effect (Quota_TenantID v) d d'.
Proof.
  intros Hd Hs Hn k. unfold update_quota_limit in Hs.
  destruct (tenant_quotas d !! _) as [r0|] eqn:Hr0; [|by simplify_eq].
  destruct (Quota_Version r0 =? Quota_Version v)%Z eqn:Hv0; [|by simplify_eq]. checks Hs.
  apply lift_update_row in Hs as (r & Hr & Hp & -> & Hv); [|done].
  reflect_bools. rewrite Hr0 in Hr. simplify_eq. exists r. split_and!; [done..|].
  destruct (inv_quotas _ Hd) as (Hwf & Hpos & Hft). destruct (Hwf _ _ Hr0) as [Hk [_ Htyped]].
  simpl in Hk. simplify_eq.
  apply effect_quotas; [done|eapply table_le_update; [done|solve_newer]
    |by eapply only_tenant_update|]. split_and!.
  - eapply wf_table_update; [done..|solve_newer|done|done].
  - apply map_Forall_insert_2; [|done]. destruct (Hpos _ _ Hr0). split; simpl; lia.
  - by eapply refers_same.
Qed.

Lemma consume_quota_effect tenantID key amount now actor d n d' :
  inv d → consume_quota tenantID key amount now actor d = Ok (Ok n, d') → n ≠ 0%Z →
  ∃ r, tenant_quotas d !! (tenantID, key) = Some r ∧
       (Quota_Used r + amount ≤ Quota_Limit r)%Z ∧
       d' = set_tenant_quotas (<[(tenantID, key) :=
              Build_Quota (Quota_TenantID r) (Quota_Key r) (Quota_Limit r)
                (Quota_Used r + amount) (Quota_Version r + 1) (Quota_CreatedAt r) now
                (Quota_CreatedBy r) actor]> (tenant_quotas d)) d ∧
       effect tenantID d d'.
Proof.
  intros Hd Hs Hn. unfold consume_quota in Hs.
  destruct (tenant_quotas d !! _) as [r0|] eqn:Hr0; [|by simplify_eq].
  unfold bigint in Hs. destruct (_ && _)%bool eqn:Hb; [|done].
  destruct (_ <=? Quota_Limit r0)%Z eqn:Hl; [|by simplify_eq]. checks Hs.
  apply lift_update_row in Hs as (r & Hr & _ & -> & Hv); [|done].
  rewrite Hr0 in Hr. injection Hr as <-. exists r0. split_and!; [done..|].
  destruct (inv_quotas _ Hd) as (Hwf & Hpos & Hft). destruct (Hwf _ _ Hr0) as [Hk [_ Htyped]].
  simpl in Hk. simplify_eq.
  apply effect_quotas; [done|eapply table_le_update; [done|solve_newer]
    |by eapply only_tenant_update|]. split_and!.
  - eapply wf_table_update; [done..|solve_newer|done|done].
  - apply map_Forall_insert_2; [|done]. destruct (Hpos _ _ Hr0). split; simpl; lia.
  - by eapply refers_same.
Qed.

(** No row is changed exactly when there is no quota, or not enough room. *)
Lemma consume_quota_zero tenantID key amount now actor d d' :
  consume_quota tenantID key amount now actor d = Ok (Ok 0%Z, d') →
  d' = d ∧ ∀ r, tenant_quotas d !! (tenantID, key) = Some r →
                (Quota_Limit r < Quota_Used r + amount)%Z.
Proof.
  intros Hs. unfold consume_quota, bigint in Hs.
  destruct (tenant_quotas d !! _) as [r0|] eqn:Hr0; [|by simplify_eq].
  destruct (_ && _)%bool eqn:Hb; [|done].
  destruct (_ <=? Quota_Limit r0)%Z eqn:Hl; [|reflect_bools; naive_solver]. checks Hs.
  unfold lift_update, update_row in Hs. rewrite Hr0 in Hs. destruct (bigint (Quota_Version r0 + 1)); done.
Qed.

(** The row a consumption leaves. *)
Definition consumed_quota (r : Quota) (amount now : Z) (actor : string) : Quota :=
  Build_Quota (Quota_TenantID r) (Quota_Key r) (Quota_Limit r) (Quota_Used r + amount)
    (Quota_Version r + 1) (Quota_CreatedAt r) now (Quota_CreatedBy r) actor.

Lemma twp_consume U tenantID key amount now actor (Q : Quota * bool * option goerr → DB → Prop) d :
  inv d → (∀ e d', Q (Quota0, false, Some e) d') →
  ((∀ r, tenant_quotas d !! (tenantID, key) = Some r →
         (Quota_Limit r < Quota_Used r + amount)%Z) → Q (Quota0, false, None) d) →
  (∀ r d', tenant_quotas d !! (tenantID, key) = Some r → 
     (Quota_Used r + amount ≤ Quota_Limit r)%Z →
     d' = set_tenant_quotas
            (<[(tenantID, key) := consumed_quota r amount now actor]> (tenant_quotas d)) d →
     effect tenantID d d' → Q (consumed_quota r amount now actor, true, None) d') →
  twp U (ConsumeQuota tenantID key amount now actor) Q d.
Proof.
  intros Hd He Hz Hk. unfold ConsumeQuota. cbn [tbind exec]. split; [intros; apply He|].
  destruct (consume_quota _ _ _ _ _ d) as [[[n|e] d1]|e] eqn:Hs; [|apply He|done].
  destruct (Z.eqb_spec n 0) as [->|Hn].
  - apply consume_quota_zero in Hs as [-> Hs]. by apply Hz.
  - apply consume_quota_effect in Hs as (r & Hr & Hl & Hd1 & Heff); [|done..].
    cbn. split; [intros; apply He|]. unfold select_quota.
    rewrite Hd1. simpl. rewrite lookup_insert_eq. rewrite <- Hd1. by eapply Hk.
Qed.

(** *** Organization units *)

(** The row an update of a unit leaves. *)
Definition updated_unit (r v : OrganizationUnit) : OrganizationUnit :=
  Build_OrganizationUnit (OrganizationUnit_ID r) (OrganizationUnit_TenantID r)
    (OrganizationUnit_ParentID v) (OrganizationUnit_Code r) (OrganizationUnit_Name v)
    (OrganizationUnit_Path v) (OrganizationUnit_Status v) (OrganizationUnit_Version r + 1)
    (OrganizationUnit_CreatedAt r) (OrganizationUnit_UpdatedAt v) (OrganizationUnit_CreatedBy r)
    (OrganizationUnit_UpdatedBy v).

Lemma update_unit_table v d n d' :
  update_unit v d = Ok (Ok n, d') → n ≠ 0%Z →
  ∃ r, organization_units d !! OrganizationUnit_ID v = Some r ∧
       OrganizationUnit_Version r = OrganizationUnit_Version v ∧
       d' = set_organization_units
              (<[OrganizationUnit_ID v := updated_unit r v]> (organization_units d)) d.
Proof.
  intros Hs Hn. unfold update_unit in Hs. checks Hs.
  apply lift_update_row in Hs as (r & Hr & Hp & -> & Hv); [|done]. reflect_bools.
  rewrite coalesce_nullableID. by exists r.
Qed.

Lemma update_unit_effect v d n d' :
  inv d → update_unit v d = Ok (Ok n, d') → n ≠ 0%Z →
  OrganizationUnit_Status v ∈ unit_statuses → OrganizationUnit_Name v ≠ "" →
  ∃ r, organization_units d !! OrganizationUnit_ID v = Some r ∧
       OrganizationUnit_Version r = OrganizationUnit_Version v ∧
  (unit_in d (OrganizationUnit_TenantID r) (OrganizationUnit_ParentID v) →
   effect (OrganizationUnit_TenantID r) d d' ∧ tenant_quotas d' = tenant_quotas d ∧
   invitations d' = invitations d).
Proof.
  intros Hd Hs Hn Hst Hty. unfold update_unit in Hs. checks Hs.
  apply lift_update_row in Hs as (r & Hr & Hp & -> & Hv); [|done].
  reflect_bools. exists r. split_and!; [done..|]. intros Hparent. split_and!; [|done..].
  destruct (inv_units _ Hd) as (Hwf & Hc & Hpath & Hft & Hfp). destruct (Hwf _ _ Hr) as [Hk [_ Htyped]].
  simpl in Hk. rewrite any_row_false in *.
  assert (table_le (organization_units d) (<[OrganizationUnit_ID v :=
    Build_OrganizationUnit (OrganizationUnit_ID r) (OrganizationUnit_TenantID r)
      (coalesce (nullableID (OrganizationUnit_ParentID v))) (OrganizationUnit_Code r)
      (OrganizationUnit_Name v) (OrganizationUnit_Path v) (OrganizationUnit_Status v)
      (OrganizationUnit_Version r + 1) (OrganizationUnit_CreatedAt r) (OrganizationUnit_UpdatedAt v)
      (OrganizationUnit_CreatedBy r) (OrganizationUnit_UpdatedBy v)]> (organization_units d))).
  { eapply table_le_update; [done|solve_newer]. }
  apply effect_units; [done..|by eapply only_tenant_update|]. split_and!.
  - eapply wf_table_update; [done..|solve_newer|done|solve_typed].
  - by eapply unique_on_update.
  - apply unique_on_update_fresh; [done|]. intros k u Hu Hne [= He1 He2].
    assert (OrganizationUnit_ID u = k) as <- by apply (Hwf _ _ Hu).
    match goal with Ha : ∀ k r, _ |- _ => apply Ha in Hr end.
    apply andb_false_iff in Hr as [Hr|Hr].
    + by rewrite Hk, String.eqb_refl, Hp, Z.eqb_refl in Hr.
    + rewrite any_row_false in Hr. apply Hr in Hu. rewrite He1, He2, !String.eqb_refl, Hk in Hu.
      by apply String.eqb_neq in Hne as Hne'; rewrite Hne' in Hu.
  - by eapply refers_same.
  - eapply refers_target; [|done]. apply refers_insert; [done|]. simpl.
    by rewrite coalesce_nullableID.
Qed.

Lemma move_unit_le v oldPath u : row_le u (move_unit v oldPath u).
Proof. unfold move_unit. case_match; [solve_newer|reflexivity]. Qed.

Lemma move_descendants_effect v oldPath d x d' :
  inv d → move_descendants v oldPath d = Ok (x, d') →
  d' = set_organization_units (move_unit v oldPath <$> organization_units d) d ∧
  effect (OrganizationUnit_TenantID v) d d'.
Proof.
  intros Hd Hs. unfold move_descendants in Hs. checks Hs. simplify_eq. split; [done|].
  destruct (inv_units _ Hd) as (Hwf & Hc & Hpath & Hft & Hfp).
  assert (table_le (organization_units d) (move_unit v oldPath <$> organization_units d)) as Hle.
  { intros k r Hr. exists (move_unit v oldPath r). split; [|apply move_unit_le].
    by rewrite lookup_fmap, Hr. }
  assert (∀ k u, (move_unit v oldPath <$> organization_units d) !! k = Some u →
    ∃ r, organization_units d !! k = Some r ∧ u = move_unit v oldPath r) as Hback.
  { intros k u Hu. by rewrite lookup_fmap_Some in Hu; destruct Hu as (r & <- & ?); eauto. }
  rewrite any_row_false in *.
  assert (wf_table (move_unit v oldPath <$> organization_units d)) as Hwf'.
  { intros k u (r & Hr & ->)%Hback. destruct (Hwf _ _ Hr) as [Hk Hv].
    match goal with Ha : ∀ k r, _ |- _ => specialize (Ha _ _ Hr) end.
    unfold move_unit. destruct (descendant v oldPath r); [|done]. destruct Hv as [Hv Hty].
    unfold wf_row. simpl in *. reflect_bools. split_and!; [done|lia|lia|done]. }
  apply effect_units; [done..| |].
  - intros k. rewrite lookup_fmap. destruct (organization_units d !! k) as [r|]; simpl; [|by left].
    unfold move_unit, descendant. case_match eqn:Hm; [|by left]. reflect_bools.
    right. split; intros; by simplify_eq.
  - split_and!; [done|..].
    + intros k1 k2 r1 r2 (u1 & Hu1 & ->)%Hback (u2 & Hu2 & ->)%Hback He.
      eapply Hc; [done..|]. unfold move_unit in He. by repeat case_match; simpl in He.
    + intros k1 k2 r1 r2 H1 H2 [= He1 He2]. apply dec_stable. intros Hne.
      match goal with Hdup : duplicate_path _ = false |- _ =>
        unfold duplicate_path in Hdup; rewrite any_row_false in Hdup;
        specialize (Hdup _ _ H1); rewrite any_row_false in Hdup; specialize (Hdup _ _ H2) end.
      rewrite He1, He2, !String.eqb_refl in *. destruct (Hwf' _ _ H1), (Hwf' _ _ H2). simpl in *.
      subst. destruct (String.eqb_spec (OrganizationUnit_ID r1) (OrganizationUnit_ID r2)); done.
    + intros k a k' (r & Hr & ->)%Hback Hk'. destruct (Hft k r k') as (b & ? & Hb); [done|..].
      { unfold move_unit in Hk'. by case_match. }
      exists b. split; [done|]. rewrite Hb. apply (row_le_tenant _ _ (move_unit_le v oldPath r)).
    + eapply refers_target; [|done]. intros k a k' (r & Hr & ->)%Hback Hk'.
      destruct (Hfp k r k') as (b & ? & Hb); [done|..].
      { unfold move_unit in Hk'. by case_match. }
      exists b. split; [done|]. rewrite Hb. apply (row_le_tenant _ _ (move_unit_le v oldPath r)).
Qed.

End Statements.
