(* ===== verification/Service.v ===== *)
(** * The service object and what its methods share

    The [Service] struct, the Redis locks of [internal/cache/redis.go], the two
    lock brackets of [internal/tenant], the argument checks every list and batch
    method begins with, and the invitation tokens' hash. A method of the Go
    service that returns [(T, error)] is a program that returns the pair: Go code
    hands out both components, also when the error is not nil. *)

From stdpp Require Import base gmap list strings.
From S2P Require Import Prelude GoErrors Model Store Effects Platform Authorization.

(** ** The struct *)

(** [transactor_available]: [Transactor.db] is not nil; [locker]: the [locker]
    field is not nil; [idempotency]: the manager, when there is one, with its
    [Enabled()] answer. *)
Record Service := Build_Service {
  transactor_available : bool;
  locker : bool;
  idempotency : option bool;
}.

(** [s.transactor.Within(ctx, nil, fn)] with the variables [fn] assigns. *)
Definition within {X} (s : Service) (x0 : X) (body : tx (X * option goerr))
  : prog (X * option goerr) := Transact (transactor_available s) x0 body Ret.

(** The same for a body that assigns nothing. *)
Definition within_ (s : Service) (body : tx (option goerr)) : prog (option goerr) :=
  r <- within s tt (tbind body (λ err, TRet (tt, err)));;
  Ret (snd r).

(** ** Locks *)

Definition lockKeyPrefix : string := "lock:".

(** A mutex that was locked: its key and the value it was locked with. *)
Record Mutex := Build_Mutex { mutex_Name : string; mutex_value : nat }.

Definition newMutex (key : string) (ttl : Z) : result string :=
  stop_if key =?s "" => Err (TextError "lock key must not be empty");;
  stop_if (ttl <=? 0)%Z => Err (TextError "lock ttl must be positive");;
  Ok (lockKeyPrefix +:+ key).

(** [Locker.Lock]: the flag of a failed attempt says
    whether the context had ended. *)
Definition Lock (key : string) (ttl retryDelay : Z) : prog (result Mutex) :=
  stop_if (retryDelay <=? 0)%Z => Ret (Err (TextError "lock retry delay must be positive"));;
  mutex <-! newMutex key ttl else err => Ret (Err err);;
  MutexLock mutex (λ r,
    match r with
    | inr (true, ctxErr) => Ret (Err (Wrapped ("wait for redis lock " +:+ key) ctxErr))
    | inr (false, err) => Ret (Err (Wrapped ("acquire redis lock " +:+ key) err))
    | inl value => Ret (Ok (Build_Mutex mutex value))
    end).

(** [Lock.Unlock]. *)
Definition Unlock (mutex : Mutex) : prog (option goerr) :=
  MutexUnlock (mutex_Name mutex) (mutex_value mutex) (λ r,
    match r with
    | Err err => Ret (Some (Wrapped ("release redis lock " +:+ mutex_Name mutex) err))
    | Ok ok =>
        if negb ok then
          Ret (Some (TextError ("release redis lock " +:+ mutex_Name mutex +:+ ": lock is no longer owned")))
        else Ret None
    end).

Definition isContention (err : goerr) : bool :=
  if Is err ErrFailed then true
  else match As is_taken err with Some _ => true | None => false end.

(** [Locker.TryLock]: one try; no mutex when somebody else has it. *)
Definition TryLock (key : string) (ttl : Z) : prog (result (option Mutex)) :=
  mutex <-! newMutex key ttl else err => Ret (Err err);;
  MutexLock mutex (λ r,
    match r with
    | inr (_, err) =>
        if isContention err then Ret (Ok None) else Ret (Err (Wrapped ("try redis lock " +:+ key) err))
    | inl value => Ret (Ok (Some (Build_Mutex mutex value)))
    end).

(** [Lock.Extend], from what the mutex answers. *)
Definition Extend (mutex : Mutex) (answer : result bool) : option goerr :=
  match answer with
  | Err err => Some (Wrapped ("extend redis lock " +:+ mutex_Name mutex) err)
  | Ok ok =>
      if negb ok then Some (TextError ("extend redis lock " +:+ mutex_Name mutex +:+ ": lock is no longer owned")) else None
  end.

(** [a0] are the values the variables [operation] assigns had before. *)
Definition withResourceLock {A} (s : Service) (key : string) (a0 : A)
    (operation : prog (A * option goerr)) : prog (A * option goerr) :=
  stop_if negb (locker s) => operation;;
  lock <-? Lock key (15 * second) (50 * millisecond) else err => Ret (a0, Some err);;
  r <- operation;;
  unlockErr <- Unlock lock;;
  Ret (fst r, Join (snd r) unlockErr).

Definition withOrganizationLock {A} (s : Service) (tenantID : string) (a0 : A)
    (operation : prog (A * option goerr)) : prog (A * option goerr) :=
  stop_if negb (locker s) => operation;;
  lock <-? Lock ("tenant:organization-tree:" +:+ tenantID) (15 * second) (50 * millisecond)
    else err => Ret (a0, Some err);;
  r <- operation;;
  unlockErr <- Unlock lock;;
  Ret (fst r, Join (snd r) unlockErr).

(** ** Arguments *)

(** [if page <= 0 { page = 1 }], [if pageSize <= 0 { pageSize = 20 }]. *)
Definition default_page (page : Z) : Z := if (page <=? 0)%Z then 1%Z else page.
Definition default_page_size (pageSize : Z) : Z := if (pageSize <=? 0)%Z then 20%Z else pageSize.

(** [(page-1)*pageSize] in [int]. *)
Definition page_offset (page pageSize : Z) : Z := wrap64 (wrap64 (page - 1) * pageSize).

(** The loop over [ids] that trims, refuses an empty identifier ([None]) and
    keeps the first occurrence of each. *)
Fixpoint unique_ids (ids unique : list string) : option (list string) :=
  match ids with
  | [] => Some unique
  | id :: ids' =>
      let id := TrimSpace id in
      if id =?s "" then None
      else if bool_decide (id ∈ unique) then unique_ids ids' unique
      else unique_ids ids' (unique ++ [id])
  end.

Definition validTenantStatus (value : string) : bool :=
  (value =?s "pending") || (value =?s "active") || (value =?s "suspended")
  || (value =?s "closing") || (value =?s "closed").
Definition validMembershipStatus (value : string) : bool :=
  (value =?s "invited") || (value =?s "active") || (value =?s "disabled") || (value =?s "removed").

(** ** Results *)

Section Results.
Context `{ErrorCodes}.

(** [return s.repository.GetX(ctx, id)]: the pair as it is. *)
Definition pair_of {X} (x0 : X) (r : result X) : X * option goerr :=
  match r with Ok x => (x, None) | Err e => (x0, Some e) end.

(** [items, total, err := f(...); return Page{...}, translate(err)] *)
Definition page_result {X P} (mk : list X → Z → P) (r : result (list X * Z)) : P * option goerr :=
  match r with
  | Ok (items, total) => (mk items total, None)
  | Err err => (mk [] 0%Z, translate (Some err))
  end.

(** [items, err := f(...); return items, translate(err)] *)
Definition list_result {X} (r : result (list X)) : list X * option goerr :=
  match r with Ok items => (items, None) | Err err => ([], translate (Some err)) end.

End Results.

(** ** Properties *)

(** The deduplicated identifiers: exactly the trimmed ones, each once, in order
    of first occurrence. *)
Lemma unique_ids_spec ids unique us :
  NoDup unique → unique_ids ids unique = Some us →
  NoDup us ∧ unique `prefix_of` us ∧
  (∀ x, x ∈ us ↔ x ∈ unique ∨ x ∈ map TrimSpace ids).
Proof.
  revert unique. induction ids as [|id ids IH]; simpl; intros unique Hnd Hu.
  - simplify_eq. split_and!; [done..|]. set_solver.
  - case_match; [done|]. case_bool_decide as Hin.
    + destruct (IH _ Hnd Hu) as (? & ? & Hx). split_and!; [done..|].
      intros x. rewrite Hx. set_solver.
    + destruct (IH (unique ++ [TrimSpace id])) as (? & Hp & Hx); [|done|].
      { apply NoDup_app. split_and!; [done|set_solver|apply NoDup_singleton]. }
      split_and!; [done|by etrans; [apply prefix_app_r|]|].
      intros x. rewrite Hx. set_solver.
Qed.

Lemma unique_ids_None ids unique :
  unique_ids ids unique = None ↔ "" ∈ map TrimSpace ids.
Proof.
  revert unique. induction ids as [|id ids IH]; simpl; intros unique; [set_solver|].
  destruct (String.eqb_spec (TrimSpace id) "") as [->|Hne]; [set_solver|].
  case_bool_decide; rewrite IH; set_solver.
Qed.

(** No page of a valid size starts below zero or leaves the integers as long as
    the page number is below 2^56. *)
Lemma page_offset_exact page pageSize :
  (1 ≤ page ≤ 2 ^ 56)%Z → (1 ≤ pageSize ≤ 100)%Z →
  page_offset page pageSize = ((page - 1) * pageSize)%Z.
Proof.
  intros Hp Hs. unfold page_offset. rewrite (wrap64_id (page - 1)), wrap64_id;
    unfold in_int64, min_int64, max_int64; nia.
Qed.
