(* ===== verification/Dictionary.v ===== *)
(** * The organization dictionary

    [internal/tenant/dictionary_provider.go]: the pages, trees and code lookups
    served from a tenant's organization units. *)

From stdpp Require Import base gmap list strings.
From S2P Require Import Prelude GoErrors Model Store Effects Platform.
From S2P Require Import Repository.

Definition OrganizationUnitDictionaryCode : string := "tenant.organization_units".

(** [Filters] is a Go map. *)
Record DictionarySearch := Build_DictionarySearch {
  DictionarySearch_Keyword : string;
  DictionarySearch_Filters : gmap string string;
  DictionarySearch_Sort : string;
  DictionarySearch_Descending : bool;
  DictionarySearch_Page : Z;
  DictionarySearch_PageSize : Z;
}.

Record DictionaryPage := Build_DictionaryPage {
  DictionaryPage_Items : list OrganizationUnit;
  DictionaryPage_Total : Z;
  DictionaryPage_Page : Z;
  DictionaryPage_PageSize : Z;
}.

Definition DictionaryPage0 : DictionaryPage := Build_DictionaryPage [] 0 0 0.

(** [m[key]] of a [map[string]string]. *)
Definition map_get (m : gmap string string) (key : string) : string := default "" (m !! key).

(** [for key := range filters] with its early return. *)
Definition validDictionaryFilters (filters : gmap string string) : bool :=
  forallb (λ key, key =?s "status") (map_to_list filters).*1.

Definition validDictionarySort (value : string) : bool :=
  (value =?s "") || (value =?s "code") || (value =?s "name") || (value =?s "path").

Section Dictionary.
Context `{Platform}.

(** The keyword occurs in the code or the name, case-folded. *)
Definition keyword_hit (keyword : string) (item : OrganizationUnit) : bool :=
  Contains (ToLower (OrganizationUnit_Code item)) keyword
  || Contains (ToLower (OrganizationUnit_Name item)) keyword.

Definition filterOrganizationUnits (items : list OrganizationUnit) (keyword status : string)
  : list OrganizationUnit :=
  let keyword := ToLower (TrimSpace keyword) in
  List.filter (λ item,
    if (status <>?s "") && (OrganizationUnit_Status item <>?s status) then false
    else if (keyword <>?s "") && negb (keyword_hit keyword item) then false
    else true) items.

(** ** Ancestors *)

Definition index_by_id (items : list OrganizationUnit) : gmap string OrganizationUnit :=
  foldl (λ m item, <[OrganizationUnit_ID item := item]> m) ∅ items.

(** [for current := item; current.ID != "" && !keep[current.ID]; current =
    byID[current.ParentID] { keep[current.ID] = true }]. A turn of the loop adds a
    key to [keep]; [fuel] bounds the turns. *)
Fixpoint keep_chain (fuel : nat) (byID : gmap string OrganizationUnit) (current : OrganizationUnit)
    (keep : gset string) : option (gset string) :=
  if (OrganizationUnit_ID current =?s "") || bool_decide (OrganizationUnit_ID current ∈ keep)
  then Some keep
  else match fuel with
       | O => None
       | S fuel' =>
           keep_chain fuel' byID
             (default OrganizationUnit0 (byID !! OrganizationUnit_ParentID current))
             ({[OrganizationUnit_ID current]} ∪ keep)
       end.

(** The second loop: [keep] after every item. *)
Fixpoint keep_matches (fuel : nat) (byID : gmap string OrganizationUnit) (keyword : string)
    (items : list OrganizationUnit) (keep : gset string) : option (gset string) :=
  match items with
  | [] => Some keep
  | item :: items' =>
      if negb (keyword_hit keyword item) then keep_matches fuel byID keyword items' keep
      else match keep_chain fuel byID item keep with
           | Some keep' => keep_matches fuel byID keyword items' keep'
           | None => None
           end
  end.

(** A chain visits each of the items and the unknown parent at most once, so
    [length items + 1] turns are enough ([keep_chain_enough]). *)
Definition withOrganizationAncestors (items : list OrganizationUnit) (keyword : string)
  : option (list OrganizationUnit) :=
  let byID := index_by_id items in
  match keep_matches (S (length items)) byID (ToLower (TrimSpace keyword)) items ∅ with
  | Some keep => Some (List.filter (λ item, bool_decide (OrganizationUnit_ID item ∈ keep)) items)
  | None => None
  end.

(** ** Trees *)

(** The [children] map after both loops: the items of a parent, sorted by path. *)
Definition children_of (items : list OrganizationUnit) (parent : string) : list OrganizationUnit :=
  sortOrganizationUnits (List.filter (λ item, OrganizationUnit_ParentID item =?s parent) items)
    "path" false.

(** The variables [count] and [truncated] that [build] assigns. *)
Record BuildState := Build_BuildState { build_count : Z; build_truncated : bool }.

(** The closure [build] without its depth test, for the levels that remain, and
    its loop over the children of one parent. [levels] is [maxDepth - depth + 1]. *)
Fixpoint build_tree (items : list OrganizationUnit) (maxNodes : Z) (levels : nat)
    (parent : string) (ancestors : gset string) (st : BuildState)
  : list OrganizationTreeNode * BuildState :=
  match levels with
  | O =>
      ([], Build_BuildState (build_count st)
             (build_truncated st || (0 <? Z.of_nat (length (children_of items parent)))%Z))
  | S levels' =>
      (fix loop (l : list OrganizationUnit) (st : BuildState)
         : list OrganizationTreeNode * BuildState :=
         match l with
         | [] => ([], st)
         | item :: l' =>
             if (maxNodes <=? build_count st)%Z then
               ([], Build_BuildState (build_count st) true)
             else if bool_decide (OrganizationUnit_ID item ∈ ancestors) then
               loop l' (Build_BuildState (build_count st) true)
             else
               let '(sub, st) :=
                 build_tree items maxNodes levels' (OrganizationUnit_ID item)
                   ({[OrganizationUnit_ID item]} ∪ ancestors)
                   (Build_BuildState (build_count st + 1) (build_truncated st)) in
               let node := Build_OrganizationTreeNode item sub
                 (0 <? Z.of_nat (length (children_of items (OrganizationUnit_ID item))))%Z in
               let '(nodes, st) := loop l' st in
               (node :: nodes, st)
         end) (children_of items parent) st
  end.

Definition buildOrganizationTree (items : list OrganizationUnit) (mode parentID : string)
    (maxDepth maxNodes : Z) : list OrganizationTreeNode * bool :=
  let root := if mode =?s "children" then parentID else "" in
  let '(nodes, st) :=
    build_tree items maxNodes (Z.to_nat maxDepth) root ∅ (Build_BuildState 0 false) in
  (nodes, build_truncated st).

(** ** The provider *)

Definition Query (tenantID code : string) (search : DictionarySearch)
  : prog (result DictionaryPage) :=
  stop_if (TrimSpace tenantID =?s "") || (code <>?s OrganizationUnitDictionaryCode) =>
    Ret (Err (Sentinel ErrDictionaryUnsupported));;
  let page := if (DictionarySearch_Page search =? 0)%Z then 1%Z else DictionarySearch_Page search in
  let pageSize :=
    if (DictionarySearch_PageSize search =? 0)%Z then 20%Z else DictionarySearch_PageSize search in
  stop_if (page <? 1)%Z || (pageSize <? 1)%Z || (100 <? pageSize)%Z
          || negb (validDictionaryFilters (DictionarySearch_Filters search))
          || negb (validDictionarySort (DictionarySearch_Sort search)) =>
    Ret (Err (Sentinel ErrDictionaryRequest));;
  items <-? ListOrganizationUnits tenantID else err => Ret (Err err);;
  let items := filterOrganizationUnits items (DictionarySearch_Keyword search)
                 (map_get (DictionarySearch_Filters search) "status") in
  let items := sortOrganizationUnits items (DictionarySearch_Sort search)
                 (DictionarySearch_Descending search) in
  let total := Z.of_nat (length items) in
  let start := wrap64 (wrap64 (page - 1) * pageSize) in
  let slice :=
    if (total <=? start)%Z then Some []
    else if (start <? 0)%Z then None
    else let end_ := Z.min (wrap64 (start + pageSize)) total in
         Some (take (Z.to_nat (end_ - start)) (drop (Z.to_nat start) items)) in
  match slice with
  | Some items => Ret (Ok (Build_DictionaryPage items total page pageSize))
  | None => Ret (Err (TextError "panic: slice bounds out of range"))
  end.

(** What the provider's repository implements beside [ListOrganizationUnits]: the
    outcome of the two interface assertions of [Tree]. *)
Record DictionaryProvider := Build_DictionaryProvider {
  lists_children : bool;
  searches_ancestors : bool;
}.

(** [NewDictionaryProvider] on the SQL repository, which implements both. *)
Definition NewDictionaryProvider : DictionaryProvider := Build_DictionaryProvider true true.

Definition search_tree (tenantID mode parentID keyword status : string) (maxDepth maxNodes : Z)
  : prog (result (list OrganizationTreeNode * bool)) :=
  r <-? SearchOrganizationUnitsWithAncestors tenantID keyword status maxNodes
    else err => Ret (Err err);;
  let '(items, searchTruncated) := r in
  let '(roots, treeTruncated) := buildOrganizationTree items mode parentID maxDepth maxNodes in
  Ret (Ok (roots, searchTruncated || treeTruncated)).

Definition Tree (p : DictionaryProvider) (tenantID code mode parentID keyword : string)
    (maxDepth maxNodes : Z) (filters : gmap string string)
  : prog (result (list OrganizationTreeNode * bool)) :=
  stop_if (TrimSpace tenantID =?s "") || (code <>?s OrganizationUnitDictionaryCode) =>
    Ret (Err (Sentinel ErrDictionaryUnsupported));;
  stop_if negb (validDictionaryFilters filters)
          || ((mode <>?s "full") && (mode <>?s "children") && (mode <>?s "search_with_ancestors")) =>
    Ret (Err (Sentinel ErrDictionaryRequest));;
  let maxDepth := if (maxDepth =? 0)%Z then 8%Z else maxDepth in
  let maxNodes := if (maxNodes =? 0)%Z then 1000%Z else maxNodes in
  stop_if (maxDepth <? 1)%Z || (32 <? maxDepth)%Z || (maxNodes <? 1)%Z || (5000 <? maxNodes)%Z =>
    Ret (Err (Sentinel ErrDictionaryRequest));;
  stop_if (mode =?s "children") && (maxDepth =? 1)%Z && lists_children p =>
    ListOrganizationChildren tenantID parentID (map_get filters "status") maxNodes;;
  stop_if (mode =?s "search_with_ancestors") && searches_ancestors p =>
    search_tree tenantID mode parentID keyword (map_get filters "status") maxDepth maxNodes;;
  items <-? ListOrganizationUnits tenantID else err => Ret (Err err);;
  let items := filterOrganizationUnits items "" (map_get filters "status") in
  match (if (mode =?s "search_with_ancestors") && (TrimSpace keyword <>?s "")
         then withOrganizationAncestors items keyword else Some items) with
  | Some items =>
      let '(roots, truncated) := buildOrganizationTree items mode parentID maxDepth maxNodes in
      Ret (Ok (roots, truncated))
  | None => Ret (Err (TextError "no fuel"))
  end.

Definition ResolveCodes (tenantID code : string) (codes : list string)
  : prog (result (gmap string OrganizationUnit)) :=
  stop_if (TrimSpace tenantID =?s "") || (code <>?s OrganizationUnitDictionaryCode) =>
    Ret (Err (Sentinel ErrDictionaryUnsupported));;
  stop_if (500 <? Z.of_nat (length codes))%Z => Ret (Err (Sentinel ErrDictionaryRequest));;
  items <-? ListOrganizationUnits tenantID else err => Ret (Err err);;
  let wanted := list_to_set codes : gset string in
  Ret (Ok (foldl (λ m item,
    if bool_decide (OrganizationUnit_Code item ∈ wanted)
    then <[OrganizationUnit_Code item := item]> m else m) ∅ items)).

End Dictionary.
