(* ===== verification/Tenants.v ===== *)
(** * Tenants and memberships

    The tenant and membership methods of [internal/tenant/service.go]: creation
    with its optional idempotency key, reads, the platform directory, updates
    with optimistic locking. *)

From stdpp Require Import base gmap list strings.
From S2P Require Import Prelude GoErrors Model Store Effects Platform Authorization Events Service.
From S2P Require Import Repository.

Section Tenants.
Context `{Platform}.

Definition createOnce (s : Service) (ctx : Context) (code name ownerUserID : string)
  : prog (Tenant * Membership * option goerr) :=
  t <- now;;
  fields <-! audit_New ctx t else _ =>
    Ret (Tenant0, Membership0, Some (Unauthorized "authenticated actor is required"));;
  tenantID <- newUUID;;
  let tenantValue := Build_Tenant tenantID code name "active" (AuditFields_Version fields)
    (AuditFields_CreatedAt fields) (AuditFields_UpdatedAt fields) (AuditFields_CreatedBy fields)
    (AuditFields_UpdatedBy fields) in
  membershipID <- newUUID;;
  let membership := Build_Membership membershipID (Tenant_ID tenantValue) ownerUserID "active" ""
    (AuditFields_CreatedAt fields) (AuditFields_Version fields) (AuditFields_CreatedAt fields)
    (AuditFields_UpdatedAt fields) (AuditFields_CreatedBy fields) (AuditFields_UpdatedBy fields) in
  event <-? newOutboxEvent ctx "platform.tenant.tenant.created.v1" "platform.tenant.v1.TenantCreated"
      (Tenant_ID tenantValue) (Tenant_ID tenantValue) (AuditFields_CreatedAt fields)
      (TenantCreatedEvent (eventTenant tenantValue) (Membership_ID membership)
         (Membership_UserID membership))
    else err => Ret (Tenant0, Membership0, Some (Internal err));;
  err <- within_ s
    (tbind (CreateTenant tenantValue) (λ err, guard err else e => TRet (Some e);;
     tbind (CreateMembership membership) (λ err, guard err else e => TRet (Some e);;
     AddOutbox event)));;
  guard err else e => Ret (Tenant0, Membership0, translate (Some e));;
  Ret (tenantValue, membership, None).

(** A string with one NUL byte, the separator of the idempotency fingerprint. *)
Definition nul : string := String Ascii.zero "".

Definition create_fingerprint (identity : Principal) (code name ownerUserID : string) : string :=
  sha256_hex ("tenant.create" +:+ nul +:+ principal_type_string (Principal_Type identity) +:+ nul
              +:+ Principal_ID identity +:+ nul +:+ code +:+ nul +:+ name +:+ nul +:+ ownerUserID).

Definition Create (s : Service) (ctx : Context) (code name ownerUserID : string)
  : prog (Tenant * Membership * option goerr) :=
  let fail e := Ret (Tenant0, Membership0, Some e) in
  let code := ToLower (TrimSpace code) in
  let name := TrimSpace name in
  let ownerUserID := TrimSpace ownerUserID in
  stop_if (code =?s "") || (name =?s "") || (ownerUserID =?s "") =>
    fail (Invalid "code, name and owner_user_id are required" None);;
  identity <-! ctx_principal ctx else _ => fail (Unauthorized "authenticated actor is required");;
  guard match Principal_Type identity with
        | TypeUser =>
            if (Principal_ID identity <>?s ownerUserID) && negb (ctx_platformAdministration ctx)
            then Some (Forbidden "users may only create a tenant for themselves") else None
        | TypeServiceAccount | TypeSystem => None
        | TypeOther _ => Some (Forbidden "tenant creation is not allowed for this principal")
        end else e => fail e;;
  match ctx_idempotencyKey ctx with
  | None => createOnce s ctx code name ownerUserID
  | Some key =>
      stop_if match idempotency s with Some enabled => negb enabled | None => true end =>
        fail (Unavailable "idempotency is unavailable" None);;
      IdemBegin key (create_fingerprint identity code name ownerUserID) (λ r,
        match r with
        | Err err => fail (Unavailable "idempotency is unavailable" (Some err))
        | Ok decision =>
            match Decision_State decision with
            | StateCompleted =>
                match unmarshal_createResult (Decision_Response decision) with
                | Err err => fail (Internal err)
                | Ok replay =>
                    Ret (createResult_Tenant replay, createResult_Membership replay, None)
                end
            | StateFailed =>
                let f := Decision_Failure decision in
                fail (New (Failure_Code f) (Failure_Message f) (Failure_HTTPStatus f) None)
            | StateProcessing => fail RequestInProgress
            | StateConflict =>
                fail (Conflict "idempotency key was used with a different request" None)
            | StateOther => fail (Internal (TextError "unknown idempotency state"))
            | StateAcquired =>
                r <- createOnce s ctx code name ownerUserID;;
                let '(created, membership, createErr) := r in
                match createErr with
                | Some createErr =>
                    match default (Internal createErr) (As is_app createErr) with
                    | AppError c m st _ =>
                        IdemFail key (Decision_Owner decision) (Build_Failure c m st)
                          (λ _, fail createErr)
                    | _ => fail createErr
                    end
                | None =>
                    IdemComplete key (Decision_Owner decision)
                      (Build_createResult created membership)
                      (λ _, Ret (created, membership, None))
                end
            end
        end)
  end.

Definition Get (s : Service) (ctx : Context) (id : string) : prog (Tenant * option goerr) :=
  r <- GetTenant (TrimSpace id);;
  Ret (match r with
       | Ok value => (value, translate (authorizeTenant ctx (Tenant_ID value)))
       | Err err => (Tenant0, translate (Some err))
       end).

Definition Update (s : Service) (ctx : Context) (id name status : string) (version : Z)
  : prog (Tenant * option goerr) :=
  let fail e := Ret (Tenant0, Some e) in
  stop_if (TrimSpace id =?s "") || (TrimSpace name =?s "") || (version <? 1)%Z
          || negb (validTenantStatus status) => fail (Invalid "invalid tenant update" None);;
  t <- now;;
  a <-! audit_UpdatedBy ctx t else _ => fail (Unauthorized "authenticated actor is required");;
  let '(actor, now) := a in
  current <-? GetTenant id else err => Ret (Tenant0, translate (Some err));;
  guard authorizeTenant ctx (Tenant_ID current) else e => fail e;;
  let value := Build_Tenant id "" (TrimSpace name) status version zero_time now "" actor in
  event <-? newOutboxEvent ctx "platform.tenant.tenant.status-changed.v1"
      "platform.tenant.v1.TenantStatusChanged" id id now
      (TenantStatusChangedEvent id (tenantStatusEvent (Tenant_Status current))
         (tenantStatusEvent status))
    else err => fail (Internal err);;
  err <- within_ s
    (tbind (UpdateTenant value) (λ err, guard err else e => TRet (Some e);; AddOutbox event));;
  guard err else e => Ret (Tenant0, translate (Some e));;
  r <- GetTenant id;;
  Ret (pair_of Tenant0 r).

Definition validateMembershipOrganization (tenantID organizationUnitID : string)
  : prog (option goerr) :=
  stop_if organizationUnitID =?s "" => Ret None;;
  organization <-? GetOrganizationUnit organizationUnitID else err => Ret (translate (Some err));;
  stop_if (OrganizationUnit_TenantID organization <>?s tenantID)
          || (OrganizationUnit_Status organization <>?s "active") =>
    Ret (Some (Invalid "primary organization unit must be active in this tenant" None));;
  Ret None.

Definition AddMembership (s : Service) (ctx : Context) (tenantID userID organizationUnitID : string)
  : prog (Membership * option goerr) :=
  let fail e := Ret (Membership0, Some e) in
  let tenantID := TrimSpace tenantID in
  let userID := TrimSpace userID in
  let organizationUnitID := TrimSpace organizationUnitID in
  stop_if (tenantID =?s "") || (userID =?s "") =>
    fail (Invalid "tenant_id and user_id are required" None);;
  guard authorizeTenant ctx tenantID else e => fail e;;
  err <- validateMembershipOrganization tenantID organizationUnitID;;
  guard err else e => fail e;;
  t <- now;;
  fields <-! audit_New ctx t else _ => fail (Unauthorized "authenticated actor is required");;
  id <- newUUID;;
  let value := Build_Membership id tenantID userID "active" organizationUnitID
    (AuditFields_CreatedAt fields) 1 (AuditFields_CreatedAt fields) (AuditFields_UpdatedAt fields)
    (AuditFields_CreatedBy fields) (AuditFields_UpdatedBy fields) in
  event <-? newOutboxEvent ctx "platform.tenant.membership.changed.v1"
      "platform.tenant.v1.MembershipChanged" (Membership_ID value) tenantID
      (AuditFields_CreatedAt fields)
      (MembershipChangedEvent (Membership_ID value) tenantID userID 0 MEMBERSHIP_STATUS_ACTIVE)
    else eventErr => fail (Internal eventErr);;
  err <- within_ s
    (tbind (CreateMembership value) (λ err, guard err else e => TRet (Some e);; AddOutbox event));;
  Ret (value, translate err).

Definition GetMembership (s : Service) (ctx : Context) (id : string)
  : prog (Membership * option goerr) :=
  r <- Repository.GetMembership id;;
  Ret (match r with
       | Ok value => (value, translate (authorizeTenant ctx (Membership_TenantID value)))
       | Err err => (Membership0, translate (Some err))
       end).

Definition ValidateMembership (s : Service) (ctx : Context) (userID tenantID : string)
  : prog (Tenant * Membership * bool) :=
  r <- Repository.ValidateMembership userID tenantID;;
  let '(t, m, err) := r in
  Ret (t, m, match err with None => true | Some _ => false end).

Definition ListUserTenants (s : Service) (ctx : Context) (userID : string) (page pageSize : Z)
  : prog (Page * option goerr) :=
  let fail e := Ret (Page0, Some e) in
  let userID := TrimSpace userID in
  identity <-! ctx_principal ctx else _ => fail (Unauthorized "authenticated actor is required");;
  stop_if (userID =?s "") || (is_type TypeUser identity && (Principal_ID identity <>?s userID)) =>
    fail (Forbidden "users may only list their own tenants");;
  stop_if negb (is_type TypeUser identity) && negb (is_type TypeServiceAccount identity)
          && negb (is_type TypeSystem identity) => fail (Forbidden "tenant list access denied");;
  let page := default_page page in
  let pageSize := default_page_size pageSize in
  stop_if (100 <? pageSize)%Z => fail (Invalid "page_size must not exceed 100" None);;
  r <- Repository.ListUserTenants userID pageSize (page_offset page pageSize);;
  Ret (page_result (λ items total, Build_Page items total page pageSize) r).

Definition ListMemberships (s : Service) (ctx : Context) (tenantID userID status : string)
    (page pageSize : Z) : prog (MembershipPage * option goerr) :=
  let fail e := Ret (MembershipPage0, Some e) in
  let tenantID := TrimSpace tenantID in
  let userID := TrimSpace userID in
  let status := TrimSpace status in
  stop_if (tenantID =?s "") || ((status <>?s "") && negb (validMembershipStatus status)) =>
    fail (Invalid "invalid membership query" None);;
  guard authorizeTenant ctx tenantID else e => fail e;;
  let page := default_page page in
  let pageSize := default_page_size pageSize in
  stop_if (100 <? pageSize)%Z => fail (Invalid "page_size must not exceed 100" None);;
  r <- Repository.ListMemberships tenantID userID status pageSize (page_offset page pageSize);;
  Ret (page_result (λ items total, Build_MembershipPage items total page pageSize) r).

Definition BatchGetMemberships (s : Service) (ctx : Context) (tenantID : string)
    (ids : list string) : prog (list Membership * option goerr) :=
  let fail e := Ret ([], Some e) in
  let tenantID := TrimSpace tenantID in
  stop_if tenantID =?s "" => fail (Invalid "tenant_id is required" None);;
  guard authorizeTenant ctx tenantID else e => fail e;;
  match unique_ids ids [] with
  | None => fail (Invalid "membership_ids must not contain empty values" None)
  | Some unique =>
      stop_if bool_decide (unique = []) => Ret ([], None);;
      stop_if (100 <? Z.of_nat (length unique))%Z =>
        fail (Invalid "membership_ids must not contain more than 100 values" None);;
      r <- Repository.BatchGetMemberships tenantID unique;;
      Ret (list_result r)
  end.

Definition FindMembershipsByUserIDs (s : Service) (ctx : Context) (tenantID : string)
    (userIDs : list string) (status : string) : prog (list Membership * option goerr) :=
  let fail e := Ret ([], Some e) in
  let tenantID := TrimSpace tenantID in
  let status := TrimSpace status in
  stop_if (tenantID =?s "") || ((status <>?s "") && negb (validMembershipStatus status)) =>
    fail (Invalid "invalid membership directory query" None);;
  guard authorizeTenant ctx tenantID else e => fail e;;
  match unique_ids userIDs [] with
  | None => fail (Invalid "user_ids must not contain empty values" None)
  | Some unique =>
      stop_if bool_decide (unique = []) => Ret ([], None);;
      stop_if (100 <? Z.of_nat (length unique))%Z =>
        fail (Invalid "user_ids must not contain more than 100 values" None);;
      r <- Repository.FindMembershipsByUserIDs tenantID unique status;;
      Ret (list_result r)
  end.

Definition ListTenants (s : Service) (ctx : Context) (keyword status : string) (page pageSize : Z)
  : prog (Page * option goerr) :=
  let fail e := Ret (Page0, Some e) in
  let keyword := TrimSpace keyword in
  let status := TrimSpace status in
  stop_if (status <>?s "") && negb (validTenantStatus status) =>
    fail (Invalid "invalid tenant status" None);;
  guard authorizePlatformAdministration ctx else e => fail e;;
  let page := default_page page in
  let pageSize := default_page_size pageSize in
  stop_if (100 <? pageSize)%Z => fail (Invalid "page_size must not exceed 100" None);;
  r <- Repository.ListTenants keyword status pageSize (page_offset page pageSize);;
  Ret (page_result (λ items total, Build_Page items total page pageSize) r).

Definition UpdateMembership (s : Service) (ctx : Context) (id status organizationUnitID : string)
    (version : Z) : prog (Membership * option goerr) :=
  let fail e := Ret (Membership0, Some e) in
  let id := TrimSpace id in
  let organizationUnitID := TrimSpace organizationUnitID in
  stop_if (id =?s "") || (version <? 1)%Z || negb (validMembershipStatus status) =>
    fail (Invalid "invalid membership update" None);;
  t <- now;;
  a <-! audit_UpdatedBy ctx t else _ => fail (Unauthorized "authenticated actor is required");;
  let '(actor, now) := a in
  current <-? Repository.GetMembership id else err => Ret (Membership0, translate (Some err));;
  guard authorizeTenant ctx (Membership_TenantID current) else e => fail e;;
  err <- validateMembershipOrganization (Membership_TenantID current) organizationUnitID;;
  guard err else e => fail e;;
  let value := Build_Membership id "" "" status organizationUnitID zero_time version zero_time now
    "" actor in
  event <-? newOutboxEvent ctx "platform.tenant.membership.changed.v1"
      "platform.tenant.v1.MembershipChanged" id (Membership_TenantID current) now
      (MembershipChangedEvent id (Membership_TenantID current) (Membership_UserID current)
         (membershipStatusEvent (Membership_Status current)) (membershipStatusEvent status))
    else err => fail (Internal err);;
  err <- within_ s
    (tbind (Repository.UpdateMembership value) (λ err, guard err else e => TRet (Some e);;
     AddOutbox event));;
  guard err else e => Ret (Membership0, translate (Some e));;
  r <- Repository.GetMembership id;;
  Ret (pair_of Membership0 r).

End Tenants.
