(* ===== verification/Commits.v ===== *)
(** * From statements to commits

    The proof rules for the shape every write of the service has: some reads, one
    transaction of one or more statements ending with the outbox record, and
    perhaps a read of the result. *)

From stdpp Require Import base gmap list strings.
From S2P Require Import Prelude GoErrors Model Store Effects Platform Authorization Events Service.
From S2P Require Import Repository Tables Invariants Statements Tenants.

Section Commits.
Context `{Platform}.

(** The database with one more outbox record. *)
Definition with_event (ev : OutboxEvent) (d : DB) : DB :=
  set_tenant_outbox_events (tenant_outbox_events d ++ [Build_OutboxRow ev 0 None ""]) d.

(** ** Statements *)

Section Twp.
Context (U : string → Prop).

Lemma twp_create {X} (s : stmt X) msg (Q : option goerr → DB → Prop) d :
  (∀ e d', Q (Some e) d') → (∀ x d', s d = Ok (x, d') → Q None d') →
  twp U (tbind (exec s) (λ r, TRet (wrap_exec r msg))) Q d.
Proof.
  intros He Hs. simpl. split; [intros e; apply He|]. destruct (s d) as [[x d']|] eqn:Hd; [|done].
  by eapply Hs.
Qed.

Lemma twp_update (s : stmt (result Z)) msg (Q : option goerr → DB → Prop) d :
  (∀ e d', Q (Some e) d') → (∀ n d', s d = Ok (Ok n, d') → n ≠ 0%Z → Q None d') →
  twp U (tbind (exec s) (λ r, TRet (affected r msg))) Q d.
Proof.
  intros He Hs. simpl. split; [intros e; apply He|].
  destruct (s d) as [[[n|e] d']|] eqn:Hd; simpl; [|apply He|done].
  destruct (Z.eqb_spec n 0); [apply He|by eapply Hs].
Qed.

Lemma twp_then op rest (Q : option goerr → DB → Prop) d :
  twp U op (λ err d', match err with Some e => Q (Some e) d' | None => twp U rest Q d' end) d →
  twp U (tbind op (λ err, guard err else e => TRet (Some e);; rest)) Q d.
Proof. intros Ho. apply twp_bind. eapply twp_mono; [|done]. by intros [e|] d'. Qed.

Lemma twp_outbox ev (Q : option goerr → DB → Prop) d :
  (∀ e d', Q (Some e) d') → Q None (with_event ev d) → twp U (AddOutbox ev) Q d.
Proof.
  intros He HQ. unfold AddOutbox. apply twp_create; [done|]. intros x d' Hs.
  unfold insert_tenant_outbox_events in Hs. checks Hs. by simplify_eq.
Qed.

(** The move of a unit, with or without its descendants. *)
Lemma twp_update_unit v oldPath (Q : option goerr → DB → Prop) d :
  inv d → OrganizationUnit_Status v ∈ unit_statuses → OrganizationUnit_Name v ≠ "" →
  (∀ e d', Q (Some e) d') →
  (∀ r d', organization_units d !! OrganizationUnit_ID v = Some r →
     OrganizationUnit_Version r = OrganizationUnit_Version v →
     (unit_in d (OrganizationUnit_TenantID r) (OrganizationUnit_ParentID v) →
      OrganizationUnit_TenantID r = OrganizationUnit_TenantID v →
      effect (OrganizationUnit_TenantID v) d d' ∧ tenant_quotas d' = tenant_quotas d ∧
      invitations d' = invitations d) → Q None d') →
  twp U (UpdateOrganizationUnit v oldPath) Q d.
Proof.
  intros Hd Hst Hty He HQ.
  apply (twp_then (tbind (exec (update_unit v))
                     (λ r, TRet (affected r "update organization unit")))), twp_update; [done|].
  intros n d1 Hs Hn. apply update_unit_effect in Hs as (r & Hr & Hv & Heff); [|done..].
  destruct (oldPath =?s OrganizationUnit_Path v).
  - eapply HQ; [done..|]. intros Hp Ht. rewrite <- Ht. by apply Heff.
  - apply twp_create; [done|]. intros x d2 Hs. eapply HQ; [done..|]. intros Hp Ht.
    destruct (Heff Hp) as (E1 & Hq & Hi).
    apply move_descendants_effect in Hs as (Hd2 & E2); [|apply E1]. rewrite Ht in E1.
    split; [by eapply effect_trans|]. by subst d2.
Qed.

End Twp.

(** ** Commits *)

Lemma commit_intro ctx moves T d d1 ev :
  effect T d d1 → authorised ctx T d (with_event ev d1) →
  (moves = false → organization_units d1 = organization_units d) →
  (∀ k q q', tenant_quotas d !! k = Some q → tenant_quotas d1 !! k = Some q' → quota_rule q q') →
  (∀ k q', tenant_quotas d !! k = None → tenant_quotas d1 !! k = Some q' → Quota_Used q' = 0%Z) →
  (∀ k i i', invitations d !! k = Some i → invitations d1 !! k = Some i' →
     invitation_rule (with_event ev d1) i i') →
  commit ctx moves d (with_event ev d1).
Proof.
  intros [Hi Hl Ho He] Ha Hu Hq Hn Hr. split.
  - by apply inv_set_outbox.
  - etrans; [done|]. split; simpl; try reflexivity. by apply prefix_app_r.
  - exists ev. simpl. by rewrite He.
  - done.
  - exists T. split; [|done]. destruct Ho. by split.
  - done.
  - done.
  - done.
Qed.

(** The common case: neither quotas nor invitations change. *)
Lemma commit_plain ctx moves T d d1 ev :
  effect T d d1 → authorised ctx T d (with_event ev d1) →
  (moves = false → organization_units d1 = organization_units d) →
  tenant_quotas d1 = tenant_quotas d → invitations d1 = invitations d →
  commit ctx moves d (with_event ev d1).
Proof.
  intros He Ha Hu Hq Hi. eapply commit_intro; [done..| | |]; rewrite ?Hq, ?Hi; intros;
    [eauto with tenant|congruence|eauto with tenant].
Qed.

Lemma authorised_access ctx T d d' : authorizeTenant ctx T = None → authorised ctx T d d'.
Proof. intros ?%authorizeTenant_iff. by left. Qed.

(** ** The transaction of a write *)

(** A body satisfies [commits] when its commit is one. *)
Definition commits (ctx : Context) (moves : bool) (d1 : DB) (err : option goerr) (d2 : DB) : Prop :=
  err = None → commit ctx moves d1 d2.

Lemma wp_write ctx moves U {A} s body (k : option goerr → prog A) d :
  (∀ r, readonly (k r)) → inv d →
  (∀ d1, inv d1 → db_le d d1 → twp U body (commits ctx moves d1) d1) →
  wp rely (guarantee ctx moves) U (bind (within_ s body) k) (λ _ _, True) d.
Proof.
  intros Hk Hd Hop. apply wp_transact. intros d1 HR. destruct (HR Hd) as [Hd1 Hle].
  split; [intros; by apply readonly_wp|].
  apply twp_bind. eapply twp_mono; [|by apply Hop].
  intros [e|] d2 Hc; (split; [intros; by apply readonly_wp|]); [done|].
  split_and!.
  - intros _. right. by apply Hc.
  - by apply readonly_wp.
  - intros; by apply readonly_wp.
Qed.

(** Insertions and updates followed by the outbox record. *)
Lemma commits_err ctx moves d1 e d2 : commits ctx moves d1 (Some e) d2.
Proof. done. Qed.

Lemma twp_create_then U ctx moves d1 {X} (s : stmt X) msg rest d :
  (∀ x d', s d = Ok (x, d') → twp U rest (commits ctx moves d1) d') →
  twp U (tbind (tbind (exec s) (λ r, TRet (wrap_exec r msg)))
           (λ err, guard err else e => TRet (Some e);; rest)) (commits ctx moves d1) d.
Proof. intros Hs. apply twp_then, twp_create; [intros; apply commits_err|done]. Qed.

Lemma twp_update_then U ctx moves d1 (s : stmt (result Z)) msg rest d :
  (∀ n d', s d = Ok (Ok n, d') → n ≠ 0%Z → twp U rest (commits ctx moves d1) d') →
  twp U (tbind (tbind (exec s) (λ r, TRet (affected r msg)))
           (λ err, guard err else e => TRet (Some e);; rest)) (commits ctx moves d1) d.
Proof. intros Hs. apply twp_then, twp_update; [intros; apply commits_err|done]. Qed.

Lemma twp_event U ctx moves d1 ev d :
  commit ctx moves d1 (with_event ev d) → twp U (AddOutbox ev) (commits ctx moves d1) d.
Proof. intros Hc. apply twp_outbox; [intros; apply commits_err|by intros _]. Qed.

(** A write followed by a program that only reads. *)
Lemma wp_then_readonly ctx moves U {A B} (m : prog A) (f : A → prog B) d :
  (∀ a, readonly (f a)) → wp rely (guarantee ctx moves) U m (λ _ _, True) d →
  wp rely (guarantee ctx moves) U (bind m f) (λ _ _, True) d.
Proof.
  intros Hf Hm. apply wp_bind; [apply _|]. eapply wp_mono; [|done]. intros a d' _. by apply readonly_wp.
Qed.

(** The lock brackets do not touch the database. *)
Lemma wp_resource_lock ctx moves U {A} s key (a0 : A) op d :
  (∀ d1, rely d d1 → wp rely (guarantee ctx moves) U op (λ _ _, True) d1) →
  wp rely (guarantee ctx moves) U (withResourceLock s key a0 op) (λ _ _, True) d.
Proof.
  intros Hop. unfold withResourceLock. destruct (negb (locker s)); [by apply Hop|].
  unfold Lock. destruct (newMutex _ _) as [m|e]; cbn [bind];
    (destruct (50 * millisecond <=? 0)%Z; [by apply wp_ret|]); cbn [bind]; [|by apply wp_ret].
  apply wp_lock. intros d1 [value|[[] e]] HR; cbn [bind]; [|by apply wp_ret..].
  apply wp_then_readonly; [|by apply Hop]. intros r x. by destruct x as [[]|].
Qed.

Lemma wp_organization_lock ctx moves U {A} s tenantID (a0 : A) op d :
  (∀ d1, rely d d1 → wp rely (guarantee ctx moves) U op (λ _ _, True) d1) →
  wp rely (guarantee ctx moves) U (withOrganizationLock s tenantID a0 op) (λ _ _, True) d.
Proof. apply (wp_resource_lock ctx moves U s ("tenant:organization-tree:" +:+ tenantID) a0 op d). Qed.

(** The event of a write is drawn before the transaction. *)
Lemma wp_event R G U {A} ctx subject eventType aggregateID tenantID t payload
    (k : result OutboxEvent → prog A) Q d :
  Reflexive R →
  (∀ e d1, R d d1 → wp R G U (k (Err e)) Q d1) → (∀ ev d1, R d d1 → wp R G U (k (Ok ev)) Q d1) →
  wp R G U (bind (newOutboxEvent ctx subject eventType aggregateID tenantID t payload) k) Q d.
Proof.
  intros HR He Hk. unfold newOutboxEvent. destruct (ctx_principal ctx) as [p|e]; [|by apply He].
  apply wp_uuid. intros d1 u Hd1 _. cbn [bind].
  by destruct (outboxEventWith _ _ _ _ _ _ _ _); [apply Hk|apply He].
Qed.

(** A primary unit that passed the check exists and belongs to the tenant. *)
Lemma wp_validate_unit G U {A} tenantID unitID (k : option goerr → prog A) Q d :
  inv d →
  (∀ e d1, inv d1 → db_le d d1 → wp rely G U (k (Some e)) Q d1) →
  (∀ d1, inv d1 → db_le d d1 →
     unit_in d1 tenantID unitID →
     wp rely G U (k None) Q d1) →
  wp rely G U (bind (validateMembershipOrganization tenantID unitID) k) Q d.
Proof.
  intros Hd He Hk. unfold validateMembershipOrganization, unit_in, nullableID in *.
  destruct (unitID =?s "") eqn:Hu; [apply Hk; [done|reflexivity|done]|].
  apply wp_query. intros d1 HR. destruct (HR Hd) as [Hd1 Hle].
  assert (∀ e, wp rely G U (k (translate (Some e))) Q d1) as Herr.
  { intros e. destruct (translate_Some e) as (e' & -> & _). by apply He. }
  split; [intros e; cbn [bind get_result]; apply Herr|].
  destruct (organization_units d1 !! unitID) as [u|] eqn:Hlk; cbn [bind get_result one_row];
    [|apply Herr].
  destruct (_ || _)%bool eqn:Hc; [by apply He|]. reflect_bools.
  apply Hk; [done..|]. intros k' [= <-]. eauto.
Qed.

End Commits.

(** ** Requests one after another

    Without interference a property of the database is kept if the transactions
    keep it. *)
Section Keep.
Context (I : DB → Prop) (U : string → Prop).

Definition keeps {A} (p : prog A) (d : DB) : Prop :=
  wp eq (λ _ _, True) U p (λ _ d', I d') d.

Lemma keeps_readonly {A} (p : prog A) d : readonly p → I d → keeps p d.
Proof.
  unfold keeps. revert d. induction p; simpl; intros d Hp Hd d1 <-; auto. done.
Qed.

Lemma keeps_write {A} s body (k : option goerr → prog A) d :
  (∀ r, readonly (k r)) → I d → twp U body (λ err d2, err = None → I d2) d →
  keeps (bind (within_ s body) k) d.
Proof.
  intros Hk Hd Hb. apply wp_transact. intros d1 <-. split; [intros; by apply keeps_readonly|].
  apply twp_bind. eapply twp_mono; [|done].
  intros [e|] d2 H2; (split; [intros; by apply keeps_readonly|]); [done|].
  split_and!; [done|by apply keeps_readonly; [|apply H2]
    |intros; by apply keeps_readonly; [|apply H2]].
Qed.

Lemma keeps_then {A B} (m : prog A) (f : A → prog B) d :
  (∀ a, readonly (f a)) → keeps m d → keeps (bind m f) d.
Proof.
  intros Hf Hm. apply wp_bind; [apply _|]. eapply wp_mono; [|done]. intros a d' Hd'.
  by apply keeps_readonly.
Qed.

Lemma keeps_lock {A} s tenantID (a0 : A) op d :
  I d → keeps op d → keeps (withOrganizationLock s tenantID a0 op) d.
Proof.
  intros Hd Hop. unfold withOrganizationLock. destruct (negb (locker s)); [done|].
  unfold Lock. destruct (newMutex _ _) as [m|e]; cbn [bind];
    (destruct (50 * millisecond <=? 0)%Z; [by apply keeps_readonly|]); cbn [bind];
    [|by apply keeps_readonly].
  apply wp_lock. intros d1 [value|[[] e]] <-; cbn [bind]; [|by apply keeps_readonly..].
  apply keeps_then; [|done]. intros r x. by destruct x as [[]|].
Qed.

End Keep.

(** ** Walking through a program *)

(** The scrutinee a program is stuck on. *)
Ltac scrutinee x :=
  lazymatch x with
  | match ?y with _ => _ end => scrutinee y
  | _ => x
  end.

Ltac stuck_scrutinee p :=
  lazymatch p with
  | match ?x with _ => _ end => scrutinee x
  | bind ?m _ => stuck_scrutinee m
  | _ => fail "not a match"
  end.

Ltac wp_reduce :=
  cbn [bind query now newUUID GetTenant Repository.GetMembership Repository.GetOrganizationUnit
       Repository.GetInvitation GetInvitationByTokenHash Repository.GetGroup
       Repository.GetGroupMember Repository.GetQuota get_result one_row fst snd].

(** Carry the order on databases over one more interference. *)
Ltac extend Hle :=
  match type of Hle with
  | db_le ?d ?d1 =>
      repeat match goal with
      | H : db_le ?a d |- _ =>
          let H' := fresh H in pose proof (transitivity H Hle) as H'; clear H; rename H' into H
      end
  end.

Ltac advance :=
  match goal with
  | HR : rely ?d ?d1, Hd : inv ?d |- _ =>
      let Hd1 := fresh "Hinv" in
      let Hle := fresh "Hle" in
      destruct (HR Hd) as [Hd1 Hle]; clear HR; extend Hle
  end.

Ltac wp_step :=
  wp_reduce;
  lazymatch goal with
  | |- wp _ _ _ (Ret _) _ _ => apply wp_ret; intros; exact I
  | |- wp _ _ _ (Now _) _ _ => apply wp_now; intros ? ? ?; advance
  | |- wp _ _ _ (NewUUID _) _ _ => apply wp_uuid; intros ? ? ? ?; advance
  | |- wp _ _ _ (RandRead _) _ _ => apply wp_rand; intros ? ? ?; advance
  | |- wp _ _ _ (Query _ _) _ _ => apply wp_query; intros ? ?; advance; split; [intros ?|]
  | |- wp _ _ _ (MutexLock _ _) _ _ => apply wp_lock; intros ? ? ?; advance
  | |- wp _ _ _ (MutexUnlock _ _ _) _ _ => apply wp_unlock; intros ? ? ?; advance
  | |- wp _ _ _ (IdemBegin _ _ _) _ _ => apply wp_begin; intros ? ? ?; advance
  | |- wp _ _ _ (IdemComplete _ _ _ _) _ _ => apply wp_complete; intros ? ? ?; advance
  | |- wp _ _ _ (IdemFail _ _ _ _) _ _ => apply wp_fail; intros ? ? ?; advance
  | |- wp _ _ _ (bind (within_ _ _) _) _ _ => fail "transaction"
  | |- wp _ _ _ (bind (newOutboxEvent _ _ _ _ _ _ _) _) _ _ =>
      apply wp_event; [apply _|intros ? ? ?; advance|intros ? ? ?; advance]
  | Hd : inv ?d |- wp _ _ _ (bind (validateMembershipOrganization _ _) _) _ ?d =>
      let Hle := fresh "Hle" in
      apply wp_validate_unit; [exact Hd|intros ? ? ? Hle; extend Hle|intros ? ? Hle ?; extend Hle]
  | |- wp _ _ _ ?p _ _ => let x := stuck_scrutinee p in destruct x eqn:?
  end.

(** Programs without transactions. *)
Ltac solve_readonly :=
  repeat first
    [ progress wp_reduce
    | progress simpl
    | lazymatch goal with
      | |- readonly (match ?x with _ => _ end) => destruct x
      | |- readonly (bind (match ?x with _ => _ end) _) => destruct x
      | |- readonly (bind ?m _) => apply readonly_bind; [|intros ?]
      | |- ∀ _, _ => intros ?
      | |- True => exact I
      end ].
