(* ===== verification/Organizations.v ===== *)
(** * Organization units

    The organization methods of [internal/tenant/service.go]: creation below a
    parent, reads and trees, the move of a subtree under the tenant's tree lock,
    and the scope of a membership. *)

From stdpp Require Import base gmap list strings.
From S2P Require Import Prelude GoErrors Model Store Effects Platform Authorization Events Service.
From S2P Require Import Repository Dictionary.

Section Organizations.
Context `{Platform}.

Definition set_path_of_parent (parent : OrganizationUnit) (id : string) : string :=
  OrganizationUnit_Path parent +:+ id +:+ "/".

(** The end of [CreateOrganizationUnit], once the path is known. *)
Definition create_unit_at (s : Service) (ctx : Context) (fields : AuditFields)
    (id tenantID parentID code name pathValue : string) : prog (OrganizationUnit * option goerr) :=
  let value := Build_OrganizationUnit id tenantID parentID code name pathValue "active" 1
    (AuditFields_CreatedAt fields) (AuditFields_UpdatedAt fields) (AuditFields_CreatedBy fields)
    (AuditFields_UpdatedBy fields) in
  event <-? newOutboxEvent ctx "platform.tenant.organization-unit.changed.v1"
      "platform.tenant.v1.OrganizationUnitChanged" id tenantID (AuditFields_CreatedAt fields)
      (OrganizationUnitChangedEvent (eventOrganizationUnit value) "" "created")
    else err => Ret (OrganizationUnit0, Some (Internal err));;
  err <- within_ s
    (tbind (Repository.CreateOrganizationUnit value) (λ err, guard err else e => TRet (Some e);;
     AddOutbox event));;
  Ret (value, translate err).

Definition CreateOrganizationUnit (s : Service) (ctx : Context)
    (tenantID parentID code name : string) : prog (OrganizationUnit * option goerr) :=
  let fail e := Ret (OrganizationUnit0, Some e) in
  let tenantID := TrimSpace tenantID in
  let parentID := TrimSpace parentID in
  let code := ToLower (TrimSpace code) in
  let name := TrimSpace name in
  stop_if (tenantID =?s "") || (code =?s "") || (name =?s "") =>
    fail (Invalid "tenant_id, code and name are required" None);;
  guard authorizeTenant ctx tenantID else e => fail e;;
  _ <-? GetTenant tenantID else err => Ret (OrganizationUnit0, translate (Some err));;
  t <- now;;
  fields <-! audit_New ctx t else _ => fail (Unauthorized "authenticated actor is required");;
  id <- newUUID;;
  stop_if parentID =?s "" =>
    create_unit_at s ctx fields id tenantID parentID code name ("/" +:+ id +:+ "/");;
  parent <-? Repository.GetOrganizationUnit parentID
    else err => Ret (OrganizationUnit0, translate (Some err));;
  stop_if (OrganizationUnit_TenantID parent <>?s tenantID)
          || (OrganizationUnit_Status parent <>?s "active") =>
    fail (Invalid "parent organization unit is not active in this tenant" None);;
  create_unit_at s ctx fields id tenantID parentID code name (set_path_of_parent parent id).

Definition GetOrganizationUnit (s : Service) (ctx : Context) (id : string)
  : prog (OrganizationUnit * option goerr) :=
  r <- Repository.GetOrganizationUnit (TrimSpace id);;
  Ret (match r with
       | Ok value => (value, translate (authorizeTenant ctx (OrganizationUnit_TenantID value)))
       | Err err => (OrganizationUnit0, translate (Some err))
       end).

Definition BatchGetOrganizationUnits (s : Service) (ctx : Context) (tenantID : string)
    (ids : list string) : prog (list OrganizationUnit * option goerr) :=
  let fail e := Ret ([], Some e) in
  let tenantID := TrimSpace tenantID in
  stop_if tenantID =?s "" => fail (Invalid "tenant_id is required" None);;
  guard authorizeTenant ctx tenantID else e => fail e;;
  match unique_ids ids [] with
  | None => fail (Invalid "organization_unit_ids must not contain empty values" None)
  | Some unique =>
      stop_if bool_decide (unique = []) => Ret ([], None);;
      stop_if (100 <? Z.of_nat (length unique))%Z =>
        fail (Invalid "organization_unit_ids must not contain more than 100 values" None);;
      r <- Repository.BatchGetOrganizationUnits tenantID unique;;
      Ret (list_result r)
  end.

Definition ListOrganizationUnits (s : Service) (ctx : Context) (tenantID : string)
  : prog (list OrganizationUnit * option goerr) :=
  stop_if TrimSpace tenantID =?s "" => Ret ([], Some (Invalid "tenant_id is required" None));;
  guard authorizeTenant ctx tenantID else e => Ret ([], Some e);;
  r <- Repository.ListOrganizationUnits tenantID;;
  Ret (list_result r).

Definition TreeOrganizationUnits (s : Service) (ctx : Context)
    (tenantID mode parentID keyword status : string) (maxDepth maxNodes : Z)
  : prog (list OrganizationTreeNode * bool * option goerr) :=
  let tenantID := TrimSpace tenantID in
  stop_if tenantID =?s "" => Ret ([], false, Some (Invalid "tenant_id is required" None));;
  guard authorizeTenant ctx tenantID else e => Ret ([], false, Some e);;
  let mode := TrimSpace mode in
  let mode := if mode =?s "lazy_children" then "children" else mode in
  r <- Tree NewDictionaryProvider tenantID OrganizationUnitDictionaryCode mode (TrimSpace parentID)
         (TrimSpace keyword) maxDepth maxNodes {["status" := TrimSpace status]};;
  match r with
  | Ok (nodes, truncated) => Ret (nodes, truncated, None)
  | Err err =>
      stop_if Is err ErrDictionaryRequest =>
        Ret ([], false, Some (Invalid "invalid organization tree request" (Some err)));;
      Ret ([], false, translate (Some err))
  end.

(** The end of the locked section of [UpdateOrganizationUnit]: the audit fields,
    the event, the transaction and the final read. *)
Definition update_unit_at (s : Service) (ctx : Context) (current : OrganizationUnit)
    (id parentID name status newPath : string) : prog (OrganizationUnit * option goerr) :=
  let fail e := Ret (OrganizationUnit0, Some e) in
  t <- now;;
  a <-! audit_UpdatedBy ctx t else auditErr => fail auditErr;;
  let '(actor, now) := a in
  let updated := Build_OrganizationUnit (OrganizationUnit_ID current)
    (OrganizationUnit_TenantID current) parentID (OrganizationUnit_Code current) (TrimSpace name)
    newPath status (OrganizationUnit_Version current) (OrganizationUnit_CreatedAt current) now
    (OrganizationUnit_CreatedBy current) actor in
  event <-? newOutboxEvent ctx "platform.tenant.organization-unit.changed.v1"
      "platform.tenant.v1.OrganizationUnitChanged" id (OrganizationUnit_TenantID current) now
      (OrganizationUnitChangedEvent (eventOrganizationUnit updated)
         (OrganizationUnit_ParentID current) "updated")
    else eventErr => fail eventErr;;
  txErr <- within_ s
    (tbind (Repository.UpdateOrganizationUnit updated (OrganizationUnit_Path current)) (λ err,
     guard err else e => TRet (Some e);; AddOutbox event));;
  guard txErr else e => fail e;;
  r <- Repository.GetOrganizationUnit id;;
  Ret (pair_of OrganizationUnit0 r).

(** The locked section of [UpdateOrganizationUnit]; its value is the variable
    [result]. *)
Definition update_unit_locked (s : Service) (ctx : Context) (id parentID name status : string)
    (version : Z) : prog (OrganizationUnit * option goerr) :=
  let fail e := Ret (OrganizationUnit0, Some e) in
  current <-? Repository.GetOrganizationUnit id else err => fail err;;
  stop_if negb (OrganizationUnit_Version current =? version)%Z => fail (Sentinel ErrStaleVersion);;
  stop_if parentID =?s "" =>
    update_unit_at s ctx current id parentID name status ("/" +:+ id +:+ "/");;
  parent <-? Repository.GetOrganizationUnit parentID else parentErr => fail parentErr;;
  stop_if (OrganizationUnit_TenantID parent <>?s OrganizationUnit_TenantID current)
          || (OrganizationUnit_Status parent <>?s "active") =>
    fail (Invalid "parent organization unit is not active in this tenant" None);;
  stop_if (OrganizationUnit_ID parent =?s OrganizationUnit_ID current)
          || HasPrefix (OrganizationUnit_Path parent) (OrganizationUnit_Path current) =>
    fail (Invalid "organization unit cannot be moved below itself" None);;
  update_unit_at s ctx current id parentID name status (set_path_of_parent parent id).

Definition UpdateOrganizationUnit (s : Service) (ctx : Context) (id parentID name status : string)
    (version : Z) : prog (OrganizationUnit * option goerr) :=
  let fail e := Ret (OrganizationUnit0, Some e) in
  stop_if (TrimSpace id =?s "") || (TrimSpace name =?s "") || (version <? 1)%Z
          || ((status <>?s "active") && (status <>?s "disabled")) =>
    fail (Invalid "invalid organization unit update" None);;
  current <-? Repository.GetOrganizationUnit id
    else err => Ret (OrganizationUnit0, translate (Some err));;
  guard authorizeTenant ctx (OrganizationUnit_TenantID current) else e => fail e;;
  r <- withOrganizationLock s (OrganizationUnit_TenantID current) OrganizationUnit0
         (update_unit_locked s ctx id parentID name status version);;
  let '(result, err) := r in
  guard err else e => Ret (OrganizationUnit0, translate (Some e));;
  Ret (result, None).

Definition ResolveOrganizationScope (s : Service) (ctx : Context) (membershipID : string)
  : prog (list string * option goerr) :=
  membership <-? Repository.GetMembership membershipID else err => Ret ([], translate (Some err));;
  guard authorizeTenant ctx (Membership_TenantID membership) else e => Ret ([], Some e);;
  stop_if Membership_PrimaryOrganizationUnitID membership =?s "" => Ret ([], None);;
  unit <-? Repository.GetOrganizationUnit (Membership_PrimaryOrganizationUnitID membership)
    else err => Ret ([], translate (Some err));;
  r <- Repository.ResolveOrganizationScope (Membership_TenantID membership)
         (OrganizationUnit_Path unit);;
  Ret (list_result r).

End Organizations.
