(* ===== verification/Invitations.v ===== *)
(** * Invitations

    [internal/tenant/collaboration_service.go]: the creation of an invitation with
    its secret token, acceptance, revocation and reads. *)

From Stdlib Require Import Ascii.
From stdpp Require Import base gmap list strings.
From S2P Require Import Prelude GoErrors Model Store Effects Platform Authorization Events Service.
From S2P Require Import Repository.

(** ** Tokens *)

(** The alphabet of [base64.RawURLEncoding]. *)
Definition base64url_alphabet : string :=
  "ABCDEFGHIJKLMNOPQRSTUVWXYZabcdefghijklmnopqrstuvwxyz0123456789-_".

Definition base64url_char (n : N) : ascii :=
  default "A"%char (String.get (N.to_nat n) base64url_alphabet).

(** [base64.RawURLEncoding.EncodeToString]: three bytes give four characters, a
    rest of one or two bytes two or three, without padding. *)
Fixpoint base64url_encode (s : string) : string :=
  match s with
  | String a (String b (String c s')) =>
      let v := (N_of_ascii a * 65536 + N_of_ascii b * 256 + N_of_ascii c)%N in
      String (base64url_char (v / 262144)) (String (base64url_char (v / 4096 mod 64))
        (String (base64url_char (v / 64 mod 64)) (String (base64url_char (v mod 64))
          (base64url_encode s'))))
  | String a (String b EmptyString) =>
      let v := (N_of_ascii a * 65536 + N_of_ascii b * 256)%N in
      String (base64url_char (v / 262144)) (String (base64url_char (v / 4096 mod 64))
        (String (base64url_char (v / 64 mod 64)) EmptyString))
  | String a EmptyString =>
      let v := (N_of_ascii a * 65536)%N in
      String (base64url_char (v / 262144)) (String (base64url_char (v / 4096 mod 64)) EmptyString)
  | EmptyString => EmptyString
  end.

(** [rand.Read] fills the 32 bytes of [value]. *)
Definition secureToken : prog (result string) :=
  RandRead (λ r, match r with
                 | Err err => Ret (Err err)
                 | Ok value => Ret (Ok (base64url_encode value))
                 end).

Section Invitations.
Context `{Platform}.

Definition hashToken (value : string) : string := sha256_hex value.

(** ** Methods *)

(** The condition [parseErr != nil || address.Address != email]. *)
Definition bad_address (parsed : result string) (email : string) : bool :=
  match parsed with Err _ => true | Ok address => address <>?s email end.

Definition parse_error (parsed : result string) : option goerr :=
  match parsed with Err e => Some e | Ok _ => None end.

Definition CreateInvitation (s : Service) (ctx : Context) (tenantID email : string) (expiresIn : Z)
  : prog (Invitation * string * option goerr) :=
  let fail e := Ret (Invitation0, "", Some e) in
  let tenantID := TrimSpace tenantID in
  let email := ToLower (TrimSpace email) in
  let address := mail_ParseAddress email in
  stop_if (tenantID =?s "") || bad_address address email || (expiresIn <=? 0)%Z
          || (30 * 24 * hour <? expiresIn)%Z =>
    fail (Invalid "invalid tenant invitation" (parse_error address));;
  guard authorizeTenant ctx tenantID else e => fail e;;
  _ <-? GetTenant tenantID else err => Ret (Invitation0, "", translate (Some err));;
  t <- now;;
  fields <-! audit_New ctx t else _ => fail (Unauthorized "authenticated actor is required");;
  token <-? secureToken else err => fail (Internal err);;
  id <- newUUID;;
  let value := Build_Invitation id tenantID email (hashToken token) "pending"
    (AuditFields_CreatedAt fields + expiresIn) "" 1 (AuditFields_CreatedAt fields)
    (AuditFields_UpdatedAt fields) (AuditFields_CreatedBy fields) (AuditFields_UpdatedBy fields) in
  event <-? newOutboxEvent ctx "platform.tenant.invitation.changed.v1"
      "platform.tenant.v1.InvitationChanged" (Invitation_ID value) tenantID
      (AuditFields_CreatedAt fields) (InvitationChangedEvent (eventInvitation value) "created")
    else err => fail (Internal err);;
  err <- within_ s
    (tbind (Repository.CreateInvitation value) (λ err, guard err else e => TRet (Some e);;
     AddOutbox event));;
  guard err else e => Ret (Invitation0, "", translate (Some e));;
  Ret (value, token, None).

(** [value.Status, value.Version, value.UpdatedAt, value.UpdatedBy = ...] and the
    accepting user. *)
Definition with_status (v : Invitation) (status acceptedBy : string) (version now : Z)
    (actor : string) : Invitation :=
  Build_Invitation (Invitation_ID v) (Invitation_TenantID v) (Invitation_Email v)
    (Invitation_TokenHash v) status (Invitation_ExpiresAt v) acceptedBy version
    (Invitation_CreatedAt v) now (Invitation_CreatedBy v) actor.

(** [eventValue := value; eventValue.Version++] *)
Definition bump_version (v : Invitation) : Invitation :=
  with_status v (Invitation_Status v) (Invitation_AcceptedByUserID v)
    (wrap64 (Invitation_Version v + 1)) (Invitation_UpdatedAt v) (Invitation_UpdatedBy v).

(** The locked section of [AcceptInvitation]; its values are the variables
    [accepted] and [membership]. *)
Definition accept_locked (s : Service) (ctx : Context) (actor : Principal) (token userID : string)
  : prog (Invitation * Membership * option goerr) :=
  let fail e := Ret (Invitation0, Membership0, Some e) in
  invitation <-? GetInvitationByTokenHash (hashToken token) else getErr => fail getErr;;
  stop_if Invitation_Status invitation <>?s "pending" =>
    fail (Conflict "invitation is no longer valid" None);;
  t <- now;;
  stop_if negb (t <? Invitation_ExpiresAt invitation)%Z =>
    fail (Conflict "invitation is no longer valid" None);;
  now <- now;;
  let invitation := with_status invitation "accepted" userID (Invitation_Version invitation) now
    (Principal_ID actor) in
  id <- newUUID;;
  let membership := Build_Membership id (Invitation_TenantID invitation) userID "active" "" now 1
    now now (Principal_ID actor) (Principal_ID actor) in
  event <-? newOutboxEvent ctx "platform.tenant.invitation.changed.v1"
      "platform.tenant.v1.InvitationChanged" (Invitation_ID invitation)
      (Invitation_TenantID invitation) now
      (InvitationChangedEvent (eventInvitation (bump_version invitation)) "accepted")
    else eventErr => Ret (Invitation0, membership, Some eventErr);;
  txErr <- within_ s
    (tbind (UpdateInvitation invitation) (λ err, guard err else e => TRet (Some e);;
     tbind (CreateMembership membership) (λ err, guard err else e => TRet (Some e);;
     AddOutbox event)));;
  guard txErr else e => Ret (Invitation0, membership, Some e);;
  r <- Repository.GetInvitation (Invitation_ID invitation);;
  let '(accepted, getErr) := pair_of Invitation0 r in
  Ret (accepted, membership, getErr).

Definition AcceptInvitation (s : Service) (ctx : Context) (token userID : string)
  : prog (Invitation * Membership * option goerr) :=
  let fail e := Ret (Invitation0, Membership0, Some e) in
  let token := TrimSpace token in
  let userID := TrimSpace userID in
  stop_if (token =?s "") || (userID =?s "") =>
    fail (Invalid "token and user_id are required" None);;
  actor <-! ctx_principal ctx else _ => fail (Unauthorized "authenticated actor is required");;
  stop_if is_type TypeUser actor && (Principal_ID actor <>?s userID) =>
    fail (Forbidden "invitation can only be accepted for the authenticated user");;
  r <- withResourceLock s ("tenant:invitation:" +:+ hashToken token) (Invitation0, Membership0)
         (accept_locked s ctx actor token userID);;
  let '(accepted, membership, err) := r in
  guard err else e => Ret (Invitation0, Membership0, translate (Some e));;
  Ret (accepted, membership, None).

Definition RevokeInvitation (s : Service) (ctx : Context) (id : string) (version : Z)
  : prog (Invitation * option goerr) :=
  let fail e := Ret (Invitation0, Some e) in
  stop_if (id =?s "") || (version <? 1)%Z =>
    fail (Invalid "invitation_id and version are required" None);;
  value <-? Repository.GetInvitation id else err => Ret (Invitation0, translate (Some err));;
  guard authorizeTenant ctx (Invitation_TenantID value) else e => fail e;;
  stop_if Invitation_Status value <>?s "pending" =>
    fail (Conflict "only pending invitations can be revoked" None);;
  t <- now;;
  a <-! audit_UpdatedBy ctx t else _ => fail (Unauthorized "authenticated actor is required");;
  let '(actor, now) := a in
  let value := with_status value "revoked" (Invitation_AcceptedByUserID value) version now actor in
  event <-? newOutboxEvent ctx "platform.tenant.invitation.changed.v1"
      "platform.tenant.v1.InvitationChanged" (Invitation_ID value) (Invitation_TenantID value) now
      (InvitationChangedEvent (eventInvitation (bump_version value)) "revoked")
    else err => fail (Internal err);;
  err <- within_ s
    (tbind (UpdateInvitation value) (λ err, guard err else e => TRet (Some e);; AddOutbox event));;
  guard err else e => Ret (Invitation0, translate (Some e));;
  r <- Repository.GetInvitation id;;
  Ret (pair_of Invitation0 r).

Definition GetInvitation (s : Service) (ctx : Context) (id : string)
  : prog (Invitation * option goerr) :=
  let fail e := Ret (Invitation0, Some e) in
  let id := TrimSpace id in
  stop_if id =?s "" => fail (Invalid "invitation_id is required" None);;
  value <-? Repository.GetInvitation id else err => Ret (Invitation0, translate (Some err));;
  guard authorizeTenant ctx (Invitation_TenantID value) else e => fail e;;
  Ret (value, None).

Definition ListInvitations (s : Service) (ctx : Context) (tenantID : string) (page pageSize : Z)
  : prog (InvitationPage * option goerr) :=
  let fail e := Ret (InvitationPage0, Some e) in
  guard authorizeTenant ctx tenantID else e => fail e;;
  let page := default_page page in
  let pageSize := default_page_size pageSize in
  stop_if (100 <? pageSize)%Z => fail (Invalid "page_size must not exceed 100" None);;
  r <- Repository.ListInvitations tenantID pageSize (page_offset page pageSize);;
  Ret (page_result (λ items total, Build_InvitationPage items total page pageSize) r).

End Invitations.
