(* ===== verification/Groups.v ===== *)
(** * Member groups

    The group methods of [internal/tenant/collaboration_service.go]. *)

From stdpp Require Import base gmap list strings.
From S2P Require Import Prelude GoErrors Model Store Effects Platform Authorization Events Service.
From S2P Require Import Repository.

Section Groups.
Context `{Platform}.

Definition CreateGroup (s : Service) (ctx : Context) (tenantID code name : string)
  : prog (Group * option goerr) :=
  let fail e := Ret (Group0, Some e) in
  let tenantID := TrimSpace tenantID in
  let code := ToLower (TrimSpace code) in
  let name := TrimSpace name in
  stop_if (tenantID =?s "") || (code =?s "") || (name =?s "") =>
    fail (Invalid "tenant_id, code and name are required" None);;
  guard authorizeTenant ctx tenantID else e => fail e;;
  t <- now;;
  fields <-! audit_New ctx t else _ => fail (Unauthorized "authenticated actor is required");;
  id <- newUUID;;
  let value := Build_Group id tenantID code name "active" 1 (AuditFields_CreatedAt fields)
    (AuditFields_UpdatedAt fields) (AuditFields_CreatedBy fields) (AuditFields_UpdatedBy fields) in
  event <-? newOutboxEvent ctx "platform.tenant.group.changed.v1" "platform.tenant.v1.GroupChanged"
      (Group_ID value) tenantID (AuditFields_CreatedAt fields)
      (GroupChangedEvent (eventGroup value) "" "created")
    else err => fail (Internal err);;
  err <- within_ s
    (tbind (Repository.CreateGroup value) (λ err, guard err else e => TRet (Some e);;
     AddOutbox event));;
  Ret (value, translate err).

(** [value.Name, value.Status, value.Version, value.UpdatedAt, value.UpdatedBy = ...] *)
Definition with_group (v : Group) (name status : string) (version now : Z) (actor : string)
  : Group :=
  Build_Group (Group_ID v) (Group_TenantID v) (Group_Code v) name status version
    (Group_CreatedAt v) now (Group_CreatedBy v) actor.

Definition UpdateGroup (s : Service) (ctx : Context) (id name status : string) (version : Z)
  : prog (Group * option goerr) :=
  let fail e := Ret (Group0, Some e) in
  stop_if (id =?s "") || (name =?s "") || (version <? 1)%Z
          || ((status <>?s "active") && (status <>?s "disabled")) =>
    fail (Invalid "invalid group update" None);;
  value <-? Repository.GetGroup id else err => Ret (Group0, translate (Some err));;
  guard authorizeTenant ctx (Group_TenantID value) else e => fail e;;
  t <- now;;
  a <-! audit_UpdatedBy ctx t else _ => fail (Unauthorized "authenticated actor is required");;
  let '(actor, now) := a in
  let value := with_group value name status version now actor in
  let eventValue := with_group value name status (wrap64 (version + 1)) now actor in
  event <-? newOutboxEvent ctx "platform.tenant.group.changed.v1" "platform.tenant.v1.GroupChanged"
      id (Group_TenantID value) now (GroupChangedEvent (eventGroup eventValue) "" "updated")
    else err => fail (Internal err);;
  err <- within_ s
    (tbind (Repository.UpdateGroup value) (λ err, guard err else e => TRet (Some e);;
     AddOutbox event));;
  guard err else e => Ret (Group0, translate (Some e));;
  r <- Repository.GetGroup id;;
  Ret (pair_of Group0 r).

Definition GetGroup (s : Service) (ctx : Context) (id : string) : prog (Group * option goerr) :=
  let fail e := Ret (Group0, Some e) in
  let id := TrimSpace id in
  stop_if id =?s "" => fail (Invalid "group_id is required" None);;
  value <-? Repository.GetGroup id else err => Ret (Group0, translate (Some err));;
  guard authorizeTenant ctx (Group_TenantID value) else e => fail e;;
  Ret (value, None).

Definition ListGroups (s : Service) (ctx : Context) (tenantID : string)
  : prog (list Group * option goerr) :=
  guard authorizeTenant ctx tenantID else e => Ret ([], Some e);;
  r <- Repository.ListGroups tenantID;;
  Ret (list_result r).

Definition SearchGroups (s : Service) (ctx : Context) (tenantID keyword status : string)
    (page pageSize : Z) : prog (GroupPage * option goerr) :=
  let fail e := Ret (GroupPage0, Some e) in
  let tenantID := TrimSpace tenantID in
  let keyword := TrimSpace keyword in
  let status := TrimSpace status in
  stop_if (tenantID =?s "")
          || ((status <>?s "") && (status <>?s "active") && (status <>?s "disabled")) =>
    fail (Invalid "invalid group query" None);;
  guard authorizeTenant ctx tenantID else e => fail e;;
  let page := default_page page in
  let pageSize := default_page_size pageSize in
  stop_if (100 <? pageSize)%Z => fail (Invalid "page_size must not exceed 100" None);;
  r <- Repository.SearchGroups tenantID keyword status pageSize (page_offset page pageSize);;
  Ret (page_result (λ items total, Build_GroupPage items total page pageSize) r).

(** ** Members *)

Definition with_member (v : GroupMember) (status : string) (version now : Z) (actor : string)
  : GroupMember :=
  Build_GroupMember (GroupMember_ID v) (GroupMember_TenantID v) (GroupMember_GroupID v)
    (GroupMember_MembershipID v) status version (GroupMember_CreatedAt v) now
    (GroupMember_CreatedBy v) actor.

(** The end of [AddGroupMember]: [existing] is the row of a former member. *)
Definition add_member (s : Service) (ctx : Context) (group : Group) (groupID membershipID : string)
    (existing : option GroupMember) : prog (option goerr) :=
  t <- now;;
  fields <-! audit_New ctx t else _ =>
    Ret (Some (Unauthorized "authenticated actor is required"));;
  id <- newUUID;;
  let value := Build_GroupMember id (Group_TenantID group) groupID membershipID "active" 1
    (AuditFields_CreatedAt fields) (AuditFields_UpdatedAt fields) (AuditFields_CreatedBy fields)
    (AuditFields_UpdatedBy fields) in
  let operation :=
    match existing with
    | None => CreateGroupMember value
    | Some existing =>
        UpdateGroupMember (with_member existing "active" (GroupMember_Version existing)
                             (AuditFields_UpdatedAt fields) (AuditFields_UpdatedBy fields))
    end in
  event <-? newOutboxEvent ctx "platform.tenant.group.changed.v1" "platform.tenant.v1.GroupChanged"
      groupID (Group_TenantID group) (AuditFields_CreatedAt fields)
      (GroupChangedEvent (eventGroup group) membershipID "member_added")
    else err => Ret (Some (Internal err));;
  err <- within_ s
    (tbind operation (λ err, guard err else e => TRet (Some e);; AddOutbox event));;
  Ret (translate err).

Definition AddGroupMember (s : Service) (ctx : Context) (groupID membershipID : string)
  : prog (option goerr) :=
  group <-? Repository.GetGroup groupID else err => Ret (translate (Some err));;
  guard authorizeTenant ctx (Group_TenantID group) else e => Ret (Some e);;
  membership <-? Repository.GetMembership membershipID else err => Ret (translate (Some err));;
  stop_if (Group_TenantID group <>?s Membership_TenantID membership)
          || (Group_Status group <>?s "active") || (Membership_Status membership <>?s "active") =>
    Ret (Some (Invalid "group and membership must be active in the same tenant" None));;
  r <- Repository.GetGroupMember groupID membershipID;;
  match r with
  | Ok existing =>
      stop_if GroupMember_Status existing =?s "active" => Ret None;;
      add_member s ctx group groupID membershipID (Some existing)
  | Err existingErr =>
      stop_if negb (Is existingErr ErrNotFound) => Ret (translate (Some existingErr));;
      add_member s ctx group groupID membershipID None
  end.

Definition ListGroupMembers (s : Service) (ctx : Context) (groupID : string)
  : prog (list GroupMember * option goerr) :=
  let fail e := Ret ([], Some e) in
  let groupID := TrimSpace groupID in
  stop_if groupID =?s "" => fail (Invalid "group_id is required" None);;
  group <-? Repository.GetGroup groupID else err => Ret ([], translate (Some err));;
  guard authorizeTenant ctx (Group_TenantID group) else e => fail e;;
  r <- Repository.ListGroupMembers groupID;;
  Ret (list_result r).

Definition BatchGetGroupMembers (s : Service) (ctx : Context) (groupID : string)
    (membershipIDs : list string) : prog (list GroupMember * option goerr) :=
  let fail e := Ret ([], Some e) in
  let groupID := TrimSpace groupID in
  stop_if groupID =?s "" => fail (Invalid "group_id is required" None);;
  group <-? Repository.GetGroup groupID else err => Ret ([], translate (Some err));;
  guard authorizeTenant ctx (Group_TenantID group) else e => fail e;;
  match unique_ids membershipIDs [] with
  | None => fail (Invalid "membership_ids must not contain empty values" None)
  | Some unique =>
      stop_if bool_decide (unique = []) => Ret ([], None);;
      stop_if (100 <? Z.of_nat (length unique))%Z =>
        fail (Invalid "membership_ids must not contain more than 100 values" None);;
      r <- Repository.BatchGetGroupMembers groupID unique;;
      Ret (list_result r)
  end.

Definition GetGroupMember (s : Service) (ctx : Context) (groupID membershipID : string)
  : prog (GroupMember * option goerr) :=
  let fail e := Ret (GroupMember0, Some e) in
  let groupID := TrimSpace groupID in
  let membershipID := TrimSpace membershipID in
  stop_if (groupID =?s "") || (membershipID =?s "") =>
    fail (Invalid "group_id and membership_id are required" None);;
  value <-? Repository.GetGroupMember groupID membershipID
    else err => Ret (GroupMember0, translate (Some err));;
  guard authorizeTenant ctx (GroupMember_TenantID value) else e => fail e;;
  Ret (value, None).

Definition RemoveGroupMember (s : Service) (ctx : Context) (groupID membershipID : string)
    (version : Z) : prog (option goerr) :=
  value <-? Repository.GetGroupMember groupID membershipID else err => Ret (translate (Some err));;
  guard authorizeTenant ctx (GroupMember_TenantID value) else e => Ret (Some e);;
  t <- now;;
  a <-! audit_UpdatedBy ctx t else _ =>
    Ret (Some (Unauthorized "authenticated actor is required"));;
  let '(actor, now) := a in
  let value := with_member value "removed" version now actor in
  group <-? Repository.GetGroup groupID else err => Ret (translate (Some err));;
  event <-? newOutboxEvent ctx "platform.tenant.group.changed.v1" "platform.tenant.v1.GroupChanged"
      groupID (Group_TenantID group) now
      (GroupChangedEvent (eventGroup group) membershipID "member_removed")
    else err => Ret (Some (Internal err));;
  err <- within_ s
    (tbind (UpdateGroupMember value) (λ err, guard err else e => TRet (Some e);; AddOutbox event));;
  Ret (translate err).

End Groups.
