(* ===== verification/Quotas.v ===== *)
(** * Quotas

    The quota methods of [internal/tenant/collaboration_service.go]: limits with
    optimistic locking, and consumption by one conditional update. *)

From stdpp Require Import base gmap list strings.
From S2P Require Import Prelude GoErrors Model Store Effects Platform Authorization Events Service.
From S2P Require Import Repository.

Section Quotas.
Context `{Platform}.

Definition GetQuota (s : Service) (ctx : Context) (tenantID key : string)
  : prog (Quota * option goerr) :=
  guard authorizeTenant ctx tenantID else e => Ret (Quota0, Some e);;
  r <- Repository.GetQuota tenantID key;;
  Ret (match r with Ok value => (value, None) | Err err => (Quota0, translate (Some err)) end).

Definition ListQuotas (s : Service) (ctx : Context) (tenantID keyword : string) (page pageSize : Z)
  : prog (QuotaPage * option goerr) :=
  let fail e := Ret (QuotaPage0, Some e) in
  let tenantID := TrimSpace tenantID in
  let keyword := TrimSpace keyword in
  stop_if tenantID =?s "" => fail (Invalid "tenant_id is required" None);;
  guard authorizeTenant ctx tenantID else e => fail e;;
  let page := default_page page in
  let pageSize := default_page_size pageSize in
  stop_if (100 <? pageSize)%Z => fail (Invalid "page_size must not exceed 100" None);;
  r <- Repository.ListQuotas tenantID keyword pageSize (page_offset page pageSize);;
  Ret (page_result (λ items total, Build_QuotaPage items total page pageSize) r).

(** The end of [SetQuota]: [current] is the quota that was found, [None] to
    create it. *)
Definition set_quota (s : Service) (ctx : Context) (fields : AuditFields) (tenantID key : string)
    (limit : Z) (current : option Quota) : prog (Quota * option goerr) :=
  let create := match current with None => true | Some _ => false end in
  let base := default (Build_Quota tenantID key 0 0 1 (AuditFields_CreatedAt fields) zero_time
                         (AuditFields_CreatedBy fields) "") current in
  let value := Build_Quota (Quota_TenantID base) (Quota_Key base) limit (Quota_Used base)
    (Quota_Version base) (Quota_CreatedAt base) (AuditFields_UpdatedAt fields)
    (Quota_CreatedBy base) (AuditFields_UpdatedBy fields) in
  let eventValue := Build_Quota (Quota_TenantID value) (Quota_Key value) limit (Quota_Used value)
    (if create then Quota_Version value else wrap64 (Quota_Version value + 1))
    (Quota_CreatedAt value) (Quota_UpdatedAt value) (Quota_CreatedBy value) (Quota_UpdatedBy value) in
  event <-? newOutboxEvent ctx "platform.tenant.quota.changed.v1" "platform.tenant.v1.QuotaChanged"
      (tenantID +:+ ":" +:+ key) tenantID (AuditFields_UpdatedAt fields)
      (QuotaChangedEvent (eventQuota eventValue) 0 "limit_set")
    else err => Ret (Quota0, Some (Internal err));;
  err <- within_ s
    (tbind (if create then CreateQuota value else UpdateQuota value) (λ err,
     guard err else e => TRet (Some e);; AddOutbox event));;
  guard err else e => Ret (Quota0, translate (Some e));;
  r <- Repository.GetQuota tenantID key;;
  Ret (pair_of Quota0 r).

Definition SetQuota (s : Service) (ctx : Context) (tenantID key : string)
    (limit expectedVersion : Z) : prog (Quota * option goerr) :=
  let fail e := Ret (Quota0, Some e) in
  stop_if (tenantID =?s "") || (key =?s "") || (limit <? 0)%Z || (expectedVersion <? 0)%Z =>
    fail (Invalid "invalid quota" None);;
  guard authorizeTenant ctx tenantID else e => fail e;;
  t <- now;;
  fields <-! audit_New ctx t else _ => fail (Unauthorized "authenticated actor is required");;
  r <- Repository.GetQuota tenantID key;;
  match r with
  | Err getErr =>
      stop_if negb (Is getErr ErrNotFound) => Ret (Quota0, translate (Some getErr));;
      stop_if negb (expectedVersion =? 0)%Z => fail (StaleVersion (Sentinel ErrStaleVersion));;
      set_quota s ctx fields tenantID key limit None
  | Ok current =>
      stop_if negb (Quota_Version current =? expectedVersion)%Z =>
        fail (StaleVersion (Sentinel ErrStaleVersion));;
      set_quota s ctx fields tenantID key limit (Some current)
  end.

(** The transaction of [ConsumeQuota]; it assigns [consumed] and [allowed]. *)
Definition consume_body (ctx : Context) (tenantID key : string) (amount now : Z) (actor : string)
  : tx (Quota * bool * option goerr) :=
  tbind (Repository.ConsumeQuota tenantID key amount now actor) (λ '(consumed, allowed, consumeErr),
    guard consumeErr else e => TRet (consumed, allowed, Some e);;
    stop_if negb allowed => TRet (consumed, allowed, None);;
    tbind (newOutboxEventTx ctx "platform.tenant.quota.changed.v1" "platform.tenant.v1.QuotaChanged"
             (tenantID +:+ ":" +:+ key) tenantID now
             (QuotaChangedEvent (eventQuota consumed) amount "consumed")) (λ r,
      event <-! r else eventErr => TRet (consumed, allowed, Some eventErr);;
      tbind (AddOutbox event) (λ err, TRet (consumed, allowed, err)))).

Definition consume_locked (s : Service) (ctx : Context) (tenantID key : string) (amount : Z)
  : prog (Quota * bool * option goerr) :=
  t <- now;;
  a <-! audit_UpdatedBy ctx t else auditErr => Ret (Quota0, false, Some auditErr);;
  let '(actor, now) := a in
  within s (Quota0, false) (consume_body ctx tenantID key amount now actor).

Definition ConsumeQuota (s : Service) (ctx : Context) (tenantID key : string) (amount : Z)
  : prog (Quota * bool * option goerr) :=
  let fail e := Ret (Quota0, false, Some e) in
  stop_if (tenantID =?s "") || (key =?s "") || (amount <=? 0)%Z =>
    fail (Invalid "invalid quota consumption" None);;
  guard authorizeTenant ctx tenantID else e => fail e;;
  r <- withResourceLock s ("tenant:quota:" +:+ tenantID +:+ ":" +:+ key) (Quota0, false)
         (consume_locked s ctx tenantID key amount);;
  let '(consumed, allowed, err) := r in
  guard err else e => Ret (Quota0, false, translate (Some e));;
  stop_if negb allowed =>
    (value <-? Repository.GetQuota tenantID key else getErr =>
       Ret (Quota0, false, translate (Some getErr));;
     Ret (value, false, None));;
  Ret (consumed, true, None).

End Quotas.
