(* ===== verification/Requests.v ===== *)
(** * Requests and their guarantee

    Every method of the service keeps the promise [guarantee]: between any two of
    its calls other requests may change the database as [rely] allows, each of its
    own transactions commits nothing or a [commit]. [Request] is the interface of
    the service to its transports, [serve] its dispatch. *)

From stdpp Require Import base gmap list strings.
From S2P Require Import Prelude GoErrors Model Store Effects Platform Authorization Events Service.
From S2P Require Import Repository Tables Invariants Statements Commits Dictionary.
From S2P Require Import Tenants Organizations Invitations Groups Quotas.

(** Begin the proof of a transaction: the database is the one it starts on. *)
Ltac wp_tx :=
  apply wp_write; [solve_readonly|done|];
  let Hle := fresh "Hle" in
  intros ? ? Hle; extend Hle;
  repeat match goal with H : get_result (one_row _) _ = Ok _ |- _ => apply get_result_Ok in H end.

(** A new row: its version is one, and the guards passed make it of its type. *)
Ltac typed :=
  simpl; first [assumption | apply (bool_decide_unpack _); vm_compute; exact I | congruence
               | by split | lia].
Ltac new_row :=
  split; [simpl; unfold max_int64; lia|];
  cbv [row_typed Tenant_row Membership_row OrganizationUnit_row Invitation_row Group_row
       GroupMember_row Quota_row Tenant_typed Membership_typed OrganizationUnit_typed
       Invitation_typed Group_typed GroupMember_typed Quota_typed];
  reflect_bools; split_and?; typed.

(** A status that passed its test is one of its table's. *)
Ltac status_of Hs :=
  repeat match type of Hs with
  | (_ || _)%bool = true => apply orb_true_iff in Hs as [Hs|Hs]
  | (_ && _)%bool = false => apply andb_false_iff in Hs as [Hs|Hs]
  end;
  reflect_bools; subst; typed.

Lemma valid_tenant_status status : validTenantStatus status = true → status ∈ tenant_statuses.
Proof. unfold validTenantStatus. intros Hs. status_of Hs. Qed.
Lemma valid_membership_status status :
  validMembershipStatus status = true → status ∈ membership_statuses.
Proof. unfold validMembershipStatus. intros Hs. status_of Hs. Qed.
Lemma valid_unit_status status :
  ((status <>?s "active") && (status <>?s "disabled"))%bool = false → status ∈ unit_statuses.
Proof. intros Hs. status_of Hs. Qed.

(** The guards a request passed, as propositions, the test of its status first. *)
Ltac guards :=
  repeat match goal with
  | H : (_ || ((?s <>?s "active") && (?s <>?s "disabled")))%bool = false |- _ =>
      let Hst := fresh "Hst" in
      apply orb_false_iff in H as [H Hst]; apply valid_unit_status in Hst
  end;
  reflect_bools;
  repeat match goal with
  | H : validTenantStatus _ = true |- _ => apply valid_tenant_status in H
  | H : validMembershipStatus _ = true |- _ => apply valid_membership_status in H
  end.

Section Requests.
Context `{Platform, !AuditLaws} (U : string → Prop).

(** ** Tenants and memberships *)

Lemma createOnce_guarantee s ctx code name owner d :
  inv d → code ≠ "" → name ≠ "" → owner ≠ "" → wp rely (guarantee ctx false) U (createOnce s ctx code name owner) (λ _ _, True) d.
Proof.
  intros Hd Hcode Hname Howner. unfold createOnce. repeat wp_step.
  match goal with H : audit_New _ _ = _ |- _ => destruct (audit_New_fields _ _ _ H) as (Hv & _) end.
  wp_tx. apply twp_create_then. intros ? d5 Hs.
  apply insert_tenants_effect in Hs as (Hnew & Hd5 & He); [|done|new_row].
  apply twp_create_then. intros ? d6 Hs.
  apply insert_memberships_effect in Hs as (_ & Hd6 & He'); [|apply He|new_row|done].
  apply twp_event. eapply commit_plain; [by eapply effect_trans|by right; left|by subst..].
Qed.

Lemma Create_guarantee s ctx code name owner d :
  inv d → wp rely (guarantee ctx false) U (Create s ctx code name owner) (λ _ _, True) d.
Proof.
  intros Hd. unfold Create. repeat wp_step;
    reflect_bools;
    first [by apply createOnce_guarantee
          |apply wp_then_readonly; [|by apply createOnce_guarantee];
           intros [[created m] [e|]]; [by destruct (default (Internal e) (As is_app e))|done]].
Qed.

Lemma Update_guarantee s ctx id name status version d :
  inv d → wp rely (guarantee ctx false) U (Update s ctx id name status version) (λ _ _, True) d.
Proof.
  intros Hd. unfold Update. repeat wp_step. wp_tx.
  apply twp_update_then. intros n d4 Hs Hn.
  guards. apply update_tenants_effect in Hs as (r & Hr & Hver & He & Hu & Hq & Hi); [|done..].
  apply twp_event. eapply commit_plain; [done| |done..]. apply authorised_access. simpl.
  match goal with Ha : authorizeTenant _ (_ ?r) = None, Hr : _ !! _ = Some ?r, Hi : inv _ |- _ =>
    by rewrite (tenant_key _ _ _ Hi Hr) in Ha end.
Qed.

Lemma AddMembership_guarantee s ctx tenantID userID unitID d :
  inv d → wp rely (guarantee ctx false) U (AddMembership s ctx tenantID userID unitID) (λ _ _, True) d.
Proof.
  intros Hd. unfold AddMembership. repeat wp_step. wp_tx.
  apply twp_create_then. intros ? d6 Hs.
  apply insert_memberships_effect in Hs as (_ & Hd6 & He);
    [|done|new_row|eapply unit_in_later; [eassumption|done]].
  apply twp_event. eapply commit_plain; [done|by apply authorised_access|by subst..].
Qed.

(** The row a read found, in the state of the transaction: its tenant. *)
Ltac same_tenant Hr :=
  match type of Hr with
  | _ !! ?k = Some ?r' =>
      match goal with
      | Hr0 : _ !! k = Some ?r, Hle : db_le _ _ |- _ =>
          let Ht := fresh "Htenant" in
          first
            [ pose proof (later_tenant _ _ _ _ _ (le_memberships _ _ Hle) Hr0 Hr) as Ht
            | pose proof (later_tenant _ _ _ _ _ (le_organization_units _ _ Hle) Hr0 Hr) as Ht
            | pose proof (later_tenant _ _ _ _ _ (le_invitations _ _ Hle) Hr0 Hr) as Ht
            | pose proof (later_tenant _ _ _ _ _ (le_member_groups _ _ Hle) Hr0 Hr) as Ht
            | pose proof (later_tenant _ _ _ _ _ (le_group_members _ _ Hle) Hr0 Hr) as Ht ];
          simpl in Ht
      end
  end.

Lemma UpdateMembership_guarantee s ctx id status unitID version d :
  inv d →
  wp rely (guarantee ctx false) U (UpdateMembership s ctx id status unitID version) (λ _ _, True) d.
Proof.
  intros Hd. unfold UpdateMembership. repeat wp_step. wp_tx.
  apply twp_update_then. intros n d6 Hs Hn.
  guards. apply update_memberships_effect in Hs as (r & Hr & Hver & He); [|done..]. simpl in Hr.
  same_tenant Hr. rewrite <- Htenant in He. destruct He as (He & Hu & Hq & Hi); [eapply unit_in_later; [eassumption|done]|].
  apply twp_event. eapply commit_plain; [done|by apply authorised_access|done..].
Qed.

(** ** Organization units *)

Lemma create_unit_at_guarantee s ctx fields id tenantID parentID code name path d :
  inv d → authorizeTenant ctx tenantID = None → unit_in d tenantID parentID →
  code ≠ "" → name ≠ "" →
  wp rely (guarantee ctx true) U (create_unit_at s ctx fields id tenantID parentID code name path)
    (λ _ _, True) d.
Proof.
  intros Hd Ha Hp Hcode Hname. unfold create_unit_at. repeat wp_step. wp_tx.
  apply twp_create_then. intros ? d6 Hs.
  apply insert_organization_units_effect in Hs as (_ & Hd6 & He);
    [|done|new_row|eapply unit_in_later; [eassumption|done]].
  apply twp_event. eapply commit_plain; [done|by apply authorised_access|by subst..].
Qed.

Lemma unit_in_empty d T : unit_in d T "".
Proof. by intros k ?. Qed.

Lemma unit_in_found d T id u :
  organization_units d !! id = Some u → OrganizationUnit_TenantID u = T → unit_in d T id.
Proof. intros Hu Ht k. unfold nullableID. case_match; [done|]. intros [= <-]. eauto. Qed.

Lemma CreateOrganizationUnit_guarantee s ctx tenantID parentID code name d :
  inv d →
  wp rely (guarantee ctx true) U (CreateOrganizationUnit s ctx tenantID parentID code name)
    (λ _ _, True) d.
Proof.
  intros Hd. unfold CreateOrganizationUnit. repeat wp_step; reflect_bools;
    apply create_unit_at_guarantee; try done.
  - match goal with H : TrimSpace parentID = "" |- _ => rewrite H end. apply unit_in_empty.
  - match goal with H : get_result _ _ = _ |- _ => apply get_result_Ok in H end.
    by eapply unit_in_found.
Qed.

(** Two reads of one unit before [d] saw the same tenant. *)
Lemma read_twice d d0 d1 id u0 u1 :
  organization_units d0 !! id = Some u0 → organization_units d1 !! id = Some u1 →
  db_le d0 d → db_le d1 d → OrganizationUnit_TenantID u0 = OrganizationUnit_TenantID u1.
Proof.
  intros Hu0 Hu1 Hle0 Hle1.
  destruct (later_exists _ _ _ _ (le_organization_units _ _ Hle0) Hu0) as (v & Hv & Ht0).
  pose proof (later_tenant _ _ _ _ _ (le_organization_units _ _ Hle1) Hu1 Hv). simpl in *. congruence.
Qed.

Lemma update_unit_at_guarantee s ctx current id parentID name status path d d1 :
  inv d → inv d1 → db_le d1 d → organization_units d1 !! id = Some current →
  authorizeTenant ctx (OrganizationUnit_TenantID current) = None →
  unit_in d (OrganizationUnit_TenantID current) parentID →
  status ∈ unit_statuses → TrimSpace name ≠ "" →
  wp rely (guarantee ctx true) U (update_unit_at s ctx current id parentID name status path)
    (λ _ _, True) d.
Proof.
  intros Hd Hd1 Hle1 Hlk Ha Hp Hst Hname. pose proof (unit_key _ _ _ Hd1 Hlk) as Hid. unfold update_unit_at.
  repeat wp_step. wp_tx. apply twp_then, twp_update_unit; [done..|].
  intros r d9 Hr Hv Heff. simpl in Hr, Heff. rewrite Hid in Hr. same_tenant Hr.
  rewrite <- Htenant in Heff.
  destruct Heff as (Heff & Hq & Hi); [eapply unit_in_later; [eassumption|done]|done|].
  apply twp_event. eapply commit_plain; [done|by apply authorised_access|done..].
Qed.

Lemma update_unit_locked_guarantee s ctx id parentID name status version d current0 d0 :
  inv d → organization_units d0 !! id = Some current0 → db_le d0 d →
  authorizeTenant ctx (OrganizationUnit_TenantID current0) = None →
  status ∈ unit_statuses → TrimSpace name ≠ "" →
  wp rely (guarantee ctx true) U (update_unit_locked s ctx id parentID name status version)
    (λ _ _, True) d.
Proof.
  intros Hd Hlk0 Hle0 Ha Hst Hname. unfold update_unit_locked. repeat wp_step; reflect_bools;
    repeat match goal with H : get_result (one_row _) _ = Ok _ |- _ => apply get_result_Ok in H end.
  - eapply update_unit_at_guarantee; [done|done|reflexivity|done| | |done|done].
    + by erewrite <- read_twice; [..|reflexivity].
    + subst parentID. apply unit_in_empty.
  - eapply update_unit_at_guarantee; [done|..|done| |by eapply unit_in_found|done|done]; [done..|].
    by erewrite <- read_twice.
Qed.

Lemma UpdateOrganizationUnit_guarantee s ctx id parentID name status version d :
  inv d →
  wp rely (guarantee ctx true) U (UpdateOrganizationUnit s ctx id parentID name status version)
    (λ _ _, True) d.
Proof.
  intros Hd. unfold UpdateOrganizationUnit. repeat wp_step.
  guards.
  match goal with H : get_result _ _ = _ |- _ => apply get_result_Ok in H end.
  apply wp_then_readonly; [intros [? [?|]]; done|].
  apply wp_organization_lock. intros d2 HR. advance.
  by eapply update_unit_locked_guarantee.
Qed.

(** ** Invitations *)

Lemma invitation_by_hash_Some hash d i :
  invitation_by_hash hash d = Some i →
  ∃ k, invitations d !! k = Some i ∧ Invitation_TokenHash i = hash.
Proof.
  unfold invitation_by_hash. intros Hh%head_Some_elem_of.
  apply elem_of_filter_bool in Hh as [Hh [k Hk]%elem_of_rows]. reflect_bools. eauto.
Qed.

Lemma CreateInvitation_guarantee s ctx tenantID email expiresIn d :
  inv d →
  wp rely (guarantee ctx false) U (CreateInvitation s ctx tenantID email expiresIn) (λ _ _, True) d.
Proof.
  intros Hd. unfold CreateInvitation, secureToken. repeat wp_step. wp_tx.
  apply twp_create_then. intros ? d9 Hs.
  apply insert_invitations_effect in Hs as (Hnew & Hd9 & He); [|done|new_row].
  apply twp_event. simpl in Hnew. subst d9.
  eapply commit_intro; [done|by apply authorised_access|done|eauto with tenant|simpl; congruence|].
  simpl. intros k i i' Hi. rewrite lookup_insert_ne by congruence. eauto with tenant.
Qed.

(** Updating one invitation by a rule. *)
Lemma update_invitation_rule d d' id r v :
  invitations d !! id = Some r → invitation_rule d' r v →
  ∀ k i i', invitations d !! k = Some i → <[id := v]> (invitations d) !! k = Some i' →
  invitation_rule d' i i'.
Proof.
  intros Hr Hrule k i i' Hi. destruct (decide (id = k)) as [->|Hne].
  - rewrite lookup_insert_eq. intros. by simplify_eq.
  - rewrite lookup_insert_ne by done. intros. simplify_eq. by left.
Qed.

Lemma accept_locked_guarantee s ctx actor token userID d :
  inv d → userID ≠ "" → wp rely (guarantee ctx false) U (accept_locked s ctx actor token userID) (λ _ _, True) d.
Proof.
  intros Hd Huser. unfold accept_locked. repeat wp_step. wp_tx. reflect_bools.
  match goal with H : invitation_by_hash _ _ = Some ?i |- _ =>
    apply invitation_by_hash_Some in H as (k & Hk & Hhash) end.
  apply twp_update_then. intros n d9 Hs Hn.
  apply update_invitations_effect in Hs as (r & Hr & Hver & Hd9 & He); [|done|done|typed..].
  simpl in Hr, Hver, Hd9.
  match goal with Hi : inv ?d0, Hle : db_le ?d0 ?d3 |- _ =>
    rewrite (invitation_key _ _ _ Hi Hk) in Hr, Hd9;
    pose proof (later_same _ _ _ _ _ (le_invitations _ _ Hle) Hk Hr (eq_sym Hver)) as <- end.
  apply twp_create_then. intros ? d10 Hs.
  apply insert_memberships_effect in Hs as (_ & Hd10 & He'); [|apply He|new_row|by intros ? ?].
  apply twp_event. subst d9 d10. simpl.
  eapply commit_intro; [by eapply effect_trans| |done|eauto with tenant|simpl; congruence|].
  - right. right. eexists k, _, _. split_and!; [done..| |]; simpl; by rewrite ?lookup_insert_eq.
  - eapply update_invitation_rule; [done|]. right. right. split; [done|].
    eexists _, _. split_and!; [simpl; by rewrite lookup_insert_eq|done..].
Qed.

Lemma AcceptInvitation_guarantee s ctx token userID d :
  inv d → wp rely (guarantee ctx false) U (AcceptInvitation s ctx token userID) (λ _ _, True) d.
Proof.
  intros Hd. unfold AcceptInvitation. repeat wp_step.
  apply wp_then_readonly; [intros [[? ?] [?|]]; done|].
  apply wp_resource_lock. intros d2 HR. advance.
  reflect_bools. by apply accept_locked_guarantee.
Qed.

(** Nobody accepted a pending invitation. *)
Lemma pending_unaccepted d k i :
  inv d → invitations d !! k = Some i → Invitation_Status i = "pending" →
  Invitation_AcceptedByUserID i = "".
Proof.
  intros Hd Hk Hp. destruct (proj1 (inv_invitations _ Hd) _ _ Hk) as (_ & _ & _ & Hacc & _).
  apply dec_stable. intros Hne%Hacc. congruence.
Qed.

Lemma RevokeInvitation_guarantee s ctx id version d :
  inv d → wp rely (guarantee ctx false) U (RevokeInvitation s ctx id version) (λ _ _, True) d.
Proof.
  intros Hd. unfold RevokeInvitation. repeat wp_step. wp_tx.
  apply twp_update_then. intros n d9 Hs Hn.
  guards. match goal with Hi : inv ?d0, Hk : invitations ?d0 !! id = Some _, Hp : _ = "pending" |- _ =>
    pose proof (pending_unaccepted _ _ _ Hi Hk Hp) as Hnone end.
  apply update_invitations_effect in Hs as (r & Hr & Hver & Hd9 & He); [|done|done|typed|by split].
  simpl in Hr, Hver, Hd9.
  match goal with Hi : inv ?d0, Hk : invitations ?d0 !! id = Some _ |- _ =>
    rewrite (invitation_key _ _ _ Hi Hk) in Hr, Hd9 end.
  same_tenant Hr. subst d9. apply twp_event.
  eapply commit_intro; [done|rewrite <- Htenant; by apply authorised_access|done|eauto with tenant
    |simpl; congruence|].
  eapply update_invitation_rule; [done|]. by right; left.
Qed.

(** ** Groups *)

Lemma CreateGroup_guarantee s ctx tenantID code name d :
  inv d → wp rely (guarantee ctx false) U (CreateGroup s ctx tenantID code name) (λ _ _, True) d.
Proof.
  intros Hd. unfold CreateGroup. repeat wp_step. wp_tx.
  apply twp_create_then. intros ? d9 Hs.
  apply insert_member_groups_effect in Hs as (Hnew & Hd9 & He); [|done|new_row].
  apply twp_event. eapply commit_plain; [done|by apply authorised_access|by subst..].
Qed.

Lemma UpdateGroup_guarantee s ctx id name status version d :
  inv d → wp rely (guarantee ctx false) U (UpdateGroup s ctx id name status version) (λ _ _, True) d.
Proof.
  intros Hd. unfold UpdateGroup. repeat wp_step. wp_tx.
  apply twp_update_then. intros n d9 Hs Hn.
  guards. apply update_member_groups_effect in Hs as (r & Hr & Hver & He & Hu & Hq & Hi); [|done..].
  simpl in Hr.
  match goal with Hd0 : inv ?d0, Hk : member_groups ?d0 !! id = Some _ |- _ =>
    rewrite (group_key _ _ _ Hd0 Hk) in Hr end.
  same_tenant Hr. apply twp_event.
  eapply commit_plain; [done|rewrite <- Htenant; by apply authorised_access|done..].
Qed.

Lemma group_member_Some groupID membershipID d m :
  group_member groupID membershipID d = Some m →
  ∃ k, group_members d !! k = Some m ∧ GroupMember_GroupID m = groupID ∧
       GroupMember_MembershipID m = membershipID.
Proof.
  unfold group_member. intros Hh%head_Some_elem_of.
  apply elem_of_filter_bool in Hh as [Hh [k Hk]%elem_of_rows]. reflect_bools. eauto.
Qed.


(** A member row has the tenant of its group, whenever the two were read. *)
Lemma member_tenant d d0 d1 groupID membershipID m g :
  group_member groupID membershipID d1 = Some m → member_groups d0 !! groupID = Some g →
  db_le d0 d → db_le d1 d → inv d1 → GroupMember_TenantID m = Group_TenantID g.
Proof.
  intros (k & Hk & HG & _)%group_member_Some Hg Hle0 Hle1 Hd1.
  destruct (inv_group_members _ Hd1) as (_ & _ & _ & Hfg & _).
  destruct (Hfg _ _ groupID Hk) as (b & Hb & Htb); [simpl; congruence|].
  destruct (later_exists _ _ _ _ (le_member_groups _ _ Hle0) Hg) as (g' & Hg' & Ht).
  pose proof (later_tenant _ _ _ _ _ (le_member_groups _ _ Hle1) Hb Hg'). simpl in *. congruence.
Qed.

(** A new member, or a former member's row. *)
Lemma add_member_guarantee s ctx group groupID membershipID existing d d0 d1 d2 m :
  inv d → authorizeTenant ctx (Group_TenantID group) = None →
  member_groups d0 !! groupID = Some group → db_le d0 d →
  memberships d1 !! membershipID = Some m → db_le d1 d →
  Membership_TenantID m = Group_TenantID group →
  (∀ e, existing = Some e → group_member groupID membershipID d2 = Some e) → inv d2 → db_le d2 d →
  wp rely (guarantee ctx false) U (add_member s ctx group groupID membershipID existing) (λ _ _, True) d.
Proof.
  intros Hd Ha Hg Hle0 Hm Hle1 Htm Hex Hd2 Hle2. unfold add_member. repeat wp_step. wp_tx.
  match goal with H : db_le d0 ?d3 |- _ =>
    destruct (later_exists _ _ _ _ (le_member_groups _ _ H) Hg) as (g' & Hg' & Htg') end.
  match goal with H : db_le d1 ?d3 |- _ =>
    destruct (later_exists _ _ _ _ (le_memberships _ _ H) Hm) as (m' & Hm' & Htm') end.
  simpl in Htg', Htm'.
  destruct existing as [e|].
  - specialize (Hex e eq_refl).
    assert (GroupMember_TenantID e = Group_TenantID group) as Hte by by eapply member_tenant.
    apply group_member_Some in Hex as (k & Hk & HG & HM).
    apply twp_update_then. intros n d9 Hs Hn.
    apply update_group_members_effect in Hs as (r & Hr & Hver & He & Hu & Hq & Hi);
      [|done|done|typed].
    simpl in Hr. rewrite (group_member_key _ _ _ Hd2 Hk) in Hr. same_tenant Hr.
    apply twp_event. eapply commit_plain; [done| |done..]. apply authorised_access. congruence.
  - apply twp_create_then. intros ? d9 Hs.
    apply insert_group_members_effect in Hs as (Hnew & Hd9 & He);
      [|done|new_row|simpl; eauto|simpl; eexists; split; [done|congruence]].
    apply twp_event. eapply commit_plain; [done|by apply authorised_access|by subst..].
Qed.

Lemma AddGroupMember_guarantee s ctx groupID membershipID d :
  inv d → wp rely (guarantee ctx false) U (AddGroupMember s ctx groupID membershipID) (λ _ _, True) d.
Proof.
  intros Hd. unfold AddGroupMember. repeat wp_step; reflect_bools;
    repeat match goal with H : get_result (one_row _) _ = Ok _ |- _ => apply get_result_Ok in H end;
    try (eapply add_member_guarantee;
      [done|done|by eauto|done|by eauto|done|by eauto|by intros ? [= <-]|done|by reflexivity]).
Qed.

Lemma RemoveGroupMember_guarantee s ctx groupID membershipID version d :
  inv d →
  wp rely (guarantee ctx false) U (RemoveGroupMember s ctx groupID membershipID version) (λ _ _, True) d.
Proof.
  intros Hd. unfold RemoveGroupMember. repeat wp_step. wp_tx.
  match goal with H : group_member _ _ _ = Some _ |- _ =>
    apply group_member_Some in H as (k & Hk & _) end.
  apply twp_update_then. intros n d9 Hs Hn.
  apply update_group_members_effect in Hs as (r & Hr & Hver & He & Hu & Hq & Hi); [|done|done|typed].
  simpl in Hr.
  match type of Hk with group_members ?d0 !! _ = _ =>
    match goal with Hd0 : inv d0 |- _ => rewrite (group_member_key _ _ _ Hd0 Hk) in Hr end end.
  same_tenant Hr. apply twp_event.
  eapply commit_plain; [done|rewrite <- Htenant; by apply authorised_access|done..].
Qed.

(** ** Quotas *)

(** Updating one quota by a rule. *)
Lemma update_quota_rule d key r v :
  tenant_quotas d !! key = Some r → quota_rule r v →
  (∀ k q q', tenant_quotas d !! k = Some q → <[key := v]> (tenant_quotas d) !! k = Some q' →
     quota_rule q q') ∧
  (∀ k q', tenant_quotas d !! k = None → <[key := v]> (tenant_quotas d) !! k = Some q' →
     Quota_Used q' = 0%Z).
Proof.
  intros Hr Hrule. split.
  - intros k q q' Hq [[<- <-]|[Hne ?]]%lookup_insert_Some; [by simplify_eq|by eauto with tenant].
  - intros k q' Hq [[<- <-]|[Hne ?]]%lookup_insert_Some; congruence.
Qed.

Lemma set_quota_guarantee s ctx fields tenantID key limit current d d0 :
  inv d → authorizeTenant ctx tenantID = None → inv d0 → key ≠ "" →
  (∀ q, current = Some q → tenant_quotas d0 !! (tenantID, key) = Some q) → 
  wp rely (guarantee ctx false) U (set_quota s ctx fields tenantID key limit current) (λ _ _, True) d.
Proof.
  intros Hd Ha Hd0 Hkey Hc. unfold set_quota. repeat wp_step. wp_tx.
  destruct current as [q|]; cbn [default].
  - pose proof (quota_key _ _ _ Hd0 (Hc q eq_refl)) as [= Hk1 Hk2].
    apply twp_update_then. intros n d9 Hs Hn.
    apply update_quota_limit_effect in Hs as (r & Hr & Hver & Hd9 & He); [|done..].
    simpl in Hr, He. destruct (update_quota_rule _ _ _
      (Build_Quota (Quota_TenantID r) (Quota_Key r) limit (Quota_Used r) (Quota_Version r + 1)
         (Quota_CreatedAt r) (AuditFields_UpdatedAt fields) (Quota_CreatedBy r)
         (AuditFields_UpdatedBy fields)) Hr) as [Hq Hn']; [by left|].
    apply twp_event. subst d9. eapply commit_intro;
      [done|rewrite Hk1; by apply authorised_access|done|done|done|eauto with tenant].
  - apply twp_create_then. intros ? d9 Hs.
    apply insert_tenant_quotas_effect in Hs as (Hnew & Hd9 & He); [|done|new_row].
    apply twp_event. subst d9. simpl in *. eapply commit_intro; [done|by apply authorised_access|done|..];
      [| |eauto with tenant]; simpl.
    + intros k q q' Hq. rewrite lookup_insert_ne by congruence. eauto with tenant.
    + intros k q' Hq [[<- <-]|[Hne ?]]%lookup_insert_Some; [done|congruence].
Qed.

Lemma SetQuota_guarantee s ctx tenantID key limit expectedVersion d :
  inv d →
  wp rely (guarantee ctx false) U (SetQuota s ctx tenantID key limit expectedVersion) (λ _ _, True) d.
Proof.
  intros Hd. unfold SetQuota. repeat wp_step; guards;
    repeat match goal with H : get_result (one_row _) _ = Ok _ |- _ => apply get_result_Ok in H end;
    match goal with Hi : inv ?d |- wp _ _ _ _ _ ?d =>
      apply (set_quota_guarantee _ _ _ _ _ _ _ _ d); [done..|]; intros ? ?; congruence end.
Qed.

(** The transaction of a consumption. *)
Lemma consume_body_commits ctx tenantID key amount now actor d :
  inv d → authorizeTenant ctx tenantID = None → (0 < amount)%Z →
  twp U (consume_body ctx tenantID key amount now actor)
    (λ '(_, _, err) d2, err = None → guarantee ctx false d d2) d.
Proof.
  intros Hd Ha Hpos. unfold consume_body. apply twp_bind, twp_consume; [done|done|by left|].
  intros r d1 Hr Hl Hd1 He. unfold newOutboxEventTx. cbn [negb].
  destruct (ctx_principal ctx) as [p|e]; [|done]. intros u _. cbn [tbind].
  destruct (outboxEventWith _ _ _ _ _ _ _ _) as [ev|e]; [|done].
  apply twp_bind, twp_outbox; [done|]. intros _ _. right. subst d1.
  destruct (update_quota_rule _ _ _ (consumed_quota r amount now actor) Hr) as [Hq Hn].
  { right. simpl. split; [done|lia]. }
  eapply commit_intro; [done|by apply authorised_access|done|done|done|eauto with tenant].
Qed.

Lemma ConsumeQuota_guarantee s ctx tenantID key amount d :
  inv d → wp rely (guarantee ctx false) U (ConsumeQuota s ctx tenantID key amount) (λ _ _, True) d.
Proof.
  intros Hd. unfold ConsumeQuota. repeat wp_step. reflect_bools.
  apply wp_then_readonly; [intros [[? []] [?|]]; solve_readonly|].
  apply wp_resource_lock. intros d1 HR. advance. unfold consume_locked, within. repeat wp_step.
  apply wp_transact. intros d3 HR. advance. split; [intros; by apply wp_ret|].
  eapply twp_mono; [|by apply consume_body_commits].
  intros [[q b] [e|]] d4 HG; (split; [intros; by apply wp_ret|]); [done|].
  split_and!; [by apply HG|by apply wp_ret|intros; by apply wp_ret].
Qed.

(** ** Reads write nothing *)

Lemma fetch_ancestors_readonly tenantID status slices byID :
  readonly (fetch_ancestors tenantID status slices byID).
Proof.
  revert byID. induction slices as [|slice slices IH]; intros byID; [done|].
  cbn [fetch_ancestors]. unfold Repository.BatchGetOrganizationUnits. destruct (bool_decide _); [done|].
  intros [items|e]; [apply IH|done].
Qed.

Lemma Search_readonly tenantID keyword status limit :
  readonly (SearchOrganizationUnitsWithAncestors tenantID keyword status limit).
Proof.
  unfold SearchOrganizationUnitsWithAncestors. intros [ms|e]; [|done]. cbn [bind].
  destruct (foldl _ _ _) as [byID ids]. apply readonly_bind; [apply fetch_ancestors_readonly|].
  by intros [?|?].
Qed.

Lemma Tree_readonly p tenantID code mode parentID keyword depth nodes filters :
  readonly (Tree p tenantID code mode parentID keyword depth nodes filters).
Proof.
  unfold Tree, search_tree.
  repeat (match goal with |- readonly (if ?b then _ else _) => destruct b end; [done|]).
  unfold Repository.ListOrganizationUnits, ListOrganizationChildren.
  repeat match goal with |- readonly (if ?b then _ else _) => destruct b end.
  - by intros [?|?].
  - apply readonly_bind; [apply Search_readonly|].
    intros [[items tr]|e]; [|done]. by destruct (buildOrganizationTree _ _ _ _ _).
  - intros [items|e]; [|done]. cbn [bind wrap_query].
    match goal with |- readonly (match ?o with Some _ => _ | None => _ end) =>
      destruct o as [l|]; [|done] end.
    by destruct (buildOrganizationTree _ _ _ _ _).
Qed.

(** ** The interface *)

End Requests.

Inductive Request :=
| ReqCreate (code name ownerUserID : string)
| ReqGet (id : string)
| ReqUpdate (id name status : string) (version : Z)
| ReqAddMembership (tenantID userID organizationUnitID : string)
| ReqGetMembership (id : string)
| ReqValidateMembership (userID tenantID : string)
| ReqListUserTenants (userID : string) (page pageSize : Z)
| ReqListMemberships (tenantID userID status : string) (page pageSize : Z)
| ReqBatchGetMemberships (tenantID : string) (ids : list string)
| ReqFindMembershipsByUserIDs (tenantID : string) (userIDs : list string) (status : string)
| ReqListTenants (keyword status : string) (page pageSize : Z)
| ReqUpdateMembership (id status organizationUnitID : string) (version : Z)
| ReqCreateOrganizationUnit (tenantID parentID code name : string)
| ReqGetOrganizationUnit (id : string)
| ReqBatchGetOrganizationUnits (tenantID : string) (ids : list string)
| ReqListOrganizationUnits (tenantID : string)
| ReqTreeOrganizationUnits (tenantID mode parentID keyword status : string) (maxDepth maxNodes : Z)
| ReqUpdateOrganizationUnit (id parentID name status : string) (version : Z)
| ReqResolveOrganizationScope (membershipID : string)
| ReqCreateInvitation (tenantID email : string) (expiresIn : Z)
| ReqAcceptInvitation (token userID : string)
| ReqRevokeInvitation (id : string) (version : Z)
| ReqGetInvitation (id : string)
| ReqListInvitations (tenantID : string) (page pageSize : Z)
| ReqCreateGroup (tenantID code name : string)
| ReqUpdateGroup (id name status : string) (version : Z)
| ReqGetGroup (id : string)
| ReqListGroups (tenantID : string)
| ReqSearchGroups (tenantID keyword status : string) (page pageSize : Z)
| ReqAddGroupMember (groupID membershipID : string)
| ReqListGroupMembers (groupID : string)
| ReqBatchGetGroupMembers (groupID : string) (membershipIDs : list string)
| ReqGetGroupMember (groupID membershipID : string)
| ReqRemoveGroupMember (groupID membershipID : string) (version : Z)
| ReqGetQuota (tenantID key : string)
| ReqListQuotas (tenantID keyword : string) (page pageSize : Z)
| ReqSetQuota (tenantID key : string) (limit expectedVersion : Z)
| ReqConsumeQuota (tenantID key : string) (amount : Z).

Inductive Response :=
| RespCreate (r : Tenant * Membership * option goerr)
| RespTenant (r : Tenant * option goerr)
| RespMembership (r : Membership * option goerr)
| RespValidate (r : Tenant * Membership * bool)
| RespPage (r : Page * option goerr)
| RespMembershipPage (r : MembershipPage * option goerr)
| RespMemberships (r : list Membership * option goerr)
| RespOrganizationUnit (r : OrganizationUnit * option goerr)
| RespOrganizationUnits (r : list OrganizationUnit * option goerr)
| RespTree (r : list OrganizationTreeNode * bool * option goerr)
| RespScope (r : list string * option goerr)
| RespCreateInvitation (r : Invitation * string * option goerr)
| RespAccept (r : Invitation * Membership * option goerr)
| RespInvitation (r : Invitation * option goerr)
| RespInvitationPage (r : InvitationPage * option goerr)
| RespGroup (r : Group * option goerr)
| RespGroups (r : list Group * option goerr)
| RespGroupPage (r : GroupPage * option goerr)
| RespError (r : option goerr)
| RespGroupMembers (r : list GroupMember * option goerr)
| RespGroupMember (r : GroupMember * option goerr)
| RespQuota (r : Quota * option goerr)
| RespQuotaPage (r : QuotaPage * option goerr)
| RespConsume (r : Quota * bool * option goerr).

Section Serve.
Context `{Platform}.

Definition reply {X} (wrap : X → Response) (m : prog X) : prog Response := bind m (λ x, Ret (wrap x)).

Definition serve (s : Service) (ctx : Context) (r : Request) : prog Response :=
  match r with
  | ReqCreate a b c => reply RespCreate (Create s ctx a b c)
  | ReqGet a => reply RespTenant (Get s ctx a)
  | ReqUpdate a b c v => reply RespTenant (Update s ctx a b c v)
  | ReqAddMembership a b c => reply RespMembership (AddMembership s ctx a b c)
  | ReqGetMembership a => reply RespMembership (Tenants.GetMembership s ctx a)
  | ReqValidateMembership a b => reply RespValidate (Tenants.ValidateMembership s ctx a b)
  | ReqListUserTenants a p n => reply RespPage (Tenants.ListUserTenants s ctx a p n)
  | ReqListMemberships a b c p n =>
      reply RespMembershipPage (Tenants.ListMemberships s ctx a b c p n)
  | ReqBatchGetMemberships a l => reply RespMemberships (Tenants.BatchGetMemberships s ctx a l)
  | ReqFindMembershipsByUserIDs a l c =>
      reply RespMemberships (Tenants.FindMembershipsByUserIDs s ctx a l c)
  | ReqListTenants a b p n => reply RespPage (Tenants.ListTenants s ctx a b p n)
  | ReqUpdateMembership a b c v => reply RespMembership (Tenants.UpdateMembership s ctx a b c v)
  | ReqCreateOrganizationUnit a b c e =>
      reply RespOrganizationUnit (Organizations.CreateOrganizationUnit s ctx a b c e)
  | ReqGetOrganizationUnit a =>
      reply RespOrganizationUnit (Organizations.GetOrganizationUnit s ctx a)
  | ReqBatchGetOrganizationUnits a l =>
      reply RespOrganizationUnits (Organizations.BatchGetOrganizationUnits s ctx a l)
  | ReqListOrganizationUnits a =>
      reply RespOrganizationUnits (Organizations.ListOrganizationUnits s ctx a)
  | ReqTreeOrganizationUnits a b c e f m n =>
      reply RespTree (TreeOrganizationUnits s ctx a b c e f m n)
  | ReqUpdateOrganizationUnit a b c e v =>
      reply RespOrganizationUnit (Organizations.UpdateOrganizationUnit s ctx a b c e v)
  | ReqResolveOrganizationScope a =>
      reply RespScope (Organizations.ResolveOrganizationScope s ctx a)
  | ReqCreateInvitation a b e =>
      reply RespCreateInvitation (Invitations.CreateInvitation s ctx a b e)
  | ReqAcceptInvitation a b => reply RespAccept (AcceptInvitation s ctx a b)
  | ReqRevokeInvitation a v => reply RespInvitation (RevokeInvitation s ctx a v)
  | ReqGetInvitation a => reply RespInvitation (Invitations.GetInvitation s ctx a)
  | ReqListInvitations a p n => reply RespInvitationPage (Invitations.ListInvitations s ctx a p n)
  | ReqCreateGroup a b c => reply RespGroup (Groups.CreateGroup s ctx a b c)
  | ReqUpdateGroup a b c v => reply RespGroup (Groups.UpdateGroup s ctx a b c v)
  | ReqGetGroup a => reply RespGroup (Groups.GetGroup s ctx a)
  | ReqListGroups a => reply RespGroups (Groups.ListGroups s ctx a)
  | ReqSearchGroups a b c p n => reply RespGroupPage (Groups.SearchGroups s ctx a b c p n)
  | ReqAddGroupMember a b => reply RespError (AddGroupMember s ctx a b)
  | ReqListGroupMembers a => reply RespGroupMembers (Groups.ListGroupMembers s ctx a)
  | ReqBatchGetGroupMembers a l => reply RespGroupMembers (Groups.BatchGetGroupMembers s ctx a l)
  | ReqGetGroupMember a b => reply RespGroupMember (Groups.GetGroupMember s ctx a b)
  | ReqRemoveGroupMember a b v => reply RespError (RemoveGroupMember s ctx a b v)
  | ReqGetQuota a b => reply RespQuota (Quotas.GetQuota s ctx a b)
  | ReqListQuotas a b p n => reply RespQuotaPage (Quotas.ListQuotas s ctx a b p n)
  | ReqSetQuota a b l v => reply RespQuota (SetQuota s ctx a b l v)
  | ReqConsumeQuota a b n => reply RespConsume (Quotas.ConsumeQuota s ctx a b n)
  end.

Definition is_read (r : Request) : bool :=
  match r with
  | ReqCreate _ _ _ | ReqUpdate _ _ _ _ | ReqAddMembership _ _ _ | ReqUpdateMembership _ _ _ _
  | ReqCreateOrganizationUnit _ _ _ _ | ReqUpdateOrganizationUnit _ _ _ _ _
  | ReqCreateInvitation _ _ _ | ReqAcceptInvitation _ _ | ReqRevokeInvitation _ _
  | ReqCreateGroup _ _ _ | ReqUpdateGroup _ _ _ _ | ReqAddGroupMember _ _
  | ReqRemoveGroupMember _ _ _ | ReqSetQuota _ _ _ _ | ReqConsumeQuota _ _ _ => false
  | _ => true
  end.

Lemma serve_readonly s ctx r : is_read r = true → readonly (serve s ctx r).
Proof.
  intros Hr. destruct r; try discriminate Hr; unfold serve, reply;
    (apply readonly_bind; [|done]);
    unfold Get, Tenants.GetMembership, Tenants.ValidateMembership, Tenants.ListUserTenants,
      Tenants.ListMemberships, Tenants.BatchGetMemberships, Tenants.FindMembershipsByUserIDs,
      Tenants.ListTenants, Organizations.GetOrganizationUnit,
      Organizations.BatchGetOrganizationUnits, Organizations.ListOrganizationUnits,
      TreeOrganizationUnits, Organizations.ResolveOrganizationScope, Invitations.GetInvitation,
      Invitations.ListInvitations, Groups.GetGroup, Groups.ListGroups, Groups.SearchGroups,
      Groups.ListGroupMembers, Groups.BatchGetGroupMembers, Groups.GetGroupMember, Quotas.GetQuota,
      Quotas.ListQuotas, Repository.ValidateMembership, Repository.ListUserTenants,
      Repository.ListMemberships, Repository.BatchGetMemberships,
      Repository.FindMembershipsByUserIDs, Repository.ListTenants,
      Repository.BatchGetOrganizationUnits, Repository.ListOrganizationUnits,
      Repository.ResolveOrganizationScope, Repository.ListInvitations, Repository.ListGroups,
      Repository.SearchGroups, Repository.ListGroupMembers, Repository.BatchGetGroupMembers,
      Repository.ListQuotas.
  all: try by solve_readonly.
  destruct (_ =?s _); [done|]. destruct (authorizeTenant _ _); [done|].
  apply readonly_bind; [apply Tree_readonly|].
  intros [[nodes truncated]|err]; [done|]. by destruct (Is _ _).
Qed.

(** The requests that may change organization units. *)
Definition moves_units (r : Request) : bool :=
  match r with
  | ReqCreateOrganizationUnit _ _ _ _ | ReqUpdateOrganizationUnit _ _ _ _ _ => true
  | _ => false
  end.

(** Every request keeps the guarantee, whatever the others do. *)
Lemma serve_guarantee `{!AuditLaws} U s ctx r d :
  inv d → wp rely (guarantee ctx (moves_units r)) U (serve s ctx r) (λ _ _, True) d.
Proof.
  intros Hd. destruct (is_read r) eqn:Hr; [by apply readonly_wp, serve_readonly|].
  destruct r; try discriminate Hr; unfold serve, reply; (apply wp_then_readonly; [done|]).
  - by apply Create_guarantee.
  - by apply Update_guarantee.
  - by apply AddMembership_guarantee.
  - by apply UpdateMembership_guarantee.
  - by apply CreateOrganizationUnit_guarantee.
  - by apply UpdateOrganizationUnit_guarantee.
  - by apply CreateInvitation_guarantee.
  - by apply AcceptInvitation_guarantee.
  - by apply RevokeInvitation_guarantee.
  - by apply CreateGroup_guarantee.
  - by apply UpdateGroup_guarantee.
  - by apply AddGroupMember_guarantee.
  - by apply RemoveGroupMember_guarantee.
  - by apply SetQuota_guarantee.
  - by apply ConsumeQuota_guarantee.
Qed.

End Serve.
