(* ===== verification/Paths.v ===== *)
(** * Materialised paths

    The [path] column of an organization unit holds the identifiers from the root
    of its tree to the unit, each followed by a slash. The service finds
    descendants by [LIKE path%], refuses a move below oneself by a prefix test and
    moves a subtree by replacing a prefix. This file relates the paths to the
    parent pointers they stand for. *)

From Stdlib Require Import Ascii.
From stdpp Require Import base gmap list strings.
From S2P Require Import Prelude GoErrors Model Store Effects Platform Repository.
From S2P Require Import Tables Invariants.

(** ** Characters *)

(** An identifier: ASCII, without the path separator and the [LIKE] wildcards, as
    UUIDs are. *)
Definition plain_byte (a : ascii) : bool :=
  ((N_of_ascii a <? 128)%N && negb (Ascii.eqb a "/") && negb (Ascii.eqb a "%")
   && negb (Ascii.eqb a "_") && negb (Ascii.eqb a "\"))%bool.
Definition path_byte (a : ascii) : bool := plain_byte a || Ascii.eqb a "/".

Definition plain (s : string) : bool :=
  (s <>?s "") && forallb plain_byte (String.list_ascii_of_string s).
Definition path_bytes (s : string) : bool := forallb path_byte (String.list_ascii_of_string s).

Fixpoint no_slash (s : string) : bool :=
  match s with
  | EmptyString => true
  | String a s' => negb (Ascii.eqb a "/") && no_slash s'
  end.

Lemma path_bytes_app s t : path_bytes (s +:+ t) = path_bytes s && path_bytes t.
Proof. unfold path_bytes. by rewrite list_ascii_app, forallb_app. Qed.

Lemma plain_no_slash s : plain s = true → no_slash s = true.
Proof.
  unfold plain. intros [_ Hs]%andb_true_iff. induction s as [|a s IH]; [done|].
  simpl in *. apply andb_true_iff in Hs as [Ha Hs]. unfold plain_byte in Ha. reflect_bools.
  rewrite IH by done. by match goal with H : Ascii.eqb a "/" = false |- _ => rewrite H end.
Qed.

Lemma plain_path_bytes s : plain s = true → path_bytes s = true.
Proof.
  unfold plain, path_bytes. intros [_ Hs]%andb_true_iff.
  rewrite forallb_forall in *. intros a Ha. unfold path_byte. by rewrite (Hs a Ha).
Qed.

Lemma path_bytes_ascii s : path_bytes s = true → is_ascii s = true.
Proof.
  unfold path_bytes, is_ascii. rewrite !forallb_forall. intros Hs a Ha. specialize (Hs a Ha).
  unfold path_byte, plain_byte in Hs. apply orb_true_iff in Hs as [Hs|Hs]; [by reflect_bools|].
  apply Ascii.eqb_eq in Hs. by subst.
Qed.

(** ** Cutting at a slash *)

Lemma string_app_inj (s t u : string) : s +:+ t = s +:+ u → t = u.
Proof. induction s as [|a s IH]; [done|]. rewrite !string_app_cons. intros [= He]. auto. Qed.

(** A prefix of [k/] that ends with a slash is all of it. *)
Lemma slash_cut k t rest :
  no_slash k = true → k +:+ "/" = (t +:+ "/") +:+ rest → t = k ∧ rest = "".
Proof.
  revert t. induction k as [|a k IH]; intros t Hk He.
  - destruct t as [|b t]; [split; [done|]; by injection He|].
    rewrite !string_app_cons in He. injection He as -> He. by destruct t.
  - simpl in Hk. apply andb_true_iff in Hk as [Ha Hk]. destruct t as [|b t].
    + rewrite string_app_cons in He. injection He as -> He. done.
    + rewrite !string_app_cons in He. injection He as -> He. by destruct (IH t Hk He) as [-> ->].
Qed.

(** What is left of a path that ends with a slash ends with a slash. *)
Lemma slash_suffix y u z : y +:+ "/" = u +:+ z → z ≠ "" → ∃ z', z = z' +:+ "/".
Proof.
  revert y. induction u as [|a u IH]; intros y He Hz; [by exists y|].
  rewrite string_app_cons in He. destruct y as [|b y].
  - injection He as -> He. by destruct u, z.
  - rewrite string_app_cons in He. injection He as -> He. by eapply IH.
Qed.

(** The last component of a path. *)
Lemma last_component_prefix x y r k z :
  no_slash r = true → y +:+ "/" = (x +:+ "/") +:+ z →
  (x +:+ "/") +:+ r +:+ "/" = (y +:+ "/") +:+ k +:+ "/" → r = k ∧ x +:+ "/" = y +:+ "/".
Proof.
  intros Hr Hz He. rewrite Hz, <- (string_app_assoc _ z) in He. apply string_app_inj in He.
  destruct (decide (z = "")) as [->|Hne].
  - rewrite string_app_nil_r in Hz. rewrite string_app_nil_l in He.
    destruct (slash_cut r k "" Hr) as [-> _]; [by rewrite string_app_nil_r|done].
  - destruct (slash_suffix _ _ _ Hz Hne) as [z' ->].
    destruct (slash_cut r z' (k +:+ "/") Hr He) as [_ Hk]. by destruct k.
Qed.

Lemma last_component x y r k :
  no_slash r = true → no_slash k = true →
  (x +:+ "/") +:+ r +:+ "/" = (y +:+ "/") +:+ k +:+ "/" → r = k ∧ x +:+ "/" = y +:+ "/".
Proof.
  intros Hr Hk He.
  assert (String.prefix (x +:+ "/") (y +:+ "/") = true ∨ String.prefix (y +:+ "/") (x +:+ "/") = true)
    as [[z Hz]%prefix_iff|[z Hz]%prefix_iff].
  { eapply prefix_comparable; [apply prefix_app|]. rewrite He. apply prefix_app. }
  - by eapply last_component_prefix.
  - destruct (last_component_prefix y x k r z) as [-> ->]; done.
Qed.

(** ** [LIKE] and [SUBSTRING] on paths *)

Definition single (a : ascii) : string := String a "".

Lemma utf8_chars_ascii s :
  is_ascii s = true → utf8_chars s = single <$> String.list_ascii_of_string s.
Proof.
  unfold is_ascii. induction s as [|a s IH]; [done|]. simpl. intros [Ha Hs]%andb_true_iff.
  rewrite IH by done. destruct s as [|b s]; [done|]. simpl in *.
  apply andb_true_iff in Hs as [Hb _]. apply N.ltb_lt in Hb.
  destruct (N.leb_spec 128 (N_of_ascii b)); [lia|done].
Qed.

Lemma like_percent l : like_chars ["%"] l = true.
Proof. destruct l; [done|]. simpl. induction l; simpl; auto. Qed.

Lemma like_prefix p s :
  path_bytes p = true →
  like_chars ((single <$> String.list_ascii_of_string p) ++ ["%"])
    (single <$> String.list_ascii_of_string s) = String.prefix p s.
Proof.
  revert s. induction p as [|a p IH]; intros s Hp; [by rewrite like_percent; destruct s|].
  unfold path_bytes in Hp. simpl in Hp. apply andb_true_iff in Hp as [Ha Hp].
  assert ((single a =?s "%") = false ∧ (single a =?s "_") = false ∧ (single a =?s "\") = false)
    as (H1 & H2 & H3).
  { unfold path_byte, plain_byte in Ha. apply orb_true_iff in Ha as [Ha|Ha].
    - reflect_bools. split_and!; apply String.eqb_neq; intros [= ->]; done.
    - apply Ascii.eqb_eq in Ha as ->. done. }
  change (String.list_ascii_of_string (String a p)) with (a :: String.list_ascii_of_string p).
  rewrite fmap_cons, <- app_comm_cons. destruct s as [|b s]; cbn [like_chars];
    rewrite H1, H2, H3.
  - done.
  - change (String.list_ascii_of_string (String b s)) with (b :: String.list_ascii_of_string s).
    rewrite fmap_cons. simpl String.prefix. destruct (ascii_dec a b) as [->|Hne].
    + rewrite String.eqb_refl. by apply IH.
    + destruct (String.eqb_spec (single b) (single a)) as [Hs|]; [|done]. by injection Hs.
Qed.

Lemma sql_like_prefix p s :
  path_bytes p = true → path_bytes s = true → sql_like s (p +:+ "%") = String.prefix p s.
Proof.
  intros Hp Hs. unfold sql_like.
  rewrite (utf8_chars_ascii s), (utf8_chars_ascii (p +:+ "%")) by
    first [by apply path_bytes_ascii
          |unfold is_ascii; rewrite list_ascii_app, forallb_app; apply andb_true_iff; split;
           [by apply path_bytes_ascii|done]].
  rewrite list_ascii_app, fmap_app. by apply like_prefix.
Qed.

Lemma concat_single l : String.concat "" (single <$> l) = String.string_of_list_ascii l.
Proof.
  induction l as [|a [|b l] IH]; [done..|]. simpl in *. by rewrite <- IH.
Qed.

Lemma sql_substring_suffix p t :
  path_bytes (p +:+ t) = true → sql_substring (p +:+ t) (Z.of_nat (String.length p) + 1) = t.
Proof.
  intros Hp. unfold sql_substring. rewrite utf8_chars_ascii by by apply path_bytes_ascii.
  replace (Z.to_nat (Z.of_nat (String.length p) + 1 - 1)) with (String.length p) by lia.
  rewrite <- fmap_drop, concat_single, list_ascii_app. rewrite drop_app_length'.
  - apply String.string_of_list_ascii_of_string.
  - clear. induction p; simpl; auto.
Qed.

(** ** Paths and parents *)

Section Trees.
Implicit Types (t : gmap string OrganizationUnit) (u : OrganizationUnit) (k : string).

(** The path a unit is appended to. *)
Definition parent_path t u : option string :=
  if OrganizationUnit_ParentID u =?s "" then Some "/"
  else OrganizationUnit_Path <$> t !! OrganizationUnit_ParentID u.

(** Every path is the parent's path, the identifier and a slash. *)
Definition path_ok t : Prop :=
  ∀ k u, t !! k = Some u →
  plain k = true ∧ ∃ b, parent_path t u = Some b ∧ OrganizationUnit_Path u = b +:+ k +:+ "/".

(** [k] is [r] or has it as an ancestor, by parent pointers. *)
Inductive below t (r : string) : string → Prop :=
| below_refl : below t r r
| below_child k u :
    t !! k = Some u → OrganizationUnit_ParentID u ≠ "" →
    below t r (OrganizationUnit_ParentID u) → below t r k.

Lemma below_inv t r k u :
  below t r k → k ≠ r → t !! k = Some u →
  OrganizationUnit_ParentID u ≠ "" ∧ below t r (OrganizationUnit_ParentID u).
Proof. intros [|k' u' Hu' Hne Hb] Hk Hu; [done|]. by simplify_eq. Qed.

Lemma parent_path_child t k u :
  path_ok t → t !! k = Some u → OrganizationUnit_ParentID u ≠ "" →
  ∃ p, t !! OrganizationUnit_ParentID u = Some p ∧
       OrganizationUnit_Path u = OrganizationUnit_Path p +:+ k +:+ "/".
Proof.
  intros Ht Hu Hne. destruct (Ht _ _ Hu) as (_ & b & Hb & Hp). unfold parent_path in Hb.
  destruct (String.eqb_spec (OrganizationUnit_ParentID u) ""); [done|].
  destruct (t !! OrganizationUnit_ParentID u) as [p|]; simplify_eq/=. eauto.
Qed.

Lemma parent_path_root t k u :
  path_ok t → t !! k = Some u → OrganizationUnit_ParentID u = "" →
  OrganizationUnit_Path u = "/" +:+ k +:+ "/".
Proof.
  intros Ht Hu He. destruct (Ht _ _ Hu) as (_ & b & Hb & Hp). unfold parent_path in Hb.
  rewrite He in Hb. simpl in Hb. by simplify_eq.
Qed.

(** Paths consist of plain components and end with the identifier. *)
Lemma path_shape t k u :
  path_ok t → t !! k = Some u →
  path_bytes (OrganizationUnit_Path u) = true ∧
  ∃ x, parent_path t u = Some (x +:+ "/") ∧
       OrganizationUnit_Path u = (x +:+ "/") +:+ k +:+ "/".
Proof.
  intros Ht. remember (String.length (OrganizationUnit_Path u)) as n eqn:Hn. revert k u Hn.
  induction (lt_wf n) as [n _ IH]. intros k u -> Hu.
  destruct (Ht _ _ Hu) as (Hk & b & Hb & Hp). apply plain_path_bytes in Hk as Hkb.
  destruct (decide (OrganizationUnit_ParentID u = "")) as [He|Hne].
  - rewrite (parent_path_root _ _ _ Ht Hu He). rewrite !path_bytes_app, Hkb.
    split; [done|]. exists "". unfold parent_path. by rewrite He.
  - destruct (parent_path_child _ _ _ Ht Hu Hne) as (p & Hlk & Hpath).
    destruct (IH (String.length (OrganizationUnit_Path p))) with (k := OrganizationUnit_ParentID u)
      (u := p) as (Hbytes & x & _ & Hpp); [|done|done|].
    { rewrite Hpath, !string_length_app. simpl. lia. }
    rewrite Hpath, !path_bytes_app, Hbytes, Hkb. split; [done|].
    exists ((x +:+ "/") +:+ OrganizationUnit_ParentID u).
    assert (OrganizationUnit_Path p = ((x +:+ "/") +:+ OrganizationUnit_ParentID u) +:+ "/") as <-.
    { by rewrite Hpp, string_app_assoc. }
    split; [|done]. unfold parent_path.
    destruct (String.eqb_spec (OrganizationUnit_ParentID u) ""); [done|]. by rewrite Hlk.
Qed.

Lemma path_inj t k1 k2 u1 u2 :
  path_ok t → t !! k1 = Some u1 → t !! k2 = Some u2 →
  OrganizationUnit_Path u1 = OrganizationUnit_Path u2 → k1 = k2.
Proof.
  intros Ht H1 H2 He. destruct (path_shape _ _ _ Ht H1) as (_ & x & _ & Hx).
  destruct (path_shape _ _ _ Ht H2) as (_ & y & _ & Hy).
  destruct (Ht _ _ H1) as [Hk1 _], (Ht _ _ H2) as [Hk2 _].
  eapply last_component; [by apply plain_no_slash..|]. by rewrite <- Hx, <- Hy.
Qed.

(** Prefixes of paths are ancestors. *)
Lemma below_prefix t r k ru u :
  path_ok t → t !! r = Some ru → t !! k = Some u → below t r k →
  HasPrefix (OrganizationUnit_Path u) (OrganizationUnit_Path ru) = true.
Proof.
  intros Ht Hr Hu Hb. revert u Hu. unfold HasPrefix.
  induction Hb as [|k u0 Hu0 Hne Hb IH]; intros u Hu; simplify_eq; [apply prefix_refl|].
  destruct (parent_path_child _ _ _ Ht Hu0 Hne) as (p & Hp & ->).
  eapply prefix_trans; [by apply IH|apply prefix_app].
Qed.

Lemma prefix_below t r k ru u :
  path_ok t → t !! r = Some ru → t !! k = Some u →
  HasPrefix (OrganizationUnit_Path u) (OrganizationUnit_Path ru) = true → below t r k.
Proof.
  unfold HasPrefix. intros Ht Hr.
  remember (String.length (OrganizationUnit_Path u)) as n eqn:Hn. revert k u Hn.
  induction (lt_wf n) as [n _ IH]. intros k u -> Hu Hpre.
  destruct (path_shape _ _ _ Ht Hu) as (_ & x & Hx & Hpath).
  destruct (path_shape _ _ _ Ht Hr) as (_ & y & Hy & Hrpath).
  assert (String.prefix (OrganizationUnit_Path ru) (x +:+ "/") = true → below t r k) as Hup.
  { intros Hpx. destruct (decide (OrganizationUnit_ParentID u = "")) as [He|Hne].
    - unfold parent_path in Hx. rewrite He in Hx. simpl in Hx. injection Hx as Hx.
      apply prefix_length in Hpx. rewrite Hrpath, <- Hx, !string_length_app in Hpx.
      destruct (Ht _ _ Hr) as [Hplain _]. destruct r; [done|]. simpl in Hpx. lia.
    - destruct (parent_path_child _ _ _ Ht Hu Hne) as (p & Hp & Hpp).
      unfold parent_path in Hx. destruct (String.eqb_spec (OrganizationUnit_ParentID u) ""); [done|].
      rewrite Hp in Hx. injection Hx as Hx. eapply below_child; [done..|].
      eapply IH; [|done|done|by rewrite Hx].
      rewrite Hpp, !string_length_app. simpl. lia. }
  assert (String.prefix (x +:+ "/") (OrganizationUnit_Path u) = true) as Hxp
    by (rewrite Hpath; apply prefix_app).
  destruct (prefix_comparable _ _ _ Hpre Hxp) as [?|[z Hz]%prefix_iff]; [by apply Hup|].
  destruct (decide (z = "")) as [->|Hzne].
  { apply Hup. rewrite Hz, string_app_nil_r. apply prefix_refl. }
  assert (∃ z', z = z' +:+ "/") as [z' ->].
  { eapply slash_suffix; [|done]. rewrite <- Hz, Hrpath, string_app_assoc. reflexivity. }
  apply prefix_iff in Hpre as [rest Hrest].
  assert (k = r) as ->; [|constructor].
  assert (k +:+ "/" = (z' +:+ "/") +:+ rest) as Hcut.
  { apply (string_app_inj (x +:+ "/")). by rewrite (string_app_assoc _ (z' +:+ "/")), <- Hz, <- Hrest. }
  apply slash_cut in Hcut as [-> ->]; [|apply plain_no_slash; by apply (Ht _ _ Hu)].
  eapply path_inj; [done..|]. by rewrite Hrest, string_app_nil_r.
Qed.

(** ** Creation and moves keep the paths *)

Lemma path_ok_create t v :
  path_ok t → t !! OrganizationUnit_ID v = None → plain (OrganizationUnit_ID v) = true →
  (∃ b, parent_path t v = Some b ∧
        OrganizationUnit_Path v = b +:+ OrganizationUnit_ID v +:+ "/") →
  path_ok (<[OrganizationUnit_ID v := v]> t).
Proof.
  intros Ht Hnew Hplain (b & Hb & Hpath) k u Hu.
  assert (∀ w b, parent_path t w = Some b →
    parent_path (<[OrganizationUnit_ID v := v]> t) w = Some b) as Hext.
  { intros w b' Hw. unfold parent_path in *. case_match; [done|].
    destruct (t !! OrganizationUnit_ParentID w) eqn:Hlk; [|done].
    rewrite lookup_insert_ne by congruence. by rewrite Hlk. }
  apply lookup_insert_Some in Hu as [[<- <-]|[? Hu]]; [eauto 6|].
  destruct (Ht _ _ Hu) as (Hk & b' & Hb' & Hp'). eauto 6.
Qed.

(** The unit [r] gets the parent [parentID] and the path [newPath]. *)
Definition new_place t (r : OrganizationUnit) (id parentID newPath : string) : Prop :=
  (parentID = "" ∧ newPath = "/" +:+ id +:+ "/") ∨
  (parentID ≠ "" ∧ ∃ p, t !! parentID = Some p ∧
     HasPrefix (OrganizationUnit_Path p) (OrganizationUnit_Path r) = false ∧
     newPath = OrganizationUnit_Path p +:+ id +:+ "/").

Lemma path_ok_rename t id r v :
  path_ok t → t !! id = Some r → OrganizationUnit_Path v = OrganizationUnit_Path r →
  new_place t r id (OrganizationUnit_ParentID v) (OrganizationUnit_Path v) →
  path_ok (<[id := v]> t).
Proof.
  intros Ht Hr Hsame Hplace k u Hu.
  assert (∀ k', OrganizationUnit_Path <$> <[id := v]> t !! k' = OrganizationUnit_Path <$> t !! k')
    as Hpaths.
  { intros k'. destruct (decide (id = k')) as [->|?]; [|by rewrite lookup_insert_ne].
    rewrite lookup_insert_eq, Hr. simpl. by rewrite Hsame. }
  unfold parent_path. rewrite Hpaths. destruct (Ht _ _ Hr) as [Hplain _].
  apply lookup_insert_Some in Hu as [[<- <-]|[? Hu]].
  - split; [done|]. destruct Hplace as [[He Hn]|[Hne (p & Hp & _ & Hn)]].
    + rewrite He. simpl. eauto.
    + destruct (String.eqb_spec (OrganizationUnit_ParentID v) ""); [done|]. rewrite Hp. simpl. eauto.
  - destruct (Ht _ _ Hu) as (Hk & b & Hb & Hp). split; [done|]. exists b. split; [|done].
    exact Hb.
Qed.

End Trees.

Section Moves.
Context (t : gmap string OrganizationUnit) (id : string) (r v : OrganizationUnit).
(** [v] is the row the first statement writes, and the value the second one is
    given. *)
Context (Ht : path_ok t) (Hr : t !! id = Some r)
  (Hkeys : ∀ k u, t !! k = Some u → OrganizationUnit_ID u = k)
  (Hparents : ∀ k u p, t !! k = Some u → OrganizationUnit_ParentID u ≠ "" →
     t !! OrganizationUnit_ParentID u = Some p →
     OrganizationUnit_TenantID p = OrganizationUnit_TenantID u)
  (Hid : OrganizationUnit_ID v = id)
  (Htenant : OrganizationUnit_TenantID v = OrganizationUnit_TenantID r)
  (Hplace : new_place t r id (OrganizationUnit_ParentID v) (OrganizationUnit_Path v)).

Lemma oldPath_bytes : path_bytes (OrganizationUnit_Path r) = true.
Proof using Ht Hr. by destruct (path_shape _ _ _ Ht Hr). Qed.

(** Who is moved: the other units of the tenant below [id]. *)
Lemma descendant_below k u :
  t !! k = Some u → k ≠ id →
  descendant v (OrganizationUnit_Path r) u = true ↔
  OrganizationUnit_TenantID u = OrganizationUnit_TenantID r ∧ below t id k.
Proof using Ht Hr Hkeys Hid Htenant.
  intros Hu Hne. unfold descendant. rewrite Hid, Htenant, (Hkeys _ _ Hu).
  rewrite sql_like_prefix; [|apply oldPath_bytes|by destruct (path_shape _ _ _ Ht Hu)].
  apply String.eqb_neq in Hne as Hne'. rewrite Hne'. simpl. rewrite andb_true_r, andb_true_iff.
  rewrite String.eqb_eq. split; intros [HT Hb]; (split; [done|]).
  - by eapply prefix_below.
  - by eapply below_prefix.
Qed.

(** The path of a unit that is moved. *)
Lemma moved_path k u s :
  t !! k = Some u → OrganizationUnit_Path u = (OrganizationUnit_Path r) +:+ s →
  OrganizationUnit_Path (moved v (OrganizationUnit_Path r) u) = OrganizationUnit_Path v +:+ s.
Proof using Ht.
  intros Hu Hs. unfold moved. simpl. rewrite Hs, sql_substring_suffix; [done|].
  rewrite <- Hs. by destruct (path_shape _ _ _ Ht Hu).
Qed.

(** The table both statements leave. *)
Definition moved_table : gmap string OrganizationUnit :=
  move_unit v (OrganizationUnit_Path r) <$> <[id := v]> t.

Lemma moved_self : moved_table !! id = Some v.
Proof using Hid.
  unfold moved_table. rewrite lookup_fmap, lookup_insert_eq. simpl. unfold move_unit, descendant.
  rewrite !String.eqb_refl. simpl. by rewrite andb_false_r.
Qed.

Lemma moved_other k : k ≠ id → moved_table !! k = move_unit v (OrganizationUnit_Path r) <$> t !! k.
Proof. intros Hne. unfold moved_table. by rewrite lookup_fmap, lookup_insert_ne. Qed.

Lemma path_ok_move_self :
  ∃ b, parent_path moved_table v = Some b ∧ OrganizationUnit_Path v = b +:+ id +:+ "/".
Proof using Ht Hr Hkeys Hid Htenant Hplace.
  unfold parent_path. destruct Hplace as [[He Hn]|[Hne (p & Hp & Hpre & Hn)]].
  - rewrite He. simpl. eauto.
  - assert (OrganizationUnit_ParentID v ≠ id) as Hpid.
    { intros He. rewrite He, Hr in Hp. injection Hp as <-. unfold HasPrefix in Hpre.
      by rewrite prefix_refl in Hpre. }
    destruct (String.eqb_spec (OrganizationUnit_ParentID v) ""); [done|].
    rewrite moved_other, Hp by done. simpl. unfold move_unit.
    destruct (descendant v (OrganizationUnit_Path r) p) eqn:Hd; [|eauto].
    apply (descendant_below _ _ Hp Hpid) in Hd as [_ Hb].
    by rewrite (below_prefix _ _ _ _ _ Ht Hr Hp Hb) in Hpre.
Qed.

Lemma path_ok_move : path_ok moved_table.
Proof using All.
  intros k u' Hu'. destruct (decide (k = id)) as [->|Hne].
  { rewrite moved_self in Hu'. injection Hu' as <-.
    split; [by apply (Ht _ _ Hr)|apply path_ok_move_self]. }
  rewrite moved_other in Hu' by done.
  destruct (t !! k) as [u|] eqn:Hu; [|done]. injection Hu' as <-.
  destruct (Ht _ _ Hu) as (Hplain & b & Hb & Hpath). split; [done|].
  assert (OrganizationUnit_ParentID (move_unit v (OrganizationUnit_Path r) u) = OrganizationUnit_ParentID u) as Hpu
    by (unfold move_unit; by case_match).
  unfold parent_path. rewrite Hpu.
  destruct (String.eqb_spec (OrganizationUnit_ParentID u) "") as [He|Hpne].
  - exists "/". split; [done|]. unfold move_unit.
    rewrite (not_true_is_false (descendant _ _ _)); [by apply (parent_path_root t)|].
    intros [_ Hbelow]%(descendant_below _ _ Hu Hne). by destruct (below_inv _ _ _ _ Hbelow Hne Hu).
  - destruct (parent_path_child _ _ _ Ht Hu Hpne) as (p & Hp & Hpp).
    pose proof (Hparents _ _ _ Hu Hpne Hp) as HT.
    destruct (decide (OrganizationUnit_ParentID u = id)) as [Hpid|Hpid].
    + rewrite Hpid in Hp |- *. rewrite moved_self. simpl. eexists. split; [done|].
      rewrite Hr in Hp. injection Hp as <-. unfold move_unit.
      assert (descendant v (OrganizationUnit_Path r) u = true) as ->.
      { apply (descendant_below _ _ Hu Hne). split; [done|].
        eapply below_child; [done..|]. rewrite Hpid. constructor. }
      by apply (moved_path k).
    + rewrite moved_other, Hp by done. simpl. eexists. split; [done|]. unfold move_unit.
      assert (descendant v (OrganizationUnit_Path r) u = descendant v (OrganizationUnit_Path r) p)
        as <-.
      { apply eq_true_iff_eq. rewrite (descendant_below _ _ Hu Hne), (descendant_below _ _ Hp Hpid).
        rewrite HT. split; intros [? Hb']; (split; [done|]).
        - by destruct (below_inv _ _ _ _ Hb' Hne Hu).
        - by eapply below_child. }
      destruct (descendant v (OrganizationUnit_Path r) u) eqn:Hd; [|done].
      apply (descendant_below _ _ Hu Hne) in Hd as [_ Hb'].
      destruct (below_inv _ _ _ _ Hb' Hne Hu) as [_ Hbp].
      pose proof (below_prefix _ _ _ _ _ Ht Hr Hp Hbp) as [s Hs]%prefix_iff.
      rewrite (moved_path _ _ s Hp Hs).
      rewrite (moved_path k u (s +:+ k +:+ "/")); [|done|].
      * by rewrite string_app_assoc.
      * rewrite Hpp, Hs. symmetry. apply string_app_assoc.
Qed.

End Moves.
