(* ===== verification/Reads.v ===== *)
(** * What a read may return

    A read that succeeds returns rows of tenants its context may act on, whatever
    other requests do between its calls. Three reads are about no single tenant: the tenants of a
    user are listed for this user or a service, all tenants for who may administer the
    platform, and the validation of a membership answers with that membership. *)

From stdpp Require Import base gmap list strings.
From S2P Require Import Prelude GoErrors Model Store Effects Platform Authorization Events Service.
From S2P Require Import Repository Tables Invariants Statements Commits Dictionary.
From S2P Require Import Tenants Organizations Invitations Groups Quotas Requests.

Section Reads.
Context `{Platform}.

(** Every unit of a tree satisfies [P]. *)
Inductive tree_all (P : OrganizationUnit → Prop) : OrganizationTreeNode → Prop :=
| tree_all_node item children b :
    P item → Forall (tree_all P) children → tree_all P (Build_OrganizationTreeNode item children b).

(** Whose tenants a context may list: users their own, services and the system anybody's. *)
Definition may_list (ctx : Context) (userID : string) : Prop :=
  ∃ p, ctx_principal ctx = Ok p ∧
    (Principal_Type p = TypeUser ∧ Principal_ID p = userID ∨
     Principal_Type p = TypeServiceAccount ∨ Principal_Type p = TypeSystem).

(** Who may list all tenants. *)
Definition may_administer (ctx : Context) : Prop :=
  ∃ p, ctx_principal ctx = Ok p ∧
    (Principal_Type p = TypeUser ∧ ctx_platformAdministration ctx = true ∨
     Principal_Type p = TypeServiceAccount ∨ Principal_Type p = TypeSystem).

(** The user is or was a member of the tenant. *)
Definition member_of (d : DB) (userID tenantID : string) : Prop :=
  ∃ k m, memberships d !! k = Some m ∧ Membership_UserID m = userID ∧ Membership_TenantID m = tenantID.

Definition validated (userID tenantID : string) (m : Membership) : Prop :=
  Membership_TenantID m = tenantID ∧ Membership_UserID m = userID ∧ Membership_Status m = "active".

(** What the response to a read may show, with the database of when it is given; results
    with an error are not looked at, and no read answers as a write does. *)
Definition scoped (ctx : Context) (r : Request) (resp : Response) (d : DB) : Prop :=
  match resp with
  | RespValidate (t, m, ok) =>
      match r with
      | ReqValidateMembership userID tenantID =>
          if ok then Tenant_ID t = tenantID ∧ validated userID tenantID m
          else t = Tenant0 ∧ (m = Membership0 ∨ validated userID tenantID m)
      | _ => False
      end
  | RespPage (v, None) =>
      match r with
      | ReqListUserTenants userID _ _ =>
          may_list ctx (TrimSpace userID) ∧
          Forall (λ t, member_of d (TrimSpace userID) (Tenant_ID t)) (Page_Tenants v)
      | ReqListTenants _ _ _ _ => may_administer ctx
      | _ => False
      end
  | RespScope (ids, None) =>
      Forall (λ id, ∃ u, organization_units d !! id = Some u ∧ may_access ctx (OrganizationUnit_TenantID u)) ids
  | RespTenant (v, None) => may_access ctx (Tenant_ID v)
  | RespMembership (v, None) => may_access ctx (Membership_TenantID v)
  | RespMembershipPage (v, None) =>
      Forall (λ m, may_access ctx (Membership_TenantID m)) (MembershipPage_Memberships v)
  | RespMemberships (l, None) => Forall (λ m, may_access ctx (Membership_TenantID m)) l
  | RespOrganizationUnit (v, None) => may_access ctx (OrganizationUnit_TenantID v)
  | RespOrganizationUnits (l, None) => Forall (λ u, may_access ctx (OrganizationUnit_TenantID u)) l
  | RespTree (l, _, None) =>
      Forall (tree_all (λ u, may_access ctx (OrganizationUnit_TenantID u))) l
  | RespInvitation (v, None) => may_access ctx (Invitation_TenantID v)
  | RespInvitationPage (v, None) =>
      Forall (λ i, may_access ctx (Invitation_TenantID i)) (InvitationPage_Invitations v)
  | RespGroup (v, None) => may_access ctx (Group_TenantID v)
  | RespGroups (l, None) => Forall (λ g, may_access ctx (Group_TenantID g)) l
  | RespGroupPage (v, None) => Forall (λ g, may_access ctx (Group_TenantID g)) (GroupPage_Groups v)
  | RespGroupMembers (l, None) => Forall (λ m, may_access ctx (GroupMember_TenantID m)) l
  | RespGroupMember (v, None) => may_access ctx (GroupMember_TenantID v)
  | RespQuota (v, None) => may_access ctx (Quota_TenantID v)
  | RespQuotaPage (v, None) => Forall (λ q, may_access ctx (Quota_TenantID q)) (QuotaPage_Quotas v)
  | RespCreate _ | RespCreateInvitation _ | RespAccept _ | RespConsume _ | RespError _ => False
  | _ => True
  end.

(** ** Trees *)

Lemma elem_of_children_of items parent u :
  u ∈ children_of items parent ↔ u ∈ items ∧ OrganizationUnit_ParentID u = parent.
Proof.
  unfold children_of, sortOrganizationUnits.
  rewrite elem_of_sort_by, elem_of_filter_bool, String.eqb_eq. tauto.
Qed.

Lemma build_tree_all (P : OrganizationUnit → Prop) items maxNodes levels parent ancestors st :
  (∀ u, u ∈ items → P u) →
  Forall (tree_all P) (fst (build_tree items maxNodes levels parent ancestors st)).
Proof.
  intros HP. revert parent ancestors st. induction levels as [|levels IH]; intros; [constructor|].
  cbn [build_tree].
  assert (∀ u, u ∈ children_of items parent → P u) as Hc.
  { intros u [Hu _]%elem_of_children_of. auto. }
  revert st Hc. generalize (children_of items parent) as l.
  induction l as [|item l IHl]; intros st Hc; [constructor|].
  destruct (maxNodes <=? build_count st)%Z; [constructor|].
  case_bool_decide; [apply IHl; set_solver|].
  destruct (build_tree _ _ _ _ _ _) as [sub st'] eqn:Hb.
  pose proof (IH (OrganizationUnit_ID item) ({[OrganizationUnit_ID item]} ∪ ancestors)
    (Build_BuildState (build_count st + 1) (build_truncated st))) as Hsub. rewrite Hb in Hsub.
  specialize (IHl st').
  destruct (_ l st') as [nodes st''] eqn:Hl.
  constructor; [constructor; [apply Hc; set_solver|done]|]. apply IHl. set_solver.
Qed.

Lemma build_organization_tree_all (P : OrganizationUnit → Prop) items mode parentID depth nodes
    roots truncated :
  (∀ u, u ∈ items → P u) →
  buildOrganizationTree items mode parentID depth nodes = (roots, truncated) →
  Forall (tree_all P) roots.
Proof.
  intros HP Hb. unfold buildOrganizationTree in Hb.
  destruct (build_tree _ _ _ _ _ _) as [ns st] eqn:He. simplify_eq.
  pose proof (build_tree_all P items nodes (Z.to_nat depth)
    (if mode =?s "children" then parentID else "") ∅ (Build_BuildState 0 false) HP) as Hall.
  by rewrite He in Hall.
Qed.

(** ** Queries *)

Lemma select_Forall `{Countable K} {R} (P : R → Prop) p le (t : gmap K R) :
  (∀ k r, t !! k = Some r → p r = true → P r) → Forall P (select p le t).
Proof.
  intros HP. apply Forall_forall. intros r Hr. unfold select in Hr.
  rewrite elem_of_sort_by, elem_of_filter_bool in Hr.
  destruct Hr as [Hp (k & Hk)%elem_of_rows]. eauto.
Qed.

Lemma limit_offset_Forall {R} (P : R → Prop) limit offset (l l' : list R) :
  Forall P l → limit_offset limit offset l = Ok l' → Forall P l'.
Proof.
  intros Hl Ho. unfold limit_offset in Ho. repeat case_match; simplify_eq; [done|].
  by apply Forall_take, Forall_drop.
Qed.

(** One page. *)
Definition page_ok {X} (P : DB → X → Prop) (r : result (list X * Z)) (d : DB) : Prop :=
  inv d ∧ match r with Ok (items, _) => Forall (P d) items | Err _ => True end.

Lemma wp_page G U {X} (P : DB → X → Prop) (count : DB → Z) (found : DB → list X) limit offset msg1 msg2 d :
  inv d → (∀ d1 d2 x, db_le d1 d2 → P d1 x → P d2 x) → (∀ d1, inv d1 → Forall (P d1) (found d1)) →
  wp rely G U (total <-? query (λ d, Ok (count d)) else err =>
                 Ret (Err (Wrapped msg1 err));;
               items <-? query (λ d, limit_offset limit offset (found d)) else err =>
                 Ret (Err (Wrapped msg2 err));;
               Ret (Ok (items, total))) (page_ok P) d.
Proof.
  intros Hd Hmono HP. apply wp_query. intros d1 HR. destruct (HR Hd) as [Hd1 _].
  split; [intros e; apply wp_ret; intros d2 HR2; by destruct (HR2 Hd1)|]. apply wp_query. intros d2 HR2.
  destruct (HR2 Hd1) as [Hd2 _]. split; [intros e; apply wp_ret; intros d3 HR3; by destruct (HR3 Hd2)|]. cbn [bind].
  destruct (limit_offset _ _ _) as [items|e] eqn:Hl; apply wp_ret; intros d3 HR3; destruct (HR3 Hd2) as [Hd3 Hle];
    [|done]. split; [done|]. eapply Forall_impl; [|intros x; by apply Hmono].
  eapply limit_offset_Forall; [by apply HP|done].
Qed.

Lemma wp_then G U {A B} (m : prog A) (f : A → prog B) P Q d :
  wp rely G U m P d → (∀ a d', P a d' → wp rely G U (f a) Q d') →
  wp rely G U (bind m f) Q d.
Proof. intros Hm Hf. apply wp_bind; [apply _|]. by eapply wp_mono. Qed.

(** The queries of the repository that filter by tenant. *)
Lemma access_eqb ctx T T' : authorizeTenant ctx T = None → T' = T → may_access ctx T'.
Proof. intros Ha ->. by apply authorizeTenant_iff. Qed.

Lemma withOrganizationAncestors_subset items keyword l :
  withOrganizationAncestors items keyword = Some l → ∀ u, u ∈ l → u ∈ items.
Proof.
  unfold withOrganizationAncestors. destruct (keep_matches _ _ _ _ _); [|done].
  intros [= <-] u Hu. by apply elem_of_filter_bool in Hu as [_ ?].
Qed.

Section Scoped.
Context (G : DB → DB → Prop) (U : string → Prop).

Definition scoped_wp (s : Service) (ctx : Context) (r : Request) (d : DB) : Prop :=
  wp rely G U (serve s ctx r) (scoped ctx r) d.

Ltac read_step :=
  wp_reduce;
  lazymatch goal with
  | |- wp _ _ _ (Ret _) _ _ =>
      apply wp_ret; intros; cbn -[translate]; try done
  | |- wp _ _ _ (Effects.Query _ _) _ _ => apply wp_query; intros ? ?; advance; split; [intros ?|]
  | |- wp _ _ _ ?p _ _ => let x := stuck_scrutinee p in destruct x eqn:?
  end.

Ltac finish_read :=
  repeat match goal with
  | H : get_result (one_row _) _ = Ok _ |- _ => apply get_result_Ok in H
  | |- context [get_result (one_row ?o) _] => destruct o eqn:?; cbn -[translate]
  | |- match translate (Some ?e) with _ => _ end =>
      let He := fresh in destruct (translate_Some e) as (? & He & _); rewrite He; exact I
  | |- match translate ?x with _ => _ end =>
      let Ht := fresh "Ht" in destruct (translate x) eqn:Ht; [exact I|apply (proj1 (translate_None _)) in Ht]
  end;
  try done; try by apply authorizeTenant_iff.

Lemma get_scoped s ctx r d :
  inv d →
  match r with
  | ReqGet _ | ReqGetMembership _ | ReqGetOrganizationUnit _ | ReqGetInvitation _ | ReqGetGroup _
  | ReqGetGroupMember _ _ | ReqGetQuota _ _ => True
  | _ => False
  end →
  scoped_wp s ctx r d.
Proof.
  intros Hd Hr. unfold scoped_wp. destruct r; try done; unfold serve, reply, Get,
    Tenants.GetMembership, Organizations.GetOrganizationUnit, Invitations.GetInvitation,
    Groups.GetGroup, Groups.GetGroupMember, Quotas.GetQuota; repeat read_step; finish_read.
  match goal with Hi : inv ?d0, Hq : tenant_quotas ?d0 !! _ = Some ?q |- _ =>
    pose proof (quota_key _ _ _ Hi Hq) as [= Ht _] end.
  by eapply access_eqb.
Qed.

(** A page or a list of rows that satisfy [P], given back as it is. *)
Ltac scoped_results P :=
  apply wp_bind; [apply _|]; apply (wp_then _ _ _ _ P);
  [|intros [[? ?]|?] ? [? ?]; apply wp_ret; intros; apply wp_ret; intros; unfold page_result;
    cbn -[translate]; repeat case_match; simplify_eq/=; finish_read].

Ltac by_tenant rule P :=
  scoped_results P; apply rule; [done|done|];
  intros; apply select_Forall; intros; reflect_bools; by eapply access_eqb.

Lemma page_scoped s ctx r d :
  inv d →
  match r with
  | ReqListMemberships _ _ _ _ _ | ReqListInvitations _ _ _ | ReqSearchGroups _ _ _ _ _
  | ReqListQuotas _ _ _ _ => True
  | _ => False
  end →
  scoped_wp s ctx r d.
Proof.
  intros Hd Hr. unfold scoped_wp. destruct r; try done; unfold serve, reply, Tenants.ListMemberships,
    Invitations.ListInvitations, Groups.SearchGroups, Quotas.ListQuotas; repeat read_step.
  - by_tenant wp_page (page_ok (λ _ m, may_access ctx (Membership_TenantID m))).
  - by_tenant wp_page (page_ok (λ _ m, may_access ctx (Invitation_TenantID m))).
  - by_tenant wp_page (page_ok (λ _ m, may_access ctx (Group_TenantID m))).
  - by_tenant wp_page (page_ok (λ _ m, may_access ctx (Quota_TenantID m))).
Qed.

(** The members of a group read earlier have its tenant. *)
Lemma group_members_scoped ctx d0 d1 groupID g k m :
  group_members d1 !! k = Some m → GroupMember_GroupID m = groupID →
  member_groups d0 !! groupID = Some g → authorizeTenant ctx (Group_TenantID g) = None →
  db_le d0 d1 → inv d1 → may_access ctx (GroupMember_TenantID m).
Proof.
  intros Hm HG Hg Ha Hle Hd1. eapply access_eqb; [done|].
  destruct (inv_group_members _ Hd1) as (_ & _ & _ & Hfg & _).
  destruct (Hfg _ _ groupID Hm) as (b & Hb & Ht); [simpl; congruence|].
  pose proof (later_tenant _ _ _ _ _ (le_member_groups _ _ Hle) Hg Hb).
  simpl in *. congruence.
Qed.

Lemma list_scoped s ctx r d :
  inv d →
  match r with
  | ReqBatchGetMemberships _ _ | ReqFindMembershipsByUserIDs _ _ _
  | ReqBatchGetOrganizationUnits _ _ | ReqListOrganizationUnits _ | ReqListGroups _
  | ReqListGroupMembers _ | ReqBatchGetGroupMembers _ _ => True
  | _ => False
  end →
  scoped_wp s ctx r d.
Proof.
  intros Hd Hr. unfold scoped_wp. destruct r; try done; unfold serve, reply,
    Tenants.BatchGetMemberships, Tenants.FindMembershipsByUserIDs,
    Organizations.BatchGetOrganizationUnits, Organizations.ListOrganizationUnits, Groups.ListGroups,
    Groups.ListGroupMembers, Groups.BatchGetGroupMembers, Repository.BatchGetMemberships,
    Repository.FindMembershipsByUserIDs, Repository.BatchGetOrganizationUnits,
    Repository.ListOrganizationUnits, Repository.ListGroups, Repository.ListGroupMembers,
    Repository.BatchGetGroupMembers; repeat read_step; finish_read;
    apply select_Forall; intros; reflect_bools;
    first [by eapply access_eqb | by eapply group_members_scoped].
Qed.

(** *** Trees *)

(** The units a search collects belong to the tenant; the placeholders of
    ancestors that were not found have no tenant and are dropped. *)
Definition of_tenant (tenantID : string) (m : gmap string OrganizationUnit) : Prop :=
  map_Forall (λ _ u, OrganizationUnit_TenantID u = tenantID ∨ OrganizationUnit_TenantID u = "") m.

Lemma of_tenant_fold tenantID (f : OrganizationUnit → bool) items m :
  of_tenant tenantID m → Forall (λ u, OrganizationUnit_TenantID u = tenantID) items →
  of_tenant tenantID
    (foldl (λ m item, if f item then <[OrganizationUnit_ID item := item]> m else m) m items).
Proof.
  intros Hm Hi. revert m Hm. induction Hi as [|u items Hu Hi IH]; intros m Hm; simpl; [done|].
  apply IH. destruct (f u); [|done]. apply map_Forall_insert_2; [by left|done].
Qed.

Lemma note_ancestors_of_tenant tenantID items m ids m' ids' :
  of_tenant tenantID m → foldl note_ancestors (m, ids) items = (m', ids') → of_tenant tenantID m'.
Proof.
  revert m ids. induction items as [|u items IH]; simpl; intros m ids Hm He; [by simplify_eq|].
  destruct (note_ancestors (m, ids) u) as [m1 ids1] eqn:Hn. eapply IH; [|done].
  unfold note_ancestors in Hn. revert m ids Hm Hn.
  induction (split_slash _) as [|id l IHl]; simpl; intros m ids Hm Hn; [by simplify_eq|].
  destruct ((id =?s "") || has m id); [by eapply IHl|].
  eapply IHl; [|done]. apply map_Forall_insert_2; [by right|done].
Qed.

Lemma wp_fetch_ancestors tenantID status slices byID d :
  of_tenant tenantID byID →
  wp rely G U (fetch_ancestors tenantID status slices byID)
    (λ r _, match r with Ok m => of_tenant tenantID m | Err _ => True end) d.
Proof.
  revert byID d. induction slices as [|ids slices IH]; intros byID d Hm; [by apply wp_ret|].
  cbn [fetch_ancestors]. unfold Repository.BatchGetOrganizationUnits.
  destruct (bool_decide _); [by apply wp_ret|]. apply wp_query. intros d1 _.
  split; [intros; by apply wp_ret|]. cbn [bind wrap_query]. apply IH, of_tenant_fold; [done|].
  apply select_Forall. intros. by reflect_bools.
Qed.

Lemma wp_search tenantID keyword status limit d :
  wp rely G U (SearchOrganizationUnitsWithAncestors tenantID keyword status limit)
    (λ r _, match r with
            | Ok (items, _) => ∀ u, u ∈ items → OrganizationUnit_TenantID u = tenantID
            | Err _ => True
            end) d.
Proof.
  unfold SearchOrganizationUnitsWithAncestors. apply wp_query. intros d1 _.
  split; [intros; by apply wp_ret|]. cbn [bind].
  destruct (limit_offset _ _ _) as [ms|e] eqn:Hl; [|by apply wp_ret].
  apply (limit_offset_Forall (λ u, OrganizationUnit_TenantID u = tenantID)) in Hl;
    [|apply select_Forall; intros; by reflect_bools].
  match goal with |- context [foldl note_ancestors _ ?x] => set (ms' := x) end.
  assert (Forall (λ u, OrganizationUnit_TenantID u = tenantID) ms') as Hms.
  { unfold ms'. case_match; [by apply Forall_take|done]. }
  destruct (foldl note_ancestors _ _) as [byID ids] eqn:Hn.
  apply note_ancestors_of_tenant with (tenantID := tenantID) in Hn;
    [|apply (of_tenant_fold _ (λ _, true)); [apply map_Forall_empty|done]].
  eapply wp_then; [by apply wp_fetch_ancestors|]. intros [m|e] d2 Hm; [|by apply wp_ret].
  apply wp_ret. intros d3 _ u Hu. unfold sortOrganizationUnits in Hu.
  rewrite elem_of_sort_by, elem_of_filter_bool in Hu. destruct Hu as [Hne (k & Hk)%elem_of_rows].
  reflect_bools. by destruct (Hm _ _ Hk).
Qed.

Lemma wp_tree p tenantID code mode parentID keyword depth nodes filters d :
  wp rely G U (Tree p tenantID code mode parentID keyword depth nodes filters)
    (λ r _, match r with
            | Ok (roots, _) => Forall (tree_all (λ u, OrganizationUnit_TenantID u = tenantID)) roots
            | Err _ => True
            end) d.
Proof.
  unfold Tree.
  do 3 (match goal with |- wp _ _ _ (if ?b then _ else _) _ _ => destruct b end; [by apply wp_ret|]).
  match goal with |- wp _ _ _ (if ?b then _ else _) _ _ => destruct b end.
  { unfold ListOrganizationChildren. apply wp_query. intros d1 _. split; [intros; by apply wp_ret|].
    cbn [bind]. destruct (limit_offset _ _ _) as [ms|e] eqn:Hl; [|by apply wp_ret].
    apply (limit_offset_Forall (λ u, OrganizationUnit_TenantID u = tenantID)) in Hl;
      [|apply select_Forall; intros; by reflect_bools].
    apply wp_ret. intros d2 _. cbn [result_map].
    rewrite Forall_fmap. case_match; [apply Forall_take|]; apply Forall_fmap;
      (eapply Forall_impl; [done|]); intros u Hu; by constructor. }
  match goal with |- wp _ _ _ (if ?b then _ else _) _ _ => destruct b end.
  { eapply wp_then; [apply wp_search|]. intros [[items tr]|e] d1 Hi; [|by apply wp_ret].
    destruct (buildOrganizationTree _ _ _ _ _) as [roots tt] eqn:Hb.
    apply wp_ret. intros d2 _. by eapply build_organization_tree_all. }
  apply wp_query. intros d1 _. split; [intros; by apply wp_ret|]. cbn [bind wrap_query].
  match goal with |- context [filterOrganizationUnits ?l _ _] => set (items := l) end.
  assert (∀ u, u ∈ items → OrganizationUnit_TenantID u = tenantID) as Hi.
  { apply Forall_forall, select_Forall. intros. by reflect_bools. }
  match goal with |- wp _ _ _ (match ?o with Some _ => _ | None => _ end) _ _ =>
    destruct o as [l|] eqn:Ho; [|by apply wp_ret] end.
  destruct (buildOrganizationTree _ _ _ _ _) as [roots tt] eqn:Hb.
  apply wp_ret. intros d2 _. eapply build_organization_tree_all; [|done].
  intros u Hu. apply Hi. unfold filterOrganizationUnits in Ho.
  destruct (_ && _)%bool; simplify_eq; [|by apply elem_of_filter_bool in Hu as [_ ?]].
  apply (withOrganizationAncestors_subset _ _ _ Ho) in Hu.
  by apply elem_of_filter_bool in Hu as [_ ?].
Qed.

Lemma tree_all_mono (P Q : OrganizationUnit → Prop) n :
  (∀ u, P u → Q u) → tree_all P n → tree_all Q n.
Proof.
  intros HPQ. revert n. fix IH 2. intros n [item children b Hi Hc]. constructor; [by apply HPQ|].
  revert Hc. generalize children. fix IHc 2. intros l [|x l' Hx Hl]; constructor; auto.
Qed.

(** *** Reads of no single tenant *)

Lemma member_of_later d d' userID tenantID : db_le d d' → member_of d userID tenantID → member_of d' userID tenantID.
Proof.
  intros Hle (k & m & Hm & Hu & Ht). destruct (le_memberships _ _ Hle _ _ Hm) as (m' & Hm' & Hrow).
  exists k, m'. split; [done|]. destruct Hrow as [<-|[[= _ He Hv] _]]; [done|]. by rewrite <- He, <- Hv.
Qed.

Lemma user_tenants_members d userID :
  inv d → Forall (λ t, member_of d userID (Tenant_ID t)) (user_tenants userID d).
Proof.
  intros Hd. apply Forall_forall. intros t Ht. unfold user_tenants in Ht.
  apply list_elem_of_omap in Ht as (m & [k Hm]%elem_of_rows & Ht). case_match eqn:Hc; [|done]. reflect_bools.
  destruct (Store.tenants d !! _) as [t'|] eqn:Hten; [|done]. case_match; [|done]. simplify_eq.
  exists k, m. split_and!; [done|done|]. by destruct (inv_tenants _ Hd) as [Hwf _]; rewrite (proj1 (Hwf _ _ Hten) : Tenant_ID t = _).
Qed.

Lemma user_page_scoped s ctx userID page pageSize d :
  inv d → scoped_wp s ctx (ReqListUserTenants userID page pageSize) d.
Proof.
  intros Hd. unfold scoped_wp, serve, reply, Tenants.ListUserTenants, is_type. repeat read_step; finish_read.
  assert (may_list ctx (TrimSpace userID)) as Hmay.
  { eexists. split; [done|]. reflect_bools. destruct (Principal_Type _) eqn:Ht; simpl in *; try done; [|by right; eauto..].
    left. split; [done|]. by reflect_bools. }
  apply wp_bind; [apply _|]. apply (wp_then _ _ _ _ (page_ok (λ d t, member_of d (TrimSpace userID) (Tenant_ID t)))).
  - apply wp_page; [done|by intros d1 d2 t; apply member_of_later|]. intros d1 Hd1.
    rewrite sort_by_Permutation. by apply user_tenants_members.
  - intros [[items total]|e] d1 [Hd1 Hitems]; apply wp_ret; intros d2 HR2; advance; apply wp_ret; intros d3 HR3; advance;
      cbn -[translate]; finish_read. split; [done|].
    eapply Forall_impl; [done|]. intros t Ht. by do 2 (eapply member_of_later; [done|]).
Qed.

Lemma tenant_page_scoped s ctx keyword status page pageSize d :
  scoped_wp s ctx (ReqListTenants keyword status page pageSize) d.
Proof.
  unfold scoped_wp, serve, reply, Tenants.ListTenants.
  assert (authorizePlatformAdministration ctx = None → may_administer ctx) as Hmay.
  { unfold authorizePlatformAdministration, is_type. destruct (ctx_principal ctx) as [p|] eqn:Hp; [|done].
    intros Ha. exists p. split; [done|]. destruct (Principal_Type p); simpl in *; try done; [|by right; eauto..].
    left. split; [done|]. by destruct (ctx_platformAdministration ctx). }
  repeat read_step; finish_read. specialize (Hmay eq_refl).
  apply wp_bind; [apply _|]. apply (wp_then _ _ _ _ (λ _ _, True)).
  - apply readonly_wp. unfold Repository.ListTenants. by intros [total|]; [intros [items|]|].
  - intros [[items total]|e] d1 _; apply wp_ret; intros; apply wp_ret; intros; cbn -[translate]; by finish_read.
Qed.

Lemma active_membership_row userID tenantID d m :
  active_membership userID tenantID d = Some m →
  (∃ k, memberships d !! k = Some m) ∧ Membership_UserID m = userID ∧
  Membership_TenantID m = tenantID ∧ Membership_Status m = "active".
Proof.
  unfold active_membership. intros Hh.
  destruct (List.filter _ _) as [|m' l] eqn:Hf; simplify_eq/=.
  assert (m ∈ m :: l) as Hin by by left. rewrite <- Hf in Hin.
  apply elem_of_filter_bool in Hin as [Hp Hrow%elem_of_rows]. by reflect_bools.
Qed.

Lemma validate_scoped s ctx userID tenantID d :
  inv d → scoped_wp s ctx (ReqValidateMembership userID tenantID) d.
Proof.
  intros Hd. unfold scoped_wp, serve, reply, Tenants.ValidateMembership, Repository.ValidateMembership, GetTenant.
  assert (∀ d m, one_row (active_membership userID tenantID d) = Ok m → validated userID tenantID m) as Hm.
  { intros d' m. destruct (active_membership _ _ _) as [m'|] eqn:Ha; [|done]. intros [= <-].
    apply active_membership_row in Ha. unfold validated. tauto. }
  repeat read_step; try by (split; [done|by left]).
  all: match goal with H : one_row (active_membership _ _ _) = Ok _ |- _ => apply Hm in H end; try by (split; [done|by right]).
  finish_read. split; [|done].
  match goal with Hi : inv ?d0, Ht : Store.tenants ?d0 !! tenantID = Some _ |- _ =>
    destruct (inv_tenants _ Hi) as [Hwf _]; by destruct (Hwf _ _ Ht) end.
Qed.

Lemma scope_scoped s ctx membershipID d :
  inv d → scoped_wp s ctx (ReqResolveOrganizationScope membershipID) d.
Proof.
  intros Hd. unfold scoped_wp, serve, reply, Organizations.ResolveOrganizationScope, Repository.ResolveOrganizationScope,
    Repository.GetMembership, Repository.GetOrganizationUnit.
  repeat read_step; finish_read; try by constructor. advance.
  rewrite Forall_fmap. apply select_Forall. intros k u Hu Hp. reflect_bools. cbn.
  rewrite (unit_key d2 k u) by done.
  match goal with Hle : db_le d2 ?d3 |- context [organization_units ?d3] =>
    destruct (later_exists _ _ _ _ (le_organization_units _ _ Hle) Hu) as (v & Hv & Ht) end.
  exists v. split; [done|]. eapply access_eqb; [done|]. simpl in Ht. congruence.
Qed.

Lemma serve_scoped s ctx r d : inv d → is_read r = true → scoped_wp s ctx r d.
Proof.
  intros Hd Hr.
  destruct r; try discriminate Hr; try (by apply get_scoped); try (by apply page_scoped);
    try (by apply list_scoped); try (by apply user_page_scoped); try (by apply tenant_page_scoped);
    try (by apply validate_scoped); try (by apply scope_scoped).
  unfold scoped_wp, serve, reply, TreeOrganizationUnits.
  destruct (TrimSpace tenantID =?s ""); [by apply wp_ret|].
  destruct (authorizeTenant ctx (TrimSpace tenantID)) as [e|] eqn:Ha; [by apply wp_ret|].
  apply wp_bind; [apply _|]. eapply wp_then; [apply wp_tree|].
  intros [[roots tr]|err] d1 Ht; [|destruct (Is err _); apply wp_ret; intros; apply wp_ret; intros;
    cbn -[translate]; finish_read].
  apply wp_ret. intros. apply wp_ret. intros. cbn. eapply Forall_impl; [done|].
  intros n. apply tree_all_mono. intros u Hu. by eapply access_eqb.
Qed.

End Scoped.

End Reads.
