(* ===== verification/Trees.v ===== *)
(** * Organization trees under requests

    Requests that run one after another keep every path in step with the parent
    pointers, so the queries by path prefix compute what the parent pointers
    define: the scope of a membership is the active part of the subtree of its
    primary unit. *)

From stdpp Require Import base gmap list strings.
From S2P Require Import Prelude GoErrors Model Store Effects Platform Authorization Events Service.
From S2P Require Import Repository Tables Invariants Statements Commits Dictionary Paths.
From S2P Require Import Tenants Organizations Requests Reads.

Ltac keep_step :=
  wp_reduce;
  lazymatch goal with
  | |- wp _ _ _ (Ret _) _ _ => apply wp_ret; intros ? <-; assumption
  | |- wp _ _ _ (Now _) _ _ => apply wp_now; intros ? ? <-
  | |- wp _ _ _ (NewUUID _) _ _ => apply wp_uuid; intros ? ? <- ?
  | |- wp _ _ _ (Effects.Query _ _) _ _ => apply wp_query; intros ? <-; split; [intros ?|]
  | |- wp _ _ _ (bind (within_ _ _) _) _ _ => fail "transaction"
  | |- wp _ _ _ (bind (newOutboxEvent _ _ _ _ _ _ _) _) _ _ =>
      apply wp_event; [apply _|intros ? ? <-|intros ? ? <-]
  | |- wp _ _ _ ?p _ _ => let x := stuck_scrutinee p in destruct x eqn:?
  end.

Section Trees.
Context `{Platform, !AuditLaws}.

(** Generated identifiers are plain. *)
Definition plain_id (u : string) : Prop := plain u = true.

Definition tree_ok (d : DB) : Prop := path_ok (organization_units d).

Definition keeps_tree {A} : prog A → DB → Prop := keeps tree_ok plain_id.

Lemma units_with_event ev d : organization_units (with_event ev d) = organization_units d.
Proof. done. Qed.

(** ** Creation *)

Lemma create_unit_at_tree s ctx fields id tenantID parentID code name path d :
  tree_ok d → plain id = true →
  (∀ v, OrganizationUnit_ParentID v = parentID →
     ∃ b, parent_path (organization_units d) v = Some b ∧ path = b +:+ id +:+ "/") →
  keeps_tree (create_unit_at s ctx fields id tenantID parentID code name path) d.
Proof.
  intros Hd Hid Hpath. unfold keeps_tree, keeps, create_unit_at. repeat keep_step.
  apply keeps_write; [done|done|]. apply twp_then, twp_create; [done|]. intros x d1 Hs.
  apply twp_outbox; [done|]. intros _. unfold tree_ok. rewrite units_with_event.
  unfold insert_organization_units in Hs. checks Hs. simplify_eq. rewrite has_false in *. simpl.
  match goal with |- path_ok (<[_ := ?v]> _) => apply (path_ok_create _ v) end; [done..|].
  by apply Hpath.
Qed.

Lemma CreateOrganizationUnit_tree s ctx tenantID parentID code name d :
  tree_ok d → keeps_tree (Organizations.CreateOrganizationUnit s ctx tenantID parentID code name) d.
Proof.
  intros Hd. unfold keeps_tree, keeps, Organizations.CreateOrganizationUnit. repeat keep_step.
  - apply create_unit_at_tree; [done..|]. intros v Hv. unfold parent_path. rewrite Hv.
    match goal with H : (TrimSpace parentID =?s "") = true |- _ => rewrite H end. eauto.
  - apply create_unit_at_tree; [done..|]. intros v Hv. unfold parent_path. rewrite Hv.
    match goal with H : (TrimSpace parentID =?s "") = false |- _ => rewrite H end.
    match goal with H : get_result (one_row (organization_units _ !! _)) _ = _ |- _ =>
      apply get_result_Ok in H; rewrite H end.
    eauto.
Qed.

(** ** Moves *)

Lemma unit_parent_tenant d k u p :
  inv d → organization_units d !! k = Some u → OrganizationUnit_ParentID u ≠ "" →
  organization_units d !! OrganizationUnit_ParentID u = Some p →
  OrganizationUnit_TenantID p = OrganizationUnit_TenantID u.
Proof.
  intros Hd Hu Hne Hp. destruct (inv_units _ Hd) as (_ & _ & _ & _ & Hfp).
  destruct (Hfp _ _ (OrganizationUnit_ParentID u) Hu) as (b & Hb & Ht); [|by simplify_eq].
  unfold nullableID. by destruct (String.eqb_spec (OrganizationUnit_ParentID u) "").
Qed.

(** Only the identifier, the tenant, the path and the audit columns of the value
    matter to the move. *)
Lemma move_unit_same v v' oldPath u :
  OrganizationUnit_ID v = OrganizationUnit_ID v' →
  OrganizationUnit_TenantID v = OrganizationUnit_TenantID v' →
  OrganizationUnit_Path v = OrganizationUnit_Path v' →
  OrganizationUnit_UpdatedAt v = OrganizationUnit_UpdatedAt v' →
  OrganizationUnit_UpdatedBy v = OrganizationUnit_UpdatedBy v' →
  move_unit v oldPath u = move_unit v' oldPath u.
Proof. unfold move_unit, descendant, moved. by intros -> -> -> -> ->. Qed.

(** The statements of an update keep the paths when the new place is one. *)
Lemma twp_update_tree v r d (Q : option goerr → DB → Prop) :
  inv d → tree_ok d → organization_units d !! OrganizationUnit_ID v = Some r →
  OrganizationUnit_TenantID v = OrganizationUnit_TenantID r →
  new_place (organization_units d) r (OrganizationUnit_ID v) (OrganizationUnit_ParentID v)
    (OrganizationUnit_Path v) →
  (∀ e d', Q (Some e) d') → (∀ d', tree_ok d' → Q None d') →
  twp plain_id (Repository.UpdateOrganizationUnit v (OrganizationUnit_Path r)) Q d.
Proof.
  intros Hd Htree Hr HT Hplace He HQ.
  apply (twp_then plain_id (tbind (exec (update_unit v))
    (λ r, TRet (affected r "update organization unit")))), twp_update; [done|].
  intros n d1 Hs Hn. apply update_unit_table in Hs as (r' & Hr' & _ & ->); [|done].
  rewrite Hr in Hr'. injection Hr' as <-. pose proof (unit_key _ _ _ Hd Hr) as Hid.
  destruct (String.eqb_spec (OrganizationUnit_Path r) (OrganizationUnit_Path v)) as [Hsame|Hne].
  { apply HQ. by apply (path_ok_rename _ _ r). }
  apply twp_create; [done|]. intros x d2 Hs. unfold move_descendants in Hs. checks Hs. simplify_eq.
  apply HQ. unfold tree_ok. simpl.
  rewrite (map_fmap_ext _ (move_unit (updated_unit r v) (OrganizationUnit_Path r))).
  - apply (path_ok_move _ _ r); [done|done|by intros; eapply unit_key|
      by intros; eapply unit_parent_tenant|done|done|done].
  - intros k u _. by apply move_unit_same.
Qed.

Lemma update_unit_at_tree s ctx current id parentID name status newPath d :
  inv d → tree_ok d → organization_units d !! id = Some current →
  new_place (organization_units d) current id parentID newPath →
  keeps_tree (update_unit_at s ctx current id parentID name status newPath) d.
Proof.
  intros Hd Htree Hc Hplace. pose proof (unit_key _ _ _ Hd Hc) as Hid.
  unfold keeps_tree, keeps, update_unit_at. repeat keep_step.
  apply keeps_write; [solve_readonly|done|]. apply twp_then.
  eapply twp_update_tree;
    [done|done|simpl; by rewrite Hid|done|simpl; by rewrite Hid|done|].
  intros d1 Ht1. apply twp_outbox; [done|by intros _].
Qed.

Lemma UpdateOrganizationUnit_tree s ctx id parentID name status version d :
  inv d → tree_ok d →
  keeps_tree (Organizations.UpdateOrganizationUnit s ctx id parentID name status version) d.
Proof.
  intros Hd Htree. unfold keeps_tree, keeps, Organizations.UpdateOrganizationUnit. repeat keep_step.
  apply keeps_then; [by intros [? [?|]]|]. apply keeps_lock; [done|].
  unfold keeps_tree, keeps, update_unit_locked. repeat keep_step;
    repeat match goal with H : get_result (one_row _) _ = Ok _ |- _ => apply get_result_Ok in H end;
    reflect_bools; apply update_unit_at_tree; try done.
  - left. by subst.
  - right. split; [done|]. eauto.
Qed.

(** ** Every request *)

(** What a request that is not about units does. *)
Definition same_units (d d' : DB) : Prop :=
  inv d → inv d' ∧ db_le d d' ∧ organization_units d' = organization_units d.

#[local] Instance same_units_preorder : PreOrder same_units.
Proof.
  split; [by intros d Hd|]. intros d1 d2 d3 H12 H23 Hd1.
  destruct (H12 Hd1) as (Hd2 & ? & He). destruct (H23 Hd2) as (? & ? & He').
  split_and!; [done|by etrans|congruence].
Qed.

Lemma run_keeps_units env s ctx r w :
  inv (w_db w) → moves_units r = false →
  organization_units (w_db (snd (run env (serve s ctx r) w))) = organization_units (w_db w).
Proof.
  intros Hd Hm. pose proof (serve_guarantee (λ _, True) s ctx r _ Hd) as Hg. rewrite Hm in Hg.
  apply (wp_run_rely same_units (guarantee ctx false) (λ _, True) env (λ _, I) _ (λ _ _, True));
    [| |done].
  - intros d d' HG Hi. destruct (HG Hi) as [->|[]]; split_and!; auto; reflexivity.
  - eapply wp_weaken; [| |done]; [|done]. intros d d' HS Hi. by destruct (HS Hi) as (? & ? & _).
Qed.

Lemma run_keeps_inv env s ctx r w :
  inv (w_db w) → inv (w_db (snd (run env (serve s ctx r) w))).
Proof.
  intros Hd. pose proof (serve_guarantee (λ _, True) s ctx r _ Hd) as Hg.
  by apply (wp_run_rely rely (guarantee ctx (moves_units r)) (λ _, True) env (λ _, I) _ _ _
    (guarantee_rely ctx (moves_units r)) Hg).
Qed.

Lemma run_keeps_tree env s ctx r w :
  (∀ n, plain (env_uuid env n) = true) → inv (w_db w) → tree_ok (w_db w) →
  tree_ok (w_db (snd (run env (serve s ctx r) w))).
Proof.
  intros Hu Hd Htree. destruct (moves_units r) eqn:Hm.
  - assert (keeps_tree (serve s ctx r) (w_db w)) as Hk.
    { destruct r; try discriminate Hm; unfold serve, reply; unfold keeps_tree; apply keeps_then; try done;
        [by apply CreateOrganizationUnit_tree|by apply UpdateOrganizationUnit_tree]. }
    apply (wp_run eq (λ _ _, True) plain_id env Hu) in Hk.
    by destruct (run env (serve s ctx r) w).
  - unfold tree_ok. by rewrite run_keeps_units.
Qed.

(** Requests one after another, each with its own context. *)
Fixpoint run_all (env : Env) (s : Service) (rs : list (Context * Request)) (w : World) : World :=
  match rs with
  | [] => w
  | (ctx, r) :: rs' => run_all env s rs' (snd (run env (serve s ctx r) w))
  end.

Lemma run_all_tree env s rs w :
  (∀ n, plain (env_uuid env n) = true) → inv (w_db w) → tree_ok (w_db w) →
  tree_ok (w_db (run_all env s rs w)).
Proof.
  intros Hu. revert w. induction rs as [|[ctx r] rs IH]; intros w Hd Htree; [done|].
  simpl. apply IH; [by apply run_keeps_inv|by apply run_keeps_tree].
Qed.

(** (C9) Materialised paths: in any sequence of requests, from a database whose
    paths follow the parent pointers (the empty one, for instance), every path
    still is the parent's path followed by the unit's identifier, across
    creations and moves of whole subtrees, whatever fails on the way. *)
Theorem paths_follow_parents env s rs w :
  (∀ n, plain (env_uuid env n) = true) → inv (w_db w) → tree_ok (w_db w) →
  ∀ k u, organization_units (w_db (run_all env s rs w)) !! k = Some u →
  ∃ b, parent_path (organization_units (w_db (run_all env s rs w))) u = Some b ∧
       OrganizationUnit_Path u = b +:+ k +:+ "/".
Proof.
  intros Hu Hd Ht k u Hk. by destruct (run_all_tree env s rs w Hu Hd Ht k u Hk).
Qed.

(** (C10) Organization trees are acyclic: in any sequence of requests, from a database
    whose paths follow the parent pointers, no unit ever is below itself -- whatever is
    moved where, and whatever fails on the way. *)
Theorem organization_trees_acyclic env s rs w k u :
  (∀ n, plain (env_uuid env n) = true) → inv (w_db w) → tree_ok (w_db w) →
  organization_units (w_db (run_all env s rs w)) !! k = Some u → OrganizationUnit_ParentID u ≠ "" →
  ¬ below (organization_units (w_db (run_all env s rs w))) k (OrganizationUnit_ParentID u).
Proof.
  intros Hu Hd Ht Hk Hne Hb. pose proof (run_all_tree env s rs w Hu Hd Ht) as Ht'.
  destruct (parent_path_child _ _ _ Ht' Hk Hne) as (p & Hp & Hpath).
  pose proof (below_prefix _ _ _ _ _ Ht' Hk Hp Hb) as Hl%prefix_length.
  rewrite Hpath, !string_length_app in Hl. simpl in Hl. lia.
Qed.

(** ** The scope of a membership *)

Lemma below_tenant d r k ru u :
  inv d → organization_units d !! r = Some ru → organization_units d !! k = Some u →
  below (organization_units d) r k → OrganizationUnit_TenantID u = OrganizationUnit_TenantID ru.
Proof.
  intros Hd Hr Hu Hb. revert u Hu. induction Hb as [|k u0 Hu0 Hne Hb IH]; intros u Hu; [congruence|].
  rewrite Hu0 in Hu. injection Hu as <-. destruct (inv_units _ Hd) as (_ & _ & _ & _ & Hfp).
  destruct (Hfp _ _ (OrganizationUnit_ParentID u0) Hu0) as (p & Hp & Ht).
  { unfold nullableID. by destruct (String.eqb_spec (OrganizationUnit_ParentID u0) ""). }
  simpl in Ht. rewrite <- Ht. by apply IH.
Qed.

(** The query by path prefix selects the subtree. *)
Lemma scope_query d T root ru k :
  inv d → tree_ok d → organization_units d !! root = Some ru → OrganizationUnit_TenantID ru = T →
  k ∈ map OrganizationUnit_ID (select
        (λ u, (OrganizationUnit_TenantID u =?s T)
              && sql_like (OrganizationUnit_Path u) (OrganizationUnit_Path ru +:+ "%")
              && (OrganizationUnit_Status u =?s "active")) path_order (organization_units d)) ↔
  ∃ u, organization_units d !! k = Some u ∧ OrganizationUnit_Status u = "active" ∧
       below (organization_units d) root k.
Proof.
  intros Hd Ht Hr HT. rewrite list_elem_of_fmap. unfold select. split.
  - intros (u & -> & Hu). rewrite elem_of_sort_by, elem_of_filter_bool, elem_of_rows in Hu.
    destruct Hu as [Hp (k & Hk)]. rewrite (unit_key _ _ _ Hd Hk).
    rewrite sql_like_prefix in Hp by (by eapply path_shape). reflect_bools.
    exists u. split_and!; [done..|]. by eapply prefix_below.
  - intros (u & Hu & Ha & Hb). exists u. split; [by rewrite (unit_key _ _ _ Hd Hu)|].
    rewrite elem_of_sort_by, elem_of_filter_bool, elem_of_rows. split; [|eauto].
    rewrite sql_like_prefix by (by eapply path_shape).
    rewrite (below_tenant _ _ _ _ _ Hd Hr Hu Hb), HT, Ha, !String.eqb_refl.
    by rewrite (below_prefix _ _ _ _ _ Ht Hr Hu Hb : String.prefix _ _ = true).
Qed.


End Trees.
