(* ===== verification/Concurrency.v ===== *)
(** * Concurrent requests

    Any number of requests, interleaved call by call in any order, on a database
    that satisfies the invariant, with any answers of the clock, the random
    sources, Redis and the network, faults and lost commits included. *)

From stdpp Require Import base gmap list strings.
From S2P Require Import Prelude GoErrors Model Store Effects Platform Authorization Service.
From S2P Require Import Repository Tables Invariants Requests Reads.

Section Concurrency.
Context `{Platform, !AuditLaws}.
Implicit Types (rs : list (Context * Request)) (ps : list (prog Response)) (w : World).

(** The requests as they arrive. *)
Definition pool (s : Service) rs : list (prog Response) := (λ '(ctx, r), serve s ctx r) <$> rs.

Definition any_id (u : string) : Prop := True.

(** What is promised of the response: a read answers within its scope. *)
Definition response_ok (ctx : Context) (r : Request) (resp : Response) (d : DB) : Prop :=
  is_read r = true → scoped ctx r resp d.

(** What is known of the programs in the middle of an execution. *)
Definition pool_inv rs (c : list (prog Response) * World) : Prop :=
  inv (w_db (snd c)) ∧
  ∀ i p, fst c !! i = Some p → ∃ ctx r, rs !! i = Some (ctx, r) ∧
    wp rely (guarantee ctx (moves_units r)) any_id p (response_ok ctx r) (w_db (snd c)).

Lemma pool_inv_initial s rs w : inv (w_db w) → pool_inv rs (pool s rs, w).
Proof.
  intros Hd. split; [done|]. intros i p Hp. unfold pool in Hp. simpl in Hp.
  rewrite list_lookup_fmap in Hp. destruct (rs !! i) as [[ctx r]|] eqn:Hr; simplify_eq/=.
  exists ctx, r. split; [done|]. destruct (is_read r) eqn:Hread.
  - eapply wp_mono; [|by eapply serve_scoped]. by intros resp d Hs _.
  - eapply wp_mono; [|by eapply serve_guarantee]. intros resp d _ Hr'. congruence.
Qed.

(** One call: nothing, or the commit of one of the requests. *)
Lemma pool_inv_step rs env c c' :
  pool_inv rs c → pool_step env c c' →
  pool_inv rs c' ∧
  (w_db (snd c') = w_db (snd c) ∨
   ∃ i ctx r, rs !! i = Some (ctx, r) ∧ commit ctx (moves_units r) (w_db (snd c)) (w_db (snd c'))).
Proof.
  intros [Hd Hps] Hstep. destruct Hstep as [ps i p p' w w' Hp Hs]. simpl in *.
  destruct (Hps _ _ Hp) as (ctx & r & Hr & Hwp).
  destruct (wp_step rely (guarantee ctx (moves_units r)) any_id env (λ _, I) _ _ _ _ _ _ Hwp (reflexivity _) Hs)
    as [HG Hwp'].
  assert (w_db w' = w_db w ∨ commit ctx (moves_units r) (w_db w) (w_db w')) as HG'.
  { destruct HG as [?|HG]; [by left|]. by apply HG. }
  assert (rely (w_db w) (w_db w')) as Hrely.
  { intros _. destruct HG' as [->|[]]; by split. }
  split; [|destruct HG'; [by left|right; eauto]].
  split; [by apply Hrely|]. intros j q Hq. simpl in Hq. destruct (decide (i = j)) as [->|Hne].
  - rewrite list_lookup_insert_eq in Hq by eauto using lookup_lt_Some. simplify_eq. eauto.
  - rewrite list_lookup_insert_ne in Hq by done.
    destruct (Hps _ _ Hq) as (ctx' & r' & ? & ?). exists ctx', r'. split; [done|].
    eapply wp_interfere; [apply _|done|done].
Qed.

Lemma pool_inv_steps rs env c c' :
  pool_inv rs c → pool_steps env c c' →
  pool_inv rs c' ∧ db_le (w_db (snd c)) (w_db (snd c')).
Proof.
  intros Hc Hs. induction Hs as [c|c1 c2 c3 H12 H23 IH]; [done|].
  destruct (pool_inv_step _ _ _ _ Hc H12) as [Hc2 Hcommit].
  destruct (IH Hc2) as [Hc3 Hle]. split; [done|]. etrans; [|done].
  by destruct Hcommit as [->|(? & ? & ? & ? & [])].
Qed.

(** An execution, and one more call at its end. *)
Lemma pool_commit s rs env w ps w1 ps' w2 :
  inv (w_db w) → pool_steps env (pool s rs, w) (ps, w1) → pool_step env (ps, w1) (ps', w2) →
  w_db w2 = w_db w1 ∨
  ∃ i ctx r, rs !! i = Some (ctx, r) ∧ commit ctx (moves_units r) (w_db w1) (w_db w2).
Proof.
  intros Hd Hs Hstep.
  destruct (pool_inv_steps rs _ _ _ (pool_inv_initial s rs w Hd) Hs) as [Hc _].
  by destruct (pool_inv_step _ _ _ _ Hc Hstep).
Qed.

Lemma pool_steps_inv s rs env w ps w' :
  inv (w_db w) → pool_steps env (pool s rs, w) (ps, w') → inv (w_db w').
Proof.
  intros Hd Hs. by destruct (pool_inv_steps rs _ _ _ (pool_inv_initial s rs w Hd) Hs) as [[] _].
Qed.

(** ** Theorems *)

(** (C1) The database invariant -- keys, unique indexes, foreign keys, and that
    every reference between units, members, groups and their members stays inside
    its tenant -- holds after any interleaving of any requests. *)
Theorem service_preserves_invariant s rs env w ps w' :
  inv (w_db w) → pool_steps env (pool s rs, w) (ps, w') → inv (w_db w').
Proof. apply pool_steps_inv. Qed.

(** (C2) Transactional outbox: one call of one request either leaves the whole
    database as it is, or commits a change together with exactly one new,
    unpublished outbox record. *)
Theorem outbox_is_transactional s rs env w ps w1 ps' w2 :
  inv (w_db w) → pool_steps env (pool s rs, w) (ps, w1) → pool_step env (ps, w1) (ps', w2) →
  w_db w2 = w_db w1 ∨
  ∃ e, tenant_outbox_events (w_db w2)
       = tenant_outbox_events (w_db w1) ++ [Build_OutboxRow e 0 None ""].
Proof.
  intros Hd Hs Hstep.
  destruct (pool_commit _ _ _ _ _ _ _ _ Hd Hs Hstep) as [?|(? & ? & ? & ? & [])]; [by left|by right].
Qed.

(** (C3) Tenant isolation: a call that changes the database changes rows of one
    tenant only, and the context of its request may act on this tenant, or the
    tenant is created by this very commit, or the commit accepts a pending
    invitation of this tenant. *)
Theorem tenant_isolation s rs env w ps w1 ps' w2 :
  inv (w_db w) → pool_steps env (pool s rs, w) (ps, w1) → pool_step env (ps, w1) (ps', w2) →
  w_db w2 = w_db w1 ∨
  ∃ i ctx r T, rs !! i = Some (ctx, r) ∧ db_only T (w_db w1) (w_db w2) ∧
    authorised ctx T (w_db w1) (w_db w2).
Proof.
  intros Hd Hs Hstep.
  destruct (pool_commit _ _ _ _ _ _ _ _ Hd Hs Hstep) as [?|(i & ctx & r & Hr & [])]; [by left|].
  right. destruct commit_tenant as (T & ? & ?). by exists i, ctx, r, T.
Qed.

(** (C5) Optimistic locking: from any state of an execution to a later one, no
    row disappears, immutable columns never change, and a row whose version is
    the same is the same row (shown on organization units; [db_le] says it of
    every table). *)
Theorem versions_identify_rows s rs env w ps w' :
  inv (w_db w) → pool_steps env (pool s rs, w) (ps, w') →
  db_le (w_db w) (w_db w') ∧
  ∀ k u, organization_units (w_db w) !! k = Some u →
  ∃ u', organization_units (w_db w') !! k = Some u' ∧
    OrganizationUnit_TenantID u' = OrganizationUnit_TenantID u ∧
    (OrganizationUnit_Version u ≤ OrganizationUnit_Version u')%Z ∧
    (OrganizationUnit_Version u = OrganizationUnit_Version u' → u = u').
Proof.
  intros Hd Hs.
  destruct (pool_inv_steps rs _ _ _ (pool_inv_initial s rs w Hd) Hs) as [_ Hle]. split; [done|].
  intros k u Hu. destruct (le_organization_units _ _ Hle _ _ Hu) as (u' & Hu' & Hrow).
  exists u'. split_and!; [done| | |exact (row_le_version _ _ Hrow)].
  - exact (eq_sym (row_le_tenant _ _ Hrow)).
  - destruct Hrow as [->|[_ Hv]]; [done|]. simpl in Hv. lia.
Qed.

(** (C6) A quota's counter is raised only within the limit in force, whatever
    consumes it concurrently: a call that changes the counter of an existing
    quota leaves its limit and ends at or below it, and a new quota starts at
    zero. *)
Theorem quota_limit_enforced s rs env w ps w1 ps' w2 :
  inv (w_db w) → pool_steps env (pool s rs, w) (ps, w1) → pool_step env (ps, w1) (ps', w2) →
  ∀ k q', tenant_quotas (w_db w2) !! k = Some q' →
  match tenant_quotas (w_db w1) !! k with
  | Some q => Quota_Used q' = Quota_Used q ∨
              (Quota_Limit q' = Quota_Limit q ∧ (Quota_Used q < Quota_Used q' ≤ Quota_Limit q')%Z)
  | None => Quota_Used q' = 0%Z
  end.
Proof.
  intros Hd Hs Hstep k q' Hq'.
  destruct (pool_commit _ _ _ _ _ _ _ _ Hd Hs Hstep) as [He|(i & ctx & r & Hr & [])].
  - rewrite He in Hq'. rewrite Hq'. by left.
  - destruct (tenant_quotas (w_db w1) !! k) as [q|] eqn:Hq; [|by eapply commit_new_quota].
    destruct (commit_quota _ _ _ Hq Hq') as [?|[Hl ?]]; [by left|]. right. split; [done|lia].
Qed.

(** (C7) An invitation is accepted at most from the pending state, in one commit
    with an active membership of the accepting user in the inviting tenant: no
    interleaving of acceptances redeems it twice. *)
Theorem invitation_accepted_once s rs env w ps w1 ps' w2 :
  inv (w_db w) → pool_steps env (pool s rs, w) (ps, w1) → pool_step env (ps, w1) (ps', w2) →
  ∀ k i i', invitations (w_db w1) !! k = Some i → invitations (w_db w2) !! k = Some i' →
  i' ≠ i → Invitation_Status i' = "accepted" →
  Invitation_Status i = "pending" ∧
  ∃ km m, memberships (w_db w2) !! km = Some m ∧ Membership_TenantID m = Invitation_TenantID i ∧
          Membership_UserID m = Invitation_AcceptedByUserID i' ∧ Membership_Status m = "active".
Proof.
  intros Hd Hs Hstep k i i' Hi Hi' Hne Hacc.
  destruct (pool_commit _ _ _ _ _ _ _ _ Hd Hs Hstep) as [He|(j & ctx & r & Hr & [])].
  - rewrite He in Hi'. congruence.
  - by destruct (commit_invitation _ _ _ Hi Hi') as [?|[?|?]].
Qed.

(** (C8) Reads are scoped: in any interleaving, a read request that has returned without error
    returned rows of tenants its context may act on, and nothing else -- rows, pages, lists, the
    nodes of organization trees, the units of a scope. The three reads of no single tenant:
    a page of a user's tenants goes to this user, a service or the system, and has only tenants
    this user is or was a member of; a page of all tenants goes to who may administer the platform;
    and the validation of a membership, which is open to everybody, shows the active membership
    of the user and the tenant that were asked for and this tenant, or no tenant. *)
Theorem reads_are_scoped s rs env w ps w' i ctx r resp :
  inv (w_db w) → pool_steps env (pool s rs, w) (ps, w') →
  rs !! i = Some (ctx, r) → is_read r = true → ps !! i = Some (Ret resp) → scoped ctx r resp (w_db w').
Proof.
  intros Hd Hs Hr Hread Hp.
  destruct (pool_inv_steps rs _ _ _ (pool_inv_initial s rs w Hd) Hs) as [[_ Hps] _].
  destruct (Hps _ _ Hp) as (ctx' & r' & ? & Hwp). simplify_eq.
  exact (Hwp _ (reflexivity _) Hread).
Qed.

End Concurrency.
