(* ===== verification/Locks.v ===== *)
(** * Locks are given back, and requests end

    Every request releases the locks it takes, on every path, and no interleaving goes on for
    ever. A lock is a key in Redis with the value of whoever took it: it may outlive its time
    while it is held, and a release may fail, which leaves the key until it has. So what holds
    in any interleaving is that a key is there for a request in progress or was left by a call
    that failed, and that two requests hold one lock only if it has expired in between. *)

From stdpp Require Import base gmap sets list strings.
From S2P Require Import Prelude GoErrors Model Store Effects Platform Authorization Events Service.
From S2P Require Import Repository Dictionary Tenants Organizations Invitations Groups Quotas Commits Requests Concurrency.

(** ** Balanced programs *)

(** Holding the locks [L], with their values, the program returns holding [L0], whatever its
    calls answer, and releases nothing it does not hold. *)
Fixpoint ends_with {A : Type} (L0 L : gset (string * nat)) (p : prog A) : Prop :=
  match p with
  | Ret _ => L = L0
  | Now k => ∀ x, ends_with L0 L (k x)
  | NewUUID k => ∀ x, ends_with L0 L (k x)
  | RandRead k => ∀ x, ends_with L0 L (k x)
  | Effects.Query _ k => ∀ x, ends_with L0 L (k x)
  | Transact _ _ _ k => ∀ x, ends_with L0 L (k x)
  | MutexLock name k =>
      (∀ e, ends_with L0 L (k (inr e))) ∧
      ∀ value, (name, value) ∉ L → ends_with L0 ({[(name, value)]} ∪ L) (k (inl value))
  | MutexUnlock name value k => (name, value) ∈ L ∧ ∀ x, ends_with L0 (L ∖ {[(name, value)]}) (k x)
  | IdemBegin _ _ k => ∀ x, ends_with L0 L (k x)
  | IdemComplete _ _ _ k => ∀ x, ends_with L0 L (k x)
  | IdemFail _ _ _ k => ∀ x, ends_with L0 L (k x)
  end.

Definition balanced {A} (p : prog A) : Prop := ∀ L, ends_with L L p.

Lemma ends_with_bind {A B} L0 L1 L (m : prog A) (f : A → prog B) :
  ends_with L1 L m → (∀ a, ends_with L0 L1 (f a)) → ends_with L0 L (bind m f).
Proof.
  intros Hm Hf. revert L Hm.
  induction m as [a|k IH|k IH|k IH|X q k IH|X v x0 b k IH|n k IH|n u k IH|x y k IH|V x y z k IH|x y z k IH];
    intros L Hm; simpl in *; auto.
  - by subst.
  - destruct Hm. split; auto.
  - destruct Hm. split; auto.
Qed.

Lemma balanced_bind {A B} (m : prog A) (f : A → prog B) :
  balanced m → (∀ a, balanced (f a)) → balanced (bind m f).
Proof. intros Hm Hf L. apply (ends_with_bind _ L); [apply Hm|]. intros a. apply Hf. Qed.

Lemma balanced_ret {A} (a : A) : balanced (Ret a).
Proof. by intros L. Qed.

(** A section under a lock releases it. *)
Lemma balanced_resource_lock {A} s key (a0 : A) op :
  balanced op → balanced (withResourceLock s key a0 op).
Proof.
  intros Hop. unfold withResourceLock, Lock, newMutex, Unlock. case_match; [done|].
  change (50 * millisecond <=? 0)%Z with false. change (15 * second <=? 0)%Z with false. cbn [bind].
  destruct (key =?s ""); cbn [bind]; [apply balanced_ret|].
  intros L. split; [intros [[] e]; by apply balanced_ret|]. intros value Hn. cbn [bind mutex_Name mutex_value].
  apply (ends_with_bind _ ({[(lockKeyPrefix +:+ key, value)]} ∪ L)); [apply Hop|]. intros r. cbn [bind].
  split; [set_solver|].
  intros x. replace (({[(lockKeyPrefix +:+ key, value)]} ∪ L) ∖ {[(lockKeyPrefix +:+ key, value)]}) with L by set_solver.
  destruct x as [[]|]; apply balanced_ret.
Qed.

Lemma balanced_organization_lock {A} s tenantID (a0 : A) op :
  balanced op → balanced (withOrganizationLock s tenantID a0 op).
Proof. apply (balanced_resource_lock s ("tenant:organization-tree:" +:+ tenantID)). Qed.

(** Walk through a program: take any answer of a call, unfold what it is made of. *)
Ltac head_of t := lazymatch t with ?f _ => head_of f | _ => t end.
Ltac balanced_step :=
  cbn [fst snd bind];
  lazymatch goal with
  | |- balanced (Ret _) => apply balanced_ret
  | |- balanced (withResourceLock _ _ _ _) => apply balanced_resource_lock
  | |- balanced (withOrganizationLock _ _ _ _) => apply balanced_organization_lock
  | |- balanced (match ?x with _ => _ end) => let y := scrutinee x in destruct y
  | |- balanced (bind (match ?x with _ => _ end) _) => let y := scrutinee x in destruct y
  | |- balanced (bind _ _) => apply balanced_bind; [|intros ?]
  | |- balanced (let _ := _ in _) => cbv zeta
  | |- balanced (Now _) => intros L x; cbv beta; revert L
  | |- balanced (NewUUID _) => intros L x; cbv beta; revert L
  | |- balanced (RandRead _) => intros L x; cbv beta; revert L
  | |- balanced (Effects.Query _ _) => intros L x; cbv beta; revert L
  | |- balanced (Transact _ _ _ _) => intros L x; cbv beta; revert L
  | |- balanced (IdemBegin _ _ _) => intros L x; cbv beta; revert L
  | |- balanced (IdemComplete _ _ _ _) => intros L x; cbv beta; revert L
  | |- balanced (IdemFail _ _ _ _) => intros L x; cbv beta; revert L
  | |- ∀ L, ends_with L L ?p => change (balanced p)
  | |- balanced ?p => let h := head_of p in unfold h
  end.

Section Locks.
Context `{Platform}.

Lemma fetch_ancestors_balanced tenantID status slices byID :
  balanced (fetch_ancestors tenantID status slices byID).
Proof.
  revert byID. induction slices as [|slice slices IH]; intros byID; simpl; [apply balanced_ret|].
  apply balanced_bind; [repeat balanced_step|]. intros [ancestors|e]; [apply IH|apply balanced_ret].
Qed.

Ltac balanced_service :=
  repeat first [apply fetch_ancestors_balanced | balanced_step].

Lemma serve_balanced s ctx r : balanced (serve s ctx r).
Proof.
  destruct r; unfold serve, reply.
  all: balanced_service.
Qed.

End Locks.

(** ** The calls of locks *)

(** Taking a lock: it is free, or nothing of what lives is touched; a key that is new has the
    number of the call, and the call has taken it or failed. *)
Lemma lock_call_spec env t name locks :
  let live := live_locks env t name locks in
  let '(r, locks') := lock_call env t name locks in
  (∀ value, r = inl value → value = t ∧ env_lock env t = None ∧ live !! name = None ∧ locks' !! name = Some t) ∧
  (∀ n v, live !! n = Some v → locks' !! n = Some v) ∧
  (∀ n v, locks' !! n = Some v →
     live !! n = Some v ∨ v = t ∧ n = name ∧ (r = inl t ∨ is_Some (env_lock env t))).
Proof.
  intros live. unfold lock_call. fold live.
  destruct (live !! name) as [u|] eqn:Hn, (env_lock env t) as [e|]; [by split_and!; eauto..| |].
  - destruct (env_reached env t); [|by split_and!; eauto]. split_and!; [done| |].
    + intros n v Hv. rewrite lookup_insert_ne; [done|congruence].
    + intros n v [[<- <-]|[_ ?]]%lookup_insert_Some; [right|by left]. split_and!; [done..|right; eauto].
  - split_and!.
    + intros value [= <-]. by rewrite lookup_insert_eq.
    + intros n v Hv. rewrite lookup_insert_ne; [done|congruence].
    + intros n v [[<- <-]|[_ ?]]%lookup_insert_Some; [right|by left]. by split_and!; [..|left].
Qed.

(** Releasing one: nothing else is touched, and the key is there afterwards only if the release
    has failed. *)
Lemma unlock_call_spec env t name value locks :
  let live := live_locks env t name locks in
  let locks' := snd (unlock_call env t name value locks) in
  (∀ n v, locks' !! n = Some v → live !! n = Some v) ∧
  (∀ n v, live !! n = Some v → (n, v) ≠ (name, value) → locks' !! n = Some v) ∧
  (locks' !! name = Some value → is_Some (env_unlock env t)).
Proof.
  intros live. unfold unlock_call. fold live. case_bool_decide as Hm.
  - assert (∀ n v, delete name live !! n = Some v → live !! n = Some v) as Hd.
    { by intros n v [_ ?]%lookup_delete_Some. }
    assert (∀ n v, live !! n = Some v → (n, v) ≠ (name, value) → delete name live !! n = Some v) as Hk.
    { intros n v Hv Hne. rewrite lookup_delete_ne; [done|]. intros ->. congruence. }
    destruct (env_unlock env t); [destruct (env_reached env t)|]; simpl;
      (split_and!; [by eauto|by eauto|by rewrite ?lookup_delete_eq; eauto]).
  - destruct (env_unlock env t); simpl; (split_and!; [by eauto..|done || by eauto]).
Qed.

Lemma run_tx_tick {A} env (b : tx A) n d : n ≤ snd (fst (run_tx env b n d)).
Proof.
  revert n d. induction b as [a|k IH|X s k IH]; intros n d; simpl; [done|..].
  - etrans; [|apply IH]. lia.
  - repeat case_match; (etrans; [|apply IH]); lia.
Qed.

Lemma Within_tick {X} env v (x0 : X) b n d : n ≤ snd (fst (Within env v x0 b n d)).
Proof.
  unfold Within. destruct v; [simpl|done]. destruct (env_fault env n); [simpl; lia|].
  pose proof (run_tx_tick env b (S n) d) as Ht. destruct (run_tx _ _ _ _) as [[[x err] n'] d']. simpl in Ht.
  repeat case_match; simpl; lia.
Qed.

(** ** Interleavings *)

(** The locks of a world were taken before its next call. *)
Definition taken_before (w : World) : Prop := map_Forall (λ _ value, value < w_tick w) (w_locks w).

Section Pool.
Context {A : Type} (env : Env) (w0 : World) (Hw0 : taken_before w0).
Implicit Types (p : prog A) (ps : list (prog A)) (w : World) (held : nat → gset (string * nat)).
Local Notation F := (w_locks w0).

(** A key with its value is there, or it has expired since call [lo]. *)
Definition kept (lo : nat) (n : string) (v : nat) w : Prop :=
  w_locks w !! n = Some v ∨ ∃ m, lo ≤ m < w_tick w ∧ env_expired env m n = true.

(** The keys that calls of locks have left by failing, at most one each: a release that was to
    delete it, or an attempt that has set it all the same. *)
Definition left_by_failures w (left : gmap nat (string * nat)) : Prop :=
  map_Forall (λ m '(n, v), w_tick w0 ≤ m < w_tick w ∧
    (v = m ∧ is_Some (env_lock env m) ∨ v < m ∧ is_Some (env_unlock env m))) left.

(** What each program holds, and why a key is there. *)
Record owned ps w held left : Prop := {
  owned_tick : w_tick w0 ≤ w_tick w;
  owned_ends i p : ps !! i = Some p → ends_with ∅ (held i) p;
  owned_none i : ps !! i = None → held i = ∅;
  owned_values i n v : (n, v) ∈ held i → w_tick w0 ≤ v < w_tick w;
  owned_unique i j n n' v : (n, v) ∈ held i → (n', v) ∈ held j → i = j;
  owned_kept i n v : (n, v) ∈ held i → kept (S v) n v w;
  owned_before n v : F !! n = Some v → kept (w_tick w0) n v w;
  owned_apart i j n v v' : (n, v) ∈ held i → (n, v') ∈ held j → v < v' →
    ∃ m, v < m ≤ v' ∧ env_expired env m n = true;
  owned_fresh i n v v0 : (n, v) ∈ held i → F !! n = Some v0 →
    ∃ m, w_tick w0 ≤ m ≤ v ∧ env_expired env m n = true;
  owned_locks n v : w_locks w !! n = Some v →
    F !! n = Some v ∨ (∃ i, (n, v) ∈ held i) ∨ ∃ m, left !! m = Some (n, v);
  owned_left : left_by_failures w left;
}.

Definition update held (i : nat) (L : gset (string * nat)) : nat → gset (string * nat) :=
  λ j, if decide (j = i) then L else held j.

(** One program goes on with other locks: those it takes are new and free; what is still held,
    or was there before, is not deleted; what is there has a reason. *)
Lemma owned_update ps w held left i p p' L left' w' :
  owned ps w held left → ps !! i = Some p → ends_with ∅ L p' → w_tick w ≤ w_tick w' →
  (∀ n v, (n, v) ∈ L → (n, v) ∈ held i ∨ v = w_tick w ∧ w_tick w < w_tick w' ∧ w_locks w' !! n = Some v ∧
     ∀ lo v0, lo ≤ v → kept lo n v0 w → ∃ m, lo ≤ m ≤ v ∧ env_expired env m n = true) →
  (∀ lo n v, lo ≤ w_tick w → kept lo n v w → F !! n = Some v ∨ (∃ j, (n, v) ∈ update held i L j) → kept lo n v w') →
  (∀ n v, w_locks w' !! n = Some v →
     w_locks w !! n = Some v ∧ ((n, v) ∈ held i → (n, v) ∈ L ∨ ∃ m, left' !! m = Some (n, v))
     ∨ (n, v) ∈ L ∨ ∃ m, left' !! m = Some (n, v)) →
  left ⊆ left' → left_by_failures w' left' →
  owned (<[i:=p']> ps) w' (update held i L) left'.
Proof using Hw0.
  intros Ho Hp Hp' Hle Hnew Hkept Hlocks Hsub Hleft.
  assert (i < length ps) as Hi by by eapply lookup_lt_Some.
  assert (∀ j n v, (n, v) ∈ update held i L j → (n, v) ∈ held j ∨ j = i ∧ v = w_tick w ∧ w_tick w < w_tick w' ∧
    w_locks w' !! n = Some v ∧ ∀ lo v0, lo ≤ v → kept lo n v0 w → ∃ m, lo ≤ m ≤ v ∧ env_expired env m n = true) as Hupd.
  { intros j n v. unfold update. case_decide as Hj; [subst|by left].
    intros [?|?]%Hnew; [by left|right]. by split. }
  pose proof (owned_tick _ _ _ _ Ho) as Ht. pose proof (owned_values _ _ _ _ Ho) as Hvals. split.
  - lia.
  - intros j q Hq. unfold update. case_decide as Hj; [subst|].
    + rewrite list_lookup_insert_eq in Hq by done. by simplify_eq.
    + rewrite list_lookup_insert_ne in Hq by done. by apply (owned_ends _ _ _ _ Ho).
  - intros j Hj. unfold update. case_decide; [subst|].
    + rewrite list_lookup_insert_eq in Hj by done. done.
    + rewrite list_lookup_insert_ne in Hj by done. by apply (owned_none _ _ _ _ Ho).
  - intros j n v [?%Hvals|(-> & -> & ? & _)]%Hupd; lia.
  - intros j k n n' v [Hj|(-> & -> & _)]%Hupd [Hk|(-> & Hv & _)]%Hupd; [|subst|..|done].
    + by eapply (owned_unique _ _ _ _ Ho).
    + apply Hvals in Hj. lia.
    + apply Hvals in Hk. lia.
  - intros j n v Hj. destruct (Hupd _ _ _ Hj) as [Hold|(_ & _ & _ & Hl & _)]; [|by left].
    apply Hkept; [apply Hvals in Hold; lia|by eapply (owned_kept _ _ _ _ Ho)|by right; eauto].
  - intros n v Hv. apply Hkept; [done|by apply (owned_before _ _ _ _ Ho)|by left].
  - intros j k n v v' [Hj|(-> & -> & _)]%Hupd [Hk|(-> & -> & _ & _ & Hx)]%Hupd Hlt.
    + by eapply (owned_apart _ _ _ _ Ho).
    + destruct (Hx (S v) v) as (m & ? & ?); [lia|by eapply (owned_kept _ _ _ _ Ho)|]. exists m. split; [lia|done].
    + apply Hvals in Hk. lia.
    + lia.
  - intros j n v v0 [Hj|(-> & -> & _ & _ & Hx)]%Hupd Hv0.
    + by eapply (owned_fresh _ _ _ _ Ho).
    + apply (Hx _ v0); [done|by apply (owned_before _ _ _ _ Ho)].
  - intros n v Hv.
    assert (∀ n v, (∃ m, left !! m = Some (n, v)) → ∃ m, left' !! m = Some (n, v)) as Hgrow.
    { intros n' v' [m Hm]. exists m. by eapply lookup_weaken. }
    destruct (Hlocks n v Hv) as [[Hold Hi']|[HL|?]]; [|right; left; exists i; unfold update; by rewrite decide_True|by right; right].
    destruct (owned_locks _ _ _ _ Ho n v Hold) as [?|[[j Hj]|?]]; [by left| |right; right; by apply Hgrow].
    destruct (decide (j = i)) as [->|Hne].
    + destruct (Hi' Hj) as [?|?]; [right; left; exists i; unfold update; by rewrite decide_True|by right; right].
    + right. left. exists j. unfold update. by rewrite decide_False.
  - done.
Qed.

Lemma left_by_failures_later w w' left :
  w_tick w ≤ w_tick w' → left_by_failures w left → left_by_failures w' left.
Proof.
  intros Hle Hl. eapply map_Forall_impl; [exact Hl|]. intros m [n v] (? & ?). split; [lia|done].
Qed.

(** One more failure. *)
Lemma left_by_failures_insert w w' left n v :
  w_tick w0 ≤ w_tick w → w_tick w < w_tick w' → left_by_failures w left →
  v = w_tick w ∧ is_Some (env_lock env (w_tick w)) ∨ v < w_tick w ∧ is_Some (env_unlock env (w_tick w)) →
  left ⊆ <[w_tick w := (n, v)]> left ∧ left_by_failures w' (<[w_tick w := (n, v)]> left).
Proof.
  intros H0 Hlt Hl Hv. split.
  - apply insert_subseteq. destruct (left !! w_tick w) as [[n' v']|] eqn:Hm; [|done].
    apply Hl in Hm. simpl in Hm. lia.
  - apply map_Forall_insert_2; [|eapply left_by_failures_later; [|done]; lia]. split; [lia|done].
Qed.

(** The locks and the program's own share do not change. *)
Lemma owned_same ps w held left i p p' w' :
  owned ps w held left → ps !! i = Some p → ends_with ∅ (held i) p' → w_locks w' = w_locks w → w_tick w ≤ w_tick w' →
  owned (<[i:=p']> ps) w' (update held i (held i)) left.
Proof using Hw0.
  intros Ho Hp Hp' Hw Hle. eapply owned_update; [done..|by left| | |done|].
  - intros lo n v _ [?|(m & ? & ?)] _; [left; by rewrite Hw|right; exists m; split; [lia|done]].
  - intros n v. rewrite Hw. eauto.
  - by eapply left_by_failures_later, Ho.
Qed.

(** What a call about the key [name] leaves of what was kept. *)
Lemma kept_live lo n v w name :
  lo ≤ w_tick w → kept lo n v w →
  live_locks env (w_tick w) name (w_locks w) !! n = Some v ∨ ∃ m, lo ≤ m ≤ w_tick w ∧ env_expired env m n = true.
Proof.
  intros Hlo [Hn|(m & ? & ?)]; [|right; exists m; split; [lia|done]]. unfold live_locks.
  destruct (env_expired env (w_tick w) name) eqn:He; [|by left].
  destruct (decide (n = name)) as [->|]; [right; by exists (w_tick w)|left; by rewrite lookup_delete_ne].
Qed.

Lemma live_locks_sub n v w name : live_locks env (w_tick w) name (w_locks w) !! n = Some v → w_locks w !! n = Some v.
Proof. unfold live_locks. case_match; [|done]. by intros [_ ?]%lookup_delete_Some. Qed.

Lemma owned_lock_step ps w held left i n (k : nat + (bool * goerr) → prog A) :
  let r := lock_call env (w_tick w) n (w_locks w) in
  owned ps w held left → ps !! i = Some (MutexLock n k) →
  ∃ held' left', owned (<[i:=k (fst r)]> ps) (set_locks (snd r) w) held' left'.
Proof using Hw0.
  intros r Ho Hp. pose proof (owned_ends _ _ _ _ Ho i _ Hp) as [Hfail Hok]. pose proof (owned_tick _ _ _ _ Ho) as Ht.
  pose proof (lock_call_spec env (w_tick w) n (w_locks w)) as Hcall. simpl in Hcall. fold r in Hcall.
  destruct r as [r locks']. destruct Hcall as (Htake & Hstay & Hcome).
  assert (∀ lo n' v, lo ≤ w_tick w → kept lo n' v w → kept lo n' v (set_locks locks' w)) as Hk.
  { intros lo n' v Hlo Hv. destruct (kept_live _ _ _ _ n Hlo Hv) as [?|(m & ? & ?)]; [left; by apply Hstay|].
    right. exists m. simpl. split; [lia|done]. }
  destruct r as [value|e]; simpl.
  - destruct (Htake value eq_refl) as (-> & Hlock & Hfree & Htaken).
    exists (update held i ({[(n, w_tick w)]} ∪ held i)), left. eapply owned_update; [done|done| |simpl; lia|..].
    + apply Hok. intros Hin. apply (owned_values _ _ _ _ Ho) in Hin. lia.
    + intros n' v [[= -> ->]%elem_of_singleton|?]%elem_of_union; [right|by left]. split_and!; [done|simpl; lia|done|].
      intros lo v0 Hlo Hv0. destruct (kept_live _ _ _ _ n Hlo Hv0) as [?|?]; [congruence|done].
    + intros lo n' v Hlo Hv _. by apply Hk.
    + intros n' v Hv. destruct (Hcome n' v Hv) as [?%live_locks_sub|(-> & -> & _)].
      * left. split; [done|]. set_solver.
      * right. left. set_solver.
    + done.
    + eapply left_by_failures_later; [|apply Ho]. simpl. lia.
  - exists (update held i (held i)). destruct (env_lock env (w_tick w)) as [e'|] eqn:Hlock.
    + destruct (left_by_failures_insert w (set_locks locks' w) left n (w_tick w)) as [Hsub Hleft];
        [done|simpl; lia|apply Ho|left; by rewrite Hlock|].
      eexists. eapply owned_update; [done|done|apply Hfail|simpl; lia|by left| | |exact Hsub|exact Hleft].
      * intros lo n' v Hlo Hv _. by apply Hk.
      * intros n' v Hv. destruct (Hcome n' v Hv) as [?%live_locks_sub|(-> & -> & _)]; [by left; eauto|].
        right. right. exists (w_tick w). by rewrite lookup_insert_eq.
    + exists left. eapply owned_update; [done|done|apply Hfail|simpl; lia|by left| | |done|].
      * intros lo n' v Hlo Hv _. by apply Hk.
      * intros n' v Hv. destruct (Hcome n' v Hv) as [?%live_locks_sub|(_ & _ & [?|[? ?]])]; [by left; eauto|done..].
      * eapply left_by_failures_later; [|apply Ho]. simpl. lia.
Qed.

Lemma owned_unlock_step ps w held left i n u (k : result bool → prog A) :
  let r := unlock_call env (w_tick w) n u (w_locks w) in
  owned ps w held left → ps !! i = Some (MutexUnlock n u k) →
  ∃ held' left', owned (<[i:=k (fst r)]> ps) (set_locks (snd r) w) held' left'.
Proof using Hw0.
  intros r Ho Hp. pose proof (owned_ends _ _ _ _ Ho i _ Hp) as [Hin Hok]. pose proof (owned_tick _ _ _ _ Ho) as Ht.
  pose proof (unlock_call_spec env (w_tick w) n u (w_locks w)) as (Hcome & Hstay & Hleft). fold r in Hcome, Hstay, Hleft.
  destruct r as [r locks']. simpl in *.
  assert (∀ left', left ⊆ left' → left_by_failures (set_locks locks' w) left' →
    (is_Some (env_unlock env (w_tick w)) → left' !! w_tick w = Some (n, u)) →
    owned (<[i:=k r]> ps) (set_locks locks' w) (update held i (held i ∖ {[(n, u)]})) left') as Hgo.
  { intros left' Hsub Hfail Hthis. eapply owned_update; [done|done|apply Hok|simpl; lia| | | |done|done].
    - intros n' v ?. left. set_solver.
    - intros lo n' v Hlo Hv Hstill. destruct (kept_live _ _ _ _ n Hlo Hv) as [Hl|(m & ? & ?)].
      2:{ right. exists m. simpl. split; [lia|done]. }
      left. apply Hstay; [done|]. intros [= -> ->]. destruct Hstill as [HF|[j Hj]].
      + apply Hw0 in HF. apply (owned_values _ _ _ _ Ho) in Hin. simpl in HF. lia.
      + unfold update in Hj. case_decide as Hji; [set_solver|]. by apply Hji, (owned_unique _ _ _ _ Ho _ _ _ _ _ Hj Hin).
    - intros n' v Hv. left. split; [by eapply live_locks_sub, Hcome|]. intros Hheld.
      destruct (decide ((n', v) = (n, u))) as [[= -> ->]|]; [right|left; set_solver].
      exists (w_tick w). by apply Hthis, Hleft. }
  exists (update held i (held i ∖ {[(n, u)]})). destruct (env_unlock env (w_tick w)) as [e|] eqn:He.
  - destruct (left_by_failures_insert w (set_locks locks' w) left n u) as [Hsub Hfail];
      [done|simpl; lia|apply Ho|right; rewrite He; apply (owned_values _ _ _ _ Ho) in Hin; split; [lia|done]|].
    eexists. apply Hgo; [exact Hsub|exact Hfail|]. intros _. by rewrite lookup_insert_eq.
  - exists left. apply Hgo; [done|eapply left_by_failures_later; [|apply Ho]; simpl; lia|]. by intros [? ?].
Qed.

Lemma owned_step ps w held left ps' w' :
  owned ps w held left → pool_step env (ps, w) (ps', w') → ∃ held' left', owned ps' w' held' left'.
Proof using Hw0.
  intros Ho Hs. inversion Hs as [ps0 i p p' w1 w1' Hp Hstep]; subst.
  pose proof (owned_ends _ _ _ _ Ho i p Hp) as He. pose proof (owned_tick _ _ _ _ Ho) as Ht.
  destruct p as [a|k|k|k|X q k|X v x0 b k|n k|n u k|x y k|V x y z k|x y z k]; simpl in Hstep, He.
  all: try (injection Hstep as <- <-; eexists _, left; eapply owned_same; [done|done|apply He|done|simpl; lia]).
  - done.
  - pose proof (Within_tick env v x0 b (w_tick w) (w_db w)) as Hle.
    destruct (Within _ _ _ _ _ _) as [[r n'] d']. injection Hstep as <- <-.
    eexists _, left. eapply owned_same; [done|done|apply He|done|done].
  - injection Hstep as <- <-. by eapply owned_lock_step.
  - injection Hstep as <- <-. by eapply owned_unlock_step.
Qed.

Lemma owned_steps ps w held left ps' w' :
  owned ps w held left → pool_steps env (ps, w) (ps', w') → ∃ held' left', owned ps' w' held' left'.
Proof using Hw0.
  intros Ho Hs. remember (ps, w) as c eqn:Hc. remember (ps', w') as c' eqn:Hc'.
  revert ps w held left Hc Ho. induction Hs as [c|c [ps1 w1] c' H1 Hs IH]; intros ps w held left -> Ho.
  - simplify_eq. eauto.
  - destruct (owned_step _ _ _ _ _ _ Ho H1) as (held1 & left1 & Ho1). eauto.
Qed.

Lemma owned_initial ps : Forall balanced ps → owned ps w0 (λ _, ∅) ∅.
Proof using Type.
  clear Hw0. intros Hb. split; [done|..]; [|done|set_solver..| |set_solver|set_solver|by left|by apply map_Forall_empty].
  - intros i p Hp. rewrite Forall_lookup in Hb. by apply (Hb i).
  - by left.
Qed.

(** *** No interleaving goes on for ever *)

Definition next_of p' p : Prop := ∃ w w', step env p w = Some (p', w').

Lemma next_of_wf p : Acc next_of p.
Proof.
  induction p as [a|k IH|k IH|k IH|X q k IH|X v x0 b k IH|n k IH|n u k IH|x y k IH|V x y z k IH|x y z k IH];
    constructor; intros p' (w & w' & Hs); simpl in Hs; try (injection Hs as <- <-; apply IH).
  - done.
  - destruct (Within _ _ _ _ _ _) as [[r n'] d']. injection Hs as <- <-. apply IH.
Qed.

Definition some_next ps' ps : Prop := ∃ i p p', ps !! i = Some p ∧ next_of p' p ∧ ps' = <[i:=p']> ps.

Lemma some_next_acc ps : Acc some_next ps.
Proof.
  induction ps as [|p ps IH].
  { constructor. intros ps' (i & p & p' & Hp & _). done. }
  revert ps IH. induction (next_of_wf p) as [p _ IHp]. intros ps Hps.
  induction Hps as [ps Hps IHps]. constructor. intros ps' ([|i] & q & q' & Hq & Hn & ->); simpl in *.
  - simplify_eq. apply IHp; [done|]. by constructor.
  - apply IHps. by exists i, q, q'.
Qed.

Lemma pool_acc (c : list (prog A) * World) : Acc (λ c' c, pool_step env c c') c.
Proof.
  destruct c as [ps w]. revert w. induction (some_next_acc ps) as [ps _ IH]. intros w.
  constructor. intros c' Hs. inversion Hs as [ps0 i p p' w1 w1' Hp Hstep]; subst.
  apply IH. exists i, p, p'. split_and!; [done|by exists w, w1'|done].
Qed.

(** A program that has not returned has a next call. *)
Lemma step_progress p w : returned p = None → ∃ p' w', step env p w = Some (p', w').
Proof.
  destruct p; simpl; intros Hr; eauto; try done.
  destruct (Within _ _ _ _ _ _) as [[r n'] d']. eauto.
Qed.

Lemma stuck_returned ps w : (∀ c, ¬ pool_step env (ps, w) c) → Forall (λ p, is_Some (returned p)) ps.
Proof.
  intros Hs. apply Forall_lookup. intros i p Hp. destruct (returned p) as [a|] eqn:Hr; [eauto|].
  destruct (step_progress p w Hr) as (p' & w' & Hstep). destruct (Hs (<[i:=p']> ps, w')). by econstructor.
Qed.

Lemma returned_nothing ps w held left i p :
  owned ps w held left → ps !! i = Some p → is_Some (returned p) → held i = ∅.
Proof using Type. clear Hw0. intros Ho Hp [a Ha]. apply (owned_ends _ _ _ _ Ho) in Hp. by destruct p. Qed.

Lemma owned_held_returning ps w held left i :
  owned ps w held left → held i ≠ ∅ → ∃ p, ps !! i = Some p ∧ returned p = None.
Proof using Type.
  clear Hw0. intros Ho Hne. destruct (ps !! i) as [p|] eqn:Hp; [|by rewrite (owned_none _ _ _ _ Ho) in Hne].
  exists p. split; [done|]. destruct (returned p) eqn:Hr; [|done].
  by rewrite (returned_nothing _ _ _ _ _ _ Ho Hp) in Hne by (by rewrite Hr).
Qed.

(** When no program can go on: what is in Redis, and what was there and has not expired. *)
Lemma owned_stuck ps w held left :
  owned ps w held left → (∀ c, ¬ pool_step env (ps, w) c) →
  Forall (λ p, is_Some (returned p)) ps ∧
  (∀ n v, w_locks w !! n = Some v → F !! n = Some v ∨ ∃ m, left !! m = Some (n, v)) ∧
  (∀ n v, F !! n = Some v → kept (w_tick w0) n v w).
Proof using Type.
  clear Hw0. intros Ho Hstuck. pose proof (stuck_returned _ _ Hstuck) as Hall. split; [done|]. split; [|apply Ho].
  intros n v Hv. destruct (owned_locks _ _ _ _ Ho n v Hv) as [?|[[i Hi]|?]]; [by left| |by right].
  destruct (owned_held_returning _ _ _ _ i Ho) as (p & Hp & Hr); [set_solver|].
  rewrite Forall_lookup in Hall. destruct (Hall i p Hp) as [a Ha]. by rewrite Ha in Hr.
Qed.

End Pool.

(** Nothing fails and nothing expires from call [n] on. *)
Definition locks_calm (env : Env) (n : nat) : Prop :=
  ∀ m, n ≤ m → env_lock env m = None ∧ env_unlock env m = None ∧ ∀ key, env_expired env m key = false.

(** Then what is left at the end is what was there. *)
Lemma nothing_left env w w' left :
  left_by_failures env w w' left → locks_calm env (w_tick w) →
  (∀ n v, w_locks w' !! n = Some v → w_locks w !! n = Some v ∨ ∃ m, left !! m = Some (n, v)) →
  (∀ n v, w_locks w !! n = Some v → kept env (w_tick w) n v w') →
  w_locks w' = w_locks w.
Proof.
  intros Hleft Hcalm Hl Hk. apply map_eq. intros n. apply option_eq. intros v. split; intros Hv.
  - destruct (Hl n v Hv) as [?|[m Hm]]; [done|]. destruct (Hleft _ _ Hm) as ([Hle _] & Hf).
    destruct (Hcalm m Hle) as (H1 & H2 & _). rewrite H1, H2 in Hf. destruct Hf as [(_ & [? ?])|(_ & [? ?])]; done.
  - destruct (Hk n v Hv) as [?|(m & [Hle _] & Hm)]; [done|]. destruct (Hcalm m Hle) as (_ & _ & He). by rewrite He in Hm.
Qed.

Section Requests.
Context `{Platform}.


End Requests.
