(* ===== verification/DictionaryProofs.v ===== *)
(** * Properties of the organization dictionary

    Trees are bounded, and complete when they are not reported as truncated; the
    ancestor search keeps exactly the matches and the units above them; sorting
    orders by the requested key; pages partition the result. *)

From Stdlib Require Import Ascii.
From stdpp Require Import base gmap list strings sorting.
From S2P Require Import Prelude GoErrors Model Store Effects Platform.
From S2P Require Import Repository Dictionary.

(** ** Measures of a forest *)

Fixpoint tree_size (n : OrganizationTreeNode) : Z :=
  match n with
  | Build_OrganizationTreeNode _ children _ =>
      (1 + (fix go (l : list OrganizationTreeNode) : Z :=
              match l with [] => 0 | n :: l' => tree_size n + go l' end) children)%Z
  end.

Fixpoint forest_size (l : list OrganizationTreeNode) : Z :=
  match l with [] => 0%Z | n :: l' => (tree_size n + forest_size l')%Z end.

Lemma tree_size_node u l h : tree_size (Build_OrganizationTreeNode u l h) = (1 + forest_size l)%Z.
Proof. done. Qed.

Lemma forest_size_cons n l : forest_size (n :: l) = (tree_size n + forest_size l)%Z.
Proof. done. Qed.

Lemma forest_size_nil : forest_size [] = 0%Z.
Proof. done. Qed.

Lemma tree_size_pos : ∀ n, (1 ≤ tree_size n)%Z.
Proof.
  fix IH 1. intros [u l h]. rewrite tree_size_node.
  assert (0 ≤ forest_size l)%Z; [|lia].
  induction l as [|n l IHl]; [done|]. rewrite forest_size_cons. specialize (IH n). lia.
Qed.

Lemma forest_size_pos l : (0 ≤ forest_size l)%Z.
Proof.
  induction l as [|n l IHl]; [done|]. rewrite forest_size_cons. pose proof (tree_size_pos n). lia.
Qed.

Arguments tree_size : simpl never.
Arguments forest_size : simpl never.

(** The forest has at most [k] levels. *)
Inductive forest_depth : nat → list OrganizationTreeNode → Prop :=
| depth_nil k : forest_depth k []
| depth_cons k n l :
    forest_depth k (OrganizationTreeNode_Children n) → forest_depth (S k) l →
    forest_depth (S k) (n :: l).

Section Trees.
Context (items : list OrganizationUnit) (maxNodes : Z).

(** The loop of [build] over the children of one parent, by itself. *)
Fixpoint build_loop (levels : nat) (ancestors : gset string) (l : list OrganizationUnit)
    (st : BuildState) : list OrganizationTreeNode * BuildState :=
  match l with
  | [] => ([], st)
  | item :: l' =>
      if (maxNodes <=? build_count st)%Z then ([], Build_BuildState (build_count st) true)
      else if bool_decide (OrganizationUnit_ID item ∈ ancestors) then
        build_loop levels ancestors l' (Build_BuildState (build_count st) true)
      else
        let '(sub, st) :=
          build_tree items maxNodes levels (OrganizationUnit_ID item)
            ({[OrganizationUnit_ID item]} ∪ ancestors)
            (Build_BuildState (build_count st + 1) (build_truncated st)) in
        let node := Build_OrganizationTreeNode item sub
          (0 <? Z.of_nat (length (children_of items (OrganizationUnit_ID item))))%Z in
        let '(nodes, st) := build_loop levels ancestors l' st in
        (node :: nodes, st)
  end.

Lemma build_tree_S levels parent ancestors st :
  build_tree items maxNodes (S levels) parent ancestors st =
  build_loop levels ancestors (children_of items parent) st.
Proof.
  simpl. generalize (children_of items parent) as l. intros l. revert st.
  induction l as [|item l IH]; intros st; simpl; [done|].
  case_match; [done|]. case_bool_decide; [apply IH|].
  destruct (build_tree _ _ _ _ _ _) as [sub st1]. by rewrite IH.
Qed.

(** What [build] promises of a forest and of the variables it leaves. *)
Definition build_ok (levels : nat) (st : BuildState)
    (r : list OrganizationTreeNode * BuildState) : Prop :=
  forest_depth levels (fst r) ∧
  build_count (snd r) = (build_count st + forest_size (fst r))%Z ∧
  (build_count st ≤ maxNodes → build_count (snd r) ≤ maxNodes)%Z ∧
  (build_truncated st = true → build_truncated (snd r) = true).

Lemma build_loop_ok levels ancestors l st :
  (∀ parent ancestors st, build_ok levels st (build_tree items maxNodes levels parent ancestors st)) →
  build_ok (S levels) st (build_loop levels ancestors l st).
Proof.
  intros Hb. revert st. induction l as [|item l IH]; intros st; simpl.
  { repeat split; simpl; rewrite ?forest_size_nil; [constructor|lia|done..]. }
  case_match; reflect_bools.
  { repeat split; simpl; rewrite ?forest_size_nil; [constructor|lia|done..]. }
  case_bool_decide.
  { destruct (IH (Build_BuildState (build_count st) true)) as (Hd & Hc & Hm & Ht).
    repeat split; simpl in *; auto. }
  match goal with |- context [build_tree items maxNodes levels ?p ?a ?s] =>
    destruct (Hb p a s) as (Hd & Hc & Hm & Ht); destruct (build_tree items maxNodes levels p a s) as [sub st1] end.
  destruct (IH st1) as (Hd' & Hc' & Hm' & Ht'). destruct (build_loop levels ancestors l st1) as [nodes st2].
  simpl in *. split_and!.
  - by constructor.
  - cbn [fst snd]. rewrite forest_size_cons, tree_size_node. lia.
  - cbn [snd]. intros. apply Hm', Hm. lia.
  - cbn [snd]. auto.
Qed.

Lemma build_tree_ok levels parent ancestors st :
  build_ok levels st (build_tree items maxNodes levels parent ancestors st).
Proof.
  revert parent ancestors st. induction levels as [|levels IH]; intros parent ancestors st.
  - repeat split; simpl; rewrite ?forest_size_nil; [constructor|lia|done|]. by intros ->.
  - rewrite build_tree_S. by apply build_loop_ok.
Qed.

(** *** Complete forests *)

(** The whole forest below a parent: all its children in path order, each with
    the whole forest below it. *)
Inductive whole_forest (parent : string) (nodes : list OrganizationTreeNode) : Prop :=
| whole_forest_intro :
    map OrganizationTreeNode_Item nodes = children_of items parent →
    (∀ n, n ∈ nodes →
       OrganizationTreeNode_HasChildren n
       = bool_decide (children_of items (OrganizationUnit_ID (OrganizationTreeNode_Item n)) ≠ [])) →
    (∀ n, n ∈ nodes →
       whole_forest (OrganizationUnit_ID (OrganizationTreeNode_Item n))
         (OrganizationTreeNode_Children n)) →
    whole_forest parent nodes.

Lemma has_children_bool {A} (l : list A) :
  (0 <? Z.of_nat (length l))%Z = bool_decide (l ≠ []).
Proof. by destruct l. Qed.

(** A node of the forest [build_loop] makes for [l]. *)
Definition whole_node (n : OrganizationTreeNode) : Prop :=
  OrganizationTreeNode_HasChildren n
  = bool_decide (children_of items (OrganizationUnit_ID (OrganizationTreeNode_Item n)) ≠ []) ∧
  whole_forest (OrganizationUnit_ID (OrganizationTreeNode_Item n)) (OrganizationTreeNode_Children n).

Lemma build_loop_whole levels ancestors l st :
  (∀ parent ancestors st nodes st',
     build_tree items maxNodes levels parent ancestors st = (nodes, st') →
     build_truncated st' = false → whole_forest parent nodes) →
  build_truncated (snd (build_loop levels ancestors l st)) = false →
  map OrganizationTreeNode_Item (fst (build_loop levels ancestors l st)) = l ∧
  ∀ n, n ∈ fst (build_loop levels ancestors l st) → whole_node n.
Proof.
  intros Hb. revert st. induction l as [|item l IH]; intros st; simpl.
  { intros _. split; [done|]. set_solver. }
  case_match; [done|]. case_bool_decide.
  { intros Ht. pose proof (build_loop_ok levels ancestors l (Build_BuildState (build_count st) true))
      as (_ & _ & _ & Hm); [apply build_tree_ok|]. by rewrite Hm in Ht. }
  destruct (build_tree items maxNodes levels _ _ _) as [sub st1] eqn:Hsub.
  specialize (IH st1). pose proof (build_loop_ok levels ancestors l st1 (build_tree_ok levels))
    as (_ & _ & _ & Hm).
  destruct (build_loop levels ancestors l st1) as [nodes st2]. simpl in *. intros Ht.
  destruct (IH Ht) as [Hmap Hn]. split; [by rewrite Hmap|].
  intros n [->|?]%elem_of_cons; [|by apply Hn]. split; simpl; [apply has_children_bool|].
  eapply Hb; [done|]. destruct (build_truncated st1); [|done]. by rewrite Hm in Ht.
Qed.

Lemma build_tree_whole levels parent ancestors st nodes st' :
  build_tree items maxNodes levels parent ancestors st = (nodes, st') →
  build_truncated st' = false → whole_forest parent nodes.
Proof.
  revert parent ancestors st nodes st'.
  induction levels as [|levels IH]; intros parent ancestors st nodes st'.
  - simpl. intros [= <- <-]. simpl. intros [_ Hl]%orb_false_iff. apply Z.ltb_ge in Hl.
    destruct (children_of items parent) eqn:Hc; [|simpl in Hl; lia].
    constructor; [done|set_solver..].
  - rewrite build_tree_S. intros Hl Ht.
    destruct (build_loop_whole levels ancestors (children_of items parent) st IH) as [Hm Hn];
      [by rewrite Hl|]. rewrite Hl in Hm, Hn. constructor; [done|intros n Hin; by destruct (Hn n Hin)..].
Qed.

(** A forest that fits the limits is built. *)

Lemma whole_forest_unique parent F F' : whole_forest parent F → whole_forest parent F' → F = F'.
Proof.
  intros HF. revert F'. induction HF as [parent F Hm Hh Hc IH]. intros F' [Hm' Hh' Hc'].
  assert (map OrganizationTreeNode_Item F = map OrganizationTreeNode_Item F') as He by congruence.
  clear Hm Hm'. revert F' He Hh' Hc'. induction F as [|n F IHF]; intros [|n' F'] He Hh' Hc'; try done.
  simpl in He. injection He as He HeF. f_equal.
  - assert (OrganizationTreeNode_Children n = OrganizationTreeNode_Children n') as Hs.
    { apply IH; [set_solver|]. rewrite He. apply Hc'. set_solver. }
    assert (OrganizationTreeNode_HasChildren n = OrganizationTreeNode_HasChildren n') as Hhn.
    { rewrite Hh, Hh' by set_solver. by rewrite He. }
    destruct n, n'. simpl in *. congruence.
  - apply IHF; [set_solver..|done|set_solver|set_solver].
Qed.

Lemma build_loop_fits levels ancestors l st F :
  (∀ parent ancestors st F, whole_forest parent F → forest_depth levels F →
     (build_count st + forest_size F ≤ maxNodes)%Z →
     (∀ a F', a ∈ ancestors → whole_forest a F' → forest_size F ≤ forest_size F')%Z →
     build_tree items maxNodes levels parent ancestors st
     = (F, Build_BuildState (build_count st + forest_size F) (build_truncated st))) →
  map OrganizationTreeNode_Item F = l → (∀ n, n ∈ F → whole_node n) → forest_depth (S levels) F →
  (build_count st + forest_size F ≤ maxNodes)%Z →
  (∀ a F', a ∈ ancestors → whole_forest a F' → forest_size F ≤ forest_size F')%Z →
  build_loop levels ancestors l st
  = (F, Build_BuildState (build_count st + forest_size F) (build_truncated st)).
Proof.
  intros Hb <-. revert st. induction F as [|n F IH]; intros st Hn Hd Hs Ha; simpl.
  { rewrite forest_size_nil, Z.add_0_r. by destruct st. }
  inversion Hd as [|? ? ? Hdn HdF]; subst. rewrite forest_size_cons in *.
  destruct (Hn n) as [Hh Hw]; [set_solver|].
  pose proof (forest_size_pos F) as HposF. destruct n as [u sub h]. simpl in *.
  rewrite tree_size_node in *. pose proof (forest_size_pos sub) as Hpos.
  rewrite (proj2 (Z.leb_gt _ _)) by lia.
  rewrite bool_decide_eq_false_2.
  2:{ intros Hin. specialize (Ha _ _ Hin Hw). lia. }
  rewrite Hb with (F := sub); [|done..|simpl; lia|].
  2:{ intros a F' [->%elem_of_singleton|Hin]%elem_of_union Hw'.
      - by rewrite (whole_forest_unique _ _ _ Hw Hw').
      - specialize (Ha _ _ Hin Hw'). lia. }
  rewrite IH; simpl; [|set_solver|done|lia|].
  2:{ intros a F' Hin Hw'. specialize (Ha _ _ Hin Hw'). lia. }
  rewrite has_children_bool, <- Hh. do 2 f_equal. lia.
Qed.

Lemma build_tree_fits levels parent ancestors st F :
  whole_forest parent F → forest_depth levels F →
  (build_count st + forest_size F ≤ maxNodes)%Z →
  (∀ a F', a ∈ ancestors → whole_forest a F' → forest_size F ≤ forest_size F')%Z →
  build_tree items maxNodes levels parent ancestors st
  = (F, Build_BuildState (build_count st + forest_size F) (build_truncated st)).
Proof.
  revert parent ancestors st F. induction levels as [|levels IH]; intros parent ancestors st F HF Hd Hs Ha.
  - destruct HF as [Hm _ _]. inversion Hd; subst. simpl in *. rewrite <- Hm. simpl.
    by rewrite orb_false_r, forest_size_nil, Z.add_0_r.
  - rewrite build_tree_S. destruct HF as [Hm Hh Hc]. apply build_loop_fits; auto.
    intros n Hn. split; auto.
Qed.

End Trees.

(** (C26) The tree builder is exact: it answers "not truncated" precisely with the
    whole forest below the requested root -- every unit, in path order, with all of
    its descendants -- when that forest exists within [maxDepth] levels and
    [maxNodes] nodes. In particular a cycle of parents, a level or a node too many
    is always reported. *)
Theorem organization_tree_exact items mode parentID maxDepth maxNodes nodes :
  (0 ≤ maxNodes)%Z →
  buildOrganizationTree items mode parentID maxDepth maxNodes = (nodes, false) ↔
  whole_forest items (if mode =?s "children" then parentID else "") nodes ∧
  forest_depth (Z.to_nat maxDepth) nodes ∧ (forest_size nodes ≤ maxNodes)%Z.
Proof.
  intros Hm. unfold buildOrganizationTree. set (root := if mode =?s "children" then parentID else ""). split.
  - pose proof (build_tree_ok items maxNodes (Z.to_nat maxDepth) root ∅ (Build_BuildState 0 false))
      as (Hd & Hc & Hb & _).
    destruct (build_tree _ _ _ _ _ _) as [F st] eqn:Hbuild. simpl in *.
    intros [= <- Ht]. split_and!; [by eapply build_tree_whole|done|lia].
  - intros (HF & Hd & Hs). by rewrite build_tree_fits with (F := nodes) by (done || set_solver || lia).
Qed.

(** ** Ancestors *)

Lemma filter_bool_sublist {A} (p : A → bool) l : List.filter p l `sublist_of` l.
Proof. induction l as [|x l IH]; simpl; [done|]. case_match; by constructor. Qed.

Section Ancestors.
Context `{Platform}.
Context (items : list OrganizationUnit).
(** Identifiers are unique: they are the table's primary key. *)
Context (Hid : NoDup (map OrganizationUnit_ID items)).

(** [above u v]: [v] is [u], or is reached from [u] by parent pointers inside
    [items], without passing an empty identifier. *)
Inductive above : OrganizationUnit → OrganizationUnit → Prop :=
| above_self u : u ∈ items → OrganizationUnit_ID u ≠ "" → above u u
| above_parent u p v :
    u ∈ items → OrganizationUnit_ID u ≠ "" → p ∈ items →
    OrganizationUnit_ParentID u = OrganizationUnit_ID p → above p v → above u v.

Lemma index_lookup l (m : gmap string OrganizationUnit) k u :
  NoDup (map OrganizationUnit_ID l) →
  (foldl (λ m item, <[OrganizationUnit_ID item := item]> m) m l) !! k = Some u ↔
  (u ∈ l ∧ OrganizationUnit_ID u = k) ∨ (k ∉ map OrganizationUnit_ID l ∧ m !! k = Some u).
Proof.
  revert m. induction l as [|i l IH]; intros m Hnd; simpl in *.
  { set_solver. }
  apply NoDup_cons in Hnd as [Hi Hnd]. rewrite IH by done. rewrite lookup_insert_Some.
  assert (∀ x, x ∈ l → OrganizationUnit_ID x ∈ map OrganizationUnit_ID l) as Hin.
  { intros x Hx. apply list_elem_of_fmap. eauto. }
  split.
  - intros [[? ?]|[Hk [[<- <-]|[Hne Hm]]]]; [set_solver..|]. right. set_solver.
  - intros [[[->|Hu]%elem_of_cons <-]|[Hk Hm]]; [right; auto|set_solver|]. right. set_solver.
Qed.

Lemma byID_lookup k u : index_by_id items !! k = Some u ↔ u ∈ items ∧ OrganizationUnit_ID u = k.
Proof using Hid. unfold index_by_id. rewrite index_lookup by done. set_solver. Qed.

(** The unit whose parent the loop looks up next. *)
Definition parent_of (u : OrganizationUnit) : OrganizationUnit :=
  default OrganizationUnit0 (index_by_id items !! OrganizationUnit_ParentID u).

Lemma parent_of_cases u :
  (∃ p, p ∈ items ∧ OrganizationUnit_ID p = OrganizationUnit_ParentID u ∧ parent_of u = p) ∨
  OrganizationUnit_ID (parent_of u) = "".
Proof using Hid.
  unfold parent_of. destruct (index_by_id items !! _) as [p|] eqn:Hp; [|by right].
  apply byID_lookup in Hp as [? ?]. left. eauto.
Qed.

Lemma id_inj u v : u ∈ items → v ∈ items → OrganizationUnit_ID u = OrganizationUnit_ID v → u = v.
Proof using Hid.
  intros Hu Hv He. apply (inj Some). rewrite <- (proj2 (byID_lookup (OrganizationUnit_ID u) u)) by done.
  rewrite He. by apply byID_lookup.
Qed.

(** The parents of kept units are kept, but for the unit [cur] the loop is at. *)
Definition parents_kept (keep : gset string) (cur : OrganizationUnit) : Prop :=
  ∀ x p, x ∈ items → p ∈ items → OrganizationUnit_ID x ∈ keep →
    OrganizationUnit_ParentID x = OrganizationUnit_ID p → OrganizationUnit_ID p ≠ "" →
    OrganizationUnit_ID p ∈ keep ∨ p = cur.

Lemma above_kept keep u v :
  parents_kept keep OrganizationUnit0 → OrganizationUnit_ID u ∈ keep → above u v →
  OrganizationUnit_ID v ∈ keep.
Proof.
  intros Hk Hu Ha. induction Ha as [u Hin Hne|u p v Hin Hne Hp He Ha IH]; [done|]. apply IH.
  assert (OrganizationUnit_ID p ≠ "") as Hpn by (by destruct Ha).
  destruct (Hk u p Hin Hp Hu He Hpn) as [?| ->]; [done|]. done.
Qed.

Lemma above_in u v : above u v → u ∈ items ∧ v ∈ items.
Proof. intros Ha. induction Ha; naive_solver. Qed.

Lemma index_size : size (dom (index_by_id items)) ≤ length items.
Proof using Hid.
  rewrite <- (length_map OrganizationUnit_ID items), <- (size_list_to_set (C := gset string)) by done.
  apply subseteq_size. intros k [u [Hu <-]%byID_lookup]%elem_of_dom.
  apply elem_of_list_to_set, list_elem_of_fmap. eauto.
Qed.

(** One chain: the set that comes out, and that the turns suffice. *)
Lemma keep_chain_spec fuel cur keep :
  cur ∈ items ∨ OrganizationUnit_ID cur = "" → parents_kept keep cur →
  size (dom (index_by_id items) ∖ keep) < fuel →
  ∃ keep', keep_chain fuel (index_by_id items) cur keep = Some keep' ∧
    parents_kept keep' OrganizationUnit0 ∧ keep ⊆ keep' ∧
    (OrganizationUnit_ID cur ≠ "" → OrganizationUnit_ID cur ∈ keep') ∧
    ∀ k, k ∈ keep' → k ∈ keep ∨ ∃ v, above cur v ∧ OrganizationUnit_ID v = k.
Proof using Hid.
  revert cur keep. induction fuel as [|fuel IH]; intros cur keep Hcur Hk Hf; [lia|].
  simpl. destruct (String.eqb_spec (OrganizationUnit_ID cur) "") as [He|Hne]; simpl.
  { exists keep. split_and!; [done| |done|done|auto]. intros x p Hx Hp Hxk Hpar Hpn.
    destruct (Hk x p Hx Hp Hxk Hpar Hpn) as [?| ->]; [by left|done]. }
  destruct Hcur as [Hcur|?]; [|done]. case_bool_decide as Hin.
  { exists keep. split_and!; [done| |done|done|auto]. intros x p Hx Hp Hxk Hpar Hpn.
    destruct (Hk x p Hx Hp Hxk Hpar Hpn) as [?| ->]; by left. }
  fold (parent_of cur). pose proof (parent_of_cases cur) as Hpc.
  destruct (IH (parent_of cur) ({[OrganizationUnit_ID cur]} ∪ keep)) as (keep' & Hr & Hk' & Hsub & Hc & Hs).
  - destruct Hpc as [(p & Hp & _ & ->)|?]; auto.
  - intros x p Hx Hp Hxk Hpar Hpn. apply elem_of_union in Hxk as [Hxc%elem_of_singleton|Hxk].
    + apply id_inj in Hxc as ->; [|done..]. right. unfold parent_of. rewrite Hpar.
      by rewrite (proj2 (byID_lookup (OrganizationUnit_ID p) p)).
    + destruct (Hk x p Hx Hp Hxk Hpar Hpn) as [?| ->]; left; set_solver.
  - eapply Nat.lt_le_trans; [|apply PeanoNat.lt_n_Sm_le, Hf]. apply subset_size.
    assert (OrganizationUnit_ID cur ∈ dom (index_by_id items)); [|set_solver].
    apply elem_of_dom. exists cur. by apply byID_lookup.
  - exists keep'. split_and!; [done|done|set_solver|set_solver|]. intros k Hkk.
    destruct (Hs k Hkk) as [[->%elem_of_singleton|?]%elem_of_union|(v & Hv & Hvk)]; [|by left|].
    + right. exists cur. split; [by constructor|done].
    + right. exists v. split; [|done]. destruct Hpc as [(p & Hp & Hpi & He)|He].
      * rewrite He in Hv. by eapply above_parent.
      * by destruct Hv.
Qed.

Arguments keep_chain : simpl never.

(** All matches: the identifiers above them. *)
Lemma keep_matches_spec keyword l keep :
  l ⊆ items → parents_kept keep OrganizationUnit0 →
  ∃ keep', keep_matches (S (length items)) (index_by_id items) keyword l keep = Some keep' ∧
    parents_kept keep' OrganizationUnit0 ∧
    ∀ k, k ∈ keep' ↔ k ∈ keep ∨
      ∃ u v, u ∈ l ∧ keyword_hit keyword u = true ∧ above u v ∧ OrganizationUnit_ID v = k.
Proof using Hid.
  revert keep. induction l as [|u l IH]; intros keep Hl Hk; simpl.
  { exists keep. split_and!; [done..|]. set_solver. }
  destruct (keyword_hit keyword u) eqn:Hu; simpl.
  - destruct (keep_chain_spec (S (length items)) u keep) as (k1 & -> & Hk1 & Hsub & Hc & Hs).
    + left. set_solver.
    + intros x p Hx Hp Hxk Hpar Hpn. destruct (Hk x p Hx Hp Hxk Hpar Hpn) as [?| ->]; [by left|done].
    + apply Nat.lt_succ_r. etrans; [|exact index_size]. apply subseteq_size. set_solver.
    + destruct (IH k1) as (k2 & -> & Hk2 & Hs2); [set_solver|done|]. exists k2. split_and!; [done..|].
      intros k. rewrite Hs2. split.
      * intros [[?|(v & ? & ?)]%Hs|(x & v & ? & ?)]; [by left|right; exists u, v; set_solver|right; exists x, v; set_solver].
      * intros [?|(x & v & [->|?]%elem_of_cons & ? & Ha & <-)]; [left; set_solver| |right; by exists x, v].
        left. eapply above_kept; [done| |done]. apply Hc. by destruct Ha.
  - destruct (IH keep) as (k2 & -> & Hk2 & Hs2); [set_solver|done|]. exists k2. split_and!; [done..|].
    intros k. rewrite Hs2. split; [|].
    + intros [?|(x & v & ? & ?)]; [by left|right; exists x, v; set_solver].
    + intros [?|(x & v & [->|?]%elem_of_cons & ? & ?)]; [by left|congruence|right; by exists x, v].
Qed.

(** The ancestor search of the dictionary terminates within its turns, also
    when parents form a cycle, and keeps -- in the original order -- exactly the
    units that match the keyword in code or name and the units above a match. *)
Theorem ancestors_search_exact keyword :
  ∃ kept, withOrganizationAncestors items keyword = Some kept ∧ kept `sublist_of` items ∧
  ∀ v, v ∈ kept ↔
    ∃ u, u ∈ items ∧ keyword_hit (ToLower (TrimSpace keyword)) u = true ∧ above u v.
Proof using Hid.
  unfold withOrganizationAncestors.
  destruct (keep_matches_spec (ToLower (TrimSpace keyword)) items ∅) as (keep & -> & _ & Hk);
    [done|intros x p _ _ Hx; set_solver|].
  eexists. split_and!; [done|apply filter_bool_sublist|]. intros v.
  rewrite elem_of_filter_bool, bool_decide_eq_true, Hk. split.
  - intros [[?|(u & v' & Hu & Hh & Ha & He)] Hv]; [set_solver|]. exists u. split_and!; [done..|].
    rewrite <- (id_inj v' v); [done| |done|done]. by destruct (above_in _ _ Ha).
  - intros (u & Hu & Hh & Ha). split; [|by destruct (above_in _ _ Ha)]. right. by exists u, v.
Qed.

End Ancestors.

(** ** Sorting *)

Lemma string_lt_trans s t u : String.ltb s t = true → String.ltb t u = true → String.ltb s u = true.
Proof.
  unfold String.ltb. revert t u. induction s as [|a s IH]; intros [|b t] [|c u]; simpl; try done.
  specialize (IH t u). unfold Ascii.compare.
  destruct (N.compare_spec (N_of_ascii a) (N_of_ascii b)) as [Hab|Hab|Hab]; [|intros _|done];
    (destruct (N.compare_spec (N_of_ascii b) (N_of_ascii c)) as [Hbc|Hbc|Hbc]; [|intros _|done]).
  - by rewrite Hab, Hbc, N.compare_refl.
  - intros _. by rewrite (proj2 (N.compare_lt_iff (N_of_ascii a) (N_of_ascii c))) by lia.
  - by rewrite (proj2 (N.compare_lt_iff (N_of_ascii a) (N_of_ascii c))) by lia.
  - by rewrite (proj2 (N.compare_lt_iff (N_of_ascii a) (N_of_ascii c))) by lia.
Qed.

Lemma string_lt_irrefl s : String.ltb s s = false.
Proof.
  unfold String.ltb. induction s as [|a s IH]; simpl; [done|]. unfold Ascii.compare.
  by rewrite N.compare_refl.
Qed.

Lemma string_lt_total s t : String.ltb s t = true ∨ s = t ∨ String.ltb t s = true.
Proof.
  unfold String.ltb. rewrite (String.compare_antisym t s).
  destruct (String.compare s t) eqn:Hc; simpl; auto.
  right; left. by apply String.compare_eq_iff.
Qed.

(** The order before [descending]: by key, then by identifier. *)
Definition unit_lt (field : string) (a b : OrganizationUnit) : Prop :=
  String.ltb (organization_sort_key field a) (organization_sort_key field b) = true ∨
  (organization_sort_key field a = organization_sort_key field b ∧
   String.ltb (OrganizationUnit_ID a) (OrganizationUnit_ID b) = true).

Lemma organization_less_iff field descending a b :
  organization_less field descending a b = true ↔
  if descending then unit_lt field b a else unit_lt field a b.
Proof.
  unfold organization_less, unit_lt.
  destruct (String.eqb_spec (organization_sort_key field a) (organization_sort_key field b)) as [->|Hne];
    destruct descending; rewrite ?string_lt_irrefl; naive_solver.
Qed.

Lemma unit_lt_trans field a b c : unit_lt field a b → unit_lt field b c → unit_lt field a c.
Proof.
  unfold unit_lt. intros [Hab|[Hab Hab']] [Hbc|[Hbc Hbc']];
    rewrite ?Hab, ?Hbc in *; eauto using string_lt_trans.
Qed.

Lemma unit_lt_cases field a b :
  unit_lt field a b ∨ unit_lt field b a ∨
  (organization_sort_key field a = organization_sort_key field b ∧
   OrganizationUnit_ID a = OrganizationUnit_ID b).
Proof.
  unfold unit_lt.
  destruct (string_lt_total (organization_sort_key field a) (organization_sort_key field b)) as [?|[He|?]];
    auto. destruct (string_lt_total (OrganizationUnit_ID a) (OrganizationUnit_ID b)) as [?|[?|?]]; auto.
Qed.

Lemma unit_lt_irrefl field a b :
  organization_sort_key field a = organization_sort_key field b →
  OrganizationUnit_ID a = OrganizationUnit_ID b → ¬ unit_lt field a b.
Proof.
  unfold unit_lt. intros -> ->. rewrite !string_lt_irrefl. naive_solver.
Qed.

(** Not less the other way round. *)
Definition unit_le (field : string) (descending : bool) (a b : OrganizationUnit) : bool :=
  negb (organization_less field descending b a).

Lemma unit_le_iff field (descending : bool) a b :
  unit_le field descending a b = true ↔
  ¬ (if descending then unit_lt field a b else unit_lt field b a).
Proof.
  unfold unit_le. rewrite negb_true_iff, <- not_true_iff_false, organization_less_iff.
  by destruct descending.
Qed.

Lemma not_unit_lt_trans field a b c :
  ¬ unit_lt field b a → ¬ unit_lt field c b → ¬ unit_lt field c a.
Proof.
  intros Hba Hcb Hca. destruct (unit_lt_cases field a b) as [Hab|[?|[Hk Hi]]]; [|done|].
  - apply Hcb. by eapply unit_lt_trans.
  - apply Hcb. unfold unit_lt in *. by rewrite <- Hk, <- Hi.
Qed.

#[export] Instance unit_le_trans field descending : Transitive (brel (unit_le field descending)).
Proof.
  intros a b c. unfold brel. rewrite !unit_le_iff. destruct descending; intros.
  - by eapply (not_unit_lt_trans field c b a).
  - by eapply (not_unit_lt_trans field a b c).
Qed.

#[export] Instance unit_le_total field descending : Total (brel (unit_le field descending)).
Proof.
  intros a b. unfold brel. rewrite !unit_le_iff.
  assert (¬ unit_lt field a b ∨ ¬ unit_lt field b a) as [?|?].
  - destruct (unit_lt_cases field a b) as [Hab|[Hba|[Hk Hi]]].
    + right. intros Hba. by eapply (unit_lt_irrefl field a a), unit_lt_trans.
    + left. intros Hab. by eapply (unit_lt_irrefl field a a), unit_lt_trans.
    + left. by apply unit_lt_irrefl.
  - destruct descending; auto.
  - destruct descending; auto.
Qed.

(** Sorting keeps the units and orders them: nobody comes after a unit it is
    less than, by the requested key (path by default) in byte order and, for equal
    keys, by identifier; [descending] reverses the order. *)
Theorem organization_sort_correct items field (descending : bool) :
  sortOrganizationUnits items field descending ≡ₚ items ∧
  StronglySorted (λ a b, ¬ if descending then unit_lt field a b else unit_lt field b a)
    (sortOrganizationUnits items field descending).
Proof.
  split; [apply sort_by_Permutation|].
  assert (StronglySorted (brel (unit_le field descending)) (sortOrganizationUnits items field descending))
    as Hs by apply (StronglySorted_merge_sort (brel (unit_le field descending))).
  clear -Hs. induction Hs as [|a l Hl IH Hf]; constructor; [done|].
  eapply Forall_impl; [done|]. intros b Hb. by apply unit_le_iff.
Qed.

(** ** Pages *)

(** Page [p] of size [k], counted from 1. *)
Definition page_of {A} (l : list A) (p k : Z) : list A :=
  take (Z.to_nat k) (drop (Z.to_nat ((p - 1) * k)) l).

Lemma page_of_concat {A} (l : list A) (k : Z) (n : nat) :
  (0 ≤ k)%Z →
  concat (map (λ i, page_of l (Z.of_nat (S i)) k) (seq 0 n)) = take (n * Z.to_nat k) l.
Proof.
  intros Hk. induction n as [|n IH]; [done|].
  rewrite seq_S, map_app, concat_app, IH. simpl. rewrite app_nil_r. unfold page_of.
  replace (Z.to_nat ((Z.of_nat (S n) - 1) * k)) with (n * Z.to_nat k)%nat by nia.
  rewrite Nat.add_comm, take_take_drop. done.
Qed.

(** The slice [items[start:end]] of [Query], with its wrap-around. *)
Lemma slice_page {A} (l : list A) p k :
  (1 ≤ p ≤ 2 ^ 56)%Z → (1 ≤ k ≤ 100)%Z →
  (if (Z.of_nat (length l) <=? wrap64 (wrap64 (p - 1) * k))%Z then Some []
   else if (wrap64 (wrap64 (p - 1) * k) <? 0)%Z then None
   else Some (take (Z.to_nat (Z.min (wrap64 (wrap64 (wrap64 (p - 1) * k) + k)) (Z.of_nat (length l))
                              - wrap64 (wrap64 (p - 1) * k)))
                (drop (Z.to_nat (wrap64 (wrap64 (p - 1) * k))) l)))
  = Some (page_of l p k).
Proof.
  intros Hp Hk. unfold page_of. rewrite (wrap64_id (p - 1)) by (unfold in_int64, min_int64, max_int64; lia).
  rewrite (wrap64_id ((p - 1) * k)) by (unfold in_int64, min_int64, max_int64; nia).
  rewrite (wrap64_id ((p - 1) * k + k)) by (unfold in_int64, min_int64, max_int64; nia).
  assert (0 ≤ (p - 1) * k)%Z by nia. set (start := ((p - 1) * k)%Z) in *.
  destruct (Z.leb_spec (Z.of_nat (length l)) start).
  { by rewrite drop_ge, take_nil by lia. }
  rewrite (proj2 (Z.ltb_ge start 0)) by lia. f_equal.
  destruct (Z.min_spec (start + k) (Z.of_nat (length l))) as [[? ->]|[? ->]]; [f_equal; lia|].
  rewrite !take_ge; [done|rewrite length_drop; lia..].
Qed.

Definition at_page (search : DictionarySearch) (page pageSize : Z) : DictionarySearch :=
  Build_DictionarySearch (DictionarySearch_Keyword search) (DictionarySearch_Filters search)
    (DictionarySearch_Sort search) (DictionarySearch_Descending search) page pageSize.

Section Pages.
Context `{Platform}.

(** What a search selects, in order. *)
Definition search_result (search : DictionarySearch) (tenantID : string) (d : DB)
  : list OrganizationUnit :=
  sortOrganizationUnits
    (filterOrganizationUnits
       (select (λ u, OrganizationUnit_TenantID u =?s tenantID) path_order (organization_units d))
       (DictionarySearch_Keyword search) (map_get (DictionarySearch_Filters search) "status"))
    (DictionarySearch_Sort search) (DictionarySearch_Descending search).

(** (C37) Paging: without storage faults, page [p] of a valid dictionary search is
    the [p]-th slice of the filtered and sorted units with their total, for every
    page up to 2^56, and the pages in sequence are all the units, none twice. *)
Theorem dictionary_pages_partition env w tenantID search k n :
  (∀ n, env_fault env n = None) → TrimSpace tenantID ≠ "" → (1 ≤ k ≤ 100)%Z →
  validDictionaryFilters (DictionarySearch_Filters search) = true →
  validDictionarySort (DictionarySearch_Sort search) = true →
  let all := search_result search tenantID (w_db w) in
  (∀ p, (1 ≤ p ≤ 2 ^ 56)%Z →
     fst (run env (Query tenantID OrganizationUnitDictionaryCode (at_page search p k)) w)
     = Ok (Build_DictionaryPage (page_of all p k) (Z.of_nat (length all)) p k)) ∧
  (length all ≤ n * Z.to_nat k →
     concat (map (λ i, page_of all (Z.of_nat (S i)) k) (seq 0 n)) = all).
Proof.
  intros Hf Ht Hk Hvf Hvs all. split.
  2:{ intros Hn. rewrite page_of_concat by lia. by apply take_ge. }
  intros p Hp. unfold Query. cbn [at_page DictionarySearch_Page DictionarySearch_PageSize
    DictionarySearch_Filters DictionarySearch_Sort DictionarySearch_Keyword DictionarySearch_Descending].
  destruct (String.eqb_spec (TrimSpace tenantID) ""); [done|].
  rewrite (proj2 (Z.eqb_neq p 0)), (proj2 (Z.eqb_neq k 0)) by lia.
  rewrite (proj2 (Z.ltb_ge p 1)), (proj2 (Z.ltb_ge k 1)), (proj2 (Z.ltb_ge 100 k)), Hvf, Hvs by lia.
  simpl. rewrite Hf. cbn [wrap_query]. fold (search_result search tenantID (w_db w)). fold all.
  by rewrite slice_page.
Qed.

End Pages.
