(* ===== verification/Returns.v ===== *)
(** * What a request can answer

    [returns P p]: whatever the clock, the database, Redis and the network answer,
    if [p] returns then its result satisfies [P]. From it: every error the service
    hands out is an application error -- but for the reads five methods make after
    their commit -- and trees stay within their limits. *)

From stdpp Require Import base gmap list strings.
From S2P Require Import Prelude GoErrors Model Store Effects Platform Authorization Events Service.
From S2P Require Import Repository Dictionary Tenants Commits Organizations Invitations Groups Quotas.
From S2P Require Import Requests Concurrency DictionaryProofs.

(** ** Results of programs *)

Fixpoint returns {A} (P : A → Prop) (p : prog A) : Prop :=
  match p with
  | Ret a => P a
  | Now k => ∀ x, returns P (k x)
  | NewUUID k => ∀ x, returns P (k x)
  | RandRead k => ∀ x, returns P (k x)
  | Effects.Query _ k => ∀ x, returns P (k x)
  | Transact _ _ _ k => ∀ x, returns P (k x)
  | MutexLock _ k => ∀ x, returns P (k x)
  | MutexUnlock _ _ k => ∀ x, returns P (k x)
  | IdemBegin _ _ k => ∀ x, returns P (k x)
  | IdemComplete _ _ _ k => ∀ x, returns P (k x)
  | IdemFail _ _ _ k => ∀ x, returns P (k x)
  end.

Lemma returns_bind {A B} (P : B → Prop) (m : prog A) (f : A → prog B) :
  returns (λ a, returns P (f a)) m → returns P (bind m f).
Proof. induction m; simpl; auto. Qed.

Lemma returns_mono {A} (P Q : A → Prop) (p : prog A) :
  (∀ a, P a → Q a) → returns P p → returns Q p.
Proof. intros HPQ. induction p; simpl; auto. Qed.

(** The result is arbitrary. *)
Lemma returns_any {A} (P : A → Prop) (p : prog A) : (∀ a, P a) → returns P p.
Proof. intros HP. induction p; simpl; auto. Qed.

Lemma returns_step {A} env (P : A → Prop) (p p' : prog A) w w' :
  returns P p → step env p w = Some (p', w') → returns P p'.
Proof.
  destruct p; simpl; intros Hp Hs; try (simplify_eq; auto; done).
  destruct (Within _ _ _ _ _ _) as [[r n'] d']. simplify_eq. auto.
Qed.

(** A request alone. *)
Lemma returns_run {A} env (P : A → Prop) (p : prog A) w : returns P p → P (fst (run env p w)).
Proof.
  revert w. induction p as [a|k IH|k IH|k IH|X q k IH|X v x0 b k IH|n k IH|n u k IH
    |x y k IH|V x y z k IH|x y z k IH]; intros w Hp; simpl in *; auto.
  destruct (Within _ _ _ _ _ _) as [[r n'] d']. auto.
Qed.

(** A request among others. *)
Lemma returns_pool {A} env (P : nat → A → Prop) (ps ps' : list (prog A)) w w' :
  (∀ i p, ps !! i = Some p → returns (P i) p) → pool_steps env (ps, w) (ps', w') →
  ∀ i p, ps' !! i = Some p → returns (P i) p.
Proof.
  intros Hps Hs. remember (ps, w) as c eqn:Hc. remember (ps', w') as c' eqn:Hc'.
  revert ps w Hc Hps. induction Hs as [c|c [ps1 w1] c' H1 Hs IH]; intros ps w -> Hps; [by simplify_eq|].
  apply (IH Hc' ps1 w1 eq_refl). inversion H1 as [ps0 i p p' w0 w0' Hp Hstep]; subst.
  intros j q Hq. destruct (decide (i = j)) as [->|Hne].
  - rewrite list_lookup_insert_eq in Hq by eauto using lookup_lt_Some. simplify_eq.
    eapply returns_step; eauto.
  - rewrite list_lookup_insert_ne in Hq by done. eauto.
Qed.

(** ** Errors *)

Definition response_error (resp : Response) : option goerr :=
  match resp with
  | RespCreate (_, err) | RespTenant (_, err) | RespMembership (_, err) | RespPage (_, err)
  | RespMembershipPage (_, err) | RespMemberships (_, err) | RespOrganizationUnit (_, err)
  | RespOrganizationUnits (_, err) | RespTree (_, err) | RespScope (_, err)
  | RespCreateInvitation (_, err) | RespAccept (_, err) | RespInvitation (_, err)
  | RespInvitationPage (_, err) | RespGroup (_, err) | RespGroups (_, err)
  | RespGroupPage (_, err) | RespError err | RespGroupMembers (_, err)
  | RespGroupMember (_, err) | RespQuota (_, err) | RespQuotaPage (_, err)
  | RespConsume (_, err) => err
  | RespValidate _ => None
  end.

(** An error that is nil or an application error. *)
Definition clean (err : option goerr) : Prop := ∀ e, err = Some e → is_app e = true.

(** The methods whose last step is a read that is returned as it is. *)
Definition rereads (r : Request) : bool :=
  match r with
  | ReqUpdate _ _ _ _ | ReqUpdateMembership _ _ _ _ | ReqRevokeInvitation _ _
  | ReqUpdateGroup _ _ _ _ | ReqSetQuota _ _ _ _ => true
  | _ => false
  end.

(** The error of such a read: no such row any more, or the database's error. *)
Inductive read_error : goerr → Prop :=
| read_gone : read_error (Sentinel ErrNotFound)
| read_failed operation e : read_error (Wrapped operation e).

Section Errors.
Context `{Platform}.

Lemma clean_None : clean None.
Proof. by intros e. Qed.
Lemma clean_app c m s i : clean (Some (AppError c m s i)).
Proof. by intros e [= <-]. Qed.
Lemma clean_translate err : clean (translate err).
Proof. intros e. apply translate_is_app. Qed.
Lemma clean_authorize ctx t e : authorizeTenant ctx t = Some e → clean (Some e).
Proof. intros He e' [= <-]. by eapply authorizeTenant_is_app. Qed.
Lemma clean_administration ctx e : authorizePlatformAdministration ctx = Some e → clean (Some e).
Proof. intros He e' [= <-]. by eapply authorizePlatformAdministration_is_app. Qed.

Lemma page_result_clean {X P} (mk : list X → Z → P) r : clean (snd (page_result mk r)).
Proof. destruct r as [[items total]|e]; [apply clean_None|apply clean_translate]. Qed.
Lemma list_result_clean {X} (r : result (list X)) : clean (snd (list_result r)).
Proof. destruct r; [apply clean_None|apply clean_translate]. Qed.

End Errors.

#[export] Hint Resolve clean_None clean_app clean_translate clean_authorize clean_administration
  page_result_clean list_result_clean : tenant.

Lemma validate_clean `{Platform} tenantID unit :
  returns clean (validateMembershipOrganization tenantID unit).
Proof.
  unfold validateMembershipOrganization. case_match; [apply clean_None|].
  apply returns_bind, returns_any. intros [u|e]; [|apply clean_translate].
  case_match; [apply clean_app|apply clean_None].
Qed.

(** Walk through a program: destruct what it tests, take any answer of a call. *)
Ltac returns_step_tac :=
  cbn [fst snd];
  lazymatch goal with
  | |- returns _ (Ret _) => cbn [returns fst snd]
  | |- returns _ (bind (Ret _) _) => cbn [bind]
  | |- returns _ (bind (match ?x with _ => _ end) _) =>
      let y := scrutinee x in destruct y eqn:?
  | |- returns _ (bind (validateMembershipOrganization _ _) _) =>
      apply returns_bind; eapply returns_mono; [|apply validate_clean]; intros ? ?
  | |- returns _ (bind _ _) => apply returns_bind, returns_any; intros ?
  | |- returns _ (match ?x with _ => _ end) => let y := scrutinee x in destruct y eqn:?
  | |- returns _ (IdemBegin _ _ _) => cbn [returns]; intros ?
  | |- returns _ (IdemComplete _ _ _ _) => cbn [returns]; intros ?
  | |- returns _ (IdemFail _ _ _ _) => cbn [returns]; intros ?
  | |- returns _ (let _ := _ in _) => cbn zeta
  end.
Ltac solve_returns := repeat returns_step_tac; eauto with tenant.

Section Clean.
Context `{Platform}.
Implicit Types (s : Service) (ctx : Context).

Lemma createOnce_clean s ctx code name owner :
  returns (λ r, clean (snd r)) (createOnce s ctx code name owner).
Proof. unfold createOnce. solve_returns. Qed.

Lemma Create_clean s ctx code name owner :
  returns (λ r, clean (snd r)) (Create s ctx code name owner).
Proof.
  unfold Create. repeat (lazymatch goal with
  | |- returns _ (bind (createOnce _ _ _ _ _) _) =>
      apply returns_bind; eapply returns_mono; [|apply createOnce_clean];
      intros [[? ?] ?]; cbn [snd]; intros ?
  | |- returns _ (createOnce _ _ _ _ _) => apply createOnce_clean
  | _ => returns_step_tac
  end); eauto with tenant.
Qed.

(** An error of a method with a final read. *)
Definition clean_or_read (err : option goerr) : Prop :=
  ∀ e, err = Some e → is_app e = true ∨ read_error e.

Lemma clean_or_read_clean err : clean err → clean_or_read err.
Proof. intros Hc e He. auto. Qed.

Lemma pair_of_read {X} (x0 : X) r operation :
  clean_or_read (snd (pair_of x0 (get_result r operation))).
Proof.
  destruct r as [x|e]; simpl; [by apply clean_or_read_clean, clean_None|].
  intros e' [= <-]. right. unfold mapNotFound. destruct (Is e ErrNoRows); constructor.
Qed.

Lemma returns_reread {X} (x0 : X) (q : DB → result X) operation :
  returns (λ r, clean_or_read (snd r))
    (r <- (x <- query q;; Ret (get_result x operation));; Ret (pair_of x0 r)).
Proof. intros r. apply pair_of_read. Qed.

Ltac solve_reread :=
  repeat first [apply returns_reread | returns_step_tac];
  try (apply clean_or_read_clean; eauto with tenant).

Lemma Update_errors s ctx id name status version :
  returns (λ r, clean_or_read (snd r)) (Update s ctx id name status version).
Proof. unfold Update. solve_reread. Qed.

Lemma UpdateMembership_errors s ctx id status unit version :
  returns (λ r, clean_or_read (snd r)) (Tenants.UpdateMembership s ctx id status unit version).
Proof. unfold Tenants.UpdateMembership. solve_reread. Qed.

Lemma RevokeInvitation_errors s ctx id version :
  returns (λ r, clean_or_read (snd r)) (RevokeInvitation s ctx id version).
Proof. unfold RevokeInvitation. solve_reread. Qed.

Lemma UpdateGroup_errors s ctx id name status version :
  returns (λ r, clean_or_read (snd r)) (Groups.UpdateGroup s ctx id name status version).
Proof. unfold Groups.UpdateGroup. solve_reread. Qed.

Lemma SetQuota_errors s ctx tenantID key limit version :
  returns (λ r, clean_or_read (snd r)) (SetQuota s ctx tenantID key limit version).
Proof. unfold SetQuota, set_quota. solve_reread. Qed.

Lemma Tree_clean s ctx tenantID mode parentID keyword status depth nodes :
  returns (λ r, clean (snd r))
    (TreeOrganizationUnits s ctx tenantID mode parentID keyword status depth nodes).
Proof. unfold TreeOrganizationUnits. solve_returns. Qed.

(** Every method that ends without a read. *)
Lemma serve_clean s ctx r :
  rereads r = false → returns (λ resp, clean (response_error resp)) (serve s ctx r).
Proof.
  intros Hr. destruct r; try discriminate Hr; unfold serve, reply; apply returns_bind; cbn [returns];
    try (eapply (returns_mono (λ r, clean (snd r))); [by intros [? ?]|]);
    try (by first [apply Create_clean | apply Tree_clean | by apply returns_any]).
  all: unfold Get, AddMembership, Tenants.GetMembership, Tenants.ValidateMembership,
    Tenants.ListUserTenants, Tenants.ListMemberships, Tenants.BatchGetMemberships,
    Tenants.FindMembershipsByUserIDs, Tenants.ListTenants, Organizations.CreateOrganizationUnit,
    create_unit_at, Organizations.GetOrganizationUnit, Organizations.BatchGetOrganizationUnits,
    Organizations.ListOrganizationUnits, Organizations.UpdateOrganizationUnit,
    Organizations.ResolveOrganizationScope, Invitations.CreateInvitation, AcceptInvitation,
    Invitations.GetInvitation, Invitations.ListInvitations, Groups.CreateGroup, Groups.GetGroup,
    Groups.ListGroups, Groups.SearchGroups, AddGroupMember, add_member, Groups.ListGroupMembers,
    Groups.BatchGetGroupMembers, Groups.GetGroupMember, RemoveGroupMember, Quotas.GetQuota,
    Quotas.ListQuotas, Quotas.ConsumeQuota; solve_returns.
  all: destruct a; cbn [snd]; eauto with tenant.
Qed.

Lemma serve_errors s ctx r :
  returns (λ resp, ∀ e, response_error resp = Some e →
     is_app e = true ∨ (rereads r = true ∧ read_error e)) (serve s ctx r).
Proof.
  destruct (rereads r) eqn:Hr.
  2:{ eapply returns_mono; [|by apply serve_clean]. intros resp Hc e He. left. by apply Hc. }
  destruct r; try discriminate Hr; unfold serve, reply; apply returns_bind; cbn [returns];
    (eapply (returns_mono (λ r, clean_or_read (snd r)));
     [intros [v err] Hc e He; destruct (Hc e He); auto|]).
  - apply Update_errors.
  - apply UpdateMembership_errors.
  - apply RevokeInvitation_errors.
  - apply UpdateGroup_errors.
  - apply SetQuota_errors.
Qed.

(** The programs of a pool, from what each request alone promises. *)
Lemma pool_returns (P : Context → Request → Response → Prop) s rs env w ps w' i ctx r resp :
  (∀ ctx r, returns (P ctx r) (serve s ctx r)) →
  pool_steps env (pool s rs, w) (ps, w') → rs !! i = Some (ctx, r) → ps !! i = Some (Ret resp) →
  P ctx r resp.
Proof.
  intros HP Hs Hr Hp.
  assert (returns (λ resp, ∀ ctx r, rs !! i = Some (ctx, r) → P ctx r resp) (Ret resp)) as Hret.
  { refine (returns_pool env (λ i resp, ∀ ctx r, rs !! i = Some (ctx, r) → P ctx r resp)
      (pool s rs) ps w w' _ Hs i (Ret resp) Hp).
    intros j p Hj. unfold pool in Hj. rewrite list_lookup_fmap in Hj.
    destruct (rs !! j) as [[ctx' r']|] eqn:Hrj; simplify_eq/=.
    eapply returns_mono; [|apply HP]. intros a Ha ctx'' r'' ?. by simplify_eq. }
  by apply Hret.
Qed.

(** (C36) Error discipline: in any interleaving, with any failures, an error the
    service hands out is an application error with its code and HTTP status --
    except that the five methods that read the row again after their commit hand
    out the error of that read as it is. *)
Theorem errors_are_application_errors s rs env w ps w' i ctx r resp e :
  pool_steps env (pool s rs, w) (ps, w') → rs !! i = Some (ctx, r) → ps !! i = Some (Ret resp) →
  response_error resp = Some e → is_app e = true ∨ (rereads r = true ∧ read_error e).
Proof.
  intros Hs Hr Hp. revert e.
  apply (pool_returns (λ ctx r resp, ∀ e, response_error resp = Some e →
           is_app e = true ∨ (rereads r = true ∧ read_error e)) s rs env w ps w' i ctx r resp);
    [apply serve_errors|done..].
Qed.

(** ** Trees within their limits *)

(** The limits in force: the requested ones or the defaults. *)
Definition depth_limit (maxDepth : Z) : Z := if (maxDepth =? 0)%Z then 8%Z else maxDepth.
Definition node_limit (maxNodes : Z) : Z := if (maxNodes =? 0)%Z then 1000%Z else maxNodes.

Definition tree_within (maxDepth maxNodes : Z) (nodes : list OrganizationTreeNode) : Prop :=
  (1 ≤ depth_limit maxDepth ≤ 32)%Z ∧ (1 ≤ node_limit maxNodes ≤ 5000)%Z ∧
  forest_depth (Z.to_nat (depth_limit maxDepth)) nodes ∧ (forest_size nodes ≤ node_limit maxNodes)%Z.

Lemma children_forest {A} (f : A → OrganizationTreeNode) l n k :
  (∀ a, OrganizationTreeNode_Children (f a) = []) → (Z.of_nat (length l) ≤ n)%Z → (0 < k)%nat →
  forest_depth k (map f l) ∧ (forest_size (map f l) ≤ n)%Z.
Proof.
  intros Hf Hl Hk. destruct k as [|k]; [lia|]. split.
  - clear Hl. induction l as [|a l IH]; simpl; constructor; [rewrite Hf; constructor|done].
  - enough (forest_size (map f l) = Z.of_nat (length l)) by lia. clear Hl.
    induction l as [|a l IH]; [done|]. cbn [map]. rewrite forest_size_cons, IH.
    pose proof (Hf a) as Ha. destruct (f a) as [u c h]. simpl in Ha. subst c.
    rewrite tree_size_node, forest_size_nil. simpl. lia.
Qed.

Lemma buildOrganizationTree_within items mode parentID depth nodes :
  (0 ≤ nodes)%Z →
  let r := buildOrganizationTree items mode parentID depth nodes in
  forest_depth (Z.to_nat depth) (fst r) ∧ (forest_size (fst r) ≤ nodes)%Z.
Proof.
  intros Hn. unfold buildOrganizationTree.
  pose proof (build_tree_ok items nodes (Z.to_nat depth)
    (if mode =?s "children" then parentID else "") ∅ (Build_BuildState 0 false)) as (Hd & Hc & Hb & _).
  destruct (build_tree _ _ _ _ _ _) as [F st]. simpl in *. split; [done|lia].
Qed.

Lemma Tree_within p tenantID code mode parentID keyword depth nodes filters :
  returns (λ r, ∀ F tr, r = Ok (F, tr) → tree_within depth nodes F)
    (Tree p tenantID code mode parentID keyword depth nodes filters).
Proof.
  unfold Tree. fold (depth_limit depth) (node_limit nodes).
  case_match; [done|]. case_match; [done|]. case_match eqn:Hl; [done|]. reflect_bools.
  assert (∀ F, forest_depth (Z.to_nat (depth_limit depth)) F ∧ (forest_size F ≤ node_limit nodes)%Z →
    tree_within depth nodes F) as Hw by (intros F []; repeat split; (done || lia)).
  case_match.
  { unfold ListOrganizationChildren. apply returns_bind. intros [rows|e]; [|done]. cbn [returns].
    intros F tr [= <- _]. apply Hw.
    apply children_forest; [by intros [? ?]| |lia].
    case_match eqn:Ht; reflect_bools; [rewrite length_take; lia|lia]. }
  case_match.
  { unfold search_tree. apply returns_bind, returns_any. intros [[items tr]|e]; [|done].
    pose proof (buildOrganizationTree_within items mode parentID (depth_limit depth) (node_limit nodes)) as Hb.
    destruct (buildOrganizationTree _ _ _ _ _) as [roots tr']. intros F tr'' [= <- _]. apply Hw, Hb. lia. }
  apply returns_bind, returns_any. intros [items|e]; [|done].
  match goal with |- returns _ (match ?o with Some _ => _ | None => _ end) =>
    destruct o as [l|]; [|done] end.
  pose proof (buildOrganizationTree_within l mode parentID (depth_limit depth) (node_limit nodes)) as Hb.
  destruct (buildOrganizationTree _ _ _ _ _) as [roots tr']. intros F tr'' [= <- _]. apply Hw, Hb. lia.
Qed.

(** (C27) Trees are bounded: in any interleaving, a tree the service returns has at
    most the requested number of levels (8 by default, never above 32) and of nodes
    (1000 by default, never above 5000), in every mode. *)
Theorem organization_trees_bounded s rs env w ps w' i ctx tenantID mode parentID keyword status
    maxDepth maxNodes nodes truncated :
  pool_steps env (pool s rs, w) (ps, w') →
  rs !! i = Some (ctx, ReqTreeOrganizationUnits tenantID mode parentID keyword status maxDepth maxNodes) →
  ps !! i = Some (Ret (RespTree (nodes, truncated, None))) →
  tree_within maxDepth maxNodes nodes.
Proof.
  intros Hs Hr Hp.
  refine (pool_returns (λ _ r resp, ∀ a b c d e m n F tr,
    r = ReqTreeOrganizationUnits a b c d e m n → resp = RespTree (F, tr, None) → tree_within m n F)
    s rs env w ps w' i _ _ _ _ Hs Hr Hp _ _ _ _ _ _ _ _ _ eq_refl eq_refl).
  intros ctx' r. destruct r; try by apply returns_any.
  unfold serve, reply. apply returns_bind. cbn [returns]. unfold TreeOrganizationUnits.
  case_match; [by intros; simplify_eq|]. case_match; [by intros; simplify_eq|].
  apply returns_bind. eapply returns_mono; [|apply Tree_within].
  intros [[F tr]|e] HF.
  { intros ? ? ? ? ? ? ? ? ? [= <- <- <- <- <- <- <-] [= <- <-]. by eapply HF. }
  destruct (translate_Some e) as (e' & He & _).
  case_match; intros ? ? ? ? ? ? ? ? ? _; [done|]. rewrite He. done.
Qed.

End Clean.
