(* ===== verification/Outcomes.v ===== *)
(** * Outcomes without failures

    What each operation answers and leaves in the database when the database,
    Redis and the random source answer, the locks are free and identifiers are
    fresh: [cwp] is the strongest such statement a program supports, and
    [cwp_run] reads it off an execution. The results are exact on every branch,
    refusals included. *)

From stdpp Require Import base gmap list strings.
From S2P Require Import Prelude GoErrors Model Store Effects Platform Authorization Events Service.
From S2P Require Import Repository Tables Invariants Statements Commits Tenants Invitations Quotas.

(** ** Calm environments *)

(** [U]: what is known of generated identifiers; [T]: what is known of the times the
    clock reads. *)
Record calm (U : string → Prop) (T : Z → Prop) (env : Env) : Prop := {
  calm_fault n : env_fault env n = None;
  calm_commit n : env_commit env n = None;
  calm_lock n : env_lock env n = None;
  calm_unlock n : env_unlock env n = None;
  calm_expired n key : env_expired env n key = false;
  calm_rand n : ∃ v, env_rand env n = Ok v;
  calm_uuid n : U (env_uuid env n);
  calm_now n : T (env_now env n);
}.

Definition any_time (t : Z) : Prop := True.

Section Cwp.
Context (U : string → Prop) (T : Z → Prop).

Fixpoint ctwp {A} (b : tx A) (Q : A → DB → Prop) (d : DB) : Prop :=
  match b with
  | TRet a => Q a d
  | TUuid k => ∀ u, U u → ctwp (k u) Q d
  | TStmt s k =>
      match s d with
      | Ok (x, d') => ctwp (k (Ok x)) Q d'
      | Err e => ctwp (k (Err e)) Q d
      end
  end.

(** [L]: the locks that are taken. *)
Fixpoint cwp {A} (p : prog A) (Q : A → DB → gmap string nat → Prop) (d : DB) (L : gmap string nat)
  : Prop :=
  match p with
  | Ret a => Q a d L
  | Now k => ∀ t, T t → cwp (k t) Q d L
  | NewUUID k => ∀ u, U u → cwp (k u) Q d L
  | RandRead k => ∀ v, cwp (k (Ok v)) Q d L
  | Query q k => cwp (k (q d)) Q d L
  | Transact v x0 b k =>
      v = true ∧
      ctwp b (λ '(x, err) d', match err with
                              | None => cwp (k (x, None)) Q d' L
                              | Some e => cwp (k (x, Some e)) Q d L
                              end) d
  | MutexLock n k => L !! n = None ∧ ∀ v, cwp (k (inl v)) Q d (<[n:=v]> L)
  | MutexUnlock n v k => L !! n = Some v ∧ cwp (k (Ok true)) Q d (delete n L)
  | IdemBegin _ _ k => ∀ r, cwp (k r) Q d L
  | IdemComplete _ _ _ k => cwp (k None) Q d L
  | IdemFail _ _ _ k => cwp (k None) Q d L
  end.

Context (env : Env) (Henv : calm U T env).

Lemma ctwp_run {A} (b : tx A) Q n d :
  ctwp b Q d → let '(a, _, d') := run_tx env b n d in Q a d'.
Proof using Henv.
  revert n d. induction b as [a|k IH|X s k IH]; intros n d Hb; simpl in *; [done| |].
  - apply IH, Hb, (calm_uuid _ _ _ Henv).
  - rewrite (calm_fault _ _ _ Henv). destruct (s d) as [[x d']|e]; by apply IH.
Qed.

Lemma cwp_run {A} (p : prog A) Q w :
  cwp p Q (w_db w) (w_locks w) → let '(a, w') := run env p w in Q a (w_db w') (w_locks w').
Proof using Henv.
  revert w. induction p as [a|k IH|k IH|k IH|X q k IH|X v x0 b k IH|n k IH|n u k IH
    |x y k IH|V x y z k IH|x y z k IH]; intros w Hp; simpl in *.
  - done.
  - apply IH, Hp, (calm_now _ _ _ Henv).
  - apply IH, Hp, (calm_uuid _ _ _ Henv).
  - destruct (calm_rand _ _ _ Henv (w_tick w)) as [v ->]. apply IH, Hp.
  - rewrite (calm_fault _ _ _ Henv). by apply IH.
  - destruct Hp as [-> Hb]. unfold Within. simpl. rewrite (calm_fault _ _ _ Henv).
    apply (ctwp_run _ _ (S (w_tick w))) in Hb. destruct (run_tx _ _ _ _) as [[[x err] n'] d'].
    destruct err as [e|]; rewrite ?(calm_fault _ _ _ Henv), ?(calm_commit _ _ _ Henv); by apply IH.
  - destruct Hp as [Hn Hp]. unfold lock_call, live_locks. rewrite (calm_expired _ _ _ Henv), Hn, (calm_lock _ _ _ Henv).
    apply IH, Hp.
  - destruct Hp as [Hn Hp]. unfold unlock_call, live_locks.
    rewrite (calm_expired _ _ _ Henv), (calm_unlock _ _ _ Henv), bool_decide_eq_true_2 by done. by apply IH.
  - apply IH, Hp.
  - rewrite (calm_fault _ _ _ Henv). by apply IH.
  - rewrite (calm_fault _ _ _ Henv). by apply IH.
Qed.

Lemma ctwp_mono {A} (b : tx A) (Q Q' : A → DB → Prop) d :
  (∀ a d', Q a d' → Q' a d') → ctwp b Q d → ctwp b Q' d.
Proof.
  intros HQ. revert d. induction b as [a|k IH|X s k IH]; intros d Hb; simpl in *; auto.
  destruct (s d) as [[x d']|e]; auto.
Qed.

Lemma ctwp_bind {A B} (m : tx A) (f : A → tx B) Q d :
  ctwp m (λ a d', ctwp (f a) Q d') d → ctwp (tbind m f) Q d.
Proof.
  revert d. induction m as [a|k IH|X s k IH]; intros d Hm; simpl in *; auto.
  destruct (s d) as [[x d']|e]; auto.
Qed.

Lemma cwp_bind {A B} (m : prog A) (f : A → prog B) Q d L :
  cwp m (λ a d' L', cwp (f a) Q d' L') d L → cwp (bind m f) Q d L.
Proof.
  revert d L. induction m as [a|k IH|k IH|k IH|X q k IH|X v x0 b k IH|n k IH|n u k IH
    |x y k IH|V x y z k IH|x y z k IH]; intros d L Hm; simpl in *; auto.
  - destruct Hm as [-> Hb]. split; [done|]. eapply ctwp_mono; [|done].
    intros [x [e|]] d' Hk; by apply IH.
  - naive_solver.
  - naive_solver.
Qed.

Lemma cwp_mono {A} (p : prog A) (Q Q' : A → DB → gmap string nat → Prop) d L :
  (∀ a d' L', Q a d' L' → Q' a d' L') → cwp p Q d L → cwp p Q' d L.
Proof.
  intros HQ. revert d L. induction p as [a|k IH|k IH|k IH|X q k IH|X v x0 b k IH|n k IH|n u k IH
    |x y k IH|V x y z k IH|x y z k IH]; intros d L Hp; simpl in *; auto.
  - destruct Hp as [-> Hb]. split; [done|]. eapply ctwp_mono; [|done].
    intros [x [e|]] d' Hk; by apply IH.
  - naive_solver.
  - naive_solver.
Qed.

(** A transaction without results. *)
Lemma cwp_within {A} s body (k : option goerr → prog A) Q d L :
  transactor_available s = true →
  ctwp body (λ err d', match err with
                       | None => cwp (k None) Q d' L
                       | Some e => cwp (k (Some e)) Q d L
                       end) d →
  cwp (bind (within_ s body) k) Q d L.
Proof.
  intros Hv Hb. simpl. split; [done|]. apply ctwp_bind. revert Hb.
  generalize d at 1 3 as d0. intros d0. revert d0.
  induction body as [err|k' IH|X st k' IH]; intros d0 Hb; simpl in *; [by destruct err|auto|].
  destruct (st d0) as [[x d']|e]; auto.
Qed.

End Cwp.

(** ** Common steps *)

(** An identifier no row of the database carries. *)
Record fresh (d : DB) (u : string) : Prop := {
  fresh_tenant : tenants d !! u = None;
  fresh_membership : memberships d !! u = None;
  fresh_unit : organization_units d !! u = None;
  fresh_invitation : invitations d !! u = None;
  fresh_group : member_groups d !! u = None;
  fresh_group_member : group_members d !! u = None;
  fresh_event : Forall (λ r, OutboxEvent_ID (OutboxRow_event r) ≠ u) (tenant_outbox_events d);
}.

Section Outcomes.
Context `{Platform}.
(** Event payloads are well-formed messages: marshalling them succeeds. *)
Context (Hmarshal : ∀ md p, ∃ encoded, marshal_envelope md p = Ok encoded).

Lemma cwp_event U T {A} ctx p subject eventType aggregateID tenantID t payload
    (k : result OutboxEvent → prog A) Q d L :
  ctx_principal ctx = Ok p →
  (∀ ev, U (OutboxEvent_ID ev) → cwp U T (k (Ok ev)) Q d L) →
  cwp U T (bind (newOutboxEvent ctx subject eventType aggregateID tenantID t payload) k) Q d L.
Proof using Hmarshal.
  intros Hp Hk. unfold newOutboxEvent. rewrite Hp. simpl. intros u Hu.
  unfold outboxEventWith. match goal with |- context [marshal_envelope ?md ?pl] =>
    destruct (Hmarshal md pl) as [enc ->] end.
  by apply Hk.
Qed.

Lemma insert_event ev d :
  Forall (λ r, OutboxEvent_ID (OutboxRow_event r) ≠ OutboxEvent_ID ev) (tenant_outbox_events d) →
  insert_tenant_outbox_events (Build_OutboxRow ev 0 None "") d = Ok (tt, with_event ev d).
Proof.
  intros Hf. unfold insert_tenant_outbox_events, check. simpl.
  assert (existsb (λ r, bool_decide
    ((OutboxEvent_ID (OutboxRow_event r), OutboxEvent_CreatedAt (OutboxRow_event r))
     = (OutboxEvent_ID ev, OutboxEvent_CreatedAt ev))) (tenant_outbox_events d) = false) as ->; [|done].
  apply not_true_iff_false. intros (r & Hr & He%bool_decide_eq_true)%existsb_exists.
  rewrite Forall_forall in Hf. eapply Hf; [by apply list_elem_of_In|]. by simplify_eq.
Qed.

Lemma ctwp_outbox U ev (Q : option goerr → DB → Prop) d :
  Forall (λ r, OutboxEvent_ID (OutboxRow_event r) ≠ OutboxEvent_ID ev) (tenant_outbox_events d) →
  Q None (with_event ev d) → ctwp U (AddOutbox ev) Q d.
Proof.
  intros Hf HQ. unfold AddOutbox. simpl. by rewrite insert_event.
Qed.

(** A statement that ran, and the event after it. *)
Lemma ctwp_step U {X} (st : stmt X) (f : result X → option goerr) x d1 ev (Q : option goerr → DB → Prop) d :
  st d = Ok (x, d1) → f (Ok x) = None →
  tenant_outbox_events d1 = tenant_outbox_events d →
  Forall (λ r, OutboxEvent_ID (OutboxRow_event r) ≠ OutboxEvent_ID ev) (tenant_outbox_events d) →
  Q None (with_event ev d1) →
  ctwp U (tbind (tbind (exec st) (λ r, TRet (f r)))
            (λ err, match err with None => AddOutbox ev | Some e => TRet (Some e) end)) Q d.
Proof.
  intros Hs Hf Ho Hev HQ. simpl. rewrite Hs, Hf. apply ctwp_outbox; [by rewrite Ho|done].
Qed.

(** The statement refused or found nothing to do. *)
Lemma ctwp_stop U {X} (st : stmt X) (f : result X → option goerr) x e d1 ev (Q : option goerr → DB → Prop) d :
  st d = Ok (x, d1) → f (Ok x) = Some e → Q (Some e) d1 →
  ctwp U (tbind (tbind (exec st) (λ r, TRet (f r)))
            (λ err, match err with None => AddOutbox ev | Some e => TRet (Some e) end)) Q d.
Proof. intros Hs Hf HQ. simpl. by rewrite Hs, Hf. Qed.

Lemma bigint_ok z : in_int64 z → bigint z = Ok z.
Proof.
  unfold in_int64, bigint. intros [? ?].
  by rewrite (proj2 (Z.leb_le _ _)), (proj2 (Z.leb_le z _)) by done.
Qed.

Lemma update_row_hit `{Countable K} {R} (key : K) p ver (upd : R → R) t r :
  t !! key = Some r → p r = true → in_int64 (ver r + 1) →
  update_row key p ver upd t = Ok (1%Z, <[key := upd r]> t).
Proof. intros Hr Hp Hv. unfold update_row. by rewrite Hr, Hp, bigint_ok. Qed.

Lemma update_row_miss `{Countable K} {R} (key : K) p ver (upd : R → R) t r :
  t !! key = Some r → p r = false → update_row key p ver upd t = Ok (0%Z, t).
Proof. intros Hr Hp. unfold update_row. by rewrite Hr, Hp. Qed.

Lemma set_tenants_same d : set_tenants (tenants d) d = d.
Proof. by destruct d. Qed.

(** ** Tenant updates *)

Definition updated_tenant (t : Tenant) (name status : string) (now : Z) (actor : string) : Tenant :=
  Build_Tenant (Tenant_ID t) (Tenant_Code t) name status (Tenant_Version t + 1) (Tenant_CreatedAt t)
    now (Tenant_CreatedBy t) actor.

(** An update of a tenant by a caller that may act on it: with the version the
    caller has seen, the name and the status are written with the next version, the
    update time and the actor, together with one event, and the new row is returned;
    with any other version the caller is told that it is stale and nothing changes. *)
Theorem tenant_update_outcome s ctx env w id name status version t p :
  calm (fresh (w_db w)) any_time env → inv (w_db w) → transactor_available s = true →
  TrimSpace id ≠ "" → TrimSpace name ≠ "" → (1 ≤ version < max_int64)%Z →
  validTenantStatus status = true → tenants (w_db w) !! id = Some t →
  ctx_principal ctx = Ok p → (∀ now, audit_UpdatedBy ctx now = Ok (Principal_ID p, now)) →
  may_access ctx id →
  let '(r, w') := run env (Update s ctx id name status version) w in
  if (Tenant_Version t =? version)%Z then
    ∃ now ev, let t' := updated_tenant t (TrimSpace name) status now (Principal_ID p) in
      r = (t', None) ∧
      w_db w' = with_event ev (set_tenants (<[id := t']> (tenants (w_db w))) (w_db w))
  else r = (Tenant0, Some (StaleVersion (Sentinel ErrStaleVersion))) ∧ w_db w' = w_db w.
Proof using Hmarshal.
  intros Henv Hd Hs Hid Hname Hv Hst Ht Hp Ha Hacc%authorizeTenant_iff.
  pose proof (tenant_key _ _ _ Hd Ht) as Hkey.
  apply (cwp_run _ _ _ Henv _ (λ r d' _, if (Tenant_Version t =? version)%Z then
    ∃ now ev, let t' := updated_tenant t (TrimSpace name) status now (Principal_ID p) in
      r = (t', None) ∧ d' = with_event ev (set_tenants (<[id := t']> (tenants (w_db w))) (w_db w))
    else r = (Tenant0, Some (StaleVersion (Sentinel ErrStaleVersion))) ∧ d' = w_db w)).
  unfold Update. rewrite Hst.
  destruct (String.eqb_spec (TrimSpace id) ""), (String.eqb_spec (TrimSpace name) ""); try done.
  rewrite (proj2 (Z.ltb_ge version 1)) by lia. cbn [orb negb bind now cwp]. intros now _.
  rewrite Ha. unfold GetTenant. cbn [bind query cwp]. rewrite Ht. cbn [one_row get_result].
  rewrite Hkey, Hacc. apply (cwp_event _ _ _ p); [done|]. intros ev Hev. apply cwp_within; [done|].
  destruct (Z.eqb_spec (Tenant_Version t) version) as [He|Hne].
  - eapply ctwp_step.
    + unfold update_tenants, lift_update. cbn [Tenant_ID Tenant_Version].
      by rewrite (update_row_hit _ _ _ _ _ t) by
        (done || (by apply Z.eqb_eq) || (unfold in_int64, min_int64, max_int64 in *; lia)).
    + done.
    + done.
    + apply Hev.
    + cbn. unfold GetTenant. cbn. rewrite lookup_insert_eq. cbn. exists now, ev. by split.
  - eapply (ctwp_stop _ _ (λ r, affected r "update tenant")).
    + unfold update_tenants, lift_update. cbn [Tenant_ID Tenant_Version].
      by rewrite (update_row_miss _ _ _ _ _ t) by (done || by apply Z.eqb_neq).
    + done.
    + done.
Qed.

(** ** Quota consumption *)

(** What the statement of [ConsumeQuota] does to a quota. *)
Lemma consume_quota_cases tenantID key amount now actor d q :
  tenant_quotas d !! (tenantID, key) = Some q → (0 ≤ Quota_Used q)%Z → (0 < amount)%Z →
  in_int64 (Quota_Version q + 1) →
  consume_quota tenantID key amount now actor d =
    if (max_int64 <? Quota_Used q + amount)%Z then Err (PgError "22003")
    else if (Quota_Used q + amount <=? Quota_Limit q)%Z then
      Ok (Ok 1%Z, set_tenant_quotas
        (<[(tenantID, key) := consumed_quota q amount now actor]> (tenant_quotas d)) d)
    else Ok (Ok 0%Z, d).
Proof.
  intros Hq Hu Ha Hv. unfold consume_quota. rewrite Hq.
  destruct (Z.ltb_spec max_int64 (Quota_Used q + amount)).
  - unfold bigint. rewrite (proj2 (Z.leb_gt (Quota_Used q + amount) max_int64)) by done.
    by rewrite andb_false_r.
  - rewrite bigint_ok by (unfold in_int64, min_int64, max_int64 in *; lia). case_match; [|done].
    unfold check. rewrite (proj2 (Z.leb_le 0 _)) by lia.
    unfold lift_update. by rewrite (update_row_hit _ _ _ _ _ q).
Qed.

(** What a consumption answers and leaves. *)
Definition consumption (tenantID key : string) (amount : Z) (actor : string) (d : DB)
    (r : Quota * bool * option goerr) (d' : DB) : Prop :=
  match tenant_quotas d !! (tenantID, key) with
  | None => r = (Quota0, false, Some (NotFound "tenant resource not found")) ∧ d' = d
  | Some q =>
      if (max_int64 <? Quota_Used q + amount)%Z then
        (∃ e, r = (Quota0, false, Some (Internal e))) ∧ d' = d
      else if (Quota_Used q + amount <=? Quota_Limit q)%Z then
        ∃ now ev, let q' := consumed_quota q amount now actor in
          r = (q', true, None) ∧
          d' = with_event ev (set_tenant_quotas (<[(tenantID, key) := q']> (tenant_quotas d)) d)
      else r = (q, false, None) ∧ d' = d
  end.

(** What the locked section answers: like [consumption], before the quota of a
    refusal is read. *)
Definition consumption_locked (tenantID key : string) (amount : Z) (actor : string) (d : DB)
    (r : Quota * bool * option goerr) (d' : DB) : Prop :=
  match tenant_quotas d !! (tenantID, key) with
  | None => r = (Quota0, false, None) ∧ d' = d
  | Some q =>
      if (max_int64 <? Quota_Used q + amount)%Z then
        (∃ e, r = (Quota0, false, Some e) ∧ translate (Some e) = Some (Internal e)) ∧ d' = d
      else if (Quota_Used q + amount <=? Quota_Limit q)%Z then
        ∃ now ev, let q' := consumed_quota q amount now actor in
          r = (q', true, None) ∧
          d' = with_event ev (set_tenant_quotas (<[(tenantID, key) := q']> (tenant_quotas d)) d)
      else r = (Quota0, false, None) ∧ d' = d
  end.

Lemma cwp_consume_locked s ctx tenantID key amount p d L :
  inv d → transactor_available s = true → (0 < amount)%Z →
  ctx_principal ctx = Ok p → (∀ now, audit_UpdatedBy ctx now = Ok (Principal_ID p, now)) →
  (∀ q, tenant_quotas d !! (tenantID, key) = Some q → in_int64 (Quota_Version q + 1)) →
  cwp (fresh d) any_time (consume_locked s ctx tenantID key amount) (λ r d' L', L' = L ∧
    if locker s
    then consumption_locked tenantID key amount (Principal_ID p) d (fst r, Join (snd r) None) d'
    else consumption_locked tenantID key amount (Principal_ID p) d r d') d L.
Proof using Hmarshal.
  intros Hd Hs Ha Hp Haud Hv. unfold consume_locked. cbn [now bind cwp]. intros now _. rewrite Haud.
  unfold within. cbn [cwp]. split; [done|]. unfold consume_body, Repository.ConsumeQuota, consumption_locked. simpl.
  destruct (tenant_quotas d !! (tenantID, key)) as [q|] eqn:Hq.
  2:{ unfold consume_quota. rewrite Hq. simpl. by destruct (locker s). }
  destruct (inv_quotas _ Hd) as (_ & Hpos & _). destruct (Hpos _ _ Hq) as [_ Hu].
  rewrite (consume_quota_cases _ _ _ _ _ _ _ Hq Hu Ha (Hv _ eq_refl)).
  destruct (_ <? _)%Z; [simpl; destruct (locker s); eauto 7|].
  destruct (_ <=? _)%Z; [|simpl; by destruct (locker s)]. simpl.
  unfold select_quota. simpl. rewrite lookup_insert_eq.
  unfold newOutboxEventTx. rewrite Hp. simpl. intros u Hf. unfold outboxEventWith.
  match goal with |- context [marshal_envelope ?md ?pl] => destruct (Hmarshal md pl) as [enc ->] end.
  simpl. rewrite insert_event by apply Hf. simpl. destruct (locker s); eauto 7.
Qed.

(** The lock of a resource around an operation that leaves the locks alone. *)
Lemma cwp_resource_lock U T {A} s key (a0 : A) op Q d L :
  key ≠ "" → L !! ("lock:" +:+ key) = None →
  (∀ L, cwp U T op (λ r d' L', L' = L ∧ if locker s then Q (fst r, Join (snd r) None) d' else Q r d') d L) →
  cwp U T (withResourceLock s key a0 op) (λ r d' L', L' = L ∧ Q r d') d L.
Proof.
  intros Hk HL Hop. unfold withResourceLock. destruct (locker s); simpl; [|apply Hop].
  unfold Lock, newMutex. simpl. destruct (String.eqb_spec key ""); [done|]. simpl.
  split; [done|]. intros v. apply cwp_bind. eapply cwp_mono; [|apply Hop]. intros r d' L' [-> HQ].
  simpl. rewrite lookup_insert_eq, delete_insert_id by done. by split_and!.
Qed.

(** (C40) Quota consumption, when nothing fails: no call has a fault and the transactor is there,
    the lock of the quota is free, the caller is known and may act on the tenant, the amount is
    positive, and the version of the quota is below the greatest. Then the amount is granted iff
    the counter with it stays within the limit; exactly the counter, the version, the
    time and the actor change, with one event. A refusal reports the quota as it stands and changes
    nothing; a missing quota is "not found"; a sum beyond 64 bits is an internal error and
    never a grant. The locks are left as they were. *)
Theorem quota_consumption_outcome s ctx env w tenantID key amount p :
  calm (fresh (w_db w)) any_time env → inv (w_db w) → transactor_available s = true →
  w_locks w !! ("lock:tenant:quota:" +:+ tenantID +:+ ":" +:+ key) = None →
  tenantID ≠ "" → key ≠ "" → (0 < amount)%Z →
  ctx_principal ctx = Ok p → (∀ now, audit_UpdatedBy ctx now = Ok (Principal_ID p, now)) →
  may_access ctx tenantID →
  (∀ q, tenant_quotas (w_db w) !! (tenantID, key) = Some q → in_int64 (Quota_Version q + 1)) →
  let '(r, w') := run env (Quotas.ConsumeQuota s ctx tenantID key amount) w in
  consumption tenantID key amount (Principal_ID p) (w_db w) r (w_db w') ∧ w_locks w' = w_locks w.
Proof using Hmarshal.
  intros Henv Hd Hs HL Ht Hk Ha Hp Haud Hacc%authorizeTenant_iff Hv.
  apply (cwp_run _ _ _ Henv _ (λ r d' L', consumption tenantID key amount (Principal_ID p) (w_db w) r d' ∧
    L' = w_locks w)).
  unfold Quotas.ConsumeQuota.
  destruct (String.eqb_spec tenantID ""), (String.eqb_spec key ""); try done.
  rewrite (proj2 (Z.leb_gt amount 0)) by lia. cbn [orb]. rewrite Hacc. apply cwp_bind.
  eapply cwp_mono; [|apply cwp_resource_lock; [done|done|by intros L; apply cwp_consume_locked]].
  intros [[consumed allowed] err] d' L' [-> Hr]. unfold consumption_locked in Hr. unfold consumption.
  destruct (tenant_quotas (w_db w) !! (tenantID, key)) as [q|] eqn:Hq.
  2:{ destruct Hr as [[= -> -> ->] ->]. simpl. by rewrite Hq. }
  destruct (_ <? _)%Z; [destruct Hr as [(e & [= -> -> ->] & He) ->]; cbn [cwp]; rewrite He; eauto|].
  destruct (_ <=? _)%Z.
  - destruct Hr as (now & ev & [= -> -> ->] & ->). simpl. eauto 7.
  - destruct Hr as [[= -> -> ->] ->]. simpl. by rewrite Hq.
Qed.
(** ** Tenant creation *)

(** Who may create a tenant for an owner. *)
Definition may_create (ctx : Context) (p : Principal) (owner : string) : Prop :=
  Principal_Type p = TypeServiceAccount ∨ Principal_Type p = TypeSystem ∨
  (Principal_Type p = TypeUser ∧
   (Principal_ID p = owner ∨ ctx_platformAdministration ctx = true)).

Definition new_tenant (id code name : string) (now : Z) (actor : string) : Tenant :=
  Build_Tenant id code name "active" 1 now now actor actor.
Definition owner_membership (id tenantID owner : string) (now : Z) (actor : string) : Membership :=
  Build_Membership id tenantID owner "active" "" now 1 now now actor actor.

(** A new tenant has no members yet. *)
Lemma no_members d T user :
  inv d → tenants d !! T = None →
  any_row (λ r, (Membership_TenantID r =?s T) && (Membership_UserID r =?s user)) (memberships d) = false.
Proof.
  intros Hd HT. apply any_row_false. intros k m Hm.
  destruct (String.eqb_spec (Membership_TenantID m) T) as [He|]; [|done].
  destruct (inv_memberships _ Hd) as (_ & _ & Hr & _).
  destruct (Hr _ _ (Membership_TenantID m) Hm eq_refl) as (t & Ht & _). congruence.
Qed.

Lemma create_allowed {A} ctx p owner (ok : A) (bad : goerr → A) :
  may_create ctx p owner →
  match match Principal_Type p with
        | TypeUser => if (Principal_ID p <>?s owner) && negb (ctx_platformAdministration ctx)
                      then Some (Forbidden "users may only create a tenant for themselves") else None
        | TypeServiceAccount | TypeSystem => None
        | TypeOther _ => Some (Forbidden "tenant creation is not allowed for this principal")
        end with None => ok | Some e => bad e end = ok.
Proof.
  intros [->|[->|[-> [->| ->]]]]; [done..|by rewrite String.eqb_refl|by rewrite andb_false_r].
Qed.

(** What a creation answers and leaves. *)
Definition creation (code name owner actor : string) (d : DB)
    (r : Tenant * Membership * option goerr) (d' : DB) : Prop :=
  if any_row (λ t, sql_lower (Tenant_Code t) =?s sql_lower code) (tenants d)
  then (∃ e, r = (Tenant0, Membership0, Some (Conflict "tenant resource already exists" (Some e)))) ∧
       d' = d
  else ∃ now tenantID membershipID ev,
    let t := new_tenant tenantID code name now actor in
    let m := owner_membership membershipID tenantID owner now actor in
    r = (t, m, None) ∧ tenants d !! tenantID = None ∧
    d' = with_event ev
      (set_memberships (<[membershipID := m]> (memberships d))
         (set_tenants (<[tenantID := t]> (tenants d)) d)).

Lemma cwp_createOnce s ctx code name owner p d L :
  inv d → transactor_available s = true → ctx_principal ctx = Ok p →
  (∀ now, audit_New ctx now = Ok (Build_AuditFields 1 now now (Principal_ID p) (Principal_ID p))) →
  cwp (fresh d) any_time (createOnce s ctx code name owner)
    (λ r d' _, creation code name owner (Principal_ID p) d r d') d L.
Proof using Hmarshal.
  intros Hd Hs Hp Haud. unfold createOnce. cbn [now newUUID bind cwp]. intros now _. rewrite Haud.
  cbn [bind cwp AuditFields_Version AuditFields_CreatedAt AuditFields_UpdatedAt AuditFields_CreatedBy
       AuditFields_UpdatedBy Tenant_ID Membership_ID Membership_UserID].
  intros tid Htid mid Hmid. apply (cwp_event _ _ _ p); [done|]. intros ev Hev. apply cwp_within; [done|].
  unfold CreateTenant. cbn. unfold insert_tenants, creation. cbn [Tenant_ID Tenant_Code].
  rewrite (proj2 (has_false (tenants d) tid)) by apply Htid. unfold check. cbn.
  destruct (any_row _ (tenants d)); cbn; [by eauto|].
  unfold insert_memberships. cbn. rewrite (proj2 (has_false (memberships d) mid)) by apply Hmid. cbn.
  rewrite no_members by (done || apply Htid). cbn.
  rewrite (proj2 (has_true _ tid)) by (rewrite lookup_insert_eq; eauto). cbn.
  rewrite insert_event by apply Hev. cbn. exists now, tid, mid, ev. split_and!; [done|apply Htid|done].
Qed.

(** Creation of a tenant without idempotency key: unless the code is taken up to
    letter case, one transaction stores the active tenant under its lower-case code, the
    active membership of the owner and the event; when the code is taken the caller is
    told so and nothing changes. *)
Theorem tenant_creation_outcome s ctx env w code name owner p :
  calm (fresh (w_db w)) any_time env → inv (w_db w) → transactor_available s = true →
  ToLower (TrimSpace code) ≠ "" → TrimSpace name ≠ "" → TrimSpace owner ≠ "" →
  ctx_principal ctx = Ok p → may_create ctx p (TrimSpace owner) → ctx_idempotencyKey ctx = None →
  (∀ now, audit_New ctx now = Ok (Build_AuditFields 1 now now (Principal_ID p) (Principal_ID p))) →
  let '(r, w') := run env (Create s ctx code name owner) w in
  creation (ToLower (TrimSpace code)) (TrimSpace name) (TrimSpace owner) (Principal_ID p)
    (w_db w) r (w_db w').
Proof using Hmarshal.
  intros Henv Hd Hs Hcode Hname Howner Hp Hmay Hidem Haud.
  apply (cwp_run _ _ _ Henv _ (λ r d' _, creation (ToLower (TrimSpace code)) (TrimSpace name)
    (TrimSpace owner) (Principal_ID p) (w_db w) r d')).
  unfold Create. destruct (String.eqb_spec (ToLower (TrimSpace code)) ""),
    (String.eqb_spec (TrimSpace name) ""), (String.eqb_spec (TrimSpace owner) ""); try done.
  cbn [orb]. rewrite Hp, create_allowed, Hidem by done. by apply cwp_createOnce.
Qed.

(** ** Idempotent creation *)

(** What a creation with a key answers once the store has decided. *)
Definition replayed (decision : Effects.Decision) (r : Tenant * Membership * option goerr) : Prop :=
  match Decision_State decision with
  | StateAcquired => True
  | StateCompleted =>
      match unmarshal_createResult (Decision_Response decision) with
      | Ok v => r = (createResult_Tenant v, createResult_Membership v, None)
      | Err err => r = (Tenant0, Membership0, Some (Internal err))
      end
  | StateFailed =>
      let f := Decision_Failure decision in
      r = (Tenant0, Membership0, Some (New (Failure_Code f) (Failure_Message f) (Failure_HTTPStatus f) None))
  | StateProcessing => r = (Tenant0, Membership0, Some RequestInProgress)
  | StateConflict =>
      r = (Tenant0, Membership0,
           Some (Conflict "idempotency key was used with a different request" None))
  | StateOther =>
      r = (Tenant0, Membership0, Some (Internal (TextError "unknown idempotency state")))
  end.

(** (C38) Creation with an idempotency key runs at most once per acquired key: unless
    the store grants the key to this request, the stored answer (or the conflict, or
    "in progress") is returned and the database does not change; when it grants it, the
    answer is the one of a plain creation, whatever happens when it is recorded. *)
Theorem idempotent_creation s ctx env w code name owner p key decision :
  ToLower (TrimSpace code) ≠ "" → TrimSpace name ≠ "" → TrimSpace owner ≠ "" →
  ctx_principal ctx = Ok p → may_create ctx p (TrimSpace owner) →
  ctx_idempotencyKey ctx = Some key → idempotency s = Some true →
  env_begin env (w_tick w) = Ok decision →
  let '(r, w') := run env (Create s ctx code name owner) w in
  match Decision_State decision with
  | StateAcquired =>
    let '(r0, w0) := run env (createOnce s ctx (ToLower (TrimSpace code)) (TrimSpace name)
                                (TrimSpace owner)) (tick w) in
    snd r = snd r0 ∧ (snd r = None → r = r0) ∧ w_db w' = w_db w0
  | _ => replayed decision r ∧ w_db w' = w_db w
  end.
Proof.
  intros Hcode Hname Howner Hp Hmay Hkey Hidem Hbegin.
  unfold Create. destruct (String.eqb_spec (ToLower (TrimSpace code)) ""),
    (String.eqb_spec (TrimSpace name) ""), (String.eqb_spec (TrimSpace owner) ""); try done.
  cbn [orb]. rewrite Hp, create_allowed, Hkey, Hidem by done. cbn [negb run]. rewrite Hbegin.
  unfold replayed. destruct (Decision_State decision) eqn:Hst; try done.
  - rewrite run_bind. destruct (run env (createOnce _ _ _ _ _) (tick w)) as [[[t m] [err|]] w0]; [|done].
    by destruct (default _ _).
  - by destruct (unmarshal_createResult _).
Qed.

(** ** Invitations *)

Lemma invitation_by_hash_found d k i :
  inv d → invitations d !! k = Some i → invitation_by_hash (Invitation_TokenHash i) d = Some i.
Proof.
  intros Hd Hi. unfold invitation_by_hash.
  destruct (List.filter _ _) as [|j l] eqn:Hl.
  - assert (i ∈ []) as []%not_elem_of_nil. rewrite <- Hl, elem_of_filter_bool.
    split; [apply String.eqb_refl|]. apply elem_of_rows. eauto.
  - simpl. f_equal. assert (j ∈ j :: l) as Hj by set_solver.
    rewrite <- Hl, elem_of_filter_bool, elem_of_rows in Hj. destruct Hj as [He%String.eqb_eq [k' Hk']].
    destruct (inv_invitations _ Hd) as (_ & Hu & _). pose proof (Hu _ _ _ _ Hk' Hi He). congruence.
Qed.

Definition accepted_invitation (i : Invitation) (user : string) (now : Z) (actor : string) : Invitation :=
  with_status i "accepted" user (Invitation_Version i + 1) now actor.

(** What an acceptance answers and leaves. *)
Definition acceptance (k : string) (i : Invitation) (expired : bool) (user actor : string) (d : DB)
    (r : Invitation * Membership * option goerr) (d' : DB) : Prop :=
  if (Invitation_Status i =?s "pending") && negb expired then
    if any_row (λ m, (Membership_TenantID m =?s Invitation_TenantID i)
                     && (Membership_UserID m =?s user)) (memberships d)
    then (∃ e, r = (Invitation0, Membership0,
                    Some (Conflict "tenant resource already exists" (Some e)))) ∧ d' = d
    else ∃ now id ev,
      let i' := accepted_invitation i user now actor in
      let m := Build_Membership id (Invitation_TenantID i) user "active" "" now 1 now now actor actor in
      r = (i', m, None) ∧
      d' = with_event ev (set_memberships (<[id := m]> (memberships d))
             (set_invitations (<[k := i']> (invitations d)) d))
  else r = (Invitation0, Membership0, Some (Conflict "invitation is no longer valid" None)) ∧ d' = d.

(** The same inside the lock, where the error is still to be translated. *)
Definition acceptance_locked (k : string) (i : Invitation) (expired : bool) (user actor : string)
    (d : DB) (r : Invitation * Membership * option goerr) (d' : DB) : Prop :=
  ∃ r', acceptance k i expired user actor d r' d' ∧
        match snd r with
        | Some e => fst r' = (Invitation0, Membership0) ∧ snd r' = translate (Some e)
        | None => r' = r
        end.

Lemma cwp_accept_locked s ctx p token user k i expired d L :
  inv d → transactor_available s = true → ctx_principal ctx = Ok p → user ≠ "" →
  invitations d !! k = Some i → Invitation_TokenHash i = hashToken token →
  in_int64 (Invitation_Version i + 1) →
  cwp (fresh d) (λ t, (t <? Invitation_ExpiresAt i)%Z = negb expired)
    (accept_locked s ctx p token user) (λ r d' L', L' = L ∧
    if locker s then acceptance_locked k i expired user (Principal_ID p) d (fst r, Join (snd r) None) d'
    else acceptance_locked k i expired user (Principal_ID p) d r d') d L.
Proof using Hmarshal.
  intros Hd Hs Hp Hu Hi Hh Hv. unfold accept_locked, GetInvitationByTokenHash. cbn [bind query cwp].
  rewrite <- Hh, (invitation_by_hash_found _ _ _ Hd Hi). cbn [one_row get_result].
  unfold acceptance_locked, acceptance.
  destruct (String.eqb_spec (Invitation_Status i) "pending") as [Hst|Hst]; cbn [negb andb].
  2:{ cbn. split; [done|]. destruct (locker s); cbn; eexists; (split; [by split|done]). }
  cbn [now bind cwp]. intros t ->. destruct expired; cbn [negb].
  { cbn. split; [done|]. destruct (locker s); cbn; eexists; (split; [by split|done]). }
  cbn [now newUUID bind cwp]. intros now _ id Hid. apply (cwp_event _ _ _ p); [done|]. intros ev Hev.
  apply cwp_within; [done|]. pose proof (invitation_key _ _ _ Hd Hi) as Hkey. cbn.
  unfold update_invitations, lift_update. cbn.
  rewrite Hkey, (update_row_hit _ _ _ _ _ i) by (done || apply Z.eqb_refl). cbn.
  unfold insert_memberships, check. cbn.
  rewrite (proj2 (has_false (memberships d) id)) by apply Hid. cbn.
  destruct (any_row _ (memberships d)); cbn.
  { split; [done|]. destruct (locker s); cbn; eexists; (split; [by split; [eexists|]|done]). }
  destruct (inv_invitations _ Hd) as (_ & _ & Hten).
  destruct (Hten _ _ (Invitation_TenantID i) Hi eq_refl) as (tn & Htn & _).
  rewrite (proj2 (has_true (tenants d) (Invitation_TenantID i))) by eauto. cbn.
  rewrite insert_event by apply Hev. cbn. rewrite lookup_insert_eq. cbn. split; [done|].
  rewrite coalesce_nullableID.
  destruct (locker s); cbn; (eexists; split; [exists now, id, ev; split; [|done]|done]); done.
Qed.

(** (C39) Acceptance of an invitation by its token, when nothing fails: no call has a fault and
    the transactor is there, the lock of the invitation is free, the token is that of an
    invitation whose version is below the greatest, and a caller that is a user accepts for
    itself. Then a pending invitation that has not expired becomes accepted by the user, who gets
    an active membership of the inviting tenant in the same transaction; a user who is a
    member already, an invitation that was used or revoked, or one that has expired are refused
    as conflicts and nothing changes. *)
Theorem invitation_acceptance_outcome s ctx env w token userID p k i expired :
  calm (fresh (w_db w)) (λ t, (t <? Invitation_ExpiresAt i)%Z = negb expired) env →
  inv (w_db w) → transactor_available s = true →
  w_locks w !! ("lock:tenant:invitation:" +:+ hashToken (TrimSpace token)) = None →
  TrimSpace token ≠ "" → TrimSpace userID ≠ "" → ctx_principal ctx = Ok p →
  (Principal_Type p = TypeUser → Principal_ID p = TrimSpace userID) →
  invitations (w_db w) !! k = Some i → Invitation_TokenHash i = hashToken (TrimSpace token) →
  in_int64 (Invitation_Version i + 1) →
  let '(r, w') := run env (AcceptInvitation s ctx token userID) w in
  acceptance k i expired (TrimSpace userID) (Principal_ID p) (w_db w) r (w_db w').
Proof using Hmarshal.
  intros Henv Hd Hs HL Ht Hu Hp Hself Hi Hh Hv.
  apply (cwp_run _ _ _ Henv _ (λ r d' _,
    acceptance k i expired (TrimSpace userID) (Principal_ID p) (w_db w) r d')).
  unfold AcceptInvitation.
  destruct (String.eqb_spec (TrimSpace token) ""), (String.eqb_spec (TrimSpace userID) ""); try done.
  cbn [orb]. rewrite Hp. unfold is_type.
  assert (bool_decide (Principal_Type p = TypeUser) && (Principal_ID p <>?s TrimSpace userID) = false) as ->.
  { case_bool_decide as Htype; [|done]. by rewrite Hself, String.eqb_refl. }
  apply cwp_bind.
  eapply cwp_mono; [|apply cwp_resource_lock; [done|done|by intros L; apply cwp_accept_locked]].
  intros [[acc m] err] d' L' [-> (r' & Hr & Herr)]. cbn [snd fst] in Herr.
  destruct err as [e|]; cbn [cwp]; [|by subst r']. destruct r' as [[a b] c]. destruct Herr as [[= -> ->] He].
  cbn [snd] in He. by rewrite <- He.
Qed.

End Outcomes.

(** ** Batch reads *)

Section Batches.
Context `{Platform}.

Lemma unique_ids_length ids us : unique_ids ids [] = Some us → length us ≤ length ids.
Proof.
  intros Hu. destruct (unique_ids_spec ids [] us (NoDup_nil_2) Hu) as (Hnd & _ & Hx).
  rewrite <- (length_map TrimSpace ids). apply submseteq_length, NoDup_submseteq; [done|].
  intros x Hin. apply Hx in Hin as [?|?]; [set_solver|done].
Qed.

(** Batch reads are exact: without storage faults, a caller that may act on the
    tenant and asks for at most 100 non-blank identifiers gets exactly the memberships
    of this tenant with one of these identifiers, each once; a blank identifier is
    refused. *)
Theorem batch_memberships_exact s ctx env w tenantID ids :
  (∀ n, env_fault env n = None) → inv (w_db w) → TrimSpace tenantID ≠ "" →
  may_access ctx (TrimSpace tenantID) → length ids ≤ 100 →
  let '(r, w') := run env (Tenants.BatchGetMemberships s ctx tenantID ids) w in
  w_db w' = w_db w ∧
  if bool_decide ("" ∈ map TrimSpace ids)
  then r = ([], Some (Invalid "membership_ids must not contain empty values" None))
  else snd r = None ∧ NoDup (fst r) ∧
    ∀ m, m ∈ fst r ↔ memberships (w_db w) !! Membership_ID m = Some m ∧
                     Membership_TenantID m = TrimSpace tenantID ∧
                     Membership_ID m ∈ map TrimSpace ids.
Proof.
  intros Hf Hd Ht Hacc%authorizeTenant_iff Hl. unfold Tenants.BatchGetMemberships.
  destruct (String.eqb_spec (TrimSpace tenantID) ""); [done|]. rewrite Hacc.
  destruct (unique_ids ids []) as [us|] eqn:Hu.
  2:{ apply unique_ids_None in Hu. by rewrite bool_decide_eq_true_2. }
  rewrite (bool_decide_eq_false_2 ("" ∈ map TrimSpace ids)).
  2:{ intros Hin%(proj2 (unique_ids_None ids [])). congruence. }
  pose proof (unique_ids_length _ _ Hu). destruct (unique_ids_spec ids [] us NoDup_nil_2 Hu) as (_ & _ & Hx).
  case_bool_decide as Hnil.
  { simpl. split_and!; [done..|apply NoDup_nil_2|]. intros m. split; [set_solver|].
    intros (_ & _ & Hin). assert (Membership_ID m ∈ us) by (apply Hx; by right). set_solver. }
  rewrite (proj2 (Z.ltb_ge 100 _)) by lia. unfold Repository.BatchGetMemberships.
  rewrite bool_decide_eq_false_2 by done. cbn [bind query run]. rewrite Hf. cbn.
  split_and!; [done..| |].
  - unfold select. rewrite sort_by_Permutation. apply NoDup_filter_bool, (NoDup_rows (K := string)), (inv_memberships _ Hd).
  - intros m. unfold select, mem.
    rewrite elem_of_sort_by, elem_of_filter_bool, elem_of_rows, andb_true_iff, String.eqb_eq, bool_decide_eq_true, Hx.
    split.
    + intros [[? [?|?]] [k Hk]]; [set_solver|]. split_and!; [|done..].
      destruct (inv_memberships _ Hd) as [Hwf _]. by rewrite (proj1 (Hwf _ _ Hk) : Membership_ID m = k).
    + intros (Hm & ? & ?). split; [by auto|eauto].
Qed.

End Batches.
