(* ===== verification/Tokens.v ===== *)
(** * Invitation tokens

    The text of a token determines the 32 random bytes behind it, has 43
    characters of the URL-safe alphabet, and survives the trimming every request
    applies to it: the token that is handed out is the token that is hashed when
    it comes back. *)

From Stdlib Require Import Ascii Lia ZifyN ZifyNat.
From stdpp Require Import base list strings.
From S2P Require Import Prelude GoErrors Model Store Effects Platform Invitations.

#[local] Ltac Zify.zify_post_hook ::= Z.div_mod_to_equations.

(** ** Characters *)

(** The position of a character in the alphabet. *)
Fixpoint index_in (a : ascii) (s : string) : N :=
  match s with
  | EmptyString => 0
  | String b s' => if Ascii.eqb a b then 0 else 1 + index_in a s'
  end%N.

Definition base64url_value (a : ascii) : N := index_in a base64url_alphabet.

Lemma below_64 (P : N → bool) :
  forallb P (map N.of_nat (seq 0 64)) = true → ∀ n, (n < 64)%N → P n = true.
Proof.
  intros HP n Hn. rewrite forallb_forall in HP. apply HP. apply in_map_iff.
  exists (N.to_nat n). split; [lia|]. apply in_seq. lia.
Qed.

Lemma char_value n : (n < 64)%N → base64url_value (base64url_char n) = n.
Proof.
  intros Hn. apply N.eqb_eq.
  apply (below_64 (λ n, base64url_value (base64url_char n) =? n)%N); [by vm_compute|done].
Qed.

(** A plain character: ASCII and no space. *)
Definition plain_char (a : ascii) : bool := ((N_of_ascii a <? 128)%N && negb (space1 a)).

Lemma char_plain n : (n < 64)%N → plain_char (base64url_char n) = true.
Proof. apply (below_64 (λ n, plain_char (base64url_char n))). by vm_compute. Qed.

(** ** Decoding *)

(** The bytes of a text of the encoding. *)
Fixpoint base64url_decode (s : string) : string :=
  match s with
  | String a (String b (String c (String d s'))) =>
      let v := (base64url_value a * 262144 + base64url_value b * 4096 + base64url_value c * 64
                + base64url_value d)%N in
      String (ascii_of_N (v / 65536)) (String (ascii_of_N (v / 256 mod 256))
        (String (ascii_of_N (v mod 256)) (base64url_decode s')))
  | String a (String b (String c EmptyString)) =>
      let v := (base64url_value a * 262144 + base64url_value b * 4096 + base64url_value c * 64)%N in
      String (ascii_of_N (v / 65536)) (String (ascii_of_N (v / 256 mod 256)) EmptyString)
  | String a (String b EmptyString) =>
      let v := (base64url_value a * 262144 + base64url_value b * 4096)%N in
      String (ascii_of_N (v / 65536)) EmptyString
  | _ => EmptyString
  end.

Lemma string_ind3 (P : string → Prop) :
  P EmptyString → (∀ a, P (String a EmptyString)) → (∀ a b, P (String a (String b EmptyString))) →
  (∀ a b c s, P s → P (String a (String b (String c s)))) → ∀ s, P s.
Proof.
  intros P0 P1 P2 P3. fix IH 1. intros [|a [|b [|c s]]]; [done..|]. by apply P3.
Qed.

Lemma byte_of_N a n : n = N_of_ascii a → ascii_of_N n = a.
Proof. intros ->. apply ascii_N_embedding. Qed.

Lemma byte_bound a : (N_of_ascii a < 256)%N.
Proof. apply N_ascii_bounded. Qed.

Lemma decode_encode s : base64url_decode (base64url_encode s) = s.
Proof.
  induction s as [|a|a b|a b c s IH] using string_ind3; [done|..]; simpl;
    pose proof (byte_bound a); try pose proof (byte_bound b); try pose proof (byte_bound c);
    rewrite !char_value by lia.
  - rewrite (byte_of_N a) by lia. done.
  - rewrite (byte_of_N a), (byte_of_N b) by lia. done.
  - rewrite (byte_of_N a), (byte_of_N b), (byte_of_N c), IH by lia. done.
Qed.

(** ** Shape *)

Definition plain_text (s : string) : bool := forallb plain_char (String.list_ascii_of_string s).

Lemma encode_plain s : plain_text (base64url_encode s) = true.
Proof.
  induction s as [|a|a b|a b c s IH] using string_ind3; [done|..]; unfold plain_text in *; simpl;
    pose proof (byte_bound a); try pose proof (byte_bound b); try pose proof (byte_bound c);
    rewrite !char_plain by lia; [done|done|]. by rewrite IH.
Qed.

Lemma encode_length s :
  String.length (base64url_encode s) = (4 * String.length s + 2) / 3.
Proof.
  induction s as [|a|a b|a b c s IH] using string_ind3; [done..|].
  change (4 + String.length (base64url_encode s) = (4 * (3 + String.length s) + 2) / 3).
  rewrite IH. lia.
Qed.

Lemma plain_clean l : forallb plain_char l = true → starts_clean l = true ∧ starts_clean_rev l = true.
Proof.
  assert (∀ a b, plain_char a = true → plain_char b = true → space2 a b = false) as H2.
  { unfold plain_char, space2. intros a b [Ha%N.ltb_lt _]%andb_prop _.
    rewrite (proj2 (N.eqb_neq _ 194)) by lia. done. }
  assert (∀ a b c, plain_char a = true → space3 a b c = false) as H3.
  { unfold plain_char, space3. intros a b c [Ha%N.ltb_lt _]%andb_prop.
    rewrite (proj2 (N.eqb_neq _ 225)), (proj2 (N.eqb_neq _ 226)), (proj2 (N.eqb_neq _ 227)) by lia. done. }
  assert (∀ a, plain_char a = true → space1 a = false) as H1.
  { unfold plain_char. intros a Ha. by reflect_bools. }
  destruct l as [|a [|b [|c l]]]; simpl; intros Hl; [done|..];
    repeat (apply andb_prop in Hl as [? Hl]); rewrite ?H1, ?H2, ?H3 by done; done.
Qed.

Lemma plain_trim s : plain_text s = true → TrimSpace s = s.
Proof.
  unfold plain_text, TrimSpace. intros Hs. rewrite trim_left_id by (by apply plain_clean).
  rewrite trim_left_rev_id.
  - by rewrite rev_involutive, String.string_of_list_ascii_of_string.
  - apply plain_clean. rewrite forallb_forall in Hs |- *. intros a Ha. apply Hs. by apply in_rev.
Qed.

(** Tokens: the token of 32 random bytes has 43 characters, is not changed by the
    trimming of the request that redeems it, and no two byte strings share a token. *)
Theorem token_faithful v :
  TrimSpace (base64url_encode v) = base64url_encode v ∧
  (String.length v = 32 → String.length (base64url_encode v) = 43) ∧
  ∀ v', base64url_encode v' = base64url_encode v → v' = v.
Proof.
  split_and!.
  - apply plain_trim, encode_plain.
  - intros Hl. by rewrite encode_length, Hl.
  - intros v' He. by rewrite <- (decode_encode v'), He, decode_encode.
Qed.
