(* ===== verification/Directory.v ===== *)
(** * The membership directory

    [internal/membershipdirectory/search.go], the search for members by the
    profile the identity service keeps, and [internal/identityclient], the client
    of that service. The remote service is a parameter: the answers it gives to
    the requests of one search. *)

From stdpp Require Import base gmap list strings.
From S2P Require Import Prelude GoErrors Model Store Effects Platform Authorization Service.
From S2P Require Import Repository Tables Tenants.

(** ** [internal/identityclient] *)

Record User := Build_User {
  User_ID : string; User_Username : string; User_DisplayName : string; User_Status : string }.

Record UserPage := Build_UserPage {
  UserPage_Users : list User; UserPage_Total : Z; UserPage_Page : Z; UserPage_PageSize : Z }.

(** The [identityv1] messages as the client reads them: a user may be nil, and so
    may the page of the answer. *)
Record PbUser := Build_PbUser {
  PbUser_Id : string; PbUser_Username : string; PbUser_DisplayName : string }.
Record PbPageResult := Build_PbPageResult {
  PbPageResult_Total : Z; PbPageResult_Page : Z; PbPageResult_PageSize : Z }.
Record ListUsersResponse := Build_ListUsersResponse {
  ListUsersResponse_Users : list (option PbUser);
  ListUsersResponse_Page : option PbPageResult }.

(** The remote [ListUsers] of active users: keyword, page and page size. *)
Definition remote := string → Z → Z → result ListUsersResponse.

Definition uint32 (z : Z) : Z := (z mod 2 ^ 32)%Z.
Definition uint64 (z : Z) : Z := (z mod 2 ^ 64)%Z.

(** [Client.ListUsers]. *)
Definition ListUsers (client : remote) (keyword : string) (page pageSize : Z) : result UserPage :=
  response <-! client keyword (uint32 page) (uint32 pageSize) else err =>
    Err (Joined (Sentinel ErrIdentityUnavailable) (Some err));;
  let users := omap (λ value, match value with
    | None => None
    | Some v => Some (Build_User (PbUser_Id v) (PbUser_Username v) (PbUser_DisplayName v) "active")
    end) (ListUsersResponse_Users response) in
  match ListUsersResponse_Page response with
  | None => Ok (Build_UserPage users 0 page pageSize)
  | Some r => Ok (Build_UserPage users (PbPageResult_Total r) (PbPageResult_Page r)
                    (PbPageResult_PageSize r))
  end.

(** ** [Search] *)

(** [IssueTenantTokenResponse]; an expiry that is absent or not a valid timestamp is
    [None]. *)
Record IssueTenantTokenResponse := Build_IssueTenantTokenResponse {
  response_AccessToken : string; response_ExpiresAt : option Z }.

(** [Client.IssueTenantToken]: the token and its expiry, given what the identity service
    answers. *)
Definition IssueTenantToken (client : string → string → string → string → result IssueTenantTokenResponse)
    (userID tenantID membershipID sessionID : string) : result (string * Z) :=
  response <-! client userID tenantID membershipID sessionID
    else err => Err (Joined (Sentinel ErrIdentityUnavailable) (Some err));;
  match response_ExpiresAt response with
  | Some expiresAt =>
      if response_AccessToken response =?s "" then Err (Sentinel ErrIdentityUnavailable)
      else Ok (response_AccessToken response, expiresAt)
  | None => Err (Sentinel ErrIdentityUnavailable)
  end.

Record Entry := Build_Entry { Entry_Membership : Membership; Entry_User : User }.

Definition candidatePageSize : Z := 100.
Definition maxCandidatePages : nat := 5.

(** [byUserID]: the last membership of a user wins. *)
Definition by_user_id (values : list Membership) : gmap string Membership :=
  foldl (λ m value, <[Membership_UserID value := value]> m) ∅ values.

(** The loop over the users of a page, with its [break] at the limit. *)
Fixpoint add_entries (limit : Z) (byUserID : gmap string Membership) (users : list User)
    (entries : list Entry) : list Entry :=
  match users with
  | [] => entries
  | user :: users' =>
      match byUserID !! User_ID user with
      | None => add_entries limit byUserID users' entries
      | Some membership =>
          let entries := entries ++ [Build_Entry membership user] in
          if (Z.of_nat (length entries) =? limit)%Z then entries
          else add_entries limit byUserID users' entries
      end
  end.

Section Search.
Context `{Platform}.
Context (find : string → list string → string → prog (list Membership * option goerr)).
Context (directory : string → Z → Z → result UserPage).
Context (tenantID keyword : string) (limit : Z).

(** The loop over the candidate pages; [pages] are the pages that remain. *)
Fixpoint search_pages (pages : nat) (page : Z) (entries : list Entry)
  : prog (result (list Entry)) :=
  match pages with
  | O => Ret (Ok entries)
  | S pages' =>
      stop_if negb (Z.of_nat (length entries) <? limit)%Z => Ret (Ok entries);;
      users <-! directory keyword page candidatePageSize else err =>
        Ret (Err (Joined (Sentinel ErrDirectoryUnavailable) (Some err)));;
      r <- find tenantID (map User_ID (UserPage_Users users)) "active";;
      let '(values, err) := r in
      guard err else e => Ret (Err e);;
      let entries := add_entries limit (by_user_id values) (UserPage_Users users) entries in
      stop_if (Z.of_nat (length (UserPage_Users users)) <? candidatePageSize)%Z
              || (UserPage_Total users <=? uint64 (page * candidatePageSize))%Z =>
        Ret (Ok entries);;
      search_pages pages' (page + 1) entries
  end.
End Search.

(** [Search]: [identities] is nil without an identity client. *)
Definition Search `{Platform}
    (memberships : option (string → list string → string → prog (list Membership * option goerr)))
    (identities : option (string → Z → Z → result UserPage)) (tenantID keyword : string) (limit : Z)
  : prog (result (list Entry)) :=
  match memberships, identities with
  | Some find, Some directory =>
      stop_if (tenantID =?s "") || (limit <? 1)%Z || (50 <? limit)%Z =>
        Ret (Err (Invalid "tenant ID and a limit from 1 to 50 are required" None));;
      search_pages find directory tenantID keyword limit maxCandidatePages 1 []
  | _, _ => Ret (Err (Sentinel ErrDirectoryUnavailable))
  end.

(** ** Properties *)

Section Properties.
Context `{Platform}.

(** Any interference, any commits, any identifiers. *)
Definition any_change (d d' : DB) : Prop := True.
Definition any_string (u : string) : Prop := True.

#[export] Instance any_change_preorder : PreOrder any_change.
Proof. by split. Qed.

Definition active_in (tenantID : string) (m : Membership) : Prop :=
  Membership_TenantID m = tenantID ∧ Membership_Status m = "active".

(** What the service's own search by users answers without error. *)
Lemma find_active s ctx tenantID ids d :
  wp any_change any_change any_string (Tenants.FindMembershipsByUserIDs s ctx tenantID ids "active")
    (λ r _, snd r = None →
       authorizeTenant ctx (TrimSpace tenantID) = None ∧
       Forall (active_in (TrimSpace tenantID)) (fst r)) d.
Proof.
  unfold Tenants.FindMembershipsByUserIDs. case_match; [by apply wp_ret|].
  case_match eqn:Ha; [by apply wp_ret|]. destruct (unique_ids ids []) as [us|]; [|by apply wp_ret].
  case_match; [by apply wp_ret|]. case_match; [by apply wp_ret|].
  unfold Repository.FindMembershipsByUserIDs. case_match; [by apply wp_ret|].
  cbn [bind query]. apply wp_query. intros d1 _. split.
  - intros e. apply wp_ret. intros d2 _. cbn [wrap_query list_result snd].
    intros He. by apply (proj1 (translate_None _)) in He.
  - apply wp_ret. intros d2 _ _. split; [done|]. cbn [wrap_query list_result fst].
    apply Forall_forall. intros m Hm. unfold select in Hm.
    rewrite elem_of_sort_by, elem_of_filter_bool in Hm. destruct Hm as [Hm _].
    change (TrimSpace "active") with "active" in Hm. unfold optional_filter in Hm. simpl in Hm.
    reflect_bools. by split.
Qed.

Definition entry_ok (tenantID : string) (e : Entry) : Prop :=
  active_in tenantID (Entry_Membership e) ∧ Membership_UserID (Entry_Membership e) = User_ID (Entry_User e).

Lemma by_user_id_lookup values k m :
  by_user_id values !! k = Some m → m ∈ values ∧ Membership_UserID m = k.
Proof.
  unfold by_user_id. assert (∀ acc : gmap string Membership,
    foldl (λ m value, <[Membership_UserID value := value]> m) acc values !! k = Some m →
    (m ∈ values ∧ Membership_UserID m = k) ∨ acc !! k = Some m) as Hf.
  { induction values as [|v values IH]; intros acc Hl; [by right|].
    destruct (IH _ Hl) as [[? ?]|Ha]; [left; set_solver|].
    apply lookup_insert_Some in Ha as [[<- <-]|[_ Ha]]; [left; set_solver|by right]. }
  intros Hl. destruct (Hf ∅ Hl) as [?|Hn]; [done|]. by rewrite lookup_empty in Hn.
Qed.

Lemma add_entries_ok tenantID limit byUserID users entries :
  (∀ k m, byUserID !! k = Some m → active_in tenantID m ∧ Membership_UserID m = k) →
  (Z.of_nat (length entries) < limit)%Z → Forall (entry_ok tenantID) entries →
  Forall (entry_ok tenantID) (add_entries limit byUserID users entries) ∧
  (Z.of_nat (length (add_entries limit byUserID users entries)) ≤ limit)%Z.
Proof.
  intros Hby. revert entries. induction users as [|u users IH]; intros entries Hl He; simpl; [split; [done|lia]|].
  destruct (byUserID !! User_ID u) as [m|] eqn:Hm; [|by apply IH].
  assert (Forall (entry_ok tenantID) (entries ++ [Build_Entry m u])) as He'.
  { apply Forall_app. split; [done|]. apply Forall_singleton. by apply Hby. }
  case_match; reflect_bools; [split; [done|lia]|]. apply IH; [|done].
  rewrite length_app in *. simpl in *. lia.
Qed.

Lemma search_pages_ok s ctx directory tenantID keyword limit pages page entries d :
  Forall (entry_ok (TrimSpace tenantID)) entries → (Z.of_nat (length entries) ≤ limit)%Z →
  authorizeTenant ctx (TrimSpace tenantID) = None ∨ (pages ≠ 0 ∧ (Z.of_nat (length entries) < limit)%Z) →
  wp any_change any_change any_string
    (search_pages (Tenants.FindMembershipsByUserIDs s ctx) directory tenantID keyword limit pages page entries)
    (λ r _, ∀ es, r = Ok es → authorizeTenant ctx (TrimSpace tenantID) = None ∧
       Forall (entry_ok (TrimSpace tenantID)) es ∧ (Z.of_nat (length es) ≤ limit)%Z) d.
Proof.
  revert page entries d. induction pages as [|pages IH]; intros page entries d He Hl Ha;
    cbn [search_pages].
  { apply wp_ret. destruct Ha as [?|[? _]]; [|done]. by intros d1 _ es [= <-]. }
  case_match eqn:Hlt; reflect_bools.
  { apply wp_ret. destruct Ha as [?|[_ ?]]; [|lia]. by intros d1 _ es [= <-]. }
  destruct (directory _ _ _) as [users|e]; [|by apply wp_ret].
  apply wp_bind; [apply _|]. eapply wp_mono; [|apply find_active].
  intros [values [e|]] d1; [by intros _; apply wp_ret|]. intros [Hauth Hv]; [done|].
  destruct (add_entries_ok (TrimSpace tenantID) limit (by_user_id values) (UserPage_Users users) entries)
    as [He' Hl']; [|done..|].
  { intros k m [Hin ?]%by_user_id_lookup. split; [|done]. by eapply Forall_forall. }
  cbv zeta. case_match; [apply wp_ret; by intros d2 _ es [= <-]|]. apply IH; [done..|by left].
Qed.

(** The member search is scoped: whatever the identity service and the database
    answer, a search that succeeds was made by a caller that may act on the tenant,
    asked for 1 to 50 entries and returns no more than that, and every entry pairs an
    active membership of this tenant with the profile of its own user. *)
Theorem directory_search_scoped s ctx directory tenantID keyword limit env w es :
  fst (run env (Search (Some (Tenants.FindMembershipsByUserIDs s ctx)) (Some directory)
                  tenantID keyword limit) w) = Ok es →
  may_access ctx (TrimSpace tenantID) ∧ (1 ≤ limit ≤ 50)%Z ∧ (Z.of_nat (length es) ≤ limit)%Z ∧
  Forall (entry_ok (TrimSpace tenantID)) es.
Proof.
  unfold Search. case_match eqn:Hargs; [done|]. reflect_bools. intros Hr.
  assert (env_ok any_string env) as Henv by done.
  pose proof (wp_run any_change any_change any_string env Henv _ _ w
    (search_pages_ok s ctx directory tenantID keyword limit maxCandidatePages 1 [] (w_db w)
       (Forall_nil_2 _) ltac:(simpl; lia) ltac:(right; simpl; split; [done|lia]))) as Hwp.
  destruct (run env _ w) as [r w']. simpl in Hr. destruct (Hwp es Hr) as (Ha & He & Hl).
  split_and!; [by apply authorizeTenant_iff|lia..|done|done].
Qed.

End Properties.
