(* ===== verification/Grpc.v ===== *)
(** * The gRPC transport

    [internal/transport/grpc/server.go] and [dictionary_provider.go]: every handler
    of the tenant service and of the dictionary provider, with the conversion of
    requests, rows and errors. A request message is given by the fields its handler
    reads. *)

From stdpp Require Import base gmap list strings.
From S2P Require Import Prelude GoErrors Model Store Effects Platform Authorization Service.
From S2P Require Import Repository Dictionary Tenants Organizations Invitations Groups Quotas Directory.

(** ** Statuses *)

Inductive code :=
| codes_InvalidArgument | codes_NotFound | codes_Aborted | codes_Unavailable | codes_Internal
| codes_Unauthenticated.

(** An error a handler returns: a [status.Error], or an error as it is. *)
Inductive rpc_error :=
| StatusError (c : code) (message : string)
| RawError (e : goerr).

Inductive rpc (A : Type) :=
| Reply (a : A)
| Fail (e : rpc_error).
Arguments Reply {A} a.
Arguments Fail {A} e.

(** ** Messages of the [platform.tenant.v1] and [platform.dictionary.v1] packages *)

Record PbMembership := Build_PbMembership {
  PbMembership_Id : string; PbMembership_TenantId : string; PbMembership_UserId : string;
  PbMembership_Status : Z; PbMembership_PrimaryOrganizationUnitId : string;
  PbMembership_JoinedAt : Z; PbMembership_Version : Z; PbMembership_CreatedAt : Z;
  PbMembership_UpdatedAt : Z; PbMembership_CreatedBy : string; PbMembership_UpdatedBy : string }.
Record PbGroupMember := Build_PbGroupMember {
  PbGroupMember_Id : string; PbGroupMember_TenantId : string; PbGroupMember_GroupId : string;
  PbGroupMember_MembershipId : string; PbGroupMember_Status : string; PbGroupMember_Version : Z;
  PbGroupMember_CreatedAt : Z; PbGroupMember_UpdatedAt : Z; PbGroupMember_CreatedBy : string;
  PbGroupMember_UpdatedBy : string }.
Record MembershipDirectoryEntry := Build_MembershipDirectoryEntry {
  MembershipDirectoryEntry_Membership : PbMembership;
  MembershipDirectoryEntry_Username : string;
  MembershipDirectoryEntry_DisplayName : string }.
Record DictionaryItem := Build_DictionaryItem {
  DictionaryItem_Id : string; DictionaryItem_DictionaryCode : string; DictionaryItem_Code : string;
  DictionaryItem_Name : string; DictionaryItem_ParentId : string; DictionaryItem_Status : string;
  DictionaryItem_MetadataPath : string; DictionaryItem_MetadataTenantId : string;
  DictionaryItem_CreatedAt : Z; DictionaryItem_UpdatedAt : Z; DictionaryItem_CreatedBy : string;
  DictionaryItem_UpdatedBy : string; DictionaryItem_Version : Z; DictionaryItem_Leaf : bool }.
Inductive TreeNode := Build_TreeNode (Item : DictionaryItem) (Children : list TreeNode).
Record ResolvedCode := Build_ResolvedCode {
  ResolvedCode_Code : string; ResolvedCode_Found : bool; ResolvedCode_Item : option DictionaryItem }.

(** [value.String()] of the generated enums. *)
Class ProtoEnums := {
  TenantStatus_String : Z → string;
  MembershipStatus_String : Z → string;
}.

Section Grpc.
Context `{Platform, !ProtoEnums}.

(** [strings.TrimPrefix]. *)
Definition TrimPrefix (s prefix : string) : string :=
  if HasPrefix s prefix then String.substring (String.length prefix) (String.length s) s else s.

Definition tenantStatusString (value : Z) : string :=
  ToLower (TrimPrefix (TenantStatus_String value) "TENANT_STATUS_").
Definition membershipStatusString (value : Z) : string :=
  ToLower (TrimPrefix (MembershipStatus_String value) "MEMBERSHIP_STATUS_").
Definition tenantStatusProto (value : string) : Z :=
  TenantStatus_value ("TENANT_STATUS_" +:+ ToUpper value).
Definition membershipStatusProto (value : string) : Z :=
  MembershipStatus_value ("MEMBERSHIP_STATUS_" +:+ ToUpper value).

Definition toProtoTenant (v : Tenant) : PbTenant :=
  Build_PbTenant (Tenant_ID v) (Tenant_Code v) (Tenant_Name v) (tenantStatusProto (Tenant_Status v))
    (Tenant_Version v) (Tenant_CreatedAt v) (Tenant_UpdatedAt v) (Tenant_CreatedBy v)
    (Tenant_UpdatedBy v).
Definition toProtoMembership (v : Membership) : PbMembership :=
  Build_PbMembership (Membership_ID v) (Membership_TenantID v) (Membership_UserID v)
    (membershipStatusProto (Membership_Status v)) (Membership_PrimaryOrganizationUnitID v)
    (Membership_JoinedAt v) (Membership_Version v) (Membership_CreatedAt v)
    (Membership_UpdatedAt v) (Membership_CreatedBy v) (Membership_UpdatedBy v).
Definition toProtoOrganizationUnit (v : OrganizationUnit) : PbOrganizationUnit :=
  Build_PbOrganizationUnit (OrganizationUnit_ID v) (OrganizationUnit_TenantID v)
    (OrganizationUnit_ParentID v) (OrganizationUnit_Code v) (OrganizationUnit_Name v)
    (OrganizationUnit_Path v) (OrganizationUnit_Status v) (OrganizationUnit_Version v)
    (OrganizationUnit_CreatedAt v) (OrganizationUnit_UpdatedAt v) (OrganizationUnit_CreatedBy v)
    (OrganizationUnit_UpdatedBy v).
Definition toProtoInvitation (v : Invitation) : PbInvitation :=
  Build_PbInvitation (Invitation_ID v) (Invitation_TenantID v) (Invitation_Email v)
    (Invitation_Status v) (Invitation_ExpiresAt v) (Invitation_AcceptedByUserID v)
    (Invitation_Version v) (Invitation_CreatedAt v) (Invitation_UpdatedAt v)
    (Invitation_CreatedBy v) (Invitation_UpdatedBy v).
Definition toProtoGroup (v : Group) : PbGroup :=
  Build_PbGroup (Group_ID v) (Group_TenantID v) (Group_Code v) (Group_Name v) (Group_Status v)
    (Group_Version v) (Group_CreatedAt v) (Group_UpdatedAt v) (Group_CreatedBy v)
    (Group_UpdatedBy v).
Definition toProtoQuota (v : Quota) : PbQuota :=
  Build_PbQuota (Quota_TenantID v) (Quota_Key v) (Quota_Limit v) (Quota_Used v) (Quota_Version v)
    (Quota_CreatedAt v) (Quota_UpdatedAt v) (Quota_CreatedBy v) (Quota_UpdatedBy v).
Definition toProtoGroupMember (v : GroupMember) : PbGroupMember :=
  Build_PbGroupMember (GroupMember_ID v) (GroupMember_TenantID v) (GroupMember_GroupID v)
    (GroupMember_MembershipID v) (GroupMember_Status v) (GroupMember_Version v)
    (GroupMember_CreatedAt v) (GroupMember_UpdatedAt v) (GroupMember_CreatedBy v)
    (GroupMember_UpdatedBy v).

(** ** Errors *)

Definition grpcError (err : goerr) : rpc_error :=
  match As is_app err with
  | Some (AppError Code Message _ _) =>
      StatusError
        (if (Code =? CodeInvalidArgument)%Z then codes_InvalidArgument
         else if (Code =? CodeNotFound)%Z then codes_NotFound
         else if (Code =? CodeConflict)%Z then codes_Aborted
         else if (Code =? CodeDependencyUnavailable)%Z then codes_Unavailable
         else codes_Internal) Message
  | _ => StatusError codes_Internal "internal server error"
  end.

(** [value, err := m; if err != nil { return nil, h(err) }; return f(value), nil] *)
Definition answer {X A} (h : goerr → rpc_error) (f : X → A) (m : prog (X * option goerr))
  : prog (rpc A) :=
  r <- m;;
  Ret (match snd r with Some err => Fail (h err) | None => Reply (f (fst r)) end).

(** [int(request.GetPage().GetPage())] and its size, or the defaults without page. *)
Definition page_arguments (page : option (Z * Z)) (default : Z * Z) : Z * Z :=
  match page with Some p => p | None => default end.

Definition PageResult (total page pageSize : Z) : PbPageResult :=
  Build_PbPageResult (uint64 total) (uint32 page) (uint32 pageSize).

(** ** The tenant service *)

Definition grpc_CreateTenant s ctx (code name ownerUserId : string) :=
  answer grpcError (λ '(created, owner), (toProtoTenant created, toProtoMembership owner))
    (Create s ctx code name ownerUserId).

Definition grpc_GetTenant s ctx (tenantId : string) :=
  answer grpcError toProtoTenant (Get s ctx tenantId).

Definition grpc_ListTenants s ctx (page : option (Z * Z)) (keyword : string) (status : Z)
  : prog (rpc (list PbTenant * PbPageResult)) :=
  let '(pageNumber, pageSize) := page_arguments page (1, 20)%Z in
  let statusFilter := tenantStatusString status in
  stop_if negb (status =? 0)%Z && (statusFilter =?s "") =>
    Ret (Fail (StatusError codes_InvalidArgument "invalid tenant status"));;
  answer grpcError (λ p, (map toProtoTenant (Page_Tenants p),
                          PageResult (Page_Total p) (Page_Page p) (Page_PageSize p)))
    (Tenants.ListTenants s ctx keyword statusFilter pageNumber pageSize).

Definition grpc_UpdateTenant s ctx (tenantId name : string) (status expectedVersion : Z) :=
  answer grpcError toProtoTenant
    (Update s ctx tenantId name (tenantStatusString status) expectedVersion).

Definition grpc_AddMembership s ctx (tenantId userId primaryOrganizationUnitId : string) :=
  answer grpcError toProtoMembership
    (AddMembership s ctx tenantId userId primaryOrganizationUnitId).

Definition grpc_UpdateMembership s ctx (membershipId : string) (status : Z)
    (primaryOrganizationUnitId : string) (expectedVersion : Z) :=
  answer grpcError toProtoMembership
    (Tenants.UpdateMembership s ctx membershipId (membershipStatusString status)
       primaryOrganizationUnitId expectedVersion).

Definition grpc_ListMemberships s ctx (page : option (Z * Z)) (tenantId userId : string) (status : Z)
  : prog (rpc (list PbMembership * PbPageResult)) :=
  let '(pageNumber, pageSize) := page_arguments page (0, 0)%Z in
  answer grpcError (λ p, (map toProtoMembership (MembershipPage_Memberships p),
      PageResult (MembershipPage_Total p) (MembershipPage_Page p) (MembershipPage_PageSize p)))
    (Tenants.ListMemberships s ctx tenantId userId (membershipStatusString status) pageNumber pageSize).

Definition grpc_SearchMembershipDirectory s ctx (identity : option (string → Z → Z → result UserPage))
    (tenantId keyword : string) (limit : Z) : prog (rpc (list MembershipDirectoryEntry)) :=
  let limit := if (limit =? 0)%Z then 20%Z else limit in
  r <- Search (Some (Tenants.FindMembershipsByUserIDs s ctx)) identity tenantId keyword limit;;
  Ret (match r with
       | Err err =>
           if Is err ErrDirectoryUnavailable
           then Fail (StatusError codes_Unavailable "identity directory is unavailable")
           else Fail (grpcError err)
       | Ok entries =>
           Reply (map (λ e, Build_MembershipDirectoryEntry (toProtoMembership (Entry_Membership e))
                              (User_Username (Entry_User e)) (User_DisplayName (Entry_User e))) entries)
       end).

Definition grpc_CreateOrganizationUnit s ctx (tenantId parentId code name : string) :=
  answer grpcError toProtoOrganizationUnit
    (Organizations.CreateOrganizationUnit s ctx tenantId parentId code name).
Definition grpc_GetOrganizationUnit s ctx (organizationUnitId : string) :=
  answer grpcError toProtoOrganizationUnit
    (Organizations.GetOrganizationUnit s ctx organizationUnitId).
Definition grpc_UpdateOrganizationUnit s ctx (organizationUnitId parentId name status : string)
    (expectedVersion : Z) :=
  answer grpcError toProtoOrganizationUnit
    (Organizations.UpdateOrganizationUnit s ctx organizationUnitId parentId name status
       expectedVersion).
Definition grpc_ListOrganizationUnits s ctx (tenantId : string) :=
  answer grpcError (map toProtoOrganizationUnit) (Organizations.ListOrganizationUnits s ctx tenantId).

(** [time.Duration(seconds) * time.Second] *)
Definition seconds (z : Z) : Z := wrap64 (wrap64 z * second).

Definition grpc_CreateInvitation s ctx (tenantId email : string) (expiresInSeconds : Z) :=
  answer grpcError (λ '(value, token), (toProtoInvitation value, token))
    (Invitations.CreateInvitation s ctx tenantId email (seconds expiresInSeconds)).
Definition grpc_AcceptInvitation s ctx (token userId : string) :=
  answer grpcError (λ '(value, membership), (toProtoInvitation value, toProtoMembership membership))
    (AcceptInvitation s ctx token userId).
Definition grpc_RevokeInvitation s ctx (invitationId : string) (expectedVersion : Z) :=
  answer grpcError toProtoInvitation (RevokeInvitation s ctx invitationId expectedVersion).
(** The error is returned as it is. *)
Definition grpc_GetInvitation s ctx (invitationId : string) :=
  answer RawError toProtoInvitation (Invitations.GetInvitation s ctx invitationId).
Definition grpc_ListInvitations s ctx (page : option (Z * Z)) (tenantId : string)
  : prog (rpc (list PbInvitation * PbPageResult)) :=
  let '(pageNumber, pageSize) := page_arguments page (0, 0)%Z in
  answer grpcError (λ p, (map toProtoInvitation (InvitationPage_Invitations p),
      PageResult (InvitationPage_Total p) (InvitationPage_Page p) (InvitationPage_PageSize p)))
    (Invitations.ListInvitations s ctx tenantId pageNumber pageSize).

Definition grpc_CreateGroup s ctx (tenantId code name : string) :=
  answer grpcError toProtoGroup (Groups.CreateGroup s ctx tenantId code name).
Definition grpc_UpdateGroup s ctx (groupId name status : string) (expectedVersion : Z) :=
  answer grpcError toProtoGroup (Groups.UpdateGroup s ctx groupId name status expectedVersion).
Definition grpc_GetGroup s ctx (groupId : string) :=
  answer grpcError toProtoGroup (Groups.GetGroup s ctx groupId).
(** [if err := m; err != nil { return nil, grpcError(err) }; return f, nil] *)
Definition acknowledge (m : prog (option goerr)) : prog (rpc bool) :=
  r <- m;;
  Ret (match r with Some err => Fail (grpcError err) | None => Reply true end).
Definition grpc_AddGroupMember s ctx (groupId membershipId : string) :=
  acknowledge (AddGroupMember s ctx groupId membershipId).
Definition grpc_RemoveGroupMember s ctx (groupId membershipId : string) (expectedVersion : Z) :=
  acknowledge (RemoveGroupMember s ctx groupId membershipId expectedVersion).
(** The error is returned as it is. *)
Definition grpc_GetGroupMember s ctx (groupId membershipId : string) :=
  answer RawError toProtoGroupMember (Groups.GetGroupMember s ctx groupId membershipId).
Definition grpc_ListGroupMembers s ctx (groupId : string) :=
  answer grpcError (map toProtoGroupMember) (Groups.ListGroupMembers s ctx groupId).
Definition grpc_ListGroups s ctx (tenantId : string) :=
  answer grpcError (map toProtoGroup) (Groups.ListGroups s ctx tenantId).

Definition grpc_GetQuota s ctx (tenantId key : string) :=
  answer grpcError toProtoQuota (Quotas.GetQuota s ctx tenantId key).
Definition grpc_ListQuotas s ctx (page : option (Z * Z)) (tenantId keyword : string)
  : prog (rpc (list PbQuota * PbPageResult)) :=
  let '(pageNumber, pageSize) := page_arguments page (0, 0)%Z in
  answer grpcError (λ p, (map toProtoQuota (QuotaPage_Quotas p),
      PageResult (QuotaPage_Total p) (QuotaPage_Page p) (QuotaPage_PageSize p)))
    (Quotas.ListQuotas s ctx tenantId keyword pageNumber pageSize).
Definition grpc_SetQuota s ctx (tenantId key : string) (limit expectedVersion : Z) :=
  answer grpcError toProtoQuota (SetQuota s ctx tenantId key limit expectedVersion).
Definition grpc_ConsumeQuota s ctx (tenantId key : string) (amount : Z) :=
  answer grpcError (λ '(value, allowed), (toProtoQuota value, allowed))
    (Quotas.ConsumeQuota s ctx tenantId key amount).

(** Tenant and membership are set in a valid answer only. *)
Definition grpc_ValidateMembership s ctx (userId tenantId : string)
  : prog (rpc (bool * option (PbTenant * PbMembership))) :=
  r <- Tenants.ValidateMembership s ctx userId tenantId;;
  let '(t, m, valid) := r in
  Ret (Reply (valid, if valid then Some (toProtoTenant t, toProtoMembership m) else None)).
Definition grpc_GetMembership s ctx (membershipId : string) :=
  answer grpcError toProtoMembership (Tenants.GetMembership s ctx membershipId).
Definition grpc_ListUserTenants s ctx (page : option (Z * Z)) (userId : string)
  : prog (rpc (list PbTenant * PbPageResult)) :=
  let '(pageNumber, pageSize) := page_arguments page (0, 0)%Z in
  answer grpcError (λ p, (map toProtoTenant (Page_Tenants p),
                          PageResult (Page_Total p) (Page_Page p) (Page_PageSize p)))
    (Tenants.ListUserTenants s ctx userId pageNumber pageSize).
Definition grpc_ResolveOrganizationScope s ctx (membershipId : string) :=
  answer grpcError (λ ids : list string, ids)
    (Organizations.ResolveOrganizationScope s ctx membershipId).

(** ** The dictionary provider *)

Definition organizationDictionaryItem (v : OrganizationUnit) : DictionaryItem :=
  Build_DictionaryItem (OrganizationUnit_ID v) OrganizationUnitDictionaryCode
    (OrganizationUnit_Code v) (OrganizationUnit_Name v) (OrganizationUnit_ParentID v)
    (OrganizationUnit_Status v) (OrganizationUnit_Path v) (OrganizationUnit_TenantID v)
    (OrganizationUnit_CreatedAt v) (OrganizationUnit_UpdatedAt v) (OrganizationUnit_CreatedBy v)
    (OrganizationUnit_UpdatedBy v) (OrganizationUnit_Version v) false.

(** [item.Leaf = leaf] *)
Definition with_leaf (i : DictionaryItem) (leaf : bool) : DictionaryItem :=
  Build_DictionaryItem (DictionaryItem_Id i) (DictionaryItem_DictionaryCode i) (DictionaryItem_Code i)
    (DictionaryItem_Name i) (DictionaryItem_ParentId i) (DictionaryItem_Status i)
    (DictionaryItem_MetadataPath i) (DictionaryItem_MetadataTenantId i) (DictionaryItem_CreatedAt i)
    (DictionaryItem_UpdatedAt i) (DictionaryItem_CreatedBy i) (DictionaryItem_UpdatedBy i)
    (DictionaryItem_Version i) leaf.

Fixpoint organizationTreeNode (n : OrganizationTreeNode) : TreeNode :=
  match n with
  | Build_OrganizationTreeNode item children _ =>
      Build_TreeNode
        (with_leaf (organizationDictionaryItem item) (match children with [] => true | _ => false end))
        (map organizationTreeNode children)
  end.
Definition organizationTreeNodes (values : list OrganizationTreeNode) : list TreeNode :=
  map organizationTreeNode values.

(** [err.Error()] of the two sentinels is the text they were made with; of another
    error it is not used. *)
Definition dictionaryProviderError (err : goerr) : rpc_error :=
  if Is err ErrDictionaryRequest then
    StatusError codes_InvalidArgument "invalid dynamic dictionary request"
  else if Is err ErrDictionaryUnsupported then
    StatusError codes_NotFound "dynamic dictionary is not supported"
  else StatusError codes_Internal "dynamic dictionary query failed".

Definition provide {X A} (f : X → A) (m : prog (result X)) : prog (rpc A) :=
  r <- m;;
  Ret (match r with Err err => Fail (dictionaryProviderError err) | Ok x => Reply (f x) end).

Definition grpc_Query (tenantId dictionaryCode : string) (search : DictionarySearch) :=
  provide (λ r, (map organizationDictionaryItem (DictionaryPage_Items r),
      PageResult (DictionaryPage_Total r) (DictionaryPage_Page r) (DictionaryPage_PageSize r)))
    (Dictionary.Query tenantId dictionaryCode search).

Inductive TreeMode := TREE_MODE_CHILDREN | TREE_MODE_SEARCH_WITH_ANCESTORS | TREE_MODE_OTHER.

Definition tree_mode (m : TreeMode) : string :=
  match m with
  | TREE_MODE_CHILDREN => "children"
  | TREE_MODE_SEARCH_WITH_ANCESTORS => "search_with_ancestors"
  | TREE_MODE_OTHER => "full"
  end.

Definition grpc_Tree (tenantId dictionaryCode : string) (mode : TreeMode) (parentId keyword : string)
    (maxDepth maxNodes : Z) (filters : gmap string string) :=
  provide (λ '(roots, truncated), (organizationTreeNodes roots, truncated))
    (Tree NewDictionaryProvider tenantId dictionaryCode (tree_mode mode) parentId keyword maxDepth
       maxNodes filters).

Definition grpc_ResolveCodes (tenantId dictionaryCode : string) (codes : list string) :=
  provide (λ resolved : gmap string OrganizationUnit,
      map (λ c, Build_ResolvedCode c (has resolved c) (organizationDictionaryItem <$> resolved !! c)) codes)
    (ResolveCodes tenantId dictionaryCode codes).

End Grpc.
