(* ===== verification/GrpcProofs.v ===== *)
(** * Properties of the gRPC transport *)

From stdpp Require Import base gmap list strings.
From S2P Require Import Prelude GoErrors Model Store Effects Platform Authorization Events Service.
From S2P Require Import Repository Dictionary DictionaryProofs Tenants Organizations Invitations.
From S2P Require Import Groups Quotas Directory Grpc Outcomes.
From S2P Require Import Tables Invariants Requests Concurrency.

(** What the shared packages document: the application codes are different, an enum
    prints the declared name of its number, and the names of the statuses are declared. *)
Class CodeLaws `{ErrorCodes} := {
  codes_distinct : NoDup [CodeOK; CodeInvalidArgument; CodeNotFound; CodeRequestTimeout;
    CodeTooManyRequests; CodeUnauthorized; CodeForbidden; CodeConflict; CodeRequestInProgress;
    CodeStaleVersion; CodeInternal; CodeDependencyUnavailable];
}.
Class EnumLaws `{Platform, !ProtoEnums} := {
  tenant_status_unspecified : TenantStatus_String 0 = "TENANT_STATUS_UNSPECIFIED";
  membership_status_unspecified : MembershipStatus_String 0 = "MEMBERSHIP_STATUS_UNSPECIFIED";
  tenant_status_declared st :
    validTenantStatus st = true →
    TenantStatus_String (TenantStatus_value ("TENANT_STATUS_" +:+ ToUpper st))
    = "TENANT_STATUS_" +:+ ToUpper st;
  membership_status_declared st :
    validMembershipStatus st = true →
    MembershipStatus_String (MembershipStatus_value ("MEMBERSHIP_STATUS_" +:+ ToUpper st))
    = "MEMBERSHIP_STATUS_" +:+ ToUpper st;
}.

Section GrpcProofs.
Context `{Platform, !ProtoEnums}.

(** The gRPC code of an error. *)
Definition rpc_code (e : rpc_error) : option code :=
  match e with StatusError c _ => Some c | RawError _ => None end.

(** Status codes: invalid arguments, missing resources, conflicts and unavailable
    dependencies keep their meaning, through any wrapping; every other refusal --
    missing authentication, denied access, a stale version, a request in progress, too
    many requests, a timeout -- reaches the client as an internal error. *)
Theorem grpc_status_codes `{!CodeLaws} m i e :
  rpc_code (grpcError (Invalid m i)) = Some codes_InvalidArgument ∧
  rpc_code (grpcError (NotFound m)) = Some codes_NotFound ∧
  rpc_code (grpcError (Conflict m i)) = Some codes_Aborted ∧
  rpc_code (grpcError (Unavailable m i)) = Some codes_Unavailable ∧
  rpc_code (grpcError (Unauthorized m)) = Some codes_Internal ∧
  rpc_code (grpcError (Forbidden m)) = Some codes_Internal ∧
  rpc_code (grpcError (StaleVersion e)) = Some codes_Internal ∧
  rpc_code (grpcError RequestInProgress) = Some codes_Internal ∧
  rpc_code (grpcError TooManyRequests) = Some codes_Internal ∧
  rpc_code (grpcError RequestTimeout) = Some codes_Internal ∧
  rpc_code (grpcError (Internal e)) = Some codes_Internal ∧
  (∀ w, grpcError (Wrapped w e) = grpcError e).
Proof.
  pose proof codes_distinct as Hd. repeat (apply NoDup_cons in Hd as [? Hd]).
  repeat match goal with H : _ ∉ _ :: _ |- _ => apply not_elem_of_cons in H as [? ?] end.
  unfold grpcError, Invalid, NotFound, Conflict, Unavailable, Unauthorized, Forbidden, StaleVersion,
    RequestInProgress, TooManyRequests, RequestTimeout, Internal, New. rewrite !As_app_self.
  split_and!; [..|done]; simpl;
    repeat (rewrite Z.eqb_refl || rewrite (proj2 (Z.eqb_neq _ _)) by congruence); done.
Qed.

(** ** Statuses *)

Lemma trim_prefix_app (p s : string) : TrimPrefix (p +:+ s) p = s.
Proof.
  unfold TrimPrefix, HasPrefix. rewrite prefix_app.
  assert (∀ n, String.length s ≤ n → String.substring (String.length p) n (p +:+ s) = s) as Hs.
  { induction p as [|a p IH]; intros n Hn; rewrite ?string_app_nil_l, ?string_app_cons; simpl; [|by apply IH].
    revert n Hn. induction s as [|a s IHs]; intros n Hn; [by destruct n|].
    destruct n as [|n]; simpl in *; [lia|]. f_equal. apply IHs. lia. }
  apply Hs. rewrite string_length_app. lia.
Qed.

Lemma tenant_status_roundtrip `{!EnumLaws} st :
  validTenantStatus st = true → tenantStatusString (tenantStatusProto st) = st.
Proof.
  intros Hst. unfold tenantStatusString, tenantStatusProto.
  rewrite tenant_status_declared, trim_prefix_app by done. unfold validTenantStatus in Hst.
  repeat (apply orb_prop in Hst as [Hst|Hst]); apply String.eqb_eq in Hst as ->; reflexivity.
Qed.

Lemma membership_status_roundtrip `{!EnumLaws} st :
  validMembershipStatus st = true → membershipStatusString (membershipStatusProto st) = st.
Proof.
  intros Hst. unfold membershipStatusString, membershipStatusProto.
  rewrite membership_status_declared, trim_prefix_app by done. unfold validMembershipStatus in Hst.
  repeat (apply orb_prop in Hst as [Hst|Hst]); apply String.eqb_eq in Hst as ->; reflexivity.
Qed.

(** Statuses survive the wire: the enum of a tenant or membership status, sent
    back in a request, is the same status. *)
Theorem statuses_roundtrip `{!EnumLaws} :
  (∀ st, validTenantStatus st = true → tenantStatusString (tenantStatusProto st) = st) ∧
  (∀ st, validMembershipStatus st = true → membershipStatusString (membershipStatusProto st) = st).
Proof. split; [apply tenant_status_roundtrip|apply membership_status_roundtrip]. Qed.

(** The unspecified status is not "any status": a gRPC list of tenants or of
    memberships that leaves the status out is always refused as invalid, for every
    caller, without a query. *)
Theorem unspecified_status_refused `{!EnumLaws, !CodeLaws} s ctx env w page keyword tenantId userId :
  run env (grpc_ListTenants s ctx page keyword 0) w
  = (Fail (StatusError codes_InvalidArgument "invalid tenant status"), w) ∧
  run env (grpc_ListMemberships s ctx page tenantId userId 0) w
  = (Fail (StatusError codes_InvalidArgument "invalid membership query"), w).
Proof.
  assert (grpcError (Invalid "invalid tenant status" None)
          = StatusError codes_InvalidArgument "invalid tenant status") as Ht.
  { unfold grpcError. simpl. by rewrite Z.eqb_refl. }
  assert (grpcError (Invalid "invalid membership query" None)
          = StatusError codes_InvalidArgument "invalid membership query") as Hm.
  { unfold grpcError. simpl. by rewrite Z.eqb_refl. }
  split.
  - unfold grpc_ListTenants. destruct (page_arguments _ _) as [p n].
    unfold tenantStatusString. rewrite tenant_status_unspecified.
    change (ToLower (TrimPrefix "TENANT_STATUS_UNSPECIFIED" "TENANT_STATUS_")) with "unspecified".
    unfold Tenants.ListTenants, answer.
    change (TrimSpace "unspecified") with "unspecified". simpl. by rewrite Ht.
  - unfold grpc_ListMemberships. destruct (page_arguments _ _) as [p n].
    unfold membershipStatusString. rewrite membership_status_unspecified.
    change (ToLower (TrimPrefix "MEMBERSHIP_STATUS_UNSPECIFIED" "MEMBERSHIP_STATUS_")) with "unspecified".
    unfold Tenants.ListMemberships, answer.
    change (TrimSpace "unspecified") with "unspecified". simpl. rewrite orb_true_r. simpl. by rewrite Hm.
Qed.

(** Statuses over gRPC: the enum of a tenant or membership status, sent back in a
    request, is the same status; but the unspecified one is not "any status": a list of
    tenants or of memberships that leaves the status out is always refused as invalid, for
    every caller, without a query. *)
Theorem statuses_over_grpc `{!EnumLaws, !CodeLaws} s ctx env w page keyword tenantId userId :
  (∀ st, validTenantStatus st = true → tenantStatusString (tenantStatusProto st) = st) ∧
  (∀ st, validMembershipStatus st = true → membershipStatusString (membershipStatusProto st) = st) ∧
  run env (grpc_ListTenants s ctx page keyword 0) w
  = (Fail (StatusError codes_InvalidArgument "invalid tenant status"), w) ∧
  run env (grpc_ListMemberships s ctx page tenantId userId 0) w
  = (Fail (StatusError codes_InvalidArgument "invalid membership query"), w).
Proof.
  destruct statuses_roundtrip as [Ht Hm].
  destruct (unspecified_status_refused s ctx env w page keyword tenantId userId) as [Hlt Hlm].
  by split_and!.
Qed.

(** ** Types of the stored values *)

(** The statuses of the tables are those the service checks for. *)
Lemma tenant_statuses_valid st : st ∈ tenant_statuses → validTenantStatus st = true.
Proof. intros Hst. set_unfold in Hst. destruct_or?; by subst. Qed.
Lemma membership_statuses_valid st : st ∈ membership_statuses → validMembershipStatus st = true.
Proof. intros Hst. set_unfold in Hst. destruct_or?; by subst. Qed.

(** A status of a table is not the unspecified one, and comes back from its number. *)
Lemma tenant_status_specified `{!EnumLaws} st :
  st ∈ tenant_statuses → tenantStatusProto st ≠ 0%Z ∧ tenantStatusString (tenantStatusProto st) = st.
Proof.
  intros Hst%tenant_statuses_valid. pose proof (tenant_status_roundtrip st Hst) as Hr. split; [|done].
  intros Hz. rewrite Hz in Hr. unfold tenantStatusString in Hr. rewrite tenant_status_unspecified in Hr.
  subst st. discriminate Hst.
Qed.
Lemma membership_status_specified `{!EnumLaws} st :
  st ∈ membership_statuses →
  membershipStatusProto st ≠ 0%Z ∧ membershipStatusString (membershipStatusProto st) = st.
Proof.
  intros Hst%membership_statuses_valid. pose proof (membership_status_roundtrip st Hst) as Hr.
  split; [|done]. intros Hz. rewrite Hz in Hr. unfold membershipStatusString in Hr.
  rewrite membership_status_unspecified in Hr. subst st. discriminate Hst.
Qed.

(** (C15) The columns the schema declares as plain text keep their types, which no constraint of
    the database enforces: after any interleaving of any requests every status is one of its
    table's, no code, name, user or quota key is empty, an invitation names who accepted it
    exactly when it is accepted and expires within thirty days of its creation; and the status
    number gRPC answers and publishes for a stored tenant or membership is never the
    unspecified one and is read back as the stored status. *)
Theorem stored_values_typed `{!AuditLaws, !EnumLaws} s rs env w ps w' :
  inv (w_db w) → pool_steps env (pool s rs, w) (ps, w') →
  let d := w_db w' in
  (∀ k r, tenants d !! k = Some r → Tenant_typed r ∧
     PbTenant_Status (toProtoTenant r) ≠ 0%Z ∧
     tenantStatusString (PbTenant_Status (toProtoTenant r)) = Tenant_Status r ∧
     eventTenant r = toProtoTenant r) ∧
  (∀ k r, memberships d !! k = Some r → Membership_typed r ∧
     PbMembership_Status (toProtoMembership r) ≠ 0%Z ∧
     membershipStatusString (PbMembership_Status (toProtoMembership r)) = Membership_Status r) ∧
  (∀ k r, organization_units d !! k = Some r → OrganizationUnit_typed r) ∧
  (∀ k r, invitations d !! k = Some r → Invitation_typed r) ∧
  (∀ k r, member_groups d !! k = Some r → Group_typed r) ∧
  (∀ k r, group_members d !! k = Some r → GroupMember_typed r) ∧
  (∀ k r, tenant_quotas d !! k = Some r → Quota_typed r).
Proof.
  intros Hd Hs d. destruct (pool_steps_inv _ _ _ _ _ _ Hd Hs) as [[Ht _] [Hm _] [Hu _] [Hi _] [Hg _] [Hgm _] [Hq _]].
  split_and!; intros k r Hr.
  - destruct (Ht k r Hr) as (_ & _ & Hty). destruct Hty as [Hst Hty].
    destruct (tenant_status_specified _ Hst). by split_and!.
  - destruct (Hm k r Hr) as (_ & _ & Hty). destruct Hty as [Hst Hty].
    destruct (membership_status_specified _ Hst). by split_and!.
  - apply (Hu k r Hr).
  - apply (Hi k r Hr).
  - apply (Hg k r Hr).
  - apply (Hgm k r Hr).
  - apply (Hq k r Hr).
Qed.

(** ** Pages *)

Lemma limit_offset_page {A} (l : list A) p k :
  (1 ≤ p)%Z → (1 ≤ k)%Z → limit_offset k ((p - 1) * k) l = Ok (page_of l p k).
Proof.
  intros Hp Hk. unfold limit_offset, page_of.
  rewrite (proj2 (Z.ltb_ge k 0)), (proj2 (Z.ltb_ge ((p - 1) * k) 0)) by nia.
  destruct (Z.leb_spec (Z.of_nat (length l)) ((p - 1) * k)).
  { by rewrite drop_ge, take_nil by lia. }
  f_equal. destruct (Z.min_spec k (Z.of_nat (length l))) as [[? ->]|[? ->]]; [done|].
  rewrite !take_ge; [done|rewrite length_drop; lia..].
Qed.

(** The memberships a query selects, in order. *)
Definition membership_query (tenantID userID status : string) (d : DB) : list Membership :=
  select (λ m, (Membership_TenantID m =?s tenantID) && optional_filter userID (Membership_UserID m)
               && optional_filter status (Membership_Status m)) membership_order (memberships d).

(** Pages of memberships over gRPC: without storage faults, a caller that may act
    on the tenant and asks for page [p] of size [k] (32-bit numbers; 0 means page 1 and
    size 20) of a valid status gets exactly the [p]-th slice of the memberships that
    match, with the total. *)
Theorem grpc_membership_pages `{!EnumLaws} s ctx env w tenantId userId status p k :
  (∀ n, env_fault env n = None) → TrimSpace tenantId ≠ "" →
  may_access ctx (TrimSpace tenantId) → validMembershipStatus status = true →
  (0 ≤ p < 2 ^ 32)%Z → (0 ≤ k ≤ 100)%Z →
  let all := membership_query (TrimSpace tenantId) (TrimSpace userId) status (w_db w) in
  let page := default_page p in
  let pageSize := default_page_size k in
  fst (run env (grpc_ListMemberships s ctx (Some (p, k)) tenantId userId (membershipStatusProto status)) w)
  = Reply (map toProtoMembership (page_of all page pageSize),
           PageResult (Z.of_nat (length all)) page pageSize).
Proof.
  intros Hf Ht Hacc%authorizeTenant_iff Hst Hp Hk all page pageSize.
  assert (1 ≤ page < 2 ^ 32)%Z as Hpage by (unfold page, default_page; case_match; reflect_bools; lia).
  assert (1 ≤ pageSize ≤ 100)%Z as Hsize by (unfold pageSize, default_page_size; case_match; reflect_bools; lia).
  assert (membershipStatusString (membershipStatusProto status) = status ∧ TrimSpace status = status
          ∧ status ≠ "") as (Hs & Htrim & Hne).
  { split; [by apply membership_status_roundtrip|]. unfold validMembershipStatus in Hst.
    repeat (apply orb_prop in Hst as [Hst|Hst]); apply String.eqb_eq in Hst as ->; by split. }
  unfold grpc_ListMemberships, answer. cbn [page_arguments]. rewrite Hs.
  unfold Tenants.ListMemberships. rewrite Htrim, Hst.
  destruct (String.eqb_spec (TrimSpace tenantId) ""); [done|]. rewrite andb_false_r. cbn [orb].
  rewrite Hacc. fold page pageSize. rewrite (proj2 (Z.ltb_ge 100 pageSize)) by lia.
  rewrite page_offset_exact by lia. unfold Repository.ListMemberships. cbn [bind query run].
  rewrite Hf. cbn [bind run]. rewrite Hf. cbn [w_db tick].
  fold (membership_query (TrimSpace tenantId) (TrimSpace userId) status (w_db w)). fold all.
  by rewrite limit_offset_page by lia.
Qed.

End GrpcProofs.
