(* ===== verification/Floats.v ===== *)
(** * Double-precision numbers

    Go's [float64] as the IEEE 754 numbers of the Standard Library, and what the sources do
    with them: conversions from and to [int64], multiplication, [math.Pow(2, n)] and
    [time.Duration.Seconds]. *)

From Stdlib Require Import ZArith SpecFloat.
From stdpp Require Import base numbers.
From S2P Require Import Prelude.

Definition float64 : Type := spec_float.

Definition float_of_Z (z : Z) : float64 := binary_normalize 53 1024 z 0 false.
Definition float_mul : float64 → float64 → float64 := SFmul 53 1024.
Definition float_add : float64 → float64 → float64 := SFadd 53 1024.
Definition float_div : float64 → float64 → float64 := SFdiv 53 1024.
(** [<]: false when a side is not a number. *)
Definition float_lt : float64 → float64 → bool := SFltb.

(** The integer part; [None] for what is no number. *)
Definition truncate (f : float64) : option Z :=
  match f with
  | S754_zero _ => Some 0%Z
  | S754_finite s m e =>
      let z := if (0 <=? e)%Z then (Zpos m * 2 ^ e)%Z else (Zpos m / 2 ^ (- e))%Z in
      Some (if s then - z else z)%Z
  | _ => None
  end.

(** [int64(f)]: what comes out when the integer part is no [int64] depends on the machine. *)
Class FloatMachine := { int64_out_of_range : float64 → Z }.
Definition int64_of_float `{FloatMachine} (f : float64) : Z :=
  match truncate f with
  | Some z => if (min_int64 <=? z)%Z && (z <=? max_int64)%Z then z else int64_out_of_range f
  | None => int64_out_of_range f
  end.

(** [math.Pow(2, n)] for a natural [n]: exact. *)
Definition pow2 (n : Z) : float64 := float_of_Z (2 ^ n).

(** [d.Seconds()]. *)
Definition Seconds (d : Z) : float64 :=
  float_add (float_of_Z (Z.quot d 1000000000))
    (float_div (float_of_Z (Z.rem d 1000000000)) (float_of_Z 1000000000)).
