(* ===== verification/Config.v ===== *)
(** * Configuration

    [internal/config/config.go]: the settings, their validation, and how they are loaded for
    a profile. Durations are nanoseconds; Go's [int], [int64] and [uint32] are integers. *)

From Stdlib Require Import Ascii SpecFloat.
From stdpp Require Import base gmap list strings.
From S2P Require Import Prelude GoErrors Effects Floats.

(** ** Settings *)

Record Runtime := Build_Runtime { Runtime_ActiveProfile : string;
  Runtime_ConfigFiles : list string }.
Record App := Build_App { App_Name : string; App_Schema : string; App_Env : string;
  App_ShutdownTimeout : Z }.
Record CORS := Build_CORS { CORS_Enabled : bool; CORS_AllowedOrigins : list string;
  CORS_AllowedHeaders : list string; CORS_ExposedHeaders : list string; CORS_MaxAge : Z }.
Record HTTP := Build_HTTP { HTTP_Address : string; HTTP_ReadTimeout : Z; HTTP_WriteTimeout : Z;
  HTTP_IdleTimeout : Z; HTTP_RequestTimeout : Z; HTTP_MaxBodyBytes : Z;
  HTTP_TrustedProxies : list string; HTTP_CORS : CORS }.
Record GRPCTLS := Build_GRPCTLS { GRPCTLS_Enabled : bool; GRPCTLS_CertFile : string;
  GRPCTLS_KeyFile : string; GRPCTLS_ClientCAFile : string }.
Record GRPC := Build_GRPC { GRPC_Enabled : bool; GRPC_Address : string;
  GRPC_ReflectionEnabled : bool; GRPC_MaxReceiveBytes : Z; GRPC_TLS : GRPCTLS }.
Record Log := Build_Log { Log_Level : string; Log_Format : string; Log_File : string;
  Log_MaxSizeMB : Z; Log_MaxBackups : Z; Log_MaxAgeDays : Z; Log_Compress : bool }.
Record Database := Build_Database { Database_Enabled : bool; Database_Name : string;
  Database_Schema : string; Database_Type : string; Database_DSN : string;
  Database_MaxOpenConns : Z; Database_MaxIdleConns : Z; Database_ConnMaxLifetime : Z;
  Database_ConnMaxIdleTime : Z; Database_PingTimeout : Z }.
Record Redis := Build_Redis { Redis_Enabled : bool; Redis_Address : string;
  Redis_Username : string; Redis_Password : string; Redis_DB : Z; Redis_DialTimeout : Z;
  Redis_ReadTimeout : Z; Redis_WriteTimeout : Z }.
Record Health := Build_Health { Health_DatabaseTimeout : Z; Health_RedisTimeout : Z }.
Record RateLimitRule := Build_RateLimitRule { RateLimitRule_Rate : Z; RateLimitRule_Burst : Z;
  RateLimitRule_Period : Z }.
Record RateLimit := Build_RateLimit { RateLimit_Enabled : bool; RateLimit_FailOpen : bool;
  RateLimit_IP : RateLimitRule; RateLimit_API : RateLimitRule; RateLimit_User : RateLimitRule;
  RateLimit_Login : RateLimitRule }.
Record Observability := Build_Observability { Observability_MetricsEnabled : bool;
  Observability_TracingEnabled : bool; Observability_TracingEndpoint : string;
  Observability_TracingSampleRatio : float64; Observability_PprofEnabled : bool;
  Observability_PprofToken : string }.
Record Swagger := Build_Swagger { Swagger_Enabled : bool; Swagger_RequireAuth : bool }.
Record JWT := Build_JWT { JWT_Issuer : string; JWT_Secret : string; JWT_TTL : Z }.
Record PSK := Build_PSK { PSK_Enabled : bool; PSK_Key : string; PSK_HTTPPaths : list string;
  PSK_GRPCMethods : list string }.
Record Auth := Build_Auth { Auth_JWKSURL : string; Auth_Issuer : string; Auth_Audience : string;
  Auth_ClientID : string; Auth_ClientSecret : string; Auth_SkipHTTPPaths : list string;
  Auth_SkipGRPCMethods : list string; Auth_PSK : PSK }.
Record Authorization := Build_Authorization { Authorization_Enabled : bool }.
Record Cron := Build_Cron { Cron_Enabled : bool; Cron_Timezone : string;
  Cron_SampleSpec : string }.
Record Migration := Build_Migration { Migration_AutoUp : bool; Migration_CreateSchema : bool;
  Migration_Path : string; Migration_DatabaseURL : string; Migration_Table : string;
  Migration_Schema : string; Migration_DatabaseName : string }.
Record User := Build_User { User_CacheTTL : Z; User_LockTTL : Z; User_LockRetryDelay : Z }.
Record Idempotency := Build_Idempotency { Idempotency_Enabled : bool;
  Idempotency_HTTPPaths : list string; Idempotency_GRPCMethods : list string;
  Idempotency_ProcessingTTL : Z; Idempotency_ResultTTL : Z; Idempotency_FailureTTL : Z }.
Record ClientAuth := Build_ClientAuth { ClientAuth_Type : string; ClientAuth_Token : string }.
Record Retry := Build_Retry { Retry_MaxAttempts : Z; Retry_InitialBackoff : Z;
  Retry_MaxBackoff : Z; Retry_Methods : list string }.
Record Breaker := Build_Breaker { Breaker_Enabled : bool; Breaker_FailureThreshold : Z;
  Breaker_OpenTimeout : Z }.
Record ClientTLS := Build_ClientTLS { ClientTLS_Enabled : bool; ClientTLS_ServerName : string;
  ClientTLS_CAFile : string; ClientTLS_CertFile : string; ClientTLS_KeyFile : string }.
Record HTTPUpstream := Build_HTTPUpstream { HTTPUpstream_BaseURL : string;
  HTTPUpstream_Timeout : Z; HTTPUpstream_Auth : ClientAuth; HTTPUpstream_Retry : Retry;
  HTTPUpstream_Breaker : Breaker; HTTPUpstream_TLS : ClientTLS }.
Record GRPCUpstream := Build_GRPCUpstream { GRPCUpstream_Target : string;
  GRPCUpstream_Timeout : Z; GRPCUpstream_Auth : ClientAuth; GRPCUpstream_Retry : Retry;
  GRPCUpstream_Breaker : Breaker; GRPCUpstream_TLS : ClientTLS;
  GRPCUpstream_AllowInsecureCredentials : bool }.
Record Outbound := Build_Outbound { Outbound_HTTP : gmap string HTTPUpstream;
  Outbound_GRPC : gmap string GRPCUpstream }.
Record EventBus := Build_EventBus { EventBus_Enabled : bool; EventBus_URLs : list string;
  EventBus_StreamName : string; EventBus_Storage : string; EventBus_MaxAge : Z;
  EventBus_DuplicateWindow : Z; EventBus_ConnectTimeout : Z; EventBus_PublishTimeout : Z;
  EventBus_DispatchInterval : Z; EventBus_DispatchBatchSize : Z; EventBus_DispatchLease : Z;
  EventBus_DispatchRetryDelay : Z; EventBus_PublishedRetention : Z; EventBus_CleanupInterval : Z;
  EventBus_CleanupBatchSize : Z }.
Record DictionaryProvider := Build_DictionaryProvider { DictionaryProvider_Enabled : bool;
  DictionaryProvider_RegistryClient : string; DictionaryProvider_Target : string;
  DictionaryProvider_CacheTTL : Z; DictionaryProvider_ProviderTimeout : Z;
  DictionaryProvider_LeaseDuration : Z; DictionaryProvider_RetryDelay : Z;
  DictionaryProvider_LeaderTTL : Z }.
Record Config := Build_Config { Config_Runtime : Runtime; Config_App : App; Config_HTTP : HTTP;
  Config_GRPC : GRPC; Config_Log : Log; Config_Database : Database; Config_Redis : Redis;
  Config_Health : Health; Config_RateLimit : RateLimit; Config_Observability : Observability;
  Config_Swagger : Swagger; Config_JWT : JWT; Config_Auth : Auth;
  Config_Authorization : Authorization; Config_Cron : Cron; Config_Migration : Migration;
  Config_User : User; Config_Idempotency : Idempotency; Config_Outbound : Outbound;
  Config_EventBus : EventBus; Config_DictionaryProvider : DictionaryProvider }.

(** ** Tests *)

Definition lower_letter (a : ascii) : bool :=
  let n := N_of_ascii a in ((97 <=? n) && (n <=? 122))%N.
Definition digit (a : ascii) : bool :=
  let n := N_of_ascii a in ((48 <=? n) && (n <=? 57))%N.

(** [^[a-z0-9][a-z0-9_-]*$] *)
Definition validProfile (s : string) : bool :=
  match String.list_ascii_of_string s with
  | [] => false
  | a :: l =>
      (lower_letter a || digit a)
      && forallb (λ b, lower_letter b || digit b || Ascii.eqb b "_" || Ascii.eqb b "-") l
  end.

(** [^[a-z][a-z0-9_]{0,62}$] *)
Definition validMigrationTable (s : string) : bool :=
  match String.list_ascii_of_string s with
  | [] => false
  | a :: l =>
      lower_letter a && (length l <=? 62)%nat
      && forallb (λ b, lower_letter b || digit b || Ascii.eqb b "_") l
  end.

Definition isDBType (value : string) : bool :=
  (value =?s "mysql") || (value =?s "postgres") || (value =?s "kingbase").

(** [strings.Count(s, "/")]. *)
Definition count_slashes (s : string) : nat :=
  length (List.filter (Ascii.eqb "/") (String.list_ascii_of_string s)).

(** A loop whose body may return an error: the first one is returned. *)
Fixpoint first_error {A} (body : A → option goerr) (l : list A) : option goerr :=
  match l with
  | [] => None
  | a :: l' => match body a with Some err => Some err | None => first_error body l' end
  end.

(** ** Validation *)

Section Validation.
(** [path.Match(pattern, name)]. *)
Context (path_Match : string → string → result bool).
(** The order in which [range] visits a map is not specified. *)
Context (range : ∀ A, gmap string A → list (string * A)).
Arguments range {_} _.

(** The two loops over route patterns, each written three times in the source. *)
Definition validHTTPPatterns (key : string) (patterns : list string) : option goerr :=
  first_error (λ pattern,
    stop_if negb (HasPrefix pattern "/api/") => Some (TextError (key +:+ " contains path outside /api"));;
    match path_Match pattern "/validation/target" with
    | Err err => Some (Wrapped (key +:+ " contains invalid pattern") err)
    | Ok _ => None
    end) patterns.
Definition validGRPCPatterns (key : string) (patterns : list string) : option goerr :=
  first_error (λ pattern,
    stop_if negb (HasPrefix pattern "/") || negb (count_slashes pattern =? 2)%nat =>
      Some (TextError (key +:+ " contains invalid method pattern"));;
    match path_Match pattern "/validation/target" with
    | Err err => Some (Wrapped (key +:+ " contains invalid pattern") err)
    | Ok _ => None
    end) patterns.

Definition validateClientPolicy (name : string) (auth : ClientAuth) (retry : Retry) (breaker : Breaker)
    (tls : ClientTLS) (allowInsecureCredentials : bool) : option goerr :=
  stop_if (ClientAuth_Type auth <>?s "") && (ClientAuth_Type auth <>?s "bearer")
          && (ClientAuth_Type auth <>?s "psk") =>
    Some (TextError ("outbound " +:+ name +:+ " auth.type must be bearer or psk"));;
  stop_if (ClientAuth_Type auth <>?s "") && (ClientAuth_Token auth =?s "") =>
    Some (TextError ("outbound " +:+ name +:+ " auth.token is required"));;
  stop_if (ClientAuth_Type auth <>?s "") && negb (ClientTLS_Enabled tls) && negb allowInsecureCredentials =>
    Some (TextError ("outbound " +:+ name +:+ " credentials require TLS"));;
  stop_if (Retry_MaxAttempts retry <? 1)%Z || (5 <? Retry_MaxAttempts retry)%Z
          || (Retry_InitialBackoff retry <=? 0)%Z
          || (Retry_MaxBackoff retry <? Retry_InitialBackoff retry)%Z =>
    Some (TextError ("outbound " +:+ name +:+ " retry policy is invalid"));;
  guard first_error (λ pattern,
      stop_if negb (HasPrefix pattern "/") || negb (count_slashes pattern =? 2)%nat =>
        Some (TextError ("outbound " +:+ name +:+ " retry method pattern is invalid"));;
      match path_Match pattern "/validation/target" with
      | Err err => Some (Wrapped ("outbound " +:+ name +:+ " retry method pattern is invalid") err)
      | Ok _ => None
      end) (Retry_Methods retry)
    else err => Some err;;
  stop_if Breaker_Enabled breaker
          && ((Breaker_FailureThreshold breaker =? 0)%Z || (Breaker_OpenTimeout breaker <=? 0)%Z) =>
    Some (TextError ("outbound " +:+ name +:+ " breaker policy is invalid"));;
  stop_if ClientTLS_Enabled tls && xorb (ClientTLS_CertFile tls =?s "") (ClientTLS_KeyFile tls =?s "") =>
    Some (TextError ("outbound " +:+ name +:+ " TLS certificate and key must be configured together"));;
  None.

(** The rules of the map literal. *)
Definition rate_limit_rules (r : RateLimit) : gmap string RateLimitRule :=
  {[ "ip" := RateLimit_IP r; "api" := RateLimit_API r; "user" := RateLimit_User r;
     "login" := RateLimit_Login r ]}.

Definition Validate (c : Config) : option goerr :=
  let app := Config_App c in let http := Config_HTTP c in let grpc := Config_GRPC c in
  let tls := GRPC_TLS grpc in let database := Config_Database c in
  let migration := Config_Migration c in let redis := Config_Redis c in
  let health := Config_Health c in let limits := Config_RateLimit c in
  let observability := Config_Observability c in let swagger := Config_Swagger c in
  let auth := Config_Auth c in let psk := Auth_PSK auth in
  let authorization := Config_Authorization c in let outbound := Config_Outbound c in
  let user := Config_User c in let idempotency := Config_Idempotency c in
  let bus := Config_EventBus c in let provider := Config_DictionaryProvider c in
  stop_if negb (validMigrationTable (Database_Name database)) =>
    Some (TextError "database.name must contain lowercase letters, digits, or underscores and be at most 63 characters");;
  stop_if (Database_Schema database <>?s "") && negb (validMigrationTable (Database_Schema database)) =>
    Some (TextError "database.schema must contain lowercase letters, digits, or underscores and be at most 63 characters");;
  stop_if HTTP_Address http =?s "" => Some (TextError "http.address is required");;
  stop_if GRPC_Enabled grpc && ((GRPC_Address grpc =?s "") || (GRPC_MaxReceiveBytes grpc <=? 0)%Z) =>
    Some (TextError "enabled grpc requires address and positive max_receive_bytes");;
  stop_if GRPCTLS_Enabled tls && ((GRPCTLS_CertFile tls =?s "") || (GRPCTLS_KeyFile tls =?s "")) =>
    Some (TextError "grpc tls requires cert_file and key_file");;
  stop_if (App_Env app =?s "production") && GRPC_Enabled grpc && negb (GRPCTLS_Enabled tls) =>
    Some (TextError "grpc tls must be enabled in production");;
  stop_if (App_Env app =?s "production") && GRPC_ReflectionEnabled grpc =>
    Some (TextError "grpc reflection must be disabled in production");;
  stop_if Database_Enabled database
          && ((Database_DSN database =?s "") || negb (isDBType (Database_Type database))) =>
    Some (TextError "enabled database requires dsn and type mysql, postgres, or kingbase");;
  stop_if Migration_AutoUp migration
          && (negb (Database_Enabled database) || (Migration_Path migration =?s "")
              || (Migration_DatabaseURL migration =?s "")
              || negb (validMigrationTable (Migration_Table migration))) =>
    Some (TextError "migration.auto_up requires enabled database, path, database_url, and a valid service-specific table");;
  stop_if Redis_Enabled redis && (Redis_Address redis =?s "") =>
    Some (TextError "enabled redis requires address");;
  stop_if (HTTP_RequestTimeout http <=? 0)%Z || (Health_DatabaseTimeout health <=? 0)%Z
          || (Health_RedisTimeout health <=? 0)%Z =>
    Some (TextError "http and health timeouts must be positive");;
  stop_if RateLimit_Enabled limits && negb (Redis_Enabled redis) =>
    Some (TextError "rate_limit requires redis.enabled");;
  guard (if RateLimit_Enabled limits then
           first_error (λ '(name, rule),
             stop_if (RateLimitRule_Rate rule <=? 0)%Z || (RateLimitRule_Burst rule <=? 0)%Z
                     || (RateLimitRule_Period rule <=? 0)%Z =>
               Some (TextError ("rate_limit." +:+ name +:+ " values must be positive"));;
             None) (range (rate_limit_rules limits))
         else None)
    else err => Some err;;
  stop_if CORS_Enabled (HTTP_CORS http) && (length (CORS_AllowedOrigins (HTTP_CORS http)) =? 0)%nat =>
    Some (TextError "cors.allowed_origins is required when cors is enabled");;
  stop_if float_lt (Observability_TracingSampleRatio observability) (float_of_Z 0)
          || float_lt (float_of_Z 1) (Observability_TracingSampleRatio observability) =>
    Some (TextError "observability.tracing_sample_ratio must be between 0 and 1");;
  stop_if Observability_TracingEnabled observability
          && (Observability_TracingEndpoint observability =?s "") =>
    Some (TextError "observability.tracing_endpoint is required");;
  stop_if Observability_PprofEnabled observability
          && (String.length (Observability_PprofToken observability) <? 32)%nat =>
    Some (TextError "observability.pprof_token must contain at least 32 bytes");;
  stop_if (App_Env app =?s "production") && Swagger_Enabled swagger && negb (Swagger_RequireAuth swagger) =>
    Some (TextError "swagger.require_auth must be enabled in production");;
  stop_if (App_Env app =?s "production")
          && ((Auth_JWKSURL auth =?s "") || (Auth_Issuer auth =?s "") || (Auth_Audience auth =?s "")) =>
    Some (TextError "production auth requires jwks_url, issuer, and audience");;
  stop_if (App_Env app =?s "production") && negb (Authorization_Enabled authorization) =>
    Some (TextError "authorization must be enabled in production");;
  guard (if Authorization_Enabled authorization then
           match Outbound_GRPC outbound !! "authorization" with
           | None => Some (TextError "enabled authorization requires outbound.grpc.authorization")
           | Some _ => None
           end
         else None)
    else err => Some err;;
  stop_if ((Auth_ClientID auth <>?s "") || (Auth_ClientSecret auth <>?s ""))
          && (String.length (JWT_Secret (Config_JWT c)) <? 32)%nat =>
    Some (TextError "jwt.secret must contain at least 32 bytes when auth is enabled");;
  guard validHTTPPatterns "auth.skip_http_paths" (Auth_SkipHTTPPaths auth) else err => Some err;;
  guard validGRPCPatterns "auth.skip_grpc_methods" (Auth_SkipGRPCMethods auth) else err => Some err;;
  stop_if PSK_Enabled psk
          && ((String.length (PSK_Key psk) <? 32)%nat
              || (length (PSK_HTTPPaths psk) + length (PSK_GRPCMethods psk) =? 0)%nat) =>
    Some (TextError "enabled auth.psk requires a key of at least 32 bytes and at least one route pattern");;
  guard validHTTPPatterns "auth.psk.http_paths" (PSK_HTTPPaths psk) else err => Some err;;
  guard validGRPCPatterns "auth.psk.grpc_methods" (PSK_GRPCMethods psk) else err => Some err;;
  stop_if (User_CacheTTL user <=? 0)%Z || (User_LockTTL user <=? 0)%Z
          || (User_LockRetryDelay user <=? 0)%Z =>
    Some (TextError "user cache and lock durations must be positive");;
  stop_if Idempotency_Enabled idempotency
          && (negb (Redis_Enabled redis)
              || ((length (Idempotency_HTTPPaths idempotency) =? 0)%nat
                  && (length (Idempotency_GRPCMethods idempotency) =? 0)%nat)
              || (Idempotency_ProcessingTTL idempotency <=? 0)%Z
              || (Idempotency_ResultTTL idempotency <=? 0)%Z
              || (Idempotency_FailureTTL idempotency <=? 0)%Z) =>
    Some (TextError "enabled idempotency requires redis, at least one route pattern, and positive TTL values");;
  guard validHTTPPatterns "idempotency.http_paths" (Idempotency_HTTPPaths idempotency) else err => Some err;;
  guard validGRPCPatterns "idempotency.grpc_methods" (Idempotency_GRPCMethods idempotency) else err => Some err;;
  stop_if EventBus_Enabled bus
          && (negb (Database_Enabled database) || (length (EventBus_URLs bus) =? 0)%nat
              || (EventBus_StreamName bus =?s "")
              || ((EventBus_Storage bus <>?s "file") && (EventBus_Storage bus <>?s "memory"))
              || (EventBus_MaxAge bus <=? 0)%Z || (EventBus_DispatchInterval bus <=? 0)%Z
              || (EventBus_DispatchBatchSize bus <=? 0)%Z || (EventBus_DispatchLease bus <=? 0)%Z
              || (EventBus_DispatchRetryDelay bus <=? 0)%Z
              || (EventBus_PublishedRetention bus <? EventBus_MaxAge bus)%Z
              || (EventBus_CleanupInterval bus <=? 0)%Z || (EventBus_CleanupBatchSize bus <=? 0)%Z) =>
    Some (TextError "enabled event_bus requires database, stream settings, positive dispatch/cleanup settings, and published retention at least max_age");;
  stop_if DictionaryProvider_Enabled provider
          && (negb (bool_decide (is_Some (Outbound_GRPC outbound !! DictionaryProvider_RegistryClient provider)))
              || (DictionaryProvider_Target provider =?s "")
              || (DictionaryProvider_CacheTTL provider <? 0)%Z
              || (DictionaryProvider_ProviderTimeout provider <? 100 * millisecond)%Z
              || (DictionaryProvider_LeaseDuration provider <? 15 * second)%Z
              || (300 * second <? DictionaryProvider_LeaseDuration provider)%Z
              || (DictionaryProvider_RetryDelay provider <=? 0)%Z) =>
    Some (TextError "enabled dictionary_provider requires a named service registry gRPC client, target, and valid lease/timeouts");;
  guard first_error (λ '(name, upstream),
      stop_if (HTTPUpstream_BaseURL upstream =?s "") || (HTTPUpstream_Timeout upstream <=? 0)%Z =>
        Some (TextError ("outbound.http." +:+ name +:+ " requires base_url and positive timeout"));;
      validateClientPolicy name (HTTPUpstream_Auth upstream) (HTTPUpstream_Retry upstream)
        (HTTPUpstream_Breaker upstream) (HTTPUpstream_TLS upstream) false)
      (range (Outbound_HTTP outbound))
    else err => Some err;;
  first_error (λ '(name, upstream),
      stop_if (GRPCUpstream_Target upstream =?s "") || (GRPCUpstream_Timeout upstream <=? 0)%Z =>
        Some (TextError ("outbound.grpc." +:+ name +:+ " requires target and positive timeout"));;
      validateClientPolicy name (GRPCUpstream_Auth upstream) (GRPCUpstream_Retry upstream)
        (GRPCUpstream_Breaker upstream) (GRPCUpstream_TLS upstream)
        (GRPCUpstream_AllowInsecureCredentials upstream && (App_Env app <>?s "production")))
    (range (Outbound_GRPC outbound)).

End Validation.

(** ** Loading *)

(** [filepath.Ext(path)] on a Unix path: from the last dot of the last element. *)
Fixpoint ext_rev (l acc : list ascii) : list ascii :=
  match l with
  | [] => []
  | a :: l' =>
      if Ascii.eqb a "/" then []
      else if Ascii.eqb a "." then a :: acc
      else ext_rev l' (a :: acc)
  end.
Definition Ext (path : string) : string :=
  String.string_of_list_ascii (ext_rev (rev (String.list_ascii_of_string path)) []).

(** [strings.TrimSuffix(s, suffix)]. *)
Definition TrimSuffix (s suffix : string) : string :=
  let n := String.length s - String.length suffix in
  if (String.length suffix <=? String.length s)%nat
     && (String.substring n (String.length suffix) s =?s suffix)
  then String.substring 0 n s else s.

Definition profileConfigPath (path profile : string) : string :=
  let extension := Ext path in
  let base := TrimSuffix path extension in
  base +:+ "-" +:+ profile +:+ extension.

(** [strings.Split(s, ",")]. *)
Fixpoint split_comma (s : string) : list string :=
  match s with
  | EmptyString => [""]
  | String a s' =>
      if Ascii.eqb a "," then "" :: split_comma s'
      else match split_comma s' with
           | [] => [String a ""]
           | w :: ws => String a w :: ws
           end
  end.

(** [strings.Trim(s, cutset)] for a cutset of the two quotation marks. *)
Definition quote (a : ascii) : bool := Ascii.eqb a (ascii_of_N 34) || Ascii.eqb a "'".
Fixpoint drop_quotes (l : list ascii) : list ascii :=
  match l with
  | a :: l' => if quote a then drop_quotes l' else l
  | [] => []
  end.
Definition trim_quotes (s : string) : string :=
  String.string_of_list_ascii
    (rev (drop_quotes (rev (drop_quotes (String.list_ascii_of_string s))))).

(** The hook on a string that is decoded into a slice of strings. *)
Definition stringToStringSliceHook (data : string) : list string :=
  let raw := TrimSpace data in
  let raw := if HasPrefix raw "[" && HasPrefix (String.rev raw) "]"
             then TrimSpace (String.substring 1 (String.length raw - 2) raw) else raw in
  if raw =?s "" then []
  else map (λ value, trim_quotes (TrimSpace value)) (split_comma raw).

(** A default value; [SMap] is the empty map. *)
Inductive setting :=
| SString (s : string)
| SInt (z : Z)
| SBool (b : bool)
| SFloat (f : float64)
| SStrings (l : list string)
| SMap.

(** The literal 0.1: the nearest double. *)
Definition tenth : float64 := float_div (float_of_Z 1) (float_of_Z 10).

Definition setRateLimitDefaults (key : string) (rate burst : Z) : list (string * setting) := [
  (key +:+ ".rate", SInt rate);
  (key +:+ ".burst", SInt burst);
  (key +:+ ".period", SString "1m")].

Definition setDefaults : list (string * setting) :=
  [("app.name", SString "tenant-service");
   ("app.env", SString "development");
   ("app.shutdown_timeout", SString "10s");
   ("http.address", SString "127.0.0.1:8080");
   ("http.read_timeout", SString "10s");
   ("http.write_timeout", SString "15s");
   ("http.idle_timeout", SString "60s");
   ("http.request_timeout", SString "10s");
   ("http.max_body_bytes", SInt (Z.shiftl 1 20));
   ("http.trusted_proxies", SStrings []);
   ("http.cors.enabled", SBool false);
   ("http.cors.allowed_origins", SStrings []);
   ("http.cors.allowed_headers", SStrings ["Authorization"; "Content-Type"; "X-Request-ID"]);
   ("http.cors.exposed_headers", SStrings ["X-Request-ID"; "X-RateLimit-Limit"; "X-RateLimit-Remaining"; "Retry-After"]);
   ("http.cors.max_age", SString "12h");
   ("grpc.enabled", SBool true);
   ("grpc.address", SString "127.0.0.1:9090");
   ("grpc.reflection_enabled", SBool true);
   ("grpc.max_receive_bytes", SInt (Z.shiftl 16 20));
   ("grpc.tls.enabled", SBool false);
   ("grpc.tls.cert_file", SString "");
   ("grpc.tls.key_file", SString "");
   ("grpc.tls.client_ca_file", SString "");
   ("log.level", SString "info");
   ("log.format", SString "json");
   ("log.file", SString "logs/app.log");
   ("log.max_size_mb", SInt 100);
   ("log.max_backups", SInt 10);
   ("log.max_age_days", SInt 30);
   ("log.compress", SBool true);
   ("database.ping_timeout", SString "5s");
   ("database.max_open_conns", SInt 25);
   ("database.max_idle_conns", SInt 10);
   ("database.conn_max_lifetime", SString "5m");
   ("database.conn_max_idle_time", SString "1m");
   ("database.enabled", SBool false);
   ("database.name", SString "platform");
   ("database.schema", SString "tenant");
   ("database.type", SString "postgres");
   ("database.dsn", SString "");
   ("redis.address", SString "127.0.0.1:6379");
   ("redis.dial_timeout", SString "5s");
   ("redis.read_timeout", SString "3s");
   ("redis.write_timeout", SString "3s");
   ("redis.enabled", SBool false);
   ("redis.username", SString "");
   ("redis.password", SString "");
   ("redis.db", SInt 0);
   ("health.database_timeout", SString "2s");
   ("health.redis_timeout", SString "2s");
   ("rate_limit.enabled", SBool false);
   ("rate_limit.fail_open", SBool false)] ++
  setRateLimitDefaults "rate_limit.ip" 120 30 ++
  setRateLimitDefaults "rate_limit.api" 10000 1000 ++
  setRateLimitDefaults "rate_limit.user" 600 100 ++
  setRateLimitDefaults "rate_limit.login" 10 3 ++
  [("observability.metrics_enabled", SBool true);
   ("observability.tracing_enabled", SBool false);
   ("observability.tracing_endpoint", SString "http://127.0.0.1:4318");
   ("observability.tracing_sample_ratio", SFloat tenth);
   ("observability.pprof_enabled", SBool false);
   ("observability.pprof_token", SString "");
   ("swagger.enabled", SBool true);
   ("swagger.require_auth", SBool false);
   ("jwt.issuer", SString "tenant-service");
   ("jwt.secret", SString "");
   ("jwt.ttl", SString "2h");
   ("auth.client_id", SString "");
   ("auth.client_secret", SString "");
   ("auth.jwks_url", SString "");
   ("auth.issuer", SString "identity-service");
   ("auth.audience", SString "tenant-service");
   ("auth.skip_http_paths", SStrings ["/api/v1/version"]);
   ("auth.skip_grpc_methods", SStrings ["/grpc.health.v1.Health/*"]);
   ("auth.psk.enabled", SBool false);
   ("auth.psk.key", SString "");
   ("auth.psk.http_paths", SStrings []);
   ("auth.psk.grpc_methods", SStrings []);
   ("authorization.enabled", SBool false);
   ("cron.enabled", SBool true);
   ("cron.timezone", SString "Asia/Shanghai");
   ("cron.sample_spec", SString "0 */5 * * * *");
   ("migration.path", SString "migrations/postgres");
   ("migration.database_url", SString "");
   ("migration.auto_up", SBool false);
   ("migration.create_schema", SBool false);
   ("migration.table", SString "tenant_schema_migrations");
   ("user.cache_ttl", SString "5m");
   ("user.lock_ttl", SString "10s");
   ("user.lock_retry_delay", SString "100ms");
   ("idempotency.enabled", SBool false);
   ("idempotency.processing_ttl", SString "30s");
   ("idempotency.result_ttl", SString "24h");
   ("idempotency.failure_ttl", SString "5m");
   ("event_bus.enabled", SBool false);
   ("event_bus.urls", SStrings ["nats://127.0.0.1:4222"]);
   ("event_bus.stream_name", SString "PLATFORM_EVENTS");
   ("event_bus.storage", SString "file");
   ("event_bus.max_age", SString "168h");
   ("event_bus.duplicate_window", SString "10m");
   ("event_bus.connect_timeout", SString "5s");
   ("event_bus.publish_timeout", SString "5s");
   ("event_bus.dispatch_interval", SString "1s");
   ("event_bus.dispatch_batch_size", SInt 100);
   ("event_bus.dispatch_lease", SString "30s");
   ("event_bus.dispatch_retry_delay", SString "5s");
   ("event_bus.published_retention", SString "168h");
   ("event_bus.cleanup_interval", SString "1h");
   ("event_bus.cleanup_batch_size", SInt 1000);
   ("dictionary_provider.enabled", SBool false);
   ("dictionary_provider.registry_client", SString "service-registry-service");
   ("dictionary_provider.target", SString "tenant-service:9090");
   ("dictionary_provider.cache_ttl", SString "1m");
   ("dictionary_provider.provider_timeout", SString "3s");
   ("dictionary_provider.lease_duration", SString "60s");
   ("dictionary_provider.retry_delay", SString "3s");
   ("dictionary_provider.leader_ttl", SString "30s");
   ("outbound.http", SMap);
   ("outbound.grpc", SMap)].

(** [viper]: its state, and the calls the sources make; [Unmarshal] is given the hook for
    slices of strings. [os.Stat] tells whether a file is there. *)
Inductive FileStatus := FileExists | FileNotExist | StatError (e : goerr).

Class ViperLibrary := {
  Viper : Type;
  viper_New : Viper;
  viper_SetConfigFile : string → Viper → Viper;
  viper_AutomaticEnv : string → Viper → Viper;
  viper_BindEnv : string → list string → Viper → result Viper;
  viper_SetDefault : string → setting → Viper → Viper;
  viper_Set : string → setting → Viper → Viper;
  viper_GetString : Viper → string → string;
  viper_ReadInConfig : Viper → result Viper;
  viper_MergeInConfig : Viper → result Viper;
  viper_Unmarshal : (string → list string) → Viper → result Config;
  viper_ConfigFileNotFound : goerr → bool;
  os_Stat : string → FileStatus;
}.

Section Loading.
Context `{UnicodeTables, ViperLibrary}.
Context (path_Match : string → string → result bool).
Context (range : ∀ A, gmap string A → list (string * A)).

Definition set_defaults (v : Viper) : Viper :=
  fold_left (λ v '(key, value), viper_SetDefault key value v) setDefaults v.

(** The profile's file, merged if it is there: the files loaded and the new state. *)
Definition merge_profile (path profilePath : string) (v : Viper) : result (list string * Viper) :=
  if profilePath <>?s path then
    match os_Stat profilePath with
    | FileExists =>
        v <-! viper_MergeInConfig (viper_SetConfigFile profilePath v)
          else err => Err (Wrapped "merge profile config" err);;
        Ok ([path; profilePath], v)
    | FileNotExist => Ok ([path], v)
    | StatError err => Err (Wrapped "inspect profile config" err)
    end
  else Ok ([path], v).

Definition with_Migration (m : Migration) (c : Config) : Config :=
  Build_Config (Config_Runtime c) (Config_App c) (Config_HTTP c) (Config_GRPC c) (Config_Log c)
    (Config_Database c) (Config_Redis c) (Config_Health c) (Config_RateLimit c)
    (Config_Observability c) (Config_Swagger c) (Config_JWT c) (Config_Auth c)
    (Config_Authorization c) (Config_Cron c) m (Config_User c) (Config_Idempotency c)
    (Config_Outbound c) (Config_EventBus c) (Config_DictionaryProvider c).
Definition with_Runtime (r : Runtime) (c : Config) : Config :=
  Build_Config r (Config_App c) (Config_HTTP c) (Config_GRPC c) (Config_Log c)
    (Config_Database c) (Config_Redis c) (Config_Health c) (Config_RateLimit c)
    (Config_Observability c) (Config_Swagger c) (Config_JWT c) (Config_Auth c)
    (Config_Authorization c) (Config_Cron c) (Config_Migration c) (Config_User c)
    (Config_Idempotency c) (Config_Outbound c) (Config_EventBus c) (Config_DictionaryProvider c).

(** The schema and the database of the migrations are those of the database settings. *)
Definition migration_of (c : Config) : Migration :=
  let m := Config_Migration c in
  Build_Migration (Migration_AutoUp m) (Migration_CreateSchema m) (Migration_Path m)
    (Migration_DatabaseURL m) (Migration_Table m)
    (Database_Schema (Config_Database c)) (Database_Name (Config_Database c)).

Definition LoadWithProfile (path explicitProfile : string) : result Config :=
  let v := viper_AutomaticEnv "APP" (viper_SetConfigFile path viper_New) in
  v <-! viper_BindEnv "app.env" ["APP_ENV"; "APP_APP_ENV"] v
    else err => Err (Wrapped "bind environment profile" err);;
  let v := set_defaults v in
  v <-! (match viper_ReadInConfig v with
         | Err err => if (path <>?s "") || negb (viper_ConfigFileNotFound err)
                      then Err (Wrapped "read config" err) else Ok v
         | Ok v => Ok v
         end)
    else err => Err err;;
  let profile := ToLower (TrimSpace explicitProfile) in
  let profile := if profile =?s "" then ToLower (TrimSpace (viper_GetString v "app.env")) else profile in
  stop_if negb (validProfile profile) => Err (TextError "invalid environment profile");;
  loaded <-! merge_profile path (profileConfigPath path profile) v else err => Err err;;
  let '(loadedFiles, v) := loaded in
  let v := viper_Set "app.env" (SString profile) v in
  cfg <-! viper_Unmarshal stringToStringSliceHook v else err => Err (Wrapped "decode config" err);;
  let cfg := with_Migration (migration_of cfg) cfg in
  guard Validate path_Match range cfg else err => Err err;;
  Ok (with_Runtime (Build_Runtime profile loadedFiles) cfg).

Definition Load (path : string) : result Config := LoadWithProfile path "".

End Loading.
