(* ===== verification/ConfigProofs.v ===== *)
(** * Valid configurations

    What [Validate] promises, as a specification that does not depend on the order of its
    tests or of the maps it ranges over, and what loading a configuration gives. *)

From Stdlib Require Import Ascii SpecFloat.
From stdpp Require Import base gmap list strings.
From S2P Require Import Prelude GoErrors Effects Floats Config.

(** ** Specification *)

Section Specification.
Context (path_Match : string → string → result bool).

Definition well_formed_pattern (pattern : string) : Prop :=
  ∃ matched, path_Match pattern "/validation/target" = Ok matched.
(** A pattern of routes of the API, and one of gRPC methods: "/service/method". *)
Definition http_pattern (pattern : string) : Prop :=
  HasPrefix pattern "/api/" = true ∧ well_formed_pattern pattern.
Definition grpc_pattern (pattern : string) : Prop :=
  HasPrefix pattern "/" = true ∧ count_slashes pattern = 2%nat ∧ well_formed_pattern pattern.

Record valid_policy (auth : ClientAuth) (retry : Retry) (breaker : Breaker) (tls : ClientTLS)
    (insecure : bool) : Prop := {
  policy_auth : ClientAuth_Type auth = "" ∨
    (ClientAuth_Type auth = "bearer" ∨ ClientAuth_Type auth = "psk") ∧ ClientAuth_Token auth ≠ "" ∧
    (ClientTLS_Enabled tls = true ∨ insecure = true);
  policy_attempts : (1 ≤ Retry_MaxAttempts retry ≤ 5)%Z;
  policy_backoff : (0 < Retry_InitialBackoff retry ≤ Retry_MaxBackoff retry)%Z;
  policy_methods : Forall grpc_pattern (Retry_Methods retry);
  policy_breaker : Breaker_Enabled breaker = true →
    Breaker_FailureThreshold breaker ≠ 0%Z ∧ (0 < Breaker_OpenTimeout breaker)%Z;
  policy_certificate : ClientTLS_Enabled tls = true → (ClientTLS_CertFile tls = "" ↔ ClientTLS_KeyFile tls = "");
}.

Definition valid_rule (rule : RateLimitRule) : Prop :=
  (0 < RateLimitRule_Rate rule)%Z ∧ (0 < RateLimitRule_Burst rule)%Z ∧ (0 < RateLimitRule_Period rule)%Z.

(** The settings of each part, and what a part needs of another. *)
Record valid_data (c : Config) : Prop := {
  data_name : validMigrationTable (Database_Name (Config_Database c)) = true;
  data_schema : Database_Schema (Config_Database c) = "" ∨
    validMigrationTable (Database_Schema (Config_Database c)) = true;
  data_database : Database_Enabled (Config_Database c) = true →
    Database_DSN (Config_Database c) ≠ "" ∧ isDBType (Database_Type (Config_Database c)) = true;
  data_migration : Migration_AutoUp (Config_Migration c) = true →
    Database_Enabled (Config_Database c) = true ∧ Migration_Path (Config_Migration c) ≠ "" ∧
    Migration_DatabaseURL (Config_Migration c) ≠ "" ∧
    validMigrationTable (Migration_Table (Config_Migration c)) = true;
  data_redis : Redis_Enabled (Config_Redis c) = true → Redis_Address (Config_Redis c) ≠ "";
  data_user : (0 < User_CacheTTL (Config_User c))%Z ∧ (0 < User_LockTTL (Config_User c))%Z ∧
    (0 < User_LockRetryDelay (Config_User c))%Z;
}.

Record valid_servers (c : Config) : Prop := {
  servers_http : HTTP_Address (Config_HTTP c) ≠ "" ∧ (0 < HTTP_RequestTimeout (Config_HTTP c))%Z;
  servers_health : (0 < Health_DatabaseTimeout (Config_Health c))%Z ∧
    (0 < Health_RedisTimeout (Config_Health c))%Z;
  servers_cors : CORS_Enabled (HTTP_CORS (Config_HTTP c)) = true →
    CORS_AllowedOrigins (HTTP_CORS (Config_HTTP c)) ≠ [];
  servers_grpc : GRPC_Enabled (Config_GRPC c) = true →
    GRPC_Address (Config_GRPC c) ≠ "" ∧ (0 < GRPC_MaxReceiveBytes (Config_GRPC c))%Z;
  servers_tls : GRPCTLS_Enabled (GRPC_TLS (Config_GRPC c)) = true →
    GRPCTLS_CertFile (GRPC_TLS (Config_GRPC c)) ≠ "" ∧ GRPCTLS_KeyFile (GRPC_TLS (Config_GRPC c)) ≠ "";
  servers_limits : RateLimit_Enabled (Config_RateLimit c) = true →
    Redis_Enabled (Config_Redis c) = true ∧ valid_rule (RateLimit_IP (Config_RateLimit c)) ∧
    valid_rule (RateLimit_API (Config_RateLimit c)) ∧ valid_rule (RateLimit_User (Config_RateLimit c)) ∧
    valid_rule (RateLimit_Login (Config_RateLimit c));
  servers_ratio :
    float_lt (Observability_TracingSampleRatio (Config_Observability c)) (float_of_Z 0) = false ∧
    float_lt (float_of_Z 1) (Observability_TracingSampleRatio (Config_Observability c)) = false;
  servers_tracing : Observability_TracingEnabled (Config_Observability c) = true →
    Observability_TracingEndpoint (Config_Observability c) ≠ "";
  servers_pprof : Observability_PprofEnabled (Config_Observability c) = true →
    32 ≤ String.length (Observability_PprofToken (Config_Observability c));
}.

Record valid_access (c : Config) : Prop := {
  access_authorization : Authorization_Enabled (Config_Authorization c) = true →
    is_Some (Outbound_GRPC (Config_Outbound c) !! "authorization");
  access_secret : Auth_ClientID (Config_Auth c) ≠ "" ∨ Auth_ClientSecret (Config_Auth c) ≠ "" →
    32 ≤ String.length (JWT_Secret (Config_JWT c));
  access_exempt_http : Forall http_pattern (Auth_SkipHTTPPaths (Config_Auth c));
  access_exempt_grpc : Forall grpc_pattern (Auth_SkipGRPCMethods (Config_Auth c));
  access_psk : PSK_Enabled (Auth_PSK (Config_Auth c)) = true →
    32 ≤ String.length (PSK_Key (Auth_PSK (Config_Auth c))) ∧
    (PSK_HTTPPaths (Auth_PSK (Config_Auth c)) ≠ [] ∨ PSK_GRPCMethods (Auth_PSK (Config_Auth c)) ≠ []);
  access_psk_http : Forall http_pattern (PSK_HTTPPaths (Auth_PSK (Config_Auth c)));
  access_psk_grpc : Forall grpc_pattern (PSK_GRPCMethods (Auth_PSK (Config_Auth c)));
}.

Record valid_messaging (c : Config) : Prop := {
  messaging_idempotency : Idempotency_Enabled (Config_Idempotency c) = true →
    Redis_Enabled (Config_Redis c) = true ∧
    (Idempotency_HTTPPaths (Config_Idempotency c) ≠ [] ∨ Idempotency_GRPCMethods (Config_Idempotency c) ≠ []) ∧
    (0 < Idempotency_ProcessingTTL (Config_Idempotency c))%Z ∧
    (0 < Idempotency_ResultTTL (Config_Idempotency c))%Z ∧ (0 < Idempotency_FailureTTL (Config_Idempotency c))%Z;
  messaging_http : Forall http_pattern (Idempotency_HTTPPaths (Config_Idempotency c));
  messaging_grpc : Forall grpc_pattern (Idempotency_GRPCMethods (Config_Idempotency c));
  messaging_events : EventBus_Enabled (Config_EventBus c) = true →
    Database_Enabled (Config_Database c) = true ∧ EventBus_URLs (Config_EventBus c) ≠ [] ∧
    EventBus_StreamName (Config_EventBus c) ≠ "" ∧
    (EventBus_Storage (Config_EventBus c) = "file" ∨ EventBus_Storage (Config_EventBus c) = "memory") ∧
    (0 < EventBus_MaxAge (Config_EventBus c) ≤ EventBus_PublishedRetention (Config_EventBus c))%Z ∧
    (0 < EventBus_DispatchInterval (Config_EventBus c))%Z ∧
    (0 < EventBus_DispatchBatchSize (Config_EventBus c))%Z ∧
    (0 < EventBus_DispatchLease (Config_EventBus c))%Z ∧
    (0 < EventBus_DispatchRetryDelay (Config_EventBus c))%Z ∧
    (0 < EventBus_CleanupInterval (Config_EventBus c))%Z ∧
    (0 < EventBus_CleanupBatchSize (Config_EventBus c))%Z;
  messaging_dictionary : DictionaryProvider_Enabled (Config_DictionaryProvider c) = true →
    is_Some (Outbound_GRPC (Config_Outbound c) !! DictionaryProvider_RegistryClient (Config_DictionaryProvider c)) ∧
    DictionaryProvider_Target (Config_DictionaryProvider c) ≠ "" ∧
    (0 ≤ DictionaryProvider_CacheTTL (Config_DictionaryProvider c))%Z ∧
    (100 * millisecond ≤ DictionaryProvider_ProviderTimeout (Config_DictionaryProvider c))%Z ∧
    (15 * second ≤ DictionaryProvider_LeaseDuration (Config_DictionaryProvider c) ≤ 300 * second)%Z ∧
    (0 < DictionaryProvider_RetryDelay (Config_DictionaryProvider c))%Z;
}.

Record valid_upstreams (c : Config) : Prop := {
  upstreams_http : map_Forall (λ _ u,
      HTTPUpstream_BaseURL u ≠ "" ∧ (0 < HTTPUpstream_Timeout u)%Z ∧
      valid_policy (HTTPUpstream_Auth u) (HTTPUpstream_Retry u) (HTTPUpstream_Breaker u) (HTTPUpstream_TLS u) false)
    (Outbound_HTTP (Config_Outbound c));
  upstreams_grpc : map_Forall (λ _ u,
      GRPCUpstream_Target u ≠ "" ∧ (0 < GRPCUpstream_Timeout u)%Z ∧
      valid_policy (GRPCUpstream_Auth u) (GRPCUpstream_Retry u) (GRPCUpstream_Breaker u) (GRPCUpstream_TLS u)
        (GRPCUpstream_AllowInsecureCredentials u && (App_Env (Config_App c) <>?s "production")))
    (Outbound_GRPC (Config_Outbound c));
}.

(** What production asks for besides. *)
Record valid_production (c : Config) : Prop := {
  production_grpc : GRPC_Enabled (Config_GRPC c) = true → GRPCTLS_Enabled (GRPC_TLS (Config_GRPC c)) = true;
  production_reflection : GRPC_ReflectionEnabled (Config_GRPC c) = false;
  production_swagger : Swagger_Enabled (Config_Swagger c) = true → Swagger_RequireAuth (Config_Swagger c) = true;
  production_auth : Auth_JWKSURL (Config_Auth c) ≠ "" ∧ Auth_Issuer (Config_Auth c) ≠ "" ∧
    Auth_Audience (Config_Auth c) ≠ "";
  production_authorization : Authorization_Enabled (Config_Authorization c) = true;
}.

Record valid_config (c : Config) : Prop := {
  config_data : valid_data c;
  config_servers : valid_servers c;
  config_access : valid_access c;
  config_messaging : valid_messaging c;
  config_upstreams : valid_upstreams c;
  config_production : App_Env (Config_App c) = "production" → valid_production c;
}.

(** ** Tests as propositions *)

Lemma stop_if_none {A} (b : bool) (e : A) (k : option A) :
  (if b then Some e else k) = None ↔ b = false ∧ k = None.
Proof. destruct b; naive_solver. Qed.

Lemma guard_none {A} (x k : option A) : (match x with None => k | Some e => Some e end) = None ↔ x = None ∧ k = None.
Proof. destruct x; naive_solver. Qed.

Lemma when_none {A} (b : bool) (x : option A) : (if b then x else None) = None ↔ (b = true → x = None).
Proof. destruct b; naive_solver. Qed.

Lemma missing_none {A B} (x : option A) (e : B) :
  (match x with None => Some e | Some _ => None end) = None ↔ is_Some x.
Proof. destruct x; split; intros H; try done; by destruct H. Qed.

Lemma andb_false_imp (a b : bool) : a && b = false ↔ (a = true → b = false).
Proof. destruct a, b; naive_solver. Qed.

Lemma length_nonzero {A} (l : list A) : (length l =? 0)%nat = false ↔ l ≠ [].
Proof. by destruct l. Qed.

Lemma length_zero {A} (l : list A) : (length l =? 0)%nat = true ↔ l = [].
Proof. by destruct l. Qed.

Lemma xorb_false (a b : bool) : xorb a b = false ↔ (a = true ↔ b = true).
Proof. destruct a, b; naive_solver. Qed.

Lemma first_error_none {A} (body : A → option goerr) (l : list A) :
  first_error body l = None ↔ Forall (λ a, body a = None) l.
Proof. induction l as [|a l IH]; simpl; [done|]. by rewrite guard_none, IH, Forall_cons. Qed.

Lemma http_patterns_none key patterns :
  validHTTPPatterns path_Match key patterns = None ↔ Forall http_pattern patterns.
Proof.
  unfold validHTTPPatterns. rewrite first_error_none. apply Forall_proper; [|done]. intros p.
  rewrite stop_if_none, negb_false_iff. unfold http_pattern, well_formed_pattern.
  destruct (path_Match p _) as [m|e]; naive_solver.
Qed.

Lemma grpc_pattern_none (e1 : goerr) (e2 : goerr → goerr) p :
  (if negb (HasPrefix p "/") || negb (count_slashes p =? 2)%nat then Some e1
   else match path_Match p "/validation/target" with Err err => Some (e2 err) | Ok _ => None end) = None
  ↔ grpc_pattern p.
Proof.
  rewrite stop_if_none, orb_false_iff, !negb_false_iff, Nat.eqb_eq. unfold grpc_pattern, well_formed_pattern.
  destruct (path_Match p _) as [m|e]; naive_solver.
Qed.

Lemma grpc_patterns_none key patterns :
  validGRPCPatterns path_Match key patterns = None ↔ Forall grpc_pattern patterns.
Proof.
  unfold validGRPCPatterns. rewrite first_error_none. apply Forall_proper; [|done]. intros p.
  apply (grpc_pattern_none _ (Wrapped _)).
Qed.

Create Rewrite HintDb config.
#[local] Hint Rewrite @when_none @missing_none andb_true_iff orb_true_iff andb_false_imp orb_false_iff
  negb_true_iff negb_false_iff String.eqb_eq String.eqb_neq Z.leb_gt Z.ltb_ge Z.eqb_neq Nat.ltb_ge
  @length_nonzero @length_zero xorb_false http_patterns_none grpc_patterns_none
  bool_decide_eq_true : config.

(** One test of a chain, stated as a proposition. *)
Lemma stop_step {A} (b : bool) (e : A) (k : option A) P Q :
  (b = false ↔ P) → (k = None ↔ Q) → (if b then Some e else k) = None ↔ P ∧ Q.
Proof. intros <- <-. apply stop_if_none. Qed.

Lemma guard_step {A} (x k : option A) P Q :
  (x = None ↔ P) → (k = None ↔ Q) → (match x with None => k | Some e => Some e end) = None ↔ P ∧ Q.
Proof. intros <- <-. apply guard_none. Qed.

Ltac tests :=
  repeat first
    [ eapply stop_step; [autorewrite with config; reflexivity|]
    | eapply guard_step; [autorewrite with config; reflexivity|] ];
  autorewrite with config; reflexivity.

Lemma retry_methods_none e1 (e2 : goerr → goerr) patterns :
  first_error (λ p, if negb (HasPrefix p "/") || negb (count_slashes p =? 2)%nat then Some e1
    else match path_Match p "/validation/target" with Err err => Some (e2 err) | Ok _ => None end) patterns
  = None ↔ Forall grpc_pattern patterns.
Proof. rewrite first_error_none. apply Forall_proper; [|done]. intros p. apply grpc_pattern_none. Qed.

Lemma policy_none name auth retry breaker tls insecure :
  validateClientPolicy path_Match name auth retry breaker tls insecure = None
  ↔ valid_policy auth retry breaker tls insecure.
Proof.
  etrans.
  { unfold validateClientPolicy. do 4 (eapply stop_step; [autorewrite with config; reflexivity|]).
    eapply guard_step; [apply (retry_methods_none _ (Wrapped _))|]. tests. }
  split.
  - intros (Htype & Htoken & Htls & Hretry & ? & ? & ? & _). split; try done; try lia.
    destruct (String.eqb_spec (ClientAuth_Type auth) "") as [|Hne]; [by left|right].
    split_and!; [|by auto|destruct (ClientTLS_Enabled tls); auto].
    destruct (String.eqb_spec (ClientAuth_Type auth) "bearer"); auto.
  - intros [Hauth ? ? ? ? ?]. split_and!; try done; try lia.
    + intros [? ?]. by destruct Hauth as [?|([?|?] & _)].
    + intros ?. by destruct Hauth as [?|(_ & ? & _)].
    + intros [? Hf]. rewrite Hf in Hauth. by destruct Hauth as [?|(_ & _ & [?|?])].
Qed.

Section Order.
Context (range : ∀ A, gmap string A → list (string * A)).
Context (range_visits : ∀ A (m : gmap string A), range A m ≡ₚ map_to_list m).

Lemma range_none {A} (body : string → A → option goerr) (m : gmap string A) P :
  (∀ k v, body k v = None ↔ P v) →
  first_error (λ '(k, v), body k v) (range A m) = None ↔ map_Forall (λ _ v, P v) m.
Proof.
  intros HP. rewrite first_error_none, range_visits, map_Forall_to_list.
  apply Forall_proper; [|done]. by intros [k v].
Qed.

Lemma rules_none r :
  first_error (λ '(name, rule),
    if (RateLimitRule_Rate rule <=? 0)%Z || (RateLimitRule_Burst rule <=? 0)%Z
       || (RateLimitRule_Period rule <=? 0)%Z
    then Some (TextError ("rate_limit." +:+ name +:+ " values must be positive")) else None)
    (range _ (rate_limit_rules r)) = None
  ↔ valid_rule (RateLimit_IP r) ∧ valid_rule (RateLimit_API r) ∧ valid_rule (RateLimit_User r) ∧
    valid_rule (RateLimit_Login r).
Proof.
  rewrite (range_none _ _ valid_rule).
  - unfold rate_limit_rules. rewrite !map_Forall_insert by done. by rewrite map_Forall_singleton.
  - intros k v. rewrite stop_if_none. autorewrite with config. unfold valid_rule. naive_solver.
Qed.

Lemma http_upstreams_none m :
  first_error (λ '(name, upstream),
    if (HTTPUpstream_BaseURL upstream =?s "") || (HTTPUpstream_Timeout upstream <=? 0)%Z
    then Some (TextError ("outbound.http." +:+ name +:+ " requires base_url and positive timeout"))
    else validateClientPolicy path_Match name (HTTPUpstream_Auth upstream) (HTTPUpstream_Retry upstream)
           (HTTPUpstream_Breaker upstream) (HTTPUpstream_TLS upstream) false) (range _ m) = None
  ↔ map_Forall (λ _ u, HTTPUpstream_BaseURL u ≠ "" ∧ (0 < HTTPUpstream_Timeout u)%Z ∧
      valid_policy (HTTPUpstream_Auth u) (HTTPUpstream_Retry u) (HTTPUpstream_Breaker u) (HTTPUpstream_TLS u) false) m.
Proof.
  apply (range_none (λ name upstream, _)). intros k u. rewrite stop_if_none, policy_none.
  autorewrite with config. naive_solver.
Qed.

Lemma grpc_upstreams_none production m :
  first_error (λ '(name, upstream),
    if (GRPCUpstream_Target upstream =?s "") || (GRPCUpstream_Timeout upstream <=? 0)%Z
    then Some (TextError ("outbound.grpc." +:+ name +:+ " requires target and positive timeout"))
    else validateClientPolicy path_Match name (GRPCUpstream_Auth upstream) (GRPCUpstream_Retry upstream)
           (GRPCUpstream_Breaker upstream) (GRPCUpstream_TLS upstream)
           (GRPCUpstream_AllowInsecureCredentials upstream && production)) (range _ m) = None
  ↔ map_Forall (λ _ u, GRPCUpstream_Target u ≠ "" ∧ (0 < GRPCUpstream_Timeout u)%Z ∧
      valid_policy (GRPCUpstream_Auth u) (GRPCUpstream_Retry u) (GRPCUpstream_Breaker u) (GRPCUpstream_TLS u)
        (GRPCUpstream_AllowInsecureCredentials u && production)) m.
Proof.
  apply (range_none (λ name upstream, _)). intros k u. rewrite stop_if_none, policy_none.
  autorewrite with config. naive_solver.
Qed.

#[local] Hint Rewrite rules_none http_upstreams_none grpc_upstreams_none : config.

Lemma either_nonempty {A} (l k : list A) : (length l + length k =? 0)%nat = false ↔ l ≠ [] ∨ k ≠ [].
Proof. destruct l, k; naive_solver. Qed.
Lemma string_or (s t : string) (Q : Prop) : s = t ∨ Q ↔ (s ≠ t → Q).
Proof. destruct (decide (s = t)); naive_solver. Qed.
Lemma nonempty_of_imp {A} (l k : list A) : l ≠ [] ∨ k ≠ [] ↔ (l = [] → k ≠ []).
Proof. destruct l; naive_solver. Qed.

#[local] Hint Rewrite @either_nonempty : config.

(** Use what the conclusions share with the hypotheses. *)
Ltac settle :=
  intros; destruct_and?;
  repeat match goal with
  | H : ?P → _, H' : ?P |- _ => specialize (H H')
  | H : _ ∧ _ → _ |- _ => specialize (λ a b, H (conj a b)) 
  end;
  destruct_and?; split_and?; first [assumption | lia | tauto].

Lemma validation_exact_iff c : Validate path_Match range c = None ↔ valid_config c.
Proof.
  etrans; [unfold Validate; cbv zeta; tests|]. split.
  - intros. destruct_and!. split; [split|split|split|split|split|split].
    all: rewrite ?nonempty_of_imp, ?string_or; settle.
  - intros [[] [] [] [] [] Hp]. rewrite ?nonempty_of_imp, ?string_or in *.
    destruct (decide (App_Env (Config_App c) = "production")) as [He|He]; [destruct (Hp He)|].
    all: split_and!; settle.
Qed.

(** (C24) Validation is exact: a configuration passes iff it meets the specification -- every
    part of it that is enabled is complete, its patterns are well formed and inside the API,
    its durations and sizes are in range, its upstreams have a sound policy, and production
    has TLS, authentication and authorization -- whatever the order in which the maps are
    visited. *)
Theorem validation_exact c : Validate path_Match range c = None ↔ valid_config c.
Proof. apply validation_exact_iff. Qed.

(** ** Loading *)

Section Loading.
Context `{UnicodeTables, ViperLibrary}.

Lemma valid_with_Runtime r c : valid_config c → valid_config (with_Runtime r c).
Proof.
  intros [[] [] [] [] [] Hp]. split; [by split..|]. intros He. by destruct (Hp He).
Qed.

Lemma merge_profile_files path profilePath v files v' :
  merge_profile path profilePath v = Ok (files, v') →
  files = [path] ∨ files = [path; profilePath] ∧ os_Stat profilePath = FileExists.
Proof.
  unfold merge_profile. case_match; [|by intros [= <- <-]; left].
  destruct (os_Stat profilePath); [|by intros [= <- <-]; left|done].
  case_match; [|done]. intros [= <- <-]. by right.
Qed.

(** A configuration that loads: the migrations are aimed at the schema and the database of the
    service; it is that of one profile, whose name -- asked for, or else the configured one --
    is plain, and it was read from the given file and at most this profile's file beside it,
    if there is one. *)
Lemma loading_facts path explicit c :
  LoadWithProfile path_Match range path explicit = Ok c →
  valid_config c ∧
  Migration_Schema (Config_Migration c) = Database_Schema (Config_Database c) ∧
  Migration_DatabaseName (Config_Migration c) = Database_Name (Config_Database c) ∧
  let profile := Runtime_ActiveProfile (Config_Runtime c) in
  validProfile profile = true ∧
  (ToLower (TrimSpace explicit) ≠ "" → profile = ToLower (TrimSpace explicit)) ∧
  (Runtime_ConfigFiles (Config_Runtime c) = [path] ∨
   Runtime_ConfigFiles (Config_Runtime c) = [path; profileConfigPath path profile] ∧
   os_Stat (profileConfigPath path profile) = FileExists).
Proof.
  unfold LoadWithProfile. case_match; [|done]. case_match eqn:Hread; [|done]. cbv zeta.
  set (profile := if _ =?s "" then _ else ToLower (TrimSpace explicit)).
  destruct (validProfile profile) eqn:Hp; [|done]. simpl.
  destruct (merge_profile _ _ _) as [[files v']|] eqn:Hm; [|done].
  destruct (viper_Unmarshal _ _) as [cfg|]; [|done].
  destruct (Validate _ _ _) eqn:Hv; [done|]. intros [= <-]. apply validation_exact_iff in Hv.
  cbv zeta. split_and!; [by apply valid_with_Runtime|done|done|done| |].
  - subst profile. by intros ->%String.eqb_neq.
  - by apply merge_profile_files in Hm.
Qed.

End Loading.

End Order.

End Specification.
