(* ===== verification/Scheduler.v ===== *)
(** * Scheduled jobs

    [internal/scheduler/scheduler.go]: the runner, and its job under a lock that all instances
    of the service share. The cron library calls the job; logs are left out. *)

From stdpp Require Import base gmap sets list strings.
From S2P Require Import Floats Config.
From S2P Require Import Prelude GoErrors Model Store Effects Platform Authorization Service.
From S2P Require Import Commits Requests Concurrency Locks.

Definition sample_key : string := "cron:sample".

(** [runSample]; [locker] is whether there is a locker. A failure to release is logged. *)
Definition runSample (locker : bool) : prog (option goerr) :=
  stop_if negb locker => Ret None;;
  lock <-? TryLock sample_key (60 * second) else err => Ret (Some err);;
  match lock with
  | None => Ret None
  | Some lock => bind (Unlock lock) (λ _, Ret None)
  end.

(** The function given to [AddFunc]: the status that is observed. *)
Definition sample_job (locker : bool) : prog string :=
  Now (λ started,
    err <- runSample locker;;
    Ret (match err with Some _ => "error" | None => "success" end)).

(** The runner, by its time zone and its entries; [AddFunc] parses their times. *)
Record Runner := Build_Runner { runner_location : string; runner_entries : list (string * prog string) }.

Definition scheduler_New (LoadLocation AddFunc : string → option goerr) (cfg : Config) (locker : bool) : result Runner :=
  let cron := Config_Cron cfg in
  match LoadLocation (Cron_Timezone cron) with
  | Some err => Err err
  | None =>
      stop_if Cron_SampleSpec cron =?s "" => Ok (Build_Runner (Cron_Timezone cron) []);;
      match AddFunc (Cron_SampleSpec cron) with
      | Some err => Err err
      | None => Ok (Build_Runner (Cron_Timezone cron) [(Cron_SampleSpec cron, sample_job locker)])
      end
  end.

(** [OnStart]: whether the runner is started. [OnStop]: the runner is stopped, and waited for
    until the jobs in progress have ended or the context is done, with its error. *)
Definition scheduler_OnStart (cfg : Config) : bool := Cron_Enabled (Config_Cron cfg).
Definition scheduler_OnStop (waited : option goerr) : option goerr :=
  match waited with None => None | Some ctxErr => Some ctxErr end.

(** ** Properties *)

Lemma sample_job_balanced locker : balanced (sample_job locker).
Proof.
  intros L x. revert L. change (balanced (bind (runSample locker)
    (λ err, Ret (match err with Some _ => "error" | None => "success" end)))).
  apply balanced_bind; [|intros [e|]; apply balanced_ret].
  unfold runSample. destruct locker; [|apply balanced_ret]. simpl.
  intros L. split.
  - intros [b e]. simpl. by destruct (isContention e).
  - intros value Hn. simpl. split; [set_solver|]. intros [[]|e]; simpl; set_solver.
Qed.

Definition job_key : string := lockKeyPrefix +:+ sample_key.

(** A run that has taken the lock with [value]: its next call releases it. *)
Definition in_section {A} (value : nat) (p : prog A) : Prop := ∃ k, p = MutexUnlock job_key value k.

Section Jobs.
Context `{Platform}.

(** Requests and runs of the job, side by side. *)
Definition with_jobs (s : Service) (rs : list (Context * Request)) (jobs : nat) : list (prog (Response + string)) :=
  ((λ p, bind p (λ r, Ret (inl r))) <$> pool s rs)
  ++ replicate jobs (bind (sample_job (locker s)) (λ r, Ret (inr r))).

Lemma with_jobs_balanced s rs jobs : Forall balanced (with_jobs s rs jobs).
Proof.
  apply Forall_app_2.
  - apply Forall_fmap, Forall_fmap, Forall_true. intros [ctx r]. simpl.
    apply balanced_bind; [apply serve_balanced|]. intros a. apply balanced_ret.
  - apply Forall_replicate, balanced_bind; [apply sample_job_balanced|]. intros a. apply balanced_ret.
Qed.

(** (C23) Runs of the job exclude each other for as long as their lock lasts. In any
    interleaving of requests and runs, in any environment, from any world whose keys were taken by
    earlier calls: two runs are in the section the lock
    protects only if the lock of the earlier one has expired since it was taken; the lock of a
    run in the section is in force unless it has expired; no interleaving goes on for ever; and
    when nothing can go on every run has ended, and every key was there before or was left by a
    call of a lock that failed, at most one by each such call; if none fails or expires the locks
    are those from before. A run on its own that finds the lock in force ends with success and
    changes nothing. *)
Theorem jobs_exclusive s rs jobs env w :
  taken_before w →
  Acc (λ c' c, pool_step env c c') (with_jobs s rs jobs, w) ∧
  (∀ ps w', pool_steps env (with_jobs s rs jobs, w) (ps, w') →
    (∀ i j p q v v', i ≠ j → ps !! i = Some p → ps !! j = Some q → in_section v p → in_section v' q →
       v ≠ v' ∧ (v < v' → ∃ m, v < m ≤ v' ∧ env_expired env m job_key = true)) ∧
    (∀ i p v, ps !! i = Some p → in_section v p →
       w_locks w' !! job_key = Some v ∨ ∃ m, v < m < w_tick w' ∧ env_expired env m job_key = true) ∧
    ((∀ c, ¬ pool_step env (ps, w') c) →
     Forall (λ p, is_Some (returned p)) ps ∧
     (∃ left, left_by_failures env w w' left ∧
        ∀ n v, w_locks w' !! n = Some v → w_locks w !! n = Some v ∨ ∃ m, left !! m = Some (n, v)) ∧
     (locks_calm env (w_tick w) → w_locks w' = w_locks w))) ∧
  (is_Some (w_locks w !! job_key) → (∀ n, env_lock env n = None ∧ env_expired env n job_key = false) →
   let '(status, w') := run env (sample_job true) w in
   status = "success" ∧ w_db w' = w_db w ∧ w_locks w' = w_locks w).
Proof.
  intros Hw. split_and!; [apply pool_acc| |].
  - intros ps w' Hs.
    assert (∃ held left, owned env w ps w' held left) as (held & left & Ho).
    { eapply owned_steps; [done| |exact Hs]. apply owned_initial, with_jobs_balanced. }
    assert (∀ i p v, ps !! i = Some p → in_section v p → (job_key, v) ∈ held i) as Hin.
    { intros i p v Hp [k ->]. by destruct (owned_ends _ _ _ _ _ _ Ho _ _ Hp) as [? _]. }
    split_and!.
    + intros i j p q v v' Hne Hp Hq Hip Hiq. pose proof (Hin _ _ _ Hp Hip) as Hi. pose proof (Hin _ _ _ Hq Hiq) as Hj.
      split; [|by apply (owned_apart _ _ _ _ _ _ Ho i j)]. intros ->. by eapply Hne, (owned_unique _ _ _ _ _ _ Ho).
    + intros i p v Hp Hip. eapply (owned_kept _ _ _ _ _ _ Ho). by eapply Hin.
    + intros Hstuck. destruct (owned_stuck _ _ _ _ _ _ Ho Hstuck) as (Hall & Hl & Hk).
      split; [done|]. split; [exists left; split; [apply Ho|done]|].
      intros Hcalm. eapply nothing_left; [apply Ho|done..].
  - intros [v Hv] Henv. unfold sample_job, runSample, TryLock, newMutex. simpl.
    unfold lock_call, live_locks. simpl. fold job_key. destruct (Henv (S (w_tick w))) as [Hl He]. rewrite He, Hv, Hl.
    by simpl.
Qed.

End Jobs.
