(* ===== verification/Authn.v ===== *)
(** * Authentication of gRPC calls

    [authenticateGRPC] and the interceptors of [internal/transport/grpc/server.go] that
    put the caller, the request identifier and the idempotency key into the context,
    with [internal/auth/psk.go], [internal/auth/pattern.go] and
    [internal/requestid/requestid.go]. *)

From Stdlib Require Import Ascii.
From stdpp Require Import base gmap list strings pretty.
From S2P Require Import Prelude GoErrors Model Store Effects Platform Floats Config Authorization Grpc.

(** ** Strings *)

(** [strings.Cut(s, " ")]: before and after the first space. *)
Fixpoint cut_space (s : string) : string * string * bool :=
  match s with
  | EmptyString => ("", "", false)
  | String a s' =>
      if Ascii.eqb a " " then ("", s', true)
      else let '(before, after, found) := cut_space s' in (String a before, after, found)
  end.

(** [strings.EqualFold(s, t)] for a [t] of ASCII letters: a letter equals itself in
    either case; the long s (U+017F) equals S and the Kelvin sign (U+212A) equals K. *)
Fixpoint equal_fold (s t : list ascii) : bool :=
  match t with
  | [] => match s with [] => true | _ => false end
  | c :: t' =>
      match s with
      | [] => false
      | a :: s1 =>
          if Ascii.eqb (lower_byte a) (lower_byte c) then equal_fold s1 t'
          else match s1 with
          | [] => false
          | b :: s2 =>
              if ((N_of_ascii a =? 197) && (N_of_ascii b =? 191))%N then
                Ascii.eqb (lower_byte c) "s" && equal_fold s2 t'
              else match s2 with
              | [] => false
              | d :: s3 =>
                  ((N_of_ascii a =? 226) && (N_of_ascii b =? 132) && (N_of_ascii d =? 170))%N
                  && Ascii.eqb (lower_byte c) "k" && equal_fold s3 t'
              end
          end
      end
  end.
Definition EqualFold (s t : string) : bool :=
  equal_fold (String.list_ascii_of_string s) (String.list_ascii_of_string t).

(** ** Pre-shared keys *)

(** [subtle.ConstantTimeCompare] answers 1 iff the bytes are equal. *)
Definition VerifyPSK (authorization expected : string) : bool :=
  let '(scheme, supplied, ok) := cut_space authorization in
  if negb ok || negb (EqualFold scheme "PSK") || (supplied =?s "")
     || negb (String.length supplied =? String.length expected)%nat then false
  else supplied =?s expected.

Lemma cut_space_spec s before after :
  cut_space s = (before, after, true) ↔
  s = before +:+ String " " after ∧ (∀ a, a ∈ String.list_ascii_of_string before → a ≠ " "%char).
Proof.
  revert before after. induction s as [|a s IH]; intros before after; simpl.
  { split; [done|]. by intros [Hs _]; destruct before. }
  destruct (Ascii.eqb_spec a " ") as [->|Hne].
  - split; [intros [= <- <-]; split; [done|set_solver]|]. intros [Hs Hb].
    destruct before as [|b before]; rewrite ?string_app_nil_l, ?string_app_cons in Hs; simplify_eq; [done|].
    exfalso. eapply Hb; [|done]. simpl. set_solver.
  - destruct (cut_space s) as [[b af] found] eqn:Hc. split.
    + intros [= <- <- ->]. destruct (proj1 (IH b af) eq_refl) as [-> Hb].
      split; [by rewrite string_app_cons|]. simpl. set_solver.
    + intros [Hs Hb]. destruct before as [|x before]; rewrite ?string_app_nil_l, ?string_app_cons in Hs; [by simplify_eq|].
      injection Hs as <- ->.
      assert ((b, af, found) = (before, after, true)) as [= -> -> ->]; [|done].
      apply IH. split; [done|]. intros y Hy. apply Hb. simpl. set_solver.
Qed.

(** ** Contexts of incoming calls *)

(** The metadata a call carries, by the headers the interceptors read. *)
Record Incoming := Build_Incoming {
  md_authorization : list string;
  md_request_id : list string;
  md_idempotency_key : list string;
}.

Section Authn.
(** [path.Match(pattern, name)]: the answer, or that the pattern is malformed. *)
Context (path_Match : string → string → result bool).
(** [auth.Service.Verify]: the principal of a bearer token. *)
Context (Verify : string → result Principal).
(** [platformidempotency.Valid]. *)
Context (idempotency_Valid : string → bool).

Definition MatchesAny (value : string) (patterns : list string) : bool :=
  existsb (λ pattern, match path_Match pattern value with Ok matched => matched | Err _ => false end)
    patterns.

(** [principal.WithContext]. *)
Definition with_principal (ctx : Context) (p : Principal) : Context :=
  Build_Context (Ok p) (ctx_platformAdministration ctx) (ctx_idempotencyKey ctx).

Definition authenticateGRPC (ctx : Context) (md : Incoming) (method : string) (cfg : Auth)
  : rpc Context :=
  if PSK_Enabled (Auth_PSK cfg) && MatchesAny method (PSK_GRPCMethods (Auth_PSK cfg)) then
    match md_authorization md with
    | value :: _ =>
        if VerifyPSK value (PSK_Key (Auth_PSK cfg))
        then Reply (with_principal ctx (Build_Principal "psk" TypeServiceAccount "" ""))
        else Fail (StatusError codes_Unauthenticated "missing or invalid PSK")
    | [] => Fail (StatusError codes_Unauthenticated "missing or invalid PSK")
    end
  else if MatchesAny method (Auth_SkipGRPCMethods cfg) then Reply ctx
  else
    match md_authorization md with
    | [] => Fail (StatusError codes_Unauthenticated "missing bearer token")
    | value :: _ =>
        let '(scheme, raw, ok) := cut_space value in
        if negb ok || negb (EqualFold scheme "Bearer")
        then Fail (StatusError codes_Unauthenticated "invalid bearer token")
        else match Verify raw with
             | Err _ => Fail (StatusError codes_Unauthenticated "invalid or expired token")
             | Ok caller => Reply (with_principal ctx caller)
             end
    end.

(** [idempotencyInterceptor] before the handler. *)
Definition idempotencyInterceptor (ctx : Context) (md : Incoming) : rpc Context :=
  match md_idempotency_key md with
  | [] => Reply ctx
  | key :: _ =>
      if negb (idempotency_Valid key)
      then Fail (StatusError codes_InvalidArgument "invalid idempotency-key")
      else Reply (Build_Context (ctx_principal ctx) (ctx_platformAdministration ctx) (Some key))
  end.

(** *** Request identifiers *)

(** A rune above 127 is not allowed; its bytes are all above 127. *)
Definition allowedCharacter (a : ascii) : bool :=
  let n := N_of_ascii a in
  ((97 <=? n) && (n <=? 122) || (65 <=? n) && (n <=? 90) || (48 <=? n) && (n <=? 57)
   || (n =? 45) || (n =? 95) || (n =? 46))%N.

Definition Valid (value : string) : bool :=
  if (value =?s "") || (128 <? String.length value)%nat then false
  else forallb allowedCharacter (String.list_ascii_of_string value).

Definition hex_digit (n : N) : ascii :=
  ascii_of_N (if (n <? 10)%N then 48 + n else 87 + n).
Fixpoint hex_encode (s : string) : string :=
  match s with
  | EmptyString => EmptyString
  | String a s' =>
      String (hex_digit (N_of_ascii a / 16)) (String (hex_digit (N_of_ascii a mod 16)) (hex_encode s'))
  end.

(** [requestid.Generate]: 16 random bytes, or the clock when they cannot be read. *)
Definition Generate : prog string :=
  RandRead (λ r, match r with
                 | Err _ => Now (λ t, Ret ("fallback-" +:+ pretty t))
                 | Ok value => Ret (hex_encode value)
                 end).

(** [requestIDInterceptor]: the handler is given the identifier, which is sent back as a header. *)
Definition requestIDInterceptor {A} (md : Incoming) (handler : string → prog A) : prog A :=
  let id := match md_request_id md with
            | value :: _ => if Valid value then value else ""
            | [] => ""
            end in
  if id =?s "" then bind Generate handler else handler id.

(** ** Properties *)

(** Authentication is complete: a call goes through only if its method is protected
    by the pre-shared key and the call carries exactly "PSK <key>", and then acts as the
    service account "psk"; or its method is not so protected and either is exempt from
    authentication, with the context unchanged, or carries "Bearer <token>" with a token
    that verifies, and then acts as the principal of that token. In no case does the call
    become platform administration. *)
Lemma authentication_cases ctx md method cfg ctx' :
  authenticateGRPC ctx md method cfg = Reply ctx' →
  ctx_platformAdministration ctx' = ctx_platformAdministration ctx ∧
  if PSK_Enabled (Auth_PSK cfg) && MatchesAny method (PSK_GRPCMethods (Auth_PSK cfg)) then
    ctx_principal ctx' = Ok (Build_Principal "psk" TypeServiceAccount "" "") ∧
    ∃ scheme rest, md_authorization md = (scheme +:+ String " " (PSK_Key (Auth_PSK cfg))) :: rest ∧
      EqualFold scheme "PSK" = true ∧ PSK_Key (Auth_PSK cfg) ≠ ""
  else
    (MatchesAny method (Auth_SkipGRPCMethods cfg) = true ∧ ctx' = ctx) ∨
    ∃ scheme token rest p, md_authorization md = (scheme +:+ String " " token) :: rest ∧
      EqualFold scheme "Bearer" = true ∧ Verify token = Ok p ∧ ctx_principal ctx' = Ok p.
Proof.
  unfold authenticateGRPC. destruct (PSK_Enabled (Auth_PSK cfg) && _).
  - destruct (md_authorization md) as [|value rest]; [done|].
    unfold VerifyPSK. destruct (cut_space value) as [[scheme supplied] ok] eqn:Hc.
    case_match eqn:Hv; [|done]. intros [= <-]. case_match eqn:Hg; [done|]. reflect_bools. subst.
    apply cut_space_spec in Hc as [-> _]. split_and!; [done..|]. by exists scheme, rest.
  - destruct (MatchesAny method (Auth_SkipGRPCMethods cfg)); [intros [= <-]; by auto|].
    destruct (md_authorization md) as [|value rest]; [done|].
    destruct (cut_space value) as [[scheme token] ok] eqn:Hc.
    case_match eqn:Hg; [done|]. destruct (Verify token) as [p|] eqn:Hp; [|done]. intros [= <-].
    reflect_bools. subst. apply cut_space_spec in Hc as [-> _]. split; [done|]. right.
    by exists scheme, token, rest, p.
Qed.

End Authn.
