(* ===== verification/Clients.v ===== *)
(** * Programs that use the service

    A transport makes calls of its own and calls methods of the service, in contexts it
    chooses. [safe s C p]: whatever the other requests and the environment do, every change
    of the database that [p] makes is one the service commits for a context of [C]. The
    predicate is closed under the ways transports are put together, so that what holds of
    the service holds of a transport. *)

From stdpp Require Import base gmap list strings.
From S2P Require Import Prelude GoErrors Model Store Effects Platform Authorization Service.
From S2P Require Import Repository Tables Invariants Commits Tenants Organizations Invitations Groups.
From S2P Require Import Quotas Requests Concurrency Directory.

Section Clients.
Context `{Platform, !AuditLaws}.
Implicit Types (C : Context → Prop) (d : DB).

Definition guarantee_of C d d' : Prop :=
  inv d → d' = d ∨ ∃ ctx moves, C ctx ∧ commit ctx moves d d'.

Definition safe {A} C (p : prog A) : Prop :=
  ∀ d, inv d → wp rely (guarantee_of C) any_id p (λ _ _, True) d.

Lemma guarantee_of_rely C d d' : guarantee_of C d d' → rely d d'.
Proof. intros HG Hd. destruct (HG Hd) as [->|(? & ? & _ & [])]; by split. Qed.

Lemma safe_readonly {A} C (p : prog A) : readonly p → safe C p.
Proof. intros Hp d _. by apply readonly_wp. Qed.

Lemma safe_bind {A B} C (m : prog A) (f : A → prog B) : safe C m → (∀ a, safe C (f a)) → safe C (bind m f).
Proof.
  intros Hm Hf d Hd. apply wp_bind; [apply _|].
  eapply wp_mono; [|apply (wp_rely_post _ _ _ _ (λ _ _, True) d); [apply guarantee_of_rely|done|by apply Hm]].
  intros a d' [_ Hr]. apply Hf. by destruct (Hr Hd).
Qed.

Lemma safe_weaken {A} C C' (p : prog A) : (∀ ctx, C ctx → C' ctx) → safe C p → safe C' p.
Proof.
  intros HC Hp d Hd. eapply (wp_weaken _ _ _ rely); [done| |by apply Hp].
  intros d1 d2 HG H1. destruct (HG H1) as [->|(ctx & b & ? & ?)]; [by left|right; eauto].
Qed.

(** A method of the service, by the request it answers. *)
Lemma safe_call {X} C s ctx r (wrap : X → Response) (m : prog X) :
  C ctx → serve s ctx r = reply wrap m → safe C m.
Proof.
  intros HC He d Hd. eapply (wp_weaken _ _ _ rely (guarantee_of C)); [done| |].
  2:{ apply (wp_map_inv _ _ _ _ wrap). change (bind m _) with (reply wrap m). rewrite <- He.
      by apply (serve_guarantee any_id s ctx r). }
  intros d1 d2 HG H1. destruct (HG H1); [by left|right; eauto].
Qed.

(** ** Pools of such programs *)

Definition pool_safe {A} (Cs : nat → Context → Prop) (c : list (prog A) * World) : Prop :=
  inv (w_db (snd c)) ∧
  ∀ i p, fst c !! i = Some p → wp rely (guarantee_of (Cs i)) any_id p (λ _ _, True) (w_db (snd c)).

Lemma pool_safe_initial {A} Cs (ps : list (prog A)) w :
  inv (w_db w) → (∀ i p, ps !! i = Some p → safe (Cs i) p) → pool_safe Cs (ps, w).
Proof. intros Hd Hps. split; [done|]. intros i p Hp. by apply (Hps i p Hp). Qed.

(** One call: nothing, or a commit of the service for a context of its request. *)
Lemma pool_safe_step {A} Cs env (c c' : list (prog A) * World) :
  pool_safe Cs c → pool_step env c c' →
  pool_safe Cs c' ∧
  (w_db (snd c') = w_db (snd c) ∨
   ∃ i ctx moves, i < length (fst c) ∧ Cs i ctx ∧ commit ctx moves (w_db (snd c)) (w_db (snd c'))).
Proof.
  intros [Hd Hps] Hstep. destruct Hstep as [ps i p p' w w' Hp Hs]. simpl in *.
  destruct (wp_step rely (guarantee_of (Cs i)) any_id env (λ _, I) _ _ _ _ _ _ (Hps _ _ Hp) (reflexivity _) Hs)
    as [HG Hwp'].
  assert (guarantee_of (Cs i) (w_db w) (w_db w')) as HG' by (intros _; destruct HG as [->|HG]; auto).
  pose proof (guarantee_of_rely _ _ _ HG') as Hrely.
  split; [split|].
  - by apply Hrely.
  - intros j q Hq. simpl in Hq. destruct (decide (i = j)) as [->|Hne].
    + rewrite list_lookup_insert_eq in Hq by eauto using lookup_lt_Some. by simplify_eq.
    + rewrite list_lookup_insert_ne in Hq by done. eapply wp_interfere; [apply _|done|eauto].
  - destruct (HG' Hd) as [?|(ctx & b & ? & ?)]; [by left|right].
    exists i, ctx, b. split; [by eapply lookup_lt_Some|done].
Qed.

Lemma pool_steps_length {A} env (c c' : list (prog A) * World) :
  pool_steps env c c' → length (fst c') = length (fst c).
Proof.
  induction 1 as [c|c1 c2 c3 H12 H23 IH]; [done|]. rewrite IH.
  destruct H12. simpl. by rewrite length_insert.
Qed.

Lemma pool_safe_steps {A} Cs env (c c' : list (prog A) * World) :
  pool_safe Cs c → pool_steps env c c' → pool_safe Cs c'.
Proof.
  intros Hc Hs. induction Hs as [c|c1 c2 c3 H12 H23 IH]; [done|].
  apply IH. by destruct (pool_safe_step _ _ _ _ Hc H12).
Qed.

End Clients.

(** The request a method of the service answers. *)
Ltac safe_service :=
  match goal with
  | |- safe _ (Tenants.Create ?s ?ctx ?a ?b ?c) => apply (safe_call _ s ctx (ReqCreate a b c) RespCreate)
  | |- safe _ (Tenants.Get ?s ?ctx ?a) => apply (safe_call _ s ctx (ReqGet a) RespTenant)
  | |- safe _ (Tenants.Update ?s ?ctx ?a ?b ?c ?v) => apply (safe_call _ s ctx (ReqUpdate a b c v) RespTenant)
  | |- safe _ (Tenants.AddMembership ?s ?ctx ?a ?b ?c) => apply (safe_call _ s ctx (ReqAddMembership a b c) RespMembership)
  | |- safe _ (Tenants.GetMembership ?s ?ctx ?a) => apply (safe_call _ s ctx (ReqGetMembership a) RespMembership)
  | |- safe _ (Tenants.ValidateMembership ?s ?ctx ?a ?b) => apply (safe_call _ s ctx (ReqValidateMembership a b) RespValidate)
  | |- safe _ (Tenants.ListUserTenants ?s ?ctx ?a ?p ?n) => apply (safe_call _ s ctx (ReqListUserTenants a p n) RespPage)
  | |- safe _ (Tenants.ListMemberships ?s ?ctx ?a ?b ?c ?p ?n) => apply (safe_call _ s ctx (ReqListMemberships a b c p n) RespMembershipPage)
  | |- safe _ (Tenants.BatchGetMemberships ?s ?ctx ?a ?l) => apply (safe_call _ s ctx (ReqBatchGetMemberships a l) RespMemberships)
  | |- safe _ (Tenants.FindMembershipsByUserIDs ?s ?ctx ?a ?l ?c) => apply (safe_call _ s ctx (ReqFindMembershipsByUserIDs a l c) RespMemberships)
  | |- safe _ (Tenants.ListTenants ?s ?ctx ?a ?b ?p ?n) => apply (safe_call _ s ctx (ReqListTenants a b p n) RespPage)
  | |- safe _ (Tenants.UpdateMembership ?s ?ctx ?a ?b ?c ?v) => apply (safe_call _ s ctx (ReqUpdateMembership a b c v) RespMembership)
  | |- safe _ (Organizations.CreateOrganizationUnit ?s ?ctx ?a ?b ?c ?e) => apply (safe_call _ s ctx (ReqCreateOrganizationUnit a b c e) RespOrganizationUnit)
  | |- safe _ (Organizations.GetOrganizationUnit ?s ?ctx ?a) => apply (safe_call _ s ctx (ReqGetOrganizationUnit a) RespOrganizationUnit)
  | |- safe _ (Organizations.BatchGetOrganizationUnits ?s ?ctx ?a ?l) => apply (safe_call _ s ctx (ReqBatchGetOrganizationUnits a l) RespOrganizationUnits)
  | |- safe _ (Organizations.ListOrganizationUnits ?s ?ctx ?a) => apply (safe_call _ s ctx (ReqListOrganizationUnits a) RespOrganizationUnits)
  | |- safe _ (Organizations.TreeOrganizationUnits ?s ?ctx ?a ?b ?c ?e ?f ?m ?n) => apply (safe_call _ s ctx (ReqTreeOrganizationUnits a b c e f m n) RespTree)
  | |- safe _ (Organizations.UpdateOrganizationUnit ?s ?ctx ?a ?b ?c ?e ?v) => apply (safe_call _ s ctx (ReqUpdateOrganizationUnit a b c e v) RespOrganizationUnit)
  | |- safe _ (Organizations.ResolveOrganizationScope ?s ?ctx ?a) => apply (safe_call _ s ctx (ReqResolveOrganizationScope a) RespScope)
  | |- safe _ (Invitations.CreateInvitation ?s ?ctx ?a ?b ?e) => apply (safe_call _ s ctx (ReqCreateInvitation a b e) RespCreateInvitation)
  | |- safe _ (Invitations.AcceptInvitation ?s ?ctx ?a ?b) => apply (safe_call _ s ctx (ReqAcceptInvitation a b) RespAccept)
  | |- safe _ (Invitations.RevokeInvitation ?s ?ctx ?a ?v) => apply (safe_call _ s ctx (ReqRevokeInvitation a v) RespInvitation)
  | |- safe _ (Invitations.GetInvitation ?s ?ctx ?a) => apply (safe_call _ s ctx (ReqGetInvitation a) RespInvitation)
  | |- safe _ (Invitations.ListInvitations ?s ?ctx ?a ?p ?n) => apply (safe_call _ s ctx (ReqListInvitations a p n) RespInvitationPage)
  | |- safe _ (Groups.CreateGroup ?s ?ctx ?a ?b ?c) => apply (safe_call _ s ctx (ReqCreateGroup a b c) RespGroup)
  | |- safe _ (Groups.UpdateGroup ?s ?ctx ?a ?b ?c ?v) => apply (safe_call _ s ctx (ReqUpdateGroup a b c v) RespGroup)
  | |- safe _ (Groups.GetGroup ?s ?ctx ?a) => apply (safe_call _ s ctx (ReqGetGroup a) RespGroup)
  | |- safe _ (Groups.ListGroups ?s ?ctx ?a) => apply (safe_call _ s ctx (ReqListGroups a) RespGroups)
  | |- safe _ (Groups.SearchGroups ?s ?ctx ?a ?b ?c ?p ?n) => apply (safe_call _ s ctx (ReqSearchGroups a b c p n) RespGroupPage)
  | |- safe _ (Groups.AddGroupMember ?s ?ctx ?a ?b) => apply (safe_call _ s ctx (ReqAddGroupMember a b) RespError)
  | |- safe _ (Groups.ListGroupMembers ?s ?ctx ?a) => apply (safe_call _ s ctx (ReqListGroupMembers a) RespGroupMembers)
  | |- safe _ (Groups.BatchGetGroupMembers ?s ?ctx ?a ?l) => apply (safe_call _ s ctx (ReqBatchGetGroupMembers a l) RespGroupMembers)
  | |- safe _ (Groups.GetGroupMember ?s ?ctx ?a ?b) => apply (safe_call _ s ctx (ReqGetGroupMember a b) RespGroupMember)
  | |- safe _ (Groups.RemoveGroupMember ?s ?ctx ?a ?b ?v) => apply (safe_call _ s ctx (ReqRemoveGroupMember a b v) RespError)
  | |- safe _ (Quotas.GetQuota ?s ?ctx ?a ?b) => apply (safe_call _ s ctx (ReqGetQuota a b) RespQuota)
  | |- safe _ (Quotas.ListQuotas ?s ?ctx ?a ?b ?p ?n) => apply (safe_call _ s ctx (ReqListQuotas a b p n) RespQuotaPage)
  | |- safe _ (Quotas.SetQuota ?s ?ctx ?a ?b ?l ?v) => apply (safe_call _ s ctx (ReqSetQuota a b l v) RespQuota)
  | |- safe _ (Quotas.ConsumeQuota ?s ?ctx ?a ?b ?n) => apply (safe_call _ s ctx (ReqConsumeQuota a b n) RespConsume)
  end; [|reflexivity].
