(* ===== verification/Json.v ===== *)
(** * JSON values, request binding and generic decoding

    What the HTTP transport uses of [encoding/json] and of gin's [ShouldBindJSON]:
    decoding of a JSON value into the fields of a request struct, the [binding] tags of
    these structs, and the trip of a value through a field of type [any], which the
    idempotency middleware makes with every stored response. The text of JSON documents
    stays outside: parsing and printing are parameters. *)

From stdpp Require Import base gmap list strings sorting.
From S2P Require Import Prelude GoErrors Effects Authn.

(** ** Values *)

(** A number literal is an integer literal or has a fraction or an exponent. *)
Inductive json :=
| JNull
| JBool (b : bool)
| JInt (z : Z)
| JFrac (literal : string)
| JString (s : string)
| JArray (l : list json)
| JObject (o : list (string * json)).

(** [json.Decoder.Decode] (the first value of the text), [json.Unmarshal], [json.Marshal],
    the text of a [time.Time] and of a [time.Duration], and how a number comes out of an [any]: it was read as a
    [float64] and is printed from it. *)
Class JsonText := {
  json_Decode : string → result json;
  json_Unmarshal : string → result json;
  json_Marshal : json → string;
  json_Time : Z → string;
  Duration_String : Z → string;
  any_number : Z → Z;
  any_fraction : string → string;
}.

(** ** Decoding into structs *)

Definition cannot_unmarshal : goerr := TextError "json: cannot unmarshal value into Go struct field".

(** The members of a struct value: [null] leaves the struct as it is. *)
Definition members (j : json) : result (list (string * json)) :=
  match j with
  | JNull => Ok []
  | JObject o => Ok o
  | _ => Err cannot_unmarshal
  end.

(** The values of the members that belong to the field [name]: names are compared up
    to case. *)
Definition field (name : string) (o : list (string * json)) : list json :=
  omap (λ '(k, v), if EqualFold k name then Some v else None) o.

(** One value after the other is stored in the field; [null] leaves what is there. *)
Fixpoint store {A} (decode : A → json → result A) (x : A) (vs : list json) : result A :=
  match vs with
  | [] => Ok x
  | v :: vs' => match decode x v with Ok x' => store decode x' vs' | Err e => Err e end
  end.

Definition decode_string (x : string) (v : json) : result string :=
  match v with JNull => Ok x | JString s => Ok s | _ => Err cannot_unmarshal end.
Definition decode_int64 (x : Z) (v : json) : result Z :=
  match v with
  | JNull => Ok x
  | JInt z => if bool_decide (min_int64 ≤ z ≤ max_int64)%Z then Ok z else Err cannot_unmarshal
  | _ => Err cannot_unmarshal
  end.
Fixpoint decode_elements (vs : list json) : result (list string) :=
  match vs with
  | [] => Ok []
  | v :: vs' =>
      s <-! decode_string "" v else e => Err e;;
      ss <-! decode_elements vs' else e => Err e;;
      Ok (s :: ss)
  end.
(** A slice: nil ([None]) or its elements. *)
Definition decode_strings (x : option (list string)) (v : json) : result (option (list string)) :=
  match v with
  | JNull => Ok None
  | JArray vs => result_map Some (decode_elements vs)
  | _ => Err cannot_unmarshal
  end.

Definition string_field (name : string) (o : list (string * json)) : result string :=
  store decode_string "" (field name o).
Definition int_field (name : string) (o : list (string * json)) : result Z :=
  store decode_int64 0%Z (field name o).
Definition strings_field (name : string) (o : list (string * json)) : result (option (list string)) :=
  store decode_strings None (field name o).

(** ** Binding *)

(** The [binding] tags: [required], [gt=0], [gte=0], [oneof], [omitempty,min,max]. *)
Definition required (s : string) : bool := s <>?s "".
Definition required_int (z : Z) : bool := negb (z =? 0)%Z.
Definition required_slice (l : option (list string)) : bool := match l with Some _ => true | None => false end.
Definition gt0 (z : Z) : bool := (0 <? z)%Z.
Definition gte0 (z : Z) : bool := (0 <=? z)%Z.
Definition one_of (s : string) (l : list string) : bool := existsb (String.eqb s) l.
Definition omitempty (s : string) (b : bool) : bool := (s =?s "") || b.
Definition omitempty_between (lo hi z : Z) : bool := (z =? 0)%Z || ((lo <=? z) && (z <=? hi))%Z.

(** A request struct: how its members are decoded and what its tags ask. *)
Class Binding (A : Type) := {
  decode_struct : list (string * json) → result A;
  binding_valid : A → bool;
}.

(** [c.ShouldBindJSON(&request)]: [body] is what reading the body gives. *)
Definition ShouldBindJSON `{JsonText} {A} `{Binding A} (body : result string) : result A :=
  text <-! body else e => Err e;;
  j <-! json_Decode text else e => Err e;;
  o <-! members j else e => Err e;;
  v <-! decode_struct o else e => Err e;;
  if binding_valid v then Ok v else Err (TextError "validation failed").

(** ** Values of type [any] *)

Definition key_le (a b : string * json) : bool := String.leb (fst a) (fst b).

(** A value read into an [any] and printed again: numbers become [float64], an object
    becomes a map (the last of several equal keys stays), printed in the order of its
    keys. *)
Fixpoint generic `{JsonText} (j : json) : json :=
  match j with
  | JInt z => JInt (any_number z)
  | JFrac t => JFrac (any_fraction t)
  | JArray l => JArray (map generic l)
  | JObject o =>
      JObject (sort_by key_le (map_to_list
        (list_to_map (rev (map (λ '(k, v), (k, generic v)) o)) : gmap string json)))
  | _ => j
  end.

(** Equal up to the order of object members. *)
Inductive json_equiv : json → json → Prop :=
| equiv_refl j : json_equiv j j
| equiv_array l l' : Forall2 json_equiv l l' → json_equiv (JArray l) (JArray l')
| equiv_object o o1 o' :
    Forall2 (λ a b, fst a = fst b ∧ json_equiv (snd a) (snd b)) o o1 → o1 ≡ₚ o' →
    json_equiv (JObject o) (JObject o').

(** Every number is an integer a [float64] holds exactly and prints as it is, and no
    object has a key twice. *)
Inductive json_plain `{JsonText} : json → Prop :=
| plain_null : json_plain JNull
| plain_bool b : json_plain (JBool b)
| plain_int z : any_number z = z → json_plain (JInt z)
| plain_string s : json_plain (JString s)
| plain_array l : Forall json_plain l → json_plain (JArray l)
| plain_object o :
    NoDup (map fst o) → Forall (λ p, json_plain (snd p)) o → json_plain (JObject o).

(** ** Properties *)

Section Generic.
Context `{JsonText}.

Fixpoint json_ind' (P : json → Prop) (Hn : P JNull) (Hb : ∀ b, P (JBool b)) (Hi : ∀ z, P (JInt z))
    (Hf : ∀ t, P (JFrac t)) (Hs : ∀ s, P (JString s)) (Ha : ∀ l, Forall P l → P (JArray l))
    (Ho : ∀ o, Forall (λ p, P (snd p)) o → P (JObject o)) (j : json) : P j :=
  let rec := json_ind' P Hn Hb Hi Hf Hs Ha Ho in
  match j with
  | JNull => Hn | JBool b => Hb b | JInt z => Hi z | JFrac t => Hf t | JString s => Hs s
  | JArray l => Ha l ((fix go l : Forall P l :=
      match l with [] => Forall_nil_2 _ | x :: l' => Forall_cons_2 _ x l' (rec x) (go l') end) l)
  | JObject o => Ho o ((fix go o : Forall (λ p, P (snd p)) o :=
      match o with [] => Forall_nil_2 _ | x :: o' => Forall_cons_2 _ x o' (rec (snd x)) (go o') end) o)
  end.

Lemma keys_of_generic (o : list (string * json)) :
  map fst (map (λ '(k, v), (k, generic v)) o) = map fst o.
Proof. induction o as [|[k v] o IH]; simpl; [done|by f_equal]. Qed.

(** A plain value comes back from an [any] as it was, up to the order of members. *)
Lemma generic_equiv j : json_plain j → json_equiv j (generic j).
Proof.
  induction j as [|b|z|t|s|l IH|o IH] using json_ind'; intros Hp; inversion Hp as [| |? Hz| |? Hl|? Hnd Ho];
    subst; simpl; rewrite ?Hz; try constructor.
  - clear Hp. induction Hl as [|x l Hx Hl IHl]; inversion IH; subst; simpl; constructor; auto.
  - eapply equiv_object with (o1 := map (λ '(k, v), (k, generic v)) o).
    + clear Hp Hnd. induction Ho as [|[k v] o Hx Hl IHl]; inversion IH; subst; simpl in *; constructor; auto.
    + unfold sort_by. rewrite merge_sort_Permutation, map_to_list_to_map; [by rewrite <- Permutation_rev|].
      rewrite <- (Permutation_rev (map _ o)). by rewrite <- keys_of_generic in Hnd.
Qed.

(** *** A second trip changes nothing *)

Definition generic_members (o : list (string * json)) : list (string * json) :=
  map (λ '(k, v), (k, generic v)) o.
Definition sorted_members (o : list (string * json)) : list (string * json) :=
  sort_by key_le (map_to_list (list_to_map (rev o) : gmap string json)).

Lemma sorted_members_Permutation o : NoDup (map fst o) → sorted_members o ≡ₚ o.
Proof.
  intros Hnd. unfold sorted_members, sort_by.
  rewrite merge_sort_Permutation, map_to_list_to_map; [by rewrite <- Permutation_rev|].
  by rewrite <- (Permutation_rev o).
Qed.

Lemma sorted_members_ext o o' : NoDup (map fst o) → o ≡ₚ o' → sorted_members o = sorted_members o'.
Proof.
  intros Hnd Hp. unfold sorted_members. do 2 f_equal. apply list_to_map_proper.
  - by rewrite <- (Permutation_rev o).
  - by rewrite <- (Permutation_rev o), <- (Permutation_rev o').
Qed.

Lemma generic_idem j : json_plain j → generic (generic j) = generic j.
Proof.
  induction j as [|b|z|t|s|l IH|o IH] using json_ind'; intros Hp; inversion Hp as [| |? Hz| |? Hl|? Hnd Ho];
    subst; simpl; rewrite ?Hz; try done.
  - f_equal. clear Hp. induction Hl as [|x l Hx Hl IHl]; inversion IH; subst; simpl; [done|f_equal; auto].
  - f_equal. change (sorted_members (generic_members (sorted_members (generic_members o)))
                     = sorted_members (generic_members o)).
    assert (NoDup (map fst (generic_members o))) as Hg by (unfold generic_members; by rewrite keys_of_generic).
    assert (generic_members (sorted_members (generic_members o)) = sorted_members (generic_members o)) as ->.
    { unfold generic_members at 1. rewrite <- (map_id (sorted_members _)) at 2. apply map_ext_in.
      intros [k v] Hin%list_elem_of_In. rewrite sorted_members_Permutation in Hin by done.
      apply list_elem_of_fmap in Hin as ([k0 v0] & [= -> ->] & Hin). f_equal.
      rewrite Forall_forall in IH, Ho. by apply (IH (k0, v0)); [|apply (Ho (k0, v0))]. }
    symmetry. apply sorted_members_ext; [done|]. by rewrite sorted_members_Permutation.
Qed.

End Generic.
