(* ===== verification/HttpBodies.v ===== *)
(** * Response bodies of the HTTP transport

    The structs of [internal/transport/http/tenant_body.go] and the response structs of
    [handler.go], their construction from the domain's rows and pages, and the JSON value
    each is printed as, with the member names of its tags. *)

From stdpp Require Import base list strings.
From S2P Require Import Prelude Model Directory Json.

(** ** Structs *)

Record TenantBody := Build_TenantBody { TenantBody_ID : string; TenantBody_Code : string;
  TenantBody_Name : string; TenantBody_Status : string; TenantBody_Version : Z;
  TenantBody_CreatedAt : Z; TenantBody_UpdatedAt : Z; TenantBody_CreatedBy : string;
  TenantBody_UpdatedBy : string }.
Record MembershipBody := Build_MembershipBody { MembershipBody_ID : string;
  MembershipBody_TenantID : string; MembershipBody_UserID : string;
  MembershipBody_Status : string; MembershipBody_PrimaryOrganizationUnitID : string;
  MembershipBody_JoinedAt : Z; MembershipBody_Version : Z; MembershipBody_CreatedAt : Z;
  MembershipBody_UpdatedAt : Z; MembershipBody_CreatedBy : string;
  MembershipBody_UpdatedBy : string }.
Record OrganizationUnitBody := Build_OrganizationUnitBody { OrganizationUnitBody_ID : string;
  OrganizationUnitBody_TenantID : string; OrganizationUnitBody_ParentID : string;
  OrganizationUnitBody_Code : string; OrganizationUnitBody_Name : string;
  OrganizationUnitBody_Path : string; OrganizationUnitBody_Status : string;
  OrganizationUnitBody_Version : Z; OrganizationUnitBody_CreatedAt : Z;
  OrganizationUnitBody_UpdatedAt : Z; OrganizationUnitBody_CreatedBy : string;
  OrganizationUnitBody_UpdatedBy : string }.
Record InvitationBody := Build_InvitationBody { InvitationBody_ID : string;
  InvitationBody_TenantID : string; InvitationBody_Email : string; InvitationBody_Status : string;
  InvitationBody_ExpiresAt : Z; InvitationBody_AcceptedByUserID : string;
  InvitationBody_Version : Z; InvitationBody_CreatedAt : Z; InvitationBody_UpdatedAt : Z;
  InvitationBody_CreatedBy : string; InvitationBody_UpdatedBy : string }.
Record GroupBody := Build_GroupBody { GroupBody_ID : string; GroupBody_TenantID : string;
  GroupBody_Code : string; GroupBody_Name : string; GroupBody_Status : string;
  GroupBody_Version : Z; GroupBody_CreatedAt : Z; GroupBody_UpdatedAt : Z;
  GroupBody_CreatedBy : string; GroupBody_UpdatedBy : string }.
Record GroupMemberBody := Build_GroupMemberBody { GroupMemberBody_ID : string;
  GroupMemberBody_TenantID : string; GroupMemberBody_GroupID : string;
  GroupMemberBody_MembershipID : string; GroupMemberBody_Status : string;
  GroupMemberBody_Version : Z; GroupMemberBody_CreatedAt : Z; GroupMemberBody_UpdatedAt : Z;
  GroupMemberBody_CreatedBy : string; GroupMemberBody_UpdatedBy : string }.
Record QuotaBody := Build_QuotaBody { QuotaBody_TenantID : string; QuotaBody_Key : string;
  QuotaBody_Limit : Z; QuotaBody_Used : Z; QuotaBody_Version : Z; QuotaBody_CreatedAt : Z;
  QuotaBody_UpdatedAt : Z; QuotaBody_CreatedBy : string; QuotaBody_UpdatedBy : string }.
Record MeResponseBody := Build_MeResponseBody { MeResponseBody_Subject : string }.
Record SelectTenantResponseBody := Build_SelectTenantResponseBody {
  SelectTenantResponseBody_AccessToken : string; SelectTenantResponseBody_TokenType : string;
  SelectTenantResponseBody_ExpiresAt : Z; SelectTenantResponseBody_TenantID : string;
  SelectTenantResponseBody_MembershipID : string }.
Record DirectoryUserBody := Build_DirectoryUserBody { DirectoryUserBody_ID : string;
  DirectoryUserBody_Username : string; DirectoryUserBody_DisplayName : string;
  DirectoryUserBody_Status : string }.
Record AddGroupMemberResponseBody := Build_AddGroupMemberResponseBody {
  AddGroupMemberResponseBody_Added : bool }.
Record RemoveGroupMemberResponseBody := Build_RemoveGroupMemberResponseBody {
  RemoveGroupMemberResponseBody_Removed : bool }.
Record OrganizationUnitsResponseBody := Build_OrganizationUnitsResponseBody {
  OrganizationUnitsResponseBody_OrganizationUnits : list OrganizationUnitBody }.
Record OrganizationUnitBatchBody := Build_OrganizationUnitBatchBody {
  OrganizationUnitBatchBody_Items : list OrganizationUnitBody }.
(** The embedded [OrganizationUnitBody] is a field; its members become members of the
    node's object. *)
Inductive OrganizationUnitTreeNodeBody := Build_OrganizationUnitTreeNodeBody
  (item : OrganizationUnitBody) (HasChildren : bool) (Children : list OrganizationUnitTreeNodeBody).
Record CreateInvitationResponseBody := Build_CreateInvitationResponseBody {
  CreateInvitationResponseBody_Invitation : InvitationBody;
  CreateInvitationResponseBody_Token : string }.
Record GroupMembersResponseBody := Build_GroupMembersResponseBody {
  GroupMembersResponseBody_GroupMembers : list GroupMemberBody }.
Record TenantPageBody := Build_TenantPageBody { TenantPageBody_Tenants : list TenantBody;
  TenantPageBody_Total : Z; TenantPageBody_Page : Z; TenantPageBody_PageSize : Z }.
Record MembershipPageBody := Build_MembershipPageBody {
  MembershipPageBody_Memberships : list MembershipBody; MembershipPageBody_Total : Z;
  MembershipPageBody_Page : Z; MembershipPageBody_PageSize : Z }.
Record MembershipBatchBody := Build_MembershipBatchBody {
  MembershipBatchBody_Memberships : list MembershipBody }.
Record MembershipDirectoryItemBody := Build_MembershipDirectoryItemBody {
  MembershipDirectoryItemBody_Membership : MembershipBody;
  MembershipDirectoryItemBody_User : DirectoryUserBody }.
Record InvitationPageBody := Build_InvitationPageBody {
  InvitationPageBody_Invitations : list InvitationBody; InvitationPageBody_Total : Z;
  InvitationPageBody_Page : Z; InvitationPageBody_PageSize : Z }.
Record QuotaPageBody := Build_QuotaPageBody { QuotaPageBody_Quotas : list QuotaBody;
  QuotaPageBody_Total : Z; QuotaPageBody_Page : Z; QuotaPageBody_PageSize : Z }.
Record CreateTenantResponseBody := Build_CreateTenantResponseBody {
  CreateTenantResponseBody_Tenant : TenantBody;
  CreateTenantResponseBody_OwnerMembership : MembershipBody }.
Record AcceptInvitationResponseBody := Build_AcceptInvitationResponseBody {
  AcceptInvitationResponseBody_Invitation : InvitationBody;
  AcceptInvitationResponseBody_Membership : MembershipBody }.
Record GroupsResponseBody := Build_GroupsResponseBody {
  GroupsResponseBody_Groups : list GroupBody }.
Record GroupPageBody := Build_GroupPageBody { GroupPageBody_Groups : list GroupBody;
  GroupPageBody_Total : Z; GroupPageBody_Page : Z; GroupPageBody_PageSize : Z }.
Record ConsumeQuotaResponseBody := Build_ConsumeQuotaResponseBody {
  ConsumeQuotaResponseBody_Quota : QuotaBody; ConsumeQuotaResponseBody_Allowed : bool }.
Record OrganizationUnitTreeResponseBody := Build_OrganizationUnitTreeResponseBody {
  OrganizationUnitTreeResponseBody_Nodes : list OrganizationUnitTreeNodeBody;
  OrganizationUnitTreeResponseBody_Truncated : bool }.
Record MembershipDirectoryBody := Build_MembershipDirectoryBody {
  MembershipDirectoryBody_Items : list MembershipDirectoryItemBody }.

(** ** Conversions *)

Definition tenantBody (value : Tenant) : TenantBody :=
  Build_TenantBody (Tenant_ID value)
  (Tenant_Code value) (Tenant_Name value) (Tenant_Status value) (Tenant_Version value)
  (Tenant_CreatedAt value) (Tenant_UpdatedAt value) (Tenant_CreatedBy value)
  (Tenant_UpdatedBy value).
Definition membershipBody (value : Membership) : MembershipBody :=
  Build_MembershipBody
  (Membership_ID value) (Membership_TenantID value) (Membership_UserID value)
  (Membership_Status value) (Membership_PrimaryOrganizationUnitID value)
  (Membership_JoinedAt value) (Membership_Version value) (Membership_CreatedAt value)
  (Membership_UpdatedAt value) (Membership_CreatedBy value) (Membership_UpdatedBy value).
Definition organizationUnitBody (value : OrganizationUnit) : OrganizationUnitBody :=
  Build_OrganizationUnitBody
  (OrganizationUnit_ID value) (OrganizationUnit_TenantID value) (OrganizationUnit_ParentID value)
  (OrganizationUnit_Code value) (OrganizationUnit_Name value) (OrganizationUnit_Path value)
  (OrganizationUnit_Status value) (OrganizationUnit_Version value)
  (OrganizationUnit_CreatedAt value) (OrganizationUnit_UpdatedAt value)
  (OrganizationUnit_CreatedBy value) (OrganizationUnit_UpdatedBy value).
Definition invitationBody (value : Invitation) : InvitationBody :=
  Build_InvitationBody
  (Invitation_ID value) (Invitation_TenantID value) (Invitation_Email value)
  (Invitation_Status value) (Invitation_ExpiresAt value) (Invitation_AcceptedByUserID value)
  (Invitation_Version value) (Invitation_CreatedAt value) (Invitation_UpdatedAt value)
  (Invitation_CreatedBy value) (Invitation_UpdatedBy value).
Definition groupBody (value : Group) : GroupBody :=
  Build_GroupBody (Group_ID value)
  (Group_TenantID value) (Group_Code value) (Group_Name value) (Group_Status value)
  (Group_Version value) (Group_CreatedAt value) (Group_UpdatedAt value) (Group_CreatedBy value)
  (Group_UpdatedBy value).
Definition groupMemberBody (value : GroupMember) : GroupMemberBody :=
  Build_GroupMemberBody
  (GroupMember_ID value) (GroupMember_TenantID value) (GroupMember_GroupID value)
  (GroupMember_MembershipID value) (GroupMember_Status value) (GroupMember_Version value)
  (GroupMember_CreatedAt value) (GroupMember_UpdatedAt value) (GroupMember_CreatedBy value)
  (GroupMember_UpdatedBy value).
Definition quotaBody (value : Quota) : QuotaBody :=
  Build_QuotaBody (Quota_TenantID value)
  (Quota_Key value) (Quota_Limit value) (Quota_Used value) (Quota_Version value)
  (Quota_CreatedAt value) (Quota_UpdatedAt value) (Quota_CreatedBy value) (Quota_UpdatedBy value).

Definition mapBodies {S D} (values : list S) (convert : S → D) : list D := map convert values.

Definition tenantPageBody (value : Page) : TenantPageBody :=
  Build_TenantPageBody (mapBodies (Page_Tenants value) tenantBody) (Page_Total value)
    (Page_Page value) (Page_PageSize value).
Definition membershipPageBody (value : MembershipPage) : MembershipPageBody :=
  Build_MembershipPageBody (mapBodies (MembershipPage_Memberships value) membershipBody)
    (MembershipPage_Total value) (MembershipPage_Page value) (MembershipPage_PageSize value).
Definition membershipBatchBody (values : list Membership) : MembershipBatchBody :=
  Build_MembershipBatchBody (mapBodies values membershipBody).
Definition membershipDirectoryItemBody (membership : Membership) (user : User)
  : MembershipDirectoryItemBody :=
  Build_MembershipDirectoryItemBody (membershipBody membership)
    (Build_DirectoryUserBody (User_ID user) (User_Username user) (User_DisplayName user)
       (User_Status user)).
Definition groupPageBody (value : GroupPage) : GroupPageBody :=
  Build_GroupPageBody (mapBodies (GroupPage_Groups value) groupBody) (GroupPage_Total value)
    (GroupPage_Page value) (GroupPage_PageSize value).
Definition invitationPageBody (value : InvitationPage) : InvitationPageBody :=
  Build_InvitationPageBody (mapBodies (InvitationPage_Invitations value) invitationBody)
    (InvitationPage_Total value) (InvitationPage_Page value) (InvitationPage_PageSize value).
Definition quotaPageBody (value : QuotaPage) : QuotaPageBody :=
  Build_QuotaPageBody (mapBodies (QuotaPage_Quotas value) quotaBody) (QuotaPage_Total value)
    (QuotaPage_Page value) (QuotaPage_PageSize value).

Fixpoint organizationTreeNodeBody (node : OrganizationTreeNode) : OrganizationUnitTreeNodeBody :=
  match node with
  | Build_OrganizationTreeNode item children hasChildren =>
      Build_OrganizationUnitTreeNodeBody (organizationUnitBody item) hasChildren
        (map organizationTreeNodeBody children)
  end.
Definition organizationTreeNodeBodies (nodes : list OrganizationTreeNode)
  : list OrganizationUnitTreeNodeBody := map organizationTreeNodeBody nodes.

(** ** JSON *)

Section Printing.
Context `{JsonText}.

Definition TenantBody_json (b : TenantBody) : json :=
  JObject [
  ("id", JString (TenantBody_ID b)); ("code", JString (TenantBody_Code b));
  ("name", JString (TenantBody_Name b)); ("status", JString (TenantBody_Status b));
  ("version", JInt (TenantBody_Version b));
  ("created_at", JString (json_Time (TenantBody_CreatedAt b)));
  ("updated_at", JString (json_Time (TenantBody_UpdatedAt b)));
  ("created_by", JString (TenantBody_CreatedBy b));
  ("updated_by", JString (TenantBody_UpdatedBy b))].
Definition MembershipBody_json (b : MembershipBody) : json :=
  JObject [
  ("id", JString (MembershipBody_ID b)); ("tenant_id", JString (MembershipBody_TenantID b));
  ("user_id", JString (MembershipBody_UserID b)); ("status", JString (MembershipBody_Status b));
  ("primary_organization_unit_id", JString (MembershipBody_PrimaryOrganizationUnitID b));
  ("joined_at", JString (json_Time (MembershipBody_JoinedAt b)));
  ("version", JInt (MembershipBody_Version b));
  ("created_at", JString (json_Time (MembershipBody_CreatedAt b)));
  ("updated_at", JString (json_Time (MembershipBody_UpdatedAt b)));
  ("created_by", JString (MembershipBody_CreatedBy b));
  ("updated_by", JString (MembershipBody_UpdatedBy b))].
Definition OrganizationUnitBody_json (b : OrganizationUnitBody) : json :=
  JObject [
  ("id", JString (OrganizationUnitBody_ID b));
  ("tenant_id", JString (OrganizationUnitBody_TenantID b));
  ("parent_id", JString (OrganizationUnitBody_ParentID b));
  ("code", JString (OrganizationUnitBody_Code b));
  ("name", JString (OrganizationUnitBody_Name b));
  ("path", JString (OrganizationUnitBody_Path b));
  ("status", JString (OrganizationUnitBody_Status b));
  ("version", JInt (OrganizationUnitBody_Version b));
  ("created_at", JString (json_Time (OrganizationUnitBody_CreatedAt b)));
  ("updated_at", JString (json_Time (OrganizationUnitBody_UpdatedAt b)));
  ("created_by", JString (OrganizationUnitBody_CreatedBy b));
  ("updated_by", JString (OrganizationUnitBody_UpdatedBy b))].
Definition InvitationBody_json (b : InvitationBody) : json :=
  JObject [
  ("id", JString (InvitationBody_ID b)); ("tenant_id", JString (InvitationBody_TenantID b));
  ("email", JString (InvitationBody_Email b)); ("status", JString (InvitationBody_Status b));
  ("expires_at", JString (json_Time (InvitationBody_ExpiresAt b)));
  ("accepted_by_user_id", JString (InvitationBody_AcceptedByUserID b));
  ("version", JInt (InvitationBody_Version b));
  ("created_at", JString (json_Time (InvitationBody_CreatedAt b)));
  ("updated_at", JString (json_Time (InvitationBody_UpdatedAt b)));
  ("created_by", JString (InvitationBody_CreatedBy b));
  ("updated_by", JString (InvitationBody_UpdatedBy b))].
Definition GroupBody_json (b : GroupBody) : json :=
  JObject [ ("id", JString (GroupBody_ID b));
  ("tenant_id", JString (GroupBody_TenantID b)); ("code", JString (GroupBody_Code b));
  ("name", JString (GroupBody_Name b)); ("status", JString (GroupBody_Status b));
  ("version", JInt (GroupBody_Version b));
  ("created_at", JString (json_Time (GroupBody_CreatedAt b)));
  ("updated_at", JString (json_Time (GroupBody_UpdatedAt b)));
  ("created_by", JString (GroupBody_CreatedBy b));
  ("updated_by", JString (GroupBody_UpdatedBy b))].
Definition GroupMemberBody_json (b : GroupMemberBody) : json :=
  JObject [
  ("id", JString (GroupMemberBody_ID b)); ("tenant_id", JString (GroupMemberBody_TenantID b));
  ("group_id", JString (GroupMemberBody_GroupID b));
  ("membership_id", JString (GroupMemberBody_MembershipID b));
  ("status", JString (GroupMemberBody_Status b)); ("version", JInt (GroupMemberBody_Version b));
  ("created_at", JString (json_Time (GroupMemberBody_CreatedAt b)));
  ("updated_at", JString (json_Time (GroupMemberBody_UpdatedAt b)));
  ("created_by", JString (GroupMemberBody_CreatedBy b));
  ("updated_by", JString (GroupMemberBody_UpdatedBy b))].
Definition QuotaBody_json (b : QuotaBody) : json :=
  JObject [
  ("tenant_id", JString (QuotaBody_TenantID b)); ("key", JString (QuotaBody_Key b));
  ("limit", JInt (QuotaBody_Limit b)); ("used", JInt (QuotaBody_Used b));
  ("version", JInt (QuotaBody_Version b));
  ("created_at", JString (json_Time (QuotaBody_CreatedAt b)));
  ("updated_at", JString (json_Time (QuotaBody_UpdatedAt b)));
  ("created_by", JString (QuotaBody_CreatedBy b));
  ("updated_by", JString (QuotaBody_UpdatedBy b))].
Definition MeResponseBody_json (b : MeResponseBody) : json :=
  JObject [
  ("subject", JString (MeResponseBody_Subject b))].
Definition SelectTenantResponseBody_json (b : SelectTenantResponseBody) : json :=
  JObject [
  ("access_token", JString (SelectTenantResponseBody_AccessToken b));
  ("token_type", JString (SelectTenantResponseBody_TokenType b));
  ("expires_at", JString (json_Time (SelectTenantResponseBody_ExpiresAt b)));
  ("tenant_id", JString (SelectTenantResponseBody_TenantID b));
  ("membership_id", JString (SelectTenantResponseBody_MembershipID b))].
Definition DirectoryUserBody_json (b : DirectoryUserBody) : json :=
  JObject [
  ("id", JString (DirectoryUserBody_ID b)); ("username", JString (DirectoryUserBody_Username b));
  ("display_name", JString (DirectoryUserBody_DisplayName b));
  ("status", JString (DirectoryUserBody_Status b))].
Definition AddGroupMemberResponseBody_json (b : AddGroupMemberResponseBody) : json :=
  JObject [
  ("added", JBool (AddGroupMemberResponseBody_Added b))].
Definition RemoveGroupMemberResponseBody_json (b : RemoveGroupMemberResponseBody) : json :=
  JObject [
  ("removed", JBool (RemoveGroupMemberResponseBody_Removed b))].
Definition OrganizationUnitsResponseBody_json (b : OrganizationUnitsResponseBody) : json :=
  JObject [
  ("organization_units", JArray (map OrganizationUnitBody_json (OrganizationUnitsResponseBody_OrganizationUnits b)))].
Definition OrganizationUnitBatchBody_json (b : OrganizationUnitBatchBody) : json :=
  JObject [
  ("items", JArray (map OrganizationUnitBody_json (OrganizationUnitBatchBody_Items b)))].
Fixpoint OrganizationUnitTreeNodeBody_json (b : OrganizationUnitTreeNodeBody) : json :=
  match b with
  | Build_OrganizationUnitTreeNodeBody item hasChildren children =>
      match OrganizationUnitBody_json item with
      | JObject o =>
          JObject (o ++ [("has_children", JBool hasChildren);
                         ("children", JArray (map OrganizationUnitTreeNodeBody_json children))])
      | j => j
      end
  end.
Definition CreateInvitationResponseBody_json (b : CreateInvitationResponseBody) : json :=
  JObject [
  ("invitation", InvitationBody_json (CreateInvitationResponseBody_Invitation b));
  ("token", JString (CreateInvitationResponseBody_Token b))].
Definition GroupMembersResponseBody_json (b : GroupMembersResponseBody) : json :=
  JObject [
  ("group_members", JArray (map GroupMemberBody_json (GroupMembersResponseBody_GroupMembers b)))].
Definition TenantPageBody_json (b : TenantPageBody) : json :=
  JObject [
  ("tenants", JArray (map TenantBody_json (TenantPageBody_Tenants b)));
  ("total", JInt (TenantPageBody_Total b)); ("page", JInt (TenantPageBody_Page b));
  ("page_size", JInt (TenantPageBody_PageSize b))].
Definition MembershipPageBody_json (b : MembershipPageBody) : json :=
  JObject [
  ("memberships", JArray (map MembershipBody_json (MembershipPageBody_Memberships b)));
  ("total", JInt (MembershipPageBody_Total b)); ("page", JInt (MembershipPageBody_Page b));
  ("page_size", JInt (MembershipPageBody_PageSize b))].
Definition MembershipBatchBody_json (b : MembershipBatchBody) : json :=
  JObject [
  ("memberships", JArray (map MembershipBody_json (MembershipBatchBody_Memberships b)))].
Definition MembershipDirectoryItemBody_json (b : MembershipDirectoryItemBody) : json :=
  JObject [
  ("membership", MembershipBody_json (MembershipDirectoryItemBody_Membership b));
  ("user", DirectoryUserBody_json (MembershipDirectoryItemBody_User b))].
Definition InvitationPageBody_json (b : InvitationPageBody) : json :=
  JObject [
  ("invitations", JArray (map InvitationBody_json (InvitationPageBody_Invitations b)));
  ("total", JInt (InvitationPageBody_Total b)); ("page", JInt (InvitationPageBody_Page b));
  ("page_size", JInt (InvitationPageBody_PageSize b))].
Definition QuotaPageBody_json (b : QuotaPageBody) : json :=
  JObject [
  ("quotas", JArray (map QuotaBody_json (QuotaPageBody_Quotas b)));
  ("total", JInt (QuotaPageBody_Total b)); ("page", JInt (QuotaPageBody_Page b));
  ("page_size", JInt (QuotaPageBody_PageSize b))].
Definition CreateTenantResponseBody_json (b : CreateTenantResponseBody) : json :=
  JObject [
  ("tenant", TenantBody_json (CreateTenantResponseBody_Tenant b));
  ("owner_membership", MembershipBody_json (CreateTenantResponseBody_OwnerMembership b))].
Definition AcceptInvitationResponseBody_json (b : AcceptInvitationResponseBody) : json :=
  JObject [
  ("invitation", InvitationBody_json (AcceptInvitationResponseBody_Invitation b));
  ("membership", MembershipBody_json (AcceptInvitationResponseBody_Membership b))].
Definition GroupsResponseBody_json (b : GroupsResponseBody) : json :=
  JObject [
  ("groups", JArray (map GroupBody_json (GroupsResponseBody_Groups b)))].
Definition GroupPageBody_json (b : GroupPageBody) : json :=
  JObject [
  ("groups", JArray (map GroupBody_json (GroupPageBody_Groups b)));
  ("total", JInt (GroupPageBody_Total b)); ("page", JInt (GroupPageBody_Page b));
  ("page_size", JInt (GroupPageBody_PageSize b))].
Definition ConsumeQuotaResponseBody_json (b : ConsumeQuotaResponseBody) : json :=
  JObject [
  ("quota", QuotaBody_json (ConsumeQuotaResponseBody_Quota b));
  ("allowed", JBool (ConsumeQuotaResponseBody_Allowed b))].
Definition OrganizationUnitTreeResponseBody_json (b : OrganizationUnitTreeResponseBody) : json :=
  JObject [
  ("nodes", JArray (map OrganizationUnitTreeNodeBody_json (OrganizationUnitTreeResponseBody_Nodes b)));
  ("truncated", JBool (OrganizationUnitTreeResponseBody_Truncated b))].
Definition MembershipDirectoryBody_json (b : MembershipDirectoryBody) : json :=
  JObject [
  ("items", JArray (map MembershipDirectoryItemBody_json (MembershipDirectoryBody_Items b)))].

End Printing.
