(* ===== verification/HttpRequests.v ===== *)
(** * Request bodies of the HTTP transport

    The request structs of [internal/transport/http/handler.go], with the members their
    [json] tags name and the conditions of their [binding] tags. *)

From stdpp Require Import base list strings.
From S2P Require Import Prelude GoErrors Effects Json.

Open Scope Z_scope.

Record CreateTenantRequest := Build_CreateTenantRequest { CreateTenantRequest_Code : string;
  CreateTenantRequest_Name : string; CreateTenantRequest_OwnerUserID : string }.
#[export] Instance CreateTenantRequest_binding : Binding CreateTenantRequest := {|
  decode_struct o :=
    x0 <-! string_field "code" o else e => Err e;;
    x1 <-! string_field "name" o else e => Err e;;
    x2 <-! string_field "owner_user_id" o else e => Err e;;
    Ok (Build_CreateTenantRequest x0 x1 x2);
  binding_valid r := required (CreateTenantRequest_Code r) &&
  required (CreateTenantRequest_Name r) && required (CreateTenantRequest_OwnerUserID r) |}.

Record SelectTenantRequest := Build_SelectTenantRequest { SelectTenantRequest_TenantID : string }.
#[export] Instance SelectTenantRequest_binding : Binding SelectTenantRequest := {|
  decode_struct o :=
    x0 <-! string_field "tenant_id" o else e => Err e;;
    Ok (Build_SelectTenantRequest x0);
  binding_valid r := required (SelectTenantRequest_TenantID r) |}.

Record GetTenantRequest := Build_GetTenantRequest { GetTenantRequest_TenantID : string }.
#[export] Instance GetTenantRequest_binding : Binding GetTenantRequest := {|
  decode_struct o :=
    x0 <-! string_field "tenant_id" o else e => Err e;;
    Ok (Build_GetTenantRequest x0);
  binding_valid r := required (GetTenantRequest_TenantID r) |}.

Record UpdateTenantRequest := Build_UpdateTenantRequest { UpdateTenantRequest_TenantID : string;
  UpdateTenantRequest_Name : string; UpdateTenantRequest_Status : string;
  UpdateTenantRequest_Version : Z; UpdateTenantRequest_Reason : string }.
#[export] Instance UpdateTenantRequest_binding : Binding UpdateTenantRequest := {|
  decode_struct o :=
    x0 <-! string_field "tenant_id" o else e => Err e;;
    x1 <-! string_field "name" o else e => Err e;;
    x2 <-! string_field "status" o else e => Err e;;
    x3 <-! int_field "version" o else e => Err e;;
    x4 <-! string_field "reason" o else e => Err e;;
    Ok (Build_UpdateTenantRequest x0 x1 x2 x3 x4);
  binding_valid r := required (UpdateTenantRequest_TenantID r) &&
  required (UpdateTenantRequest_Name r) && required (UpdateTenantRequest_Status r) &&
  required_int (UpdateTenantRequest_Version r) |}.

Record AddMembershipRequest := Build_AddMembershipRequest {
  AddMembershipRequest_TenantID : string; AddMembershipRequest_UserID : string;
  AddMembershipRequest_PrimaryOrganizationUnitID : string }.
#[export] Instance AddMembershipRequest_binding : Binding AddMembershipRequest := {|
  decode_struct o :=
    x0 <-! string_field "tenant_id" o else e => Err e;;
    x1 <-! string_field "user_id" o else e => Err e;;
    x2 <-! string_field "primary_organization_unit_id" o else e => Err e;;
    Ok (Build_AddMembershipRequest x0 x1 x2);
  binding_valid r := required (AddMembershipRequest_TenantID r) &&
  required (AddMembershipRequest_UserID r) |}.

Record GetMembershipRequest := Build_GetMembershipRequest {
  GetMembershipRequest_MembershipID : string }.
#[export] Instance GetMembershipRequest_binding : Binding GetMembershipRequest := {|
  decode_struct o :=
    x0 <-! string_field "membership_id" o else e => Err e;;
    Ok (Build_GetMembershipRequest x0);
  binding_valid r := required (GetMembershipRequest_MembershipID r) |}.

Record UpdateMembershipRequest := Build_UpdateMembershipRequest {
  UpdateMembershipRequest_MembershipID : string; UpdateMembershipRequest_Status : string;
  UpdateMembershipRequest_PrimaryOrganizationUnitID : string; UpdateMembershipRequest_Version : Z;
  UpdateMembershipRequest_Reason : string }.
#[export] Instance UpdateMembershipRequest_binding : Binding UpdateMembershipRequest := {|
  decode_struct o :=
    x0 <-! string_field "membership_id" o else e => Err e;;
    x1 <-! string_field "status" o else e => Err e;;
    x2 <-! string_field "primary_organization_unit_id" o else e => Err e;;
    x3 <-! int_field "version" o else e => Err e;;
    x4 <-! string_field "reason" o else e => Err e;;
    Ok (Build_UpdateMembershipRequest x0 x1 x2 x3 x4);
  binding_valid r := required (UpdateMembershipRequest_MembershipID r) &&
  required (UpdateMembershipRequest_Status r) && required_int (UpdateMembershipRequest_Version r) |}.

Record ListMembershipsRequest := Build_ListMembershipsRequest {
  ListMembershipsRequest_TenantID : string; ListMembershipsRequest_UserID : string;
  ListMembershipsRequest_Status : string; ListMembershipsRequest_Page : Z;
  ListMembershipsRequest_PageSize : Z }.
#[export] Instance ListMembershipsRequest_binding : Binding ListMembershipsRequest := {|
  decode_struct o :=
    x0 <-! string_field "tenant_id" o else e => Err e;;
    x1 <-! string_field "user_id" o else e => Err e;;
    x2 <-! string_field "status" o else e => Err e;;
    x3 <-! int_field "page" o else e => Err e;;
    x4 <-! int_field "page_size" o else e => Err e;;
    Ok (Build_ListMembershipsRequest x0 x1 x2 x3 x4);
  binding_valid r := required (ListMembershipsRequest_TenantID r) |}.

Record BatchGetMembershipsRequest := Build_BatchGetMembershipsRequest {
  BatchGetMembershipsRequest_TenantID : string;
  BatchGetMembershipsRequest_MembershipIDs : option (list string) }.
#[export] Instance BatchGetMembershipsRequest_binding : Binding BatchGetMembershipsRequest := {|
  decode_struct o :=
    x0 <-! string_field "tenant_id" o else e => Err e;;
    x1 <-! strings_field "membership_ids" o else e => Err e;;
    Ok (Build_BatchGetMembershipsRequest x0 x1);
  binding_valid r := required (BatchGetMembershipsRequest_TenantID r) &&
  required_slice (BatchGetMembershipsRequest_MembershipIDs r) |}.

Record SearchMembershipDirectoryRequest := Build_SearchMembershipDirectoryRequest {
  SearchMembershipDirectoryRequest_TenantID : string;
  SearchMembershipDirectoryRequest_Keyword : string; SearchMembershipDirectoryRequest_Limit : Z }.
#[export] Instance SearchMembershipDirectoryRequest_binding : Binding SearchMembershipDirectoryRequest := {|
  decode_struct o :=
    x0 <-! string_field "tenant_id" o else e => Err e;;
    x1 <-! string_field "keyword" o else e => Err e;;
    x2 <-! int_field "limit" o else e => Err e;;
    Ok (Build_SearchMembershipDirectoryRequest x0 x1 x2);
  binding_valid r := required (SearchMembershipDirectoryRequest_TenantID r) |}.

Record ListUserTenantsRequest := Build_ListUserTenantsRequest {
  ListUserTenantsRequest_UserID : string; ListUserTenantsRequest_Page : Z;
  ListUserTenantsRequest_PageSize : Z }.
#[export] Instance ListUserTenantsRequest_binding : Binding ListUserTenantsRequest := {|
  decode_struct o :=
    x0 <-! string_field "user_id" o else e => Err e;;
    x1 <-! int_field "page" o else e => Err e;;
    x2 <-! int_field "page_size" o else e => Err e;;
    Ok (Build_ListUserTenantsRequest x0 x1 x2);
  binding_valid r := required (ListUserTenantsRequest_UserID r) |}.

Record ListTenantsRequest := Build_ListTenantsRequest { ListTenantsRequest_Keyword : string;
  ListTenantsRequest_Status : string; ListTenantsRequest_Page : Z;
  ListTenantsRequest_PageSize : Z }.
#[export] Instance ListTenantsRequest_binding : Binding ListTenantsRequest := {|
  decode_struct o :=
    x0 <-! string_field "keyword" o else e => Err e;;
    x1 <-! string_field "status" o else e => Err e;;
    x2 <-! int_field "page" o else e => Err e;;
    x3 <-! int_field "page_size" o else e => Err e;;
    Ok (Build_ListTenantsRequest x0 x1 x2 x3);
  binding_valid r := true |}.

Record CreateOrganizationUnitRequest := Build_CreateOrganizationUnitRequest {
  CreateOrganizationUnitRequest_TenantID : string;
  CreateOrganizationUnitRequest_ParentID : string; CreateOrganizationUnitRequest_Code : string;
  CreateOrganizationUnitRequest_Name : string }.
#[export] Instance CreateOrganizationUnitRequest_binding : Binding CreateOrganizationUnitRequest := {|
  decode_struct o :=
    x0 <-! string_field "tenant_id" o else e => Err e;;
    x1 <-! string_field "parent_id" o else e => Err e;;
    x2 <-! string_field "code" o else e => Err e;;
    x3 <-! string_field "name" o else e => Err e;;
    Ok (Build_CreateOrganizationUnitRequest x0 x1 x2 x3);
  binding_valid r := required (CreateOrganizationUnitRequest_TenantID r) &&
  required (CreateOrganizationUnitRequest_Code r) &&
  required (CreateOrganizationUnitRequest_Name r) |}.

Record GetOrganizationUnitRequest := Build_GetOrganizationUnitRequest {
  GetOrganizationUnitRequest_OrganizationUnitID : string }.
#[export] Instance GetOrganizationUnitRequest_binding : Binding GetOrganizationUnitRequest := {|
  decode_struct o :=
    x0 <-! string_field "organization_unit_id" o else e => Err e;;
    Ok (Build_GetOrganizationUnitRequest x0);
  binding_valid r := required (GetOrganizationUnitRequest_OrganizationUnitID r) |}.

Record BatchGetOrganizationUnitsRequest := Build_BatchGetOrganizationUnitsRequest {
  BatchGetOrganizationUnitsRequest_TenantID : string;
  BatchGetOrganizationUnitsRequest_OrganizationUnitIDs : option (list string) }.
#[export] Instance BatchGetOrganizationUnitsRequest_binding : Binding BatchGetOrganizationUnitsRequest := {|
  decode_struct o :=
    x0 <-! string_field "tenant_id" o else e => Err e;;
    x1 <-! strings_field "organization_unit_ids" o else e => Err e;;
    Ok (Build_BatchGetOrganizationUnitsRequest x0 x1);
  binding_valid r := required (BatchGetOrganizationUnitsRequest_TenantID r) &&
  required_slice (BatchGetOrganizationUnitsRequest_OrganizationUnitIDs r) |}.

Record UpdateOrganizationUnitRequest := Build_UpdateOrganizationUnitRequest {
  UpdateOrganizationUnitRequest_OrganizationUnitID : string;
  UpdateOrganizationUnitRequest_ParentID : string; UpdateOrganizationUnitRequest_Name : string;
  UpdateOrganizationUnitRequest_Status : string; UpdateOrganizationUnitRequest_Version : Z }.
#[export] Instance UpdateOrganizationUnitRequest_binding : Binding UpdateOrganizationUnitRequest := {|
  decode_struct o :=
    x0 <-! string_field "organization_unit_id" o else e => Err e;;
    x1 <-! string_field "parent_id" o else e => Err e;;
    x2 <-! string_field "name" o else e => Err e;;
    x3 <-! string_field "status" o else e => Err e;;
    x4 <-! int_field "version" o else e => Err e;;
    Ok (Build_UpdateOrganizationUnitRequest x0 x1 x2 x3 x4);
  binding_valid r := required (UpdateOrganizationUnitRequest_OrganizationUnitID r) &&
  required (UpdateOrganizationUnitRequest_Name r) &&
  required (UpdateOrganizationUnitRequest_Status r) &&
  required_int (UpdateOrganizationUnitRequest_Version r) |}.

Record ListOrganizationUnitsRequest := Build_ListOrganizationUnitsRequest {
  ListOrganizationUnitsRequest_TenantID : string }.
#[export] Instance ListOrganizationUnitsRequest_binding : Binding ListOrganizationUnitsRequest := {|
  decode_struct o :=
    x0 <-! string_field "tenant_id" o else e => Err e;;
    Ok (Build_ListOrganizationUnitsRequest x0);
  binding_valid r := required (ListOrganizationUnitsRequest_TenantID r) |}.

Record TreeOrganizationUnitsRequest := Build_TreeOrganizationUnitsRequest {
  TreeOrganizationUnitsRequest_TenantID : string; TreeOrganizationUnitsRequest_Mode : string;
  TreeOrganizationUnitsRequest_ParentID : string; TreeOrganizationUnitsRequest_Keyword : string;
  TreeOrganizationUnitsRequest_Status : string; TreeOrganizationUnitsRequest_MaxDepth : Z;
  TreeOrganizationUnitsRequest_MaxNodes : Z }.
#[export] Instance TreeOrganizationUnitsRequest_binding : Binding TreeOrganizationUnitsRequest := {|
  decode_struct o :=
    x0 <-! string_field "tenant_id" o else e => Err e;;
    x1 <-! string_field "mode" o else e => Err e;;
    x2 <-! string_field "parent_id" o else e => Err e;;
    x3 <-! string_field "keyword" o else e => Err e;;
    x4 <-! string_field "status" o else e => Err e;;
    x5 <-! int_field "max_depth" o else e => Err e;;
    x6 <-! int_field "max_nodes" o else e => Err e;;
    Ok (Build_TreeOrganizationUnitsRequest x0 x1 x2 x3 x4 x5 x6);
  binding_valid r := required (TreeOrganizationUnitsRequest_TenantID r) &&
  required (TreeOrganizationUnitsRequest_Mode r) &&
  one_of (TreeOrganizationUnitsRequest_Mode r) ["lazy_children"; "search_with_ancestors"] &&
  omitempty (TreeOrganizationUnitsRequest_Status r) (one_of (TreeOrganizationUnitsRequest_Status r) ["active"; "disabled"]) &&
  omitempty_between 1 32 (TreeOrganizationUnitsRequest_MaxDepth r) &&
  omitempty_between 1 5000 (TreeOrganizationUnitsRequest_MaxNodes r) |}.

Record CreateInvitationRequest := Build_CreateInvitationRequest {
  CreateInvitationRequest_TenantID : string; CreateInvitationRequest_Email : string;
  CreateInvitationRequest_ExpiresInSeconds : Z }.
#[export] Instance CreateInvitationRequest_binding : Binding CreateInvitationRequest := {|
  decode_struct o :=
    x0 <-! string_field "tenant_id" o else e => Err e;;
    x1 <-! string_field "email" o else e => Err e;;
    x2 <-! int_field "expires_in_seconds" o else e => Err e;;
    Ok (Build_CreateInvitationRequest x0 x1 x2);
  binding_valid r := required (CreateInvitationRequest_TenantID r) &&
  required (CreateInvitationRequest_Email r) &&
  required_int (CreateInvitationRequest_ExpiresInSeconds r) &&
  gt0 (CreateInvitationRequest_ExpiresInSeconds r) |}.

Record AcceptInvitationRequest := Build_AcceptInvitationRequest {
  AcceptInvitationRequest_Token : string }.
#[export] Instance AcceptInvitationRequest_binding : Binding AcceptInvitationRequest := {|
  decode_struct o :=
    x0 <-! string_field "token" o else e => Err e;;
    Ok (Build_AcceptInvitationRequest x0);
  binding_valid r := required (AcceptInvitationRequest_Token r) |}.

Record RevokeInvitationRequest := Build_RevokeInvitationRequest {
  RevokeInvitationRequest_InvitationID : string; RevokeInvitationRequest_Version : Z }.
#[export] Instance RevokeInvitationRequest_binding : Binding RevokeInvitationRequest := {|
  decode_struct o :=
    x0 <-! string_field "invitation_id" o else e => Err e;;
    x1 <-! int_field "version" o else e => Err e;;
    Ok (Build_RevokeInvitationRequest x0 x1);
  binding_valid r := required (RevokeInvitationRequest_InvitationID r) &&
  required_int (RevokeInvitationRequest_Version r) && gt0 (RevokeInvitationRequest_Version r) |}.

Record GetInvitationRequest := Build_GetInvitationRequest {
  GetInvitationRequest_InvitationID : string }.
#[export] Instance GetInvitationRequest_binding : Binding GetInvitationRequest := {|
  decode_struct o :=
    x0 <-! string_field "invitation_id" o else e => Err e;;
    Ok (Build_GetInvitationRequest x0);
  binding_valid r := required (GetInvitationRequest_InvitationID r) |}.

Record ListInvitationsRequest := Build_ListInvitationsRequest {
  ListInvitationsRequest_TenantID : string; ListInvitationsRequest_Page : Z;
  ListInvitationsRequest_PageSize : Z }.
#[export] Instance ListInvitationsRequest_binding : Binding ListInvitationsRequest := {|
  decode_struct o :=
    x0 <-! string_field "tenant_id" o else e => Err e;;
    x1 <-! int_field "page" o else e => Err e;;
    x2 <-! int_field "page_size" o else e => Err e;;
    Ok (Build_ListInvitationsRequest x0 x1 x2);
  binding_valid r := required (ListInvitationsRequest_TenantID r) |}.

Record CreateGroupRequest := Build_CreateGroupRequest { CreateGroupRequest_TenantID : string;
  CreateGroupRequest_Code : string; CreateGroupRequest_Name : string }.
#[export] Instance CreateGroupRequest_binding : Binding CreateGroupRequest := {|
  decode_struct o :=
    x0 <-! string_field "tenant_id" o else e => Err e;;
    x1 <-! string_field "code" o else e => Err e;;
    x2 <-! string_field "name" o else e => Err e;;
    Ok (Build_CreateGroupRequest x0 x1 x2);
  binding_valid r := required (CreateGroupRequest_TenantID r) &&
  required (CreateGroupRequest_Code r) && required (CreateGroupRequest_Name r) |}.

Record GetGroupRequest := Build_GetGroupRequest { GetGroupRequest_GroupID : string }.
#[export] Instance GetGroupRequest_binding : Binding GetGroupRequest := {|
  decode_struct o :=
    x0 <-! string_field "group_id" o else e => Err e;;
    Ok (Build_GetGroupRequest x0);
  binding_valid r := required (GetGroupRequest_GroupID r) |}.

Record UpdateGroupRequest := Build_UpdateGroupRequest { UpdateGroupRequest_GroupID : string;
  UpdateGroupRequest_Name : string; UpdateGroupRequest_Status : string;
  UpdateGroupRequest_Version : Z }.
#[export] Instance UpdateGroupRequest_binding : Binding UpdateGroupRequest := {|
  decode_struct o :=
    x0 <-! string_field "group_id" o else e => Err e;;
    x1 <-! string_field "name" o else e => Err e;;
    x2 <-! string_field "status" o else e => Err e;;
    x3 <-! int_field "version" o else e => Err e;;
    Ok (Build_UpdateGroupRequest x0 x1 x2 x3);
  binding_valid r := required (UpdateGroupRequest_GroupID r) &&
  required (UpdateGroupRequest_Name r) && required (UpdateGroupRequest_Status r) &&
  required_int (UpdateGroupRequest_Version r) && gt0 (UpdateGroupRequest_Version r) |}.

Record GroupMemberRequest := Build_GroupMemberRequest { GroupMemberRequest_GroupID : string;
  GroupMemberRequest_MembershipID : string }.
#[export] Instance GroupMemberRequest_binding : Binding GroupMemberRequest := {|
  decode_struct o :=
    x0 <-! string_field "group_id" o else e => Err e;;
    x1 <-! string_field "membership_id" o else e => Err e;;
    Ok (Build_GroupMemberRequest x0 x1);
  binding_valid r := required (GroupMemberRequest_GroupID r) &&
  required (GroupMemberRequest_MembershipID r) |}.

Record RemoveGroupMemberRequest := Build_RemoveGroupMemberRequest {
  RemoveGroupMemberRequest_GroupID : string; RemoveGroupMemberRequest_MembershipID : string;
  RemoveGroupMemberRequest_Version : Z }.
#[export] Instance RemoveGroupMemberRequest_binding : Binding RemoveGroupMemberRequest := {|
  decode_struct o :=
    x0 <-! string_field "group_id" o else e => Err e;;
    x1 <-! string_field "membership_id" o else e => Err e;;
    x2 <-! int_field "version" o else e => Err e;;
    Ok (Build_RemoveGroupMemberRequest x0 x1 x2);
  binding_valid r := required (RemoveGroupMemberRequest_GroupID r) &&
  required (RemoveGroupMemberRequest_MembershipID r) &&
  required_int (RemoveGroupMemberRequest_Version r) && gt0 (RemoveGroupMemberRequest_Version r) |}.

Record ListGroupMembersRequest := Build_ListGroupMembersRequest {
  ListGroupMembersRequest_GroupID : string }.
#[export] Instance ListGroupMembersRequest_binding : Binding ListGroupMembersRequest := {|
  decode_struct o :=
    x0 <-! string_field "group_id" o else e => Err e;;
    Ok (Build_ListGroupMembersRequest x0);
  binding_valid r := required (ListGroupMembersRequest_GroupID r) |}.

Record BatchGetGroupMembersRequest := Build_BatchGetGroupMembersRequest {
  BatchGetGroupMembersRequest_GroupID : string;
  BatchGetGroupMembersRequest_MembershipIDs : option (list string) }.
#[export] Instance BatchGetGroupMembersRequest_binding : Binding BatchGetGroupMembersRequest := {|
  decode_struct o :=
    x0 <-! string_field "group_id" o else e => Err e;;
    x1 <-! strings_field "membership_ids" o else e => Err e;;
    Ok (Build_BatchGetGroupMembersRequest x0 x1);
  binding_valid r := required (BatchGetGroupMembersRequest_GroupID r) &&
  required_slice (BatchGetGroupMembersRequest_MembershipIDs r) |}.

Record ListGroupsRequest := Build_ListGroupsRequest { ListGroupsRequest_TenantID : string }.
#[export] Instance ListGroupsRequest_binding : Binding ListGroupsRequest := {|
  decode_struct o :=
    x0 <-! string_field "tenant_id" o else e => Err e;;
    Ok (Build_ListGroupsRequest x0);
  binding_valid r := required (ListGroupsRequest_TenantID r) |}.

Record SearchGroupsRequest := Build_SearchGroupsRequest { SearchGroupsRequest_TenantID : string;
  SearchGroupsRequest_Keyword : string; SearchGroupsRequest_Status : string;
  SearchGroupsRequest_Page : Z; SearchGroupsRequest_PageSize : Z }.
#[export] Instance SearchGroupsRequest_binding : Binding SearchGroupsRequest := {|
  decode_struct o :=
    x0 <-! string_field "tenant_id" o else e => Err e;;
    x1 <-! string_field "keyword" o else e => Err e;;
    x2 <-! string_field "status" o else e => Err e;;
    x3 <-! int_field "page" o else e => Err e;;
    x4 <-! int_field "page_size" o else e => Err e;;
    Ok (Build_SearchGroupsRequest x0 x1 x2 x3 x4);
  binding_valid r := required (SearchGroupsRequest_TenantID r) |}.

Record GetQuotaRequest := Build_GetQuotaRequest { GetQuotaRequest_TenantID : string;
  GetQuotaRequest_Key : string }.
#[export] Instance GetQuotaRequest_binding : Binding GetQuotaRequest := {|
  decode_struct o :=
    x0 <-! string_field "tenant_id" o else e => Err e;;
    x1 <-! string_field "key" o else e => Err e;;
    Ok (Build_GetQuotaRequest x0 x1);
  binding_valid r := required (GetQuotaRequest_TenantID r) && required (GetQuotaRequest_Key r) |}.

Record ListQuotasRequest := Build_ListQuotasRequest { ListQuotasRequest_TenantID : string;
  ListQuotasRequest_Keyword : string; ListQuotasRequest_Page : Z;
  ListQuotasRequest_PageSize : Z }.
#[export] Instance ListQuotasRequest_binding : Binding ListQuotasRequest := {|
  decode_struct o :=
    x0 <-! string_field "tenant_id" o else e => Err e;;
    x1 <-! string_field "keyword" o else e => Err e;;
    x2 <-! int_field "page" o else e => Err e;;
    x3 <-! int_field "page_size" o else e => Err e;;
    Ok (Build_ListQuotasRequest x0 x1 x2 x3);
  binding_valid r := required (ListQuotasRequest_TenantID r) |}.

Record SetQuotaRequest := Build_SetQuotaRequest { SetQuotaRequest_TenantID : string;
  SetQuotaRequest_Key : string; SetQuotaRequest_Limit : Z; SetQuotaRequest_Version : Z }.
#[export] Instance SetQuotaRequest_binding : Binding SetQuotaRequest := {|
  decode_struct o :=
    x0 <-! string_field "tenant_id" o else e => Err e;;
    x1 <-! string_field "key" o else e => Err e;;
    x2 <-! int_field "limit" o else e => Err e;;
    x3 <-! int_field "version" o else e => Err e;;
    Ok (Build_SetQuotaRequest x0 x1 x2 x3);
  binding_valid r := required (SetQuotaRequest_TenantID r) && required (SetQuotaRequest_Key r) &&
  gte0 (SetQuotaRequest_Limit r) && gte0 (SetQuotaRequest_Version r) |}.

Record ConsumeQuotaRequest := Build_ConsumeQuotaRequest { ConsumeQuotaRequest_TenantID : string;
  ConsumeQuotaRequest_Key : string; ConsumeQuotaRequest_Amount : Z }.
#[export] Instance ConsumeQuotaRequest_binding : Binding ConsumeQuotaRequest := {|
  decode_struct o :=
    x0 <-! string_field "tenant_id" o else e => Err e;;
    x1 <-! string_field "key" o else e => Err e;;
    x2 <-! int_field "amount" o else e => Err e;;
    Ok (Build_ConsumeQuotaRequest x0 x1 x2);
  binding_valid r := required (ConsumeQuotaRequest_TenantID r) &&
  required (ConsumeQuotaRequest_Key r) && required_int (ConsumeQuotaRequest_Amount r) &&
  gt0 (ConsumeQuotaRequest_Amount r) |}.
