(* ===== verification/Http.v ===== *)
(** * HTTP handlers

    [internal/transport/http/response.go] and the handlers of [handler.go]: each binds the
    JSON body, calls one method of the domain service and prints its result. A handler is
    a function of the gin context it is given. *)

From stdpp Require Import base gmap list strings.
From S2P Require Import Prelude GoErrors Model Store Effects Platform Authorization Service.
From S2P Require Import Tenants Organizations Invitations Groups Quotas Directory.
From S2P Require Import Json HttpBodies HttpRequests.

(** ** Contexts and replies *)

(** What handlers and middleware read of a [*gin.Context] and its [*http.Request]:
    [c_FullPath] is the pattern of the matched route, [c_Header] is [GetHeader], [c_Body]
    what reading the body gives, [c_subject] the value under "subject", [c_credential] the
    credential of [platformauthz.WithCallerCredential], [c_ctx] the request's
    [context.Context]. *)
Record Gin := Build_Gin {
  c_Method : string;
  c_FullPath : string;
  c_Header : string → string;
  c_ContentLength : Z;
  c_Body : result string;
  c_ClientIP : string;
  c_TLS : bool;
  c_subject : option string;
  c_request_id : string;
  c_credential : option string;
  c_ctx : Context;
}.

(** [Response]: the body is already a JSON value. *)
Record HttpResponse := Build_HttpResponse {
  HttpResponse_Code : Z;
  HttpResponse_Message : string;
  HttpResponse_Body : json;
  HttpResponse_RequestID : string;
}.

(** What is sent back: the status, the headers set on the way, and the response, if one is
    written. *)
Record HttpReply := Build_HttpReply {
  reply_Status : Z;
  reply_Headers : gmap string string;
  reply_Response : option HttpResponse;
}.

Section Replies.
Context `{ErrorCodes}.

Definition requestID (c : Gin) : string := c_request_id c.

(** [c.JSON(status, Response{...})]. *)
Definition respond (c : Gin) (status code : Z) (message : string) (body : json) : HttpReply :=
  Build_HttpReply status ∅ (Some (Build_HttpResponse code message body (requestID c))).

Definition OK (c : Gin) (body : json) : HttpReply := respond c 200 CodeOK "success" body.

(** [Fail]: an error that is no application error becomes an internal one. *)
Definition Failed (c : Gin) (err : goerr) : HttpReply :=
  let appErr := match As is_app err with Some e => e | None => Internal err end in
  match appErr with
  | AppError code message status _ => respond c status code message JNull
  | _ => respond c 500 CodeInternal "internal server error" JNull
  end.

End Replies.

(** ** Handlers *)

Section Handlers.
Context `{Platform, JsonText}.

(** The [Handler] struct: [issuer] and [identity] are the identity client, by the answers
    of the remote service. *)
Record Handler := Build_Handler {
  tenants : Service;
  issuer : string → string → string → string → result (string * Z);
  identity : option (string → Z → Z → result UserPage);
}.

(** [if err := c.ShouldBindJSON(&request); err != nil { Fail(...); return }]. *)
Definition ShouldBind {A} `{Binding A} (c : Gin) (k : A → prog HttpReply) : prog HttpReply :=
  request <-! ShouldBindJSON (c_Body c) else err =>
    Ret (Failed c (Invalid "invalid json request" (Some err)));;
  k request.

(** [value, err := m; if err != nil { Fail(c, err); return }; OK(c, body(value))]. *)
Definition answer {X} (c : Gin) (m : prog (X * option goerr)) (body : X → json) : prog HttpReply :=
  r <- m;;
  Ret (match snd r with Some err => Failed c err | None => OK c (body (fst r)) end).

(** The same for a method that only returns an error. *)
Definition acknowledged (c : Gin) (m : prog (option goerr)) (body : json) : prog HttpReply :=
  err <- m;;
  Ret (match err with Some err => Failed c err | None => OK c body end).

(** A slice as the service ranges over it. *)
Definition slice (l : option (list string)) : list string := default [] l.

Definition Me (c : Gin) : prog HttpReply :=
  Ret (OK c (JObject [("subject", match c_subject c with Some s => JString s | None => JNull end)])).

(** [createTenant], behind [CreateTenant] and [CreateManagedTenant]. *)
Definition createTenant (h : Handler) (c : Gin) : prog HttpReply :=
  ShouldBind c (λ request : CreateTenantRequest,
    answer c (Tenants.Create (tenants h) (c_ctx c) (CreateTenantRequest_Code request)
                (CreateTenantRequest_Name request) (CreateTenantRequest_OwnerUserID request))
      (λ '(created, owner), CreateTenantResponseBody_json
        (Build_CreateTenantResponseBody (tenantBody created) (membershipBody owner)))).

Definition CreateTenant (h : Handler) (c : Gin) : prog HttpReply := createTenant h c.
Definition CreateManagedTenant (h : Handler) (c : Gin) : prog HttpReply := createTenant h c.

Definition SelectTenant (h : Handler) (c : Gin) : prog HttpReply :=
  ShouldBind c (λ request : SelectTenantRequest,
    let refuse := Ret (Failed c (Unauthorized "an interactive user session is required")) in
    match ctx_principal (c_ctx c) with
    | Err _ => refuse
    | Ok identity =>
        stop_if negb (bool_decide (Principal_Type identity = TypeUser))
                || (Principal_ID identity =?s "") || (Principal_SessionID identity =?s "") => refuse;;
        r <- Tenants.ValidateMembership (tenants h) (c_ctx c) (Principal_ID identity)
               (SelectTenantRequest_TenantID request);;
        let '(_, membership, valid) := r in
        stop_if negb valid || (Membership_ID membership =?s "") =>
          Ret (Failed c (Forbidden "active tenant membership is required"));;
        Ret (match issuer h (Principal_ID identity) (SelectTenantRequest_TenantID request)
                     (Membership_ID membership) (Principal_SessionID identity) with
             | Err err =>
                 Failed c (Unavailable "identity service is unavailable"
                             (Join (Some (Sentinel ErrIdentityUnavailable)) (Some err)))
             | Ok (token, expiresAt) =>
                 OK c (SelectTenantResponseBody_json (Build_SelectTenantResponseBody token "Bearer"
                         expiresAt (SelectTenantRequest_TenantID request) (Membership_ID membership)))
             end)
    end).

Definition GetTenant (h : Handler) (c : Gin) : prog HttpReply :=
  ShouldBind c (λ request : GetTenantRequest,
    answer c (Tenants.Get (tenants h) (c_ctx c) (GetTenantRequest_TenantID request))
      (λ value, TenantBody_json (tenantBody value))).

Definition UpdateTenant (h : Handler) (c : Gin) : prog HttpReply :=
  ShouldBind c (λ request : UpdateTenantRequest,
    answer c (Tenants.Update (tenants h) (c_ctx c) (UpdateTenantRequest_TenantID request)
        (UpdateTenantRequest_Name request) (UpdateTenantRequest_Status request)
        (UpdateTenantRequest_Version request))
      (λ value, TenantBody_json (tenantBody value))).

Definition AddMembership (h : Handler) (c : Gin) : prog HttpReply :=
  ShouldBind c (λ request : AddMembershipRequest,
    answer c (Tenants.AddMembership (tenants h) (c_ctx c) (AddMembershipRequest_TenantID request)
        (AddMembershipRequest_UserID request)
        (AddMembershipRequest_PrimaryOrganizationUnitID request))
      (λ value, MembershipBody_json (membershipBody value))).

Definition GetMembership (h : Handler) (c : Gin) : prog HttpReply :=
  ShouldBind c (λ request : GetMembershipRequest,
    answer c (Tenants.GetMembership (tenants h) (c_ctx c)
        (GetMembershipRequest_MembershipID request))
      (λ value, MembershipBody_json (membershipBody value))).

Definition UpdateMembership (h : Handler) (c : Gin) : prog HttpReply :=
  ShouldBind c (λ request : UpdateMembershipRequest,
    answer c (Tenants.UpdateMembership (tenants h) (c_ctx c)
        (UpdateMembershipRequest_MembershipID request) (UpdateMembershipRequest_Status request)
        (UpdateMembershipRequest_PrimaryOrganizationUnitID request)
        (UpdateMembershipRequest_Version request))
      (λ value, MembershipBody_json (membershipBody value))).

Definition ListMemberships (h : Handler) (c : Gin) : prog HttpReply :=
  ShouldBind c (λ request : ListMembershipsRequest,
    answer c (Tenants.ListMemberships (tenants h) (c_ctx c)
        (ListMembershipsRequest_TenantID request) (ListMembershipsRequest_UserID request)
        (ListMembershipsRequest_Status request) (ListMembershipsRequest_Page request)
        (ListMembershipsRequest_PageSize request))
      (λ value, MembershipPageBody_json (membershipPageBody value))).

Definition BatchGetMemberships (h : Handler) (c : Gin) : prog HttpReply :=
  ShouldBind c (λ request : BatchGetMembershipsRequest,
    answer c (Tenants.BatchGetMemberships (tenants h) (c_ctx c)
        (BatchGetMembershipsRequest_TenantID request)
        (slice (BatchGetMembershipsRequest_MembershipIDs request)))
      (λ value, MembershipBatchBody_json (membershipBatchBody value))).

Definition SearchMembershipDirectory (h : Handler) (c : Gin) : prog HttpReply :=
  ShouldBind c (λ request : SearchMembershipDirectoryRequest,
    let limit := SearchMembershipDirectoryRequest_Limit request in
    let limit := if (limit <=? 0)%Z then 20%Z else limit in
    stop_if (50 <? limit)%Z => Ret (Failed c (Invalid "limit must not exceed 50" None));;
    match identity h with
    | None => Ret (Failed c (Unavailable "identity service is unavailable" (Some (Sentinel ErrIdentityUnavailable))))
    | Some directory =>
        r <- Search (Some (Tenants.FindMembershipsByUserIDs (tenants h) (c_ctx c))) (Some directory)
               (SearchMembershipDirectoryRequest_TenantID request)
               (SearchMembershipDirectoryRequest_Keyword request) limit;;
        Ret (match r with
             | Err err =>
                 if Is err ErrDirectoryUnavailable
                 then Failed c (Unavailable "identity service is unavailable" (Some err))
                 else Failed c err
             | Ok entries =>
                 OK c (MembershipDirectoryBody_json (Build_MembershipDirectoryBody
                   (map (λ entry, membershipDirectoryItemBody (Entry_Membership entry) (Entry_User entry))
                      entries)))
             end)
    end).

Definition ListUserTenants (h : Handler) (c : Gin) : prog HttpReply :=
  ShouldBind c (λ request : ListUserTenantsRequest,
    answer c (Tenants.ListUserTenants (tenants h) (c_ctx c)
        (ListUserTenantsRequest_UserID request) (ListUserTenantsRequest_Page request)
        (ListUserTenantsRequest_PageSize request))
      (λ value, TenantPageBody_json (tenantPageBody value))).

Definition ListTenants (h : Handler) (c : Gin) : prog HttpReply :=
  ShouldBind c (λ request : ListTenantsRequest,
    answer c (Tenants.ListTenants (tenants h) (c_ctx c) (ListTenantsRequest_Keyword request)
        (ListTenantsRequest_Status request) (ListTenantsRequest_Page request)
        (ListTenantsRequest_PageSize request))
      (λ value, TenantPageBody_json (tenantPageBody value))).

Definition CreateOrganizationUnit (h : Handler) (c : Gin) : prog HttpReply :=
  ShouldBind c (λ request : CreateOrganizationUnitRequest,
    answer c (Organizations.CreateOrganizationUnit (tenants h) (c_ctx c)
        (CreateOrganizationUnitRequest_TenantID request)
        (CreateOrganizationUnitRequest_ParentID request)
        (CreateOrganizationUnitRequest_Code request) (CreateOrganizationUnitRequest_Name request))
      (λ value, OrganizationUnitBody_json (organizationUnitBody value))).

Definition GetOrganizationUnit (h : Handler) (c : Gin) : prog HttpReply :=
  ShouldBind c (λ request : GetOrganizationUnitRequest,
    answer c (Organizations.GetOrganizationUnit (tenants h) (c_ctx c)
        (GetOrganizationUnitRequest_OrganizationUnitID request))
      (λ value, OrganizationUnitBody_json (organizationUnitBody value))).

Definition BatchGetOrganizationUnits (h : Handler) (c : Gin) : prog HttpReply :=
  ShouldBind c (λ request : BatchGetOrganizationUnitsRequest,
    answer c (Organizations.BatchGetOrganizationUnits (tenants h) (c_ctx c)
        (BatchGetOrganizationUnitsRequest_TenantID request)
        (slice (BatchGetOrganizationUnitsRequest_OrganizationUnitIDs request)))
      (λ value, OrganizationUnitBatchBody_json
        (Build_OrganizationUnitBatchBody (mapBodies value organizationUnitBody)))).

Definition UpdateOrganizationUnit (h : Handler) (c : Gin) : prog HttpReply :=
  ShouldBind c (λ request : UpdateOrganizationUnitRequest,
    answer c (Organizations.UpdateOrganizationUnit (tenants h) (c_ctx c)
        (UpdateOrganizationUnitRequest_OrganizationUnitID request)
        (UpdateOrganizationUnitRequest_ParentID request)
        (UpdateOrganizationUnitRequest_Name request)
        (UpdateOrganizationUnitRequest_Status request)
        (UpdateOrganizationUnitRequest_Version request))
      (λ value, OrganizationUnitBody_json (organizationUnitBody value))).

Definition ListOrganizationUnits (h : Handler) (c : Gin) : prog HttpReply :=
  ShouldBind c (λ request : ListOrganizationUnitsRequest,
    answer c (Organizations.ListOrganizationUnits (tenants h) (c_ctx c)
        (ListOrganizationUnitsRequest_TenantID request))
      (λ value, OrganizationUnitsResponseBody_json
        (Build_OrganizationUnitsResponseBody (mapBodies value organizationUnitBody)))).

Definition TreeOrganizationUnits (h : Handler) (c : Gin) : prog HttpReply :=
  ShouldBind c (λ request : TreeOrganizationUnitsRequest,
    answer c (Organizations.TreeOrganizationUnits (tenants h) (c_ctx c)
        (TreeOrganizationUnitsRequest_TenantID request)
        (TreeOrganizationUnitsRequest_Mode request)
        (TreeOrganizationUnitsRequest_ParentID request)
        (TreeOrganizationUnitsRequest_Keyword request)
        (TreeOrganizationUnitsRequest_Status request)
        (TreeOrganizationUnitsRequest_MaxDepth request)
        (TreeOrganizationUnitsRequest_MaxNodes request))
      (λ value, let '(nodes, truncated) := value in
        OrganizationUnitTreeResponseBody_json
          (Build_OrganizationUnitTreeResponseBody (organizationTreeNodeBodies nodes) truncated))).

Definition CreateInvitation (h : Handler) (c : Gin) : prog HttpReply :=
  ShouldBind c (λ request : CreateInvitationRequest,
    answer c (Invitations.CreateInvitation (tenants h) (c_ctx c)
        (CreateInvitationRequest_TenantID request) (CreateInvitationRequest_Email request)
        (wrap64 (CreateInvitationRequest_ExpiresInSeconds request * second)))
      (λ value, let '(value, token) := value in
        CreateInvitationResponseBody_json (Build_CreateInvitationResponseBody (invitationBody value) token))).

Definition AcceptInvitation (h : Handler) (c : Gin) : prog HttpReply :=
  ShouldBind c (λ request : AcceptInvitationRequest,
    match ctx_principal (c_ctx c) with
    | Err _ => Ret (Failed c (Unauthorized "authenticated actor is required"))
    | Ok actor =>
        answer c (Invitations.AcceptInvitation (tenants h) (c_ctx c)
                    (AcceptInvitationRequest_Token request) (Principal_ID actor))
          (λ '(value, membership),
            AcceptInvitationResponseBody_json
              (Build_AcceptInvitationResponseBody (invitationBody value) (membershipBody membership)))
    end).

Definition RevokeInvitation (h : Handler) (c : Gin) : prog HttpReply :=
  ShouldBind c (λ request : RevokeInvitationRequest,
    answer c (Invitations.RevokeInvitation (tenants h) (c_ctx c)
        (RevokeInvitationRequest_InvitationID request) (RevokeInvitationRequest_Version request))
      (λ value, InvitationBody_json (invitationBody value))).

Definition GetInvitation (h : Handler) (c : Gin) : prog HttpReply :=
  ShouldBind c (λ request : GetInvitationRequest,
    answer c (Invitations.GetInvitation (tenants h) (c_ctx c)
        (GetInvitationRequest_InvitationID request))
      (λ value, InvitationBody_json (invitationBody value))).

Definition ListInvitations (h : Handler) (c : Gin) : prog HttpReply :=
  ShouldBind c (λ request : ListInvitationsRequest,
    answer c (Invitations.ListInvitations (tenants h) (c_ctx c)
        (ListInvitationsRequest_TenantID request) (ListInvitationsRequest_Page request)
        (ListInvitationsRequest_PageSize request))
      (λ value, InvitationPageBody_json (invitationPageBody value))).

Definition CreateGroup (h : Handler) (c : Gin) : prog HttpReply :=
  ShouldBind c (λ request : CreateGroupRequest,
    answer c (Groups.CreateGroup (tenants h) (c_ctx c) (CreateGroupRequest_TenantID request)
        (CreateGroupRequest_Code request) (CreateGroupRequest_Name request))
      (λ value, GroupBody_json (groupBody value))).

Definition GetGroup (h : Handler) (c : Gin) : prog HttpReply :=
  ShouldBind c (λ request : GetGroupRequest,
    answer c (Groups.GetGroup (tenants h) (c_ctx c) (GetGroupRequest_GroupID request))
      (λ value, GroupBody_json (groupBody value))).

Definition UpdateGroup (h : Handler) (c : Gin) : prog HttpReply :=
  ShouldBind c (λ request : UpdateGroupRequest,
    answer c (Groups.UpdateGroup (tenants h) (c_ctx c) (UpdateGroupRequest_GroupID request)
        (UpdateGroupRequest_Name request) (UpdateGroupRequest_Status request)
        (UpdateGroupRequest_Version request))
      (λ value, GroupBody_json (groupBody value))).

Definition AddGroupMember (h : Handler) (c : Gin) : prog HttpReply :=
  ShouldBind c (λ request : GroupMemberRequest,
    acknowledged c (Groups.AddGroupMember (tenants h) (c_ctx c)
        (GroupMemberRequest_GroupID request) (GroupMemberRequest_MembershipID request))
      (AddGroupMemberResponseBody_json (Build_AddGroupMemberResponseBody true))).

Definition RemoveGroupMember (h : Handler) (c : Gin) : prog HttpReply :=
  ShouldBind c (λ request : RemoveGroupMemberRequest,
    acknowledged c (Groups.RemoveGroupMember (tenants h) (c_ctx c)
        (RemoveGroupMemberRequest_GroupID request) (RemoveGroupMemberRequest_MembershipID request)
        (RemoveGroupMemberRequest_Version request))
      (RemoveGroupMemberResponseBody_json (Build_RemoveGroupMemberResponseBody true))).

Definition GetGroupMember (h : Handler) (c : Gin) : prog HttpReply :=
  ShouldBind c (λ request : GroupMemberRequest,
    answer c (Groups.GetGroupMember (tenants h) (c_ctx c) (GroupMemberRequest_GroupID request)
        (GroupMemberRequest_MembershipID request))
      (λ value, GroupMemberBody_json (groupMemberBody value))).

Definition ListGroupMembers (h : Handler) (c : Gin) : prog HttpReply :=
  ShouldBind c (λ request : ListGroupMembersRequest,
    answer c (Groups.ListGroupMembers (tenants h) (c_ctx c)
        (ListGroupMembersRequest_GroupID request))
      (λ value, GroupMembersResponseBody_json
        (Build_GroupMembersResponseBody (mapBodies value groupMemberBody)))).

Definition BatchGetGroupMembers (h : Handler) (c : Gin) : prog HttpReply :=
  ShouldBind c (λ request : BatchGetGroupMembersRequest,
    answer c (Groups.BatchGetGroupMembers (tenants h) (c_ctx c)
        (BatchGetGroupMembersRequest_GroupID request)
        (slice (BatchGetGroupMembersRequest_MembershipIDs request)))
      (λ value, GroupMembersResponseBody_json
        (Build_GroupMembersResponseBody (mapBodies value groupMemberBody)))).

Definition ListGroups (h : Handler) (c : Gin) : prog HttpReply :=
  ShouldBind c (λ request : ListGroupsRequest,
    answer c (Groups.ListGroups (tenants h) (c_ctx c) (ListGroupsRequest_TenantID request))
      (λ value, GroupsResponseBody_json (Build_GroupsResponseBody (mapBodies value groupBody)))).

Definition SearchGroups (h : Handler) (c : Gin) : prog HttpReply :=
  ShouldBind c (λ request : SearchGroupsRequest,
    answer c (Groups.SearchGroups (tenants h) (c_ctx c) (SearchGroupsRequest_TenantID request)
        (SearchGroupsRequest_Keyword request) (SearchGroupsRequest_Status request)
        (SearchGroupsRequest_Page request) (SearchGroupsRequest_PageSize request))
      (λ value, GroupPageBody_json (groupPageBody value))).

Definition GetQuota (h : Handler) (c : Gin) : prog HttpReply :=
  ShouldBind c (λ request : GetQuotaRequest,
    answer c (Quotas.GetQuota (tenants h) (c_ctx c) (GetQuotaRequest_TenantID request)
        (GetQuotaRequest_Key request))
      (λ value, QuotaBody_json (quotaBody value))).

Definition ListQuotas (h : Handler) (c : Gin) : prog HttpReply :=
  ShouldBind c (λ request : ListQuotasRequest,
    answer c (Quotas.ListQuotas (tenants h) (c_ctx c) (ListQuotasRequest_TenantID request)
        (ListQuotasRequest_Keyword request) (ListQuotasRequest_Page request)
        (ListQuotasRequest_PageSize request))
      (λ value, QuotaPageBody_json (quotaPageBody value))).

Definition SetQuota (h : Handler) (c : Gin) : prog HttpReply :=
  ShouldBind c (λ request : SetQuotaRequest,
    answer c (Quotas.SetQuota (tenants h) (c_ctx c) (SetQuotaRequest_TenantID request)
        (SetQuotaRequest_Key request) (SetQuotaRequest_Limit request)
        (SetQuotaRequest_Version request))
      (λ value, QuotaBody_json (quotaBody value))).

Definition ConsumeQuota (h : Handler) (c : Gin) : prog HttpReply :=
  ShouldBind c (λ request : ConsumeQuotaRequest,
    answer c (Quotas.ConsumeQuota (tenants h) (c_ctx c) (ConsumeQuotaRequest_TenantID request)
        (ConsumeQuotaRequest_Key request) (ConsumeQuotaRequest_Amount request))
      (λ value, let '(value, allowed) := value in
        ConsumeQuotaResponseBody_json (Build_ConsumeQuotaResponseBody (quotaBody value) allowed))).

End Handlers.
