(* ===== verification/Middleware.v ===== *)
(** * HTTP middleware

    [internal/transport/http/middleware.go] with [internal/ratelimit/limiter.go],
    [internal/requestid/requestid.go] and [internal/auth/jwt.go]. A middleware takes the
    rest of the chain, [c.Next()], and a context; it is written for any type of answer, a reply
    or, in [Edge], an outcome. The request log, the recovery from panics, [Timeout] and the
    metrics are in [Edge]; what [HTTPMetrics] counts is in [Metrics]. *)

From Stdlib Require Import Ascii.
From stdpp Require Import base gmap list strings pretty.
From S2P Require Import Floats Config.
From S2P Require Import Prelude GoErrors Model Store Effects Platform Authorization Service Authn.
From S2P Require Import Json Http.

Definition ChainOf (T : Type) := Gin → prog T.
Definition Chain := ChainOf HttpReply.

(** ** Contexts and headers *)

(** [c.Header(key, value)] before [c.Next()]: a later call for the same key wins. *)
Definition with_header (key value : string) (r : HttpReply) : HttpReply :=
  Build_HttpReply (reply_Status r) (reply_Headers r ∪ {[key := value]}) (reply_Response r).

(** What a chain ends with: a reply, or something richer. [after_reply] runs after a handler
    that has returned. *)
Class Answer (T : Type) := {
  reply : HttpReply → T;
  set_header : string → string → T → T;
  after_reply : (HttpReply → prog HttpReply) → T → prog T;
}.
#[export] Instance HttpReply_answer : Answer HttpReply := {|
  reply r := r; set_header := with_header; after_reply f := f |}.

Definition finish {T} `{Answer T} (r : HttpReply) : prog T := Ret (reply r).
Definition header {T} `{Answer T} (key value : string) (p : prog T) : prog T :=
  bind p (λ r, Ret (set_header key value r)).

Definition set_request_id (id : string) (c : Gin) : Gin :=
  Build_Gin (c_Method c) (c_FullPath c) (c_Header c) (c_ContentLength c) (c_Body c) (c_ClientIP c)
    (c_TLS c) (c_subject c) id (c_credential c) (c_ctx c).
Definition set_ctx (ctx : Context) (c : Gin) : Gin :=
  Build_Gin (c_Method c) (c_FullPath c) (c_Header c) (c_ContentLength c) (c_Body c) (c_ClientIP c)
    (c_TLS c) (c_subject c) (c_request_id c) (c_credential c) ctx.
(** The subject, the principal and the credential of an authenticated call. *)
Definition authenticated (subject : string) (caller : Principal) (credential : string) (c : Gin) : Gin :=
  Build_Gin (c_Method c) (c_FullPath c) (c_Header c) (c_ContentLength c) (c_Body c) (c_ClientIP c)
    (c_TLS c) (Some subject) (c_request_id c) (Some credential) (with_principal (c_ctx c) caller).

(** [idempotency.WithContext]. *)
Definition with_idempotencyKey (ctx : Context) (key : string) : Context :=
  Build_Context (ctx_principal ctx) (ctx_platformAdministration ctx) (Some key).

(** ** Request identifiers *)

Definition RequestID {T} `{Answer T} (next : ChainOf T) : ChainOf T := λ c,
  let id := c_Header c "X-Request-ID" in
  let go id := header "X-Request-ID" id (next (set_request_id id c)) in
  if negb (Valid id) then bind Generate go else go id.

(** ** Tokens *)

(** [auth.Service]; [verifier] is nil without an identity service. *)
Record AuthService := Build_AuthService {
  auth_issuer : string;
  auth_secret : string;
  auth_clientID : string;
  auth_clientSecret : string;
  auth_verifier : option (string → result Principal);
}.

(** [auth.New] and [auth.NewRuntime]: [authn.NewJWKSVerifier] is given the URL, the issuer and
    the audience. *)
Definition auth_New (cfg : Config) : AuthService :=
  Build_AuthService (JWT_Issuer (Config_JWT cfg)) (JWT_Secret (Config_JWT cfg))
    (Auth_ClientID (Config_Auth cfg)) (Auth_ClientSecret (Config_Auth cfg)) None.
Definition auth_NewRuntime
    (NewJWKSVerifier : string → string → string → result (string → result Principal)) (cfg : Config)
  : result AuthService :=
  let service := auth_New cfg in
  stop_if Auth_JWKSURL (Config_Auth cfg) =?s "" => Ok service;;
  verifier <-! NewJWKSVerifier (Auth_JWKSURL (Config_Auth cfg)) (Auth_Issuer (Config_Auth cfg))
                 (Auth_Audience (Config_Auth cfg))
    else err => Err (Wrapped "configure identity token verifier" err);;
  Ok (Build_AuthService (auth_issuer service) (auth_secret service) (auth_clientID service)
        (auth_clientSecret service) (Some verifier)).

(** [jwt.ParseWithClaims] with the issuer, expiry and issued-at options: the key function
    from algorithm to key, the issuer, the token; the subject and the [Valid] flag. *)
Class JwtLibrary := {
  jwt_ParseWithClaims : (string → result string) → string → string → result (string * bool) }.

Section Tokens.
Context `{JwtLibrary}.

Definition auth_Enabled (s : AuthService) : bool :=
  (32 <=? String.length (auth_secret s))%nat && (auth_clientID s <>?s "") && (auth_clientSecret s <>?s "").

Definition Authenticate (s : AuthService) (clientID clientSecret : string) : bool :=
  if negb (auth_Enabled s) then false
  else (clientID =?s auth_clientID s) && (clientSecret =?s auth_clientSecret s).

(** The subject of the claims. *)
Definition Parse (s : AuthService) (raw : string) : result string :=
  stop_if negb (auth_Enabled s) => Err (TextError "authentication is not configured");;
  token <-! jwt_ParseWithClaims
      (λ alg, if alg <>?s "HS256" then Err (TextError "unexpected signing method") else Ok (auth_secret s))
      (auth_issuer s) raw
    else err => Err (Wrapped "parse jwt" err);;
  let '(subject, valid) := token in
  if negb valid then Err (TextError "invalid jwt claims") else Ok subject.

Definition Verify (s : AuthService) (raw : string) : result Principal :=
  match auth_verifier s with
  | Some verify => verify raw
  | None =>
      subject <-! Parse s raw else err => Err err;;
      Ok (Build_Principal subject TypeServiceAccount "" "")
  end.

End Tokens.

(** ** Rate limits *)

(** The answer of the Redis limiter, and that of [Allow]. *)
Record RedisResult := Build_RedisResult {
  Redis_Allowed : Z; Redis_Remaining : Z; Redis_RetryAfter : Z }.
Record LimitResult := Build_LimitResult {
  Limit_Allowed : bool; Limit_Limit : Z; Limit_Remaining : Z; Limit_RetryAfter : Z }.

(** [backend] is nil without Redis. *)
Record Limiter := Build_Limiter {
  limiter_enabled : bool;
  limiter_failOpen : bool;
  limiter_backend : option (string → RateLimitRule → result RedisResult);
}.

(** [ratelimit.New]. *)
Definition NewLimiter (client : option (string → RateLimitRule → result RedisResult)) (cfg : Config)
  : Limiter :=
  Build_Limiter (RateLimit_Enabled (Config_RateLimit cfg)) (RateLimit_FailOpen (Config_RateLimit cfg)) client.

Definition Allow (l : Limiter) (key : string) (rule : RateLimitRule) : result LimitResult :=
  stop_if negb (limiter_enabled l) => Ok (Build_LimitResult true 0 0 0);;
  match limiter_backend l with
  | None => Err (TextError "redis rate limiter is unavailable")
  | Some backend =>
      result <-! backend key rule else err => Err (Wrapped "check redis rate limit" err);;
      Ok (Build_LimitResult (0 <? Redis_Allowed result)%Z (RateLimitRule_Burst rule) (Redis_Remaining result)
            (Redis_RetryAfter result))
  end.

(** [d.Round(time.Second)]: to the nearest multiple, halves away from zero, the bounds
    of the type kept. *)
Definition Round_second (d : Z) : Z :=
  let r := Z.rem d second in
  if (d <? 0)%Z then
    let r := (- r)%Z in
    if (r + r <? second)%Z then (d + r)%Z
    else let d1 := wrap64 (d - second + r) in if (d1 <? d)%Z then d1 else min_int64
  else if (r + r <? second)%Z then (d - r)%Z
  else let d1 := wrap64 (d + second - r) in if (d <? d1)%Z then d1 else max_int64.

(** [max(1, int(result.RetryAfter.Round(time.Second)/time.Second))] *)
Definition retry_seconds (d : Z) : Z := Z.max 1 (Z.quot (Round_second d) second).

Section Middleware.
Context `{Platform, JsonText, FloatMachine}.
(** [path.Match], [mime.ParseMediaType] (the media type) and [platformidempotency.Valid]. *)
Context (path_Match : string → string → result bool).
Context (mime_ParseMediaType : string → result string).
Context (idempotency_Valid : string → bool).
Context {T : Type} `{!Answer T}.

Definition IdempotencyKey (next : ChainOf T) : ChainOf T := λ c,
  let key := c_Header c "Idempotency-Key" in
  stop_if key =?s "" => next c;;
  stop_if negb (idempotency_Valid key) => finish (Failed c (Invalid "invalid Idempotency-Key" None));;
  header "Idempotency-Key" key (next (set_ctx (with_idempotencyKey (c_ctx c) key) c)).

Definition RateLimit (limiter : Limiter) (rule : RateLimitRule) (dimension : string)
    (keyFunc : Gin → string) (next : ChainOf T) : ChainOf T := λ c,
  stop_if negb (limiter_enabled limiter) => next c;;
  let key := keyFunc c in
  stop_if key =?s "" => next c;;
  match Allow limiter ("rate:" +:+ dimension +:+ ":" +:+ key) rule with
  | Err err =>
      if limiter_failOpen limiter then next c
      else finish (Failed c (Unavailable "rate limiter unavailable" (Some err)))
  | Ok result =>
      let headers p :=
        header "X-RateLimit-Limit" (pretty (Limit_Limit result))
          (header "X-RateLimit-Remaining" (pretty (Limit_Remaining result)) p) in
      if negb (Limit_Allowed result) then
        headers (header "Retry-After" (pretty (retry_seconds (Limit_RetryAfter result)))
          (finish (Failed c TooManyRequests)))
      else headers (next c)
  end.

(** ** Content types, security headers and origins *)

Definition RequireJSON (next : ChainOf T) : ChainOf T := λ c,
  let refuse := finish (respond c 415 CodeInvalidArgument "content type must be application/json" JNull) in
  if (c_Method c =?s "POST") && negb (c_ContentLength c =? 0)%Z then
    match mime_ParseMediaType (c_Header c "Content-Type") with
    | Err _ => refuse
    | Ok mediaType => if mediaType <>?s "application/json" then refuse else next c
    end
  else next c.

Definition SecurityHeaders (next : ChainOf T) : ChainOf T := λ c,
  header "X-Content-Type-Options" "nosniff"
  (header "X-Frame-Options" "DENY"
  (header "Referrer-Policy" "no-referrer"
  (header "Content-Security-Policy" "default-src 'none'; frame-ancestors 'none'"
  (header "Cache-Control" "no-store"
  (if c_TLS c then header "Strict-Transport-Security" "max-age=31536000; includeSubDomains" (next c)
   else next c))))).

Definition CORS (cfg : Config.CORS) (next : ChainOf T) : ChainOf T := λ c,
  stop_if negb (CORS_Enabled cfg) => next c;;
  let origin := c_Header c "Origin" in
  stop_if origin =?s "" => next c;;
  stop_if negb (bool_decide (origin ∈ CORS_AllowedOrigins cfg)) =>
    finish (respond c 403 CodeForbidden "origin is not allowed" JNull);;
  header "Access-Control-Allow-Origin" origin
  (header "Vary" "Origin"
  (header "Access-Control-Allow-Methods" "POST, GET, OPTIONS"
  (header "Access-Control-Allow-Headers" (String.concat ", " (CORS_AllowedHeaders cfg))
  (header "Access-Control-Expose-Headers" (String.concat ", " (CORS_ExposedHeaders cfg))
  (header "Access-Control-Max-Age" (pretty (int64_of_float (Seconds (CORS_MaxAge cfg))))
  (if c_Method c =?s "OPTIONS" then finish (Build_HttpReply 204 ∅ None) else next c)))))).

(** ** Authentication and authorization *)

Section Access.
Context `{JwtLibrary}.
Context (service : AuthService).

Definition JWT (next : ChainOf T) : ChainOf T := λ c,
  let authorization := c_Header c "Authorization" in
  let '(scheme, raw, ok) := cut_space authorization in
  stop_if negb ok || negb (EqualFold scheme "Bearer") || (raw =?s "") =>
    finish (Failed c (Unauthorized "missing bearer token"));;
  match Verify service raw with
  | Err _ => finish (Failed c (Unauthorized "invalid or expired token"))
  | Ok caller => next (authenticated (Principal_ID caller) caller authorization c)
  end.

Definition Authentication (cfg : Auth) (next : ChainOf T) : ChainOf T := λ c,
  if PSK_Enabled (Auth_PSK cfg) && MatchesAny path_Match (c_FullPath c) (PSK_HTTPPaths (Auth_PSK cfg)) then
    if negb (VerifyPSK (c_Header c "Authorization") (PSK_Key (Auth_PSK cfg)))
    then finish (Failed c (Unauthorized "missing or invalid PSK"))
    else next (authenticated "psk" (Build_Principal "psk" TypeServiceAccount "" "")
                 (c_Header c "Authorization") c)
  else if MatchesAny path_Match (c_FullPath c) (Auth_SkipHTTPPaths cfg) then next c
  else JWT next c.

End Access.

(** [platformauthz.Requirement]. *)
Inductive Scope := ScopePrincipal | ScopePlatform.
Record Requirement := Build_Requirement {
  Requirement_Resource : string; Requirement_Action : string; Requirement_Scope : Scope }.

Definition requirements : list (string * Requirement) := [
  ("/api/v1/memberships/get", Build_Requirement "tenant.membership" "read" ScopePrincipal);
  ("/api/v1/groups/get", Build_Requirement "tenant.group" "read" ScopePrincipal);
  ("/api/v1/tenants/manage/create", Build_Requirement "tenant.profile" "create" ScopePlatform);
  ("/api/v1/tenants/get", Build_Requirement "tenant.profile" "read" ScopePlatform);
  ("/api/v1/tenants/update", Build_Requirement "tenant.profile" "update" ScopePlatform);
  ("/api/v1/tenants/list", Build_Requirement "tenant.profile" "list" ScopePlatform);
  ("/api/v1/memberships/add", Build_Requirement "tenant.membership" "create" ScopePrincipal);
  ("/api/v1/memberships/update", Build_Requirement "tenant.membership" "update" ScopePrincipal);
  ("/api/v1/memberships/list", Build_Requirement "tenant.membership" "list" ScopePrincipal);
  ("/api/v1/memberships/batch-get", Build_Requirement "tenant.membership" "list" ScopePrincipal);
  ("/api/v1/memberships/directory/search", Build_Requirement "tenant.membership" "list" ScopePrincipal);
  ("/api/v1/organization-units/create", Build_Requirement "tenant.organization-unit" "create" ScopePrincipal);
  ("/api/v1/organization-units/get", Build_Requirement "tenant.organization-unit" "read" ScopePrincipal);
  ("/api/v1/organization-units/batch-get", Build_Requirement "tenant.organization-unit" "read" ScopePrincipal);
  ("/api/v1/organization-units/update", Build_Requirement "tenant.organization-unit" "update" ScopePrincipal);
  ("/api/v1/organization-units/list", Build_Requirement "tenant.organization-unit" "list" ScopePrincipal);
  ("/api/v1/organization-units/tree", Build_Requirement "tenant.organization-unit" "list" ScopePrincipal);
  ("/api/v1/invitations/create", Build_Requirement "tenant.invitation" "create" ScopePrincipal);
  ("/api/v1/invitations/get", Build_Requirement "tenant.invitation" "read" ScopePrincipal);
  ("/api/v1/invitations/revoke", Build_Requirement "tenant.invitation" "revoke" ScopePrincipal);
  ("/api/v1/invitations/list", Build_Requirement "tenant.invitation" "list" ScopePrincipal);
  ("/api/v1/groups/create", Build_Requirement "tenant.group" "create" ScopePrincipal);
  ("/api/v1/groups/update", Build_Requirement "tenant.group" "update" ScopePrincipal);
  ("/api/v1/groups/member-add", Build_Requirement "tenant.group" "add-member" ScopePrincipal);
  ("/api/v1/groups/member-remove", Build_Requirement "tenant.group" "remove-member" ScopePrincipal);
  ("/api/v1/groups/members/get", Build_Requirement "tenant.group" "read-member" ScopePrincipal);
  ("/api/v1/groups/members/list", Build_Requirement "tenant.group" "list-members" ScopePrincipal);
  ("/api/v1/groups/members/batch-get", Build_Requirement "tenant.group" "list-members" ScopePrincipal);
  ("/api/v1/groups/list", Build_Requirement "tenant.group" "list" ScopePrincipal);
  ("/api/v1/groups/search", Build_Requirement "tenant.group" "list" ScopePrincipal);
  ("/api/v1/quotas/get", Build_Requirement "tenant.quota" "read" ScopePrincipal);
  ("/api/v1/quotas/list", Build_Requirement "tenant.quota" "list" ScopePrincipal);
  ("/api/v1/quotas/set", Build_Requirement "tenant.quota" "update" ScopePrincipal);
  ("/api/v1/quotas/consume", Build_Requirement "tenant.quota" "consume" ScopePrincipal)].

Definition tenantHTTPRequirement (route : string) : option Requirement :=
  snd <$> List.find (λ '(path, _), path =?s route) requirements.

(** [platformauthz.Enforce] on the request's context, with its credential; [None] when the
    decision is to allow. *)
Definition AuthorizationHTTP (enabled : bool)
    (Enforce : Context → option string → Requirement → option goerr) (next : ChainOf T) : ChainOf T := λ c,
  match tenantHTTPRequirement (c_FullPath c) with
  | Some requirement =>
      if negb enabled then next c
      else match Enforce (c_ctx c) (c_credential c) requirement with
      | Some err =>
          if Is err ErrDecisionUnavailable
          then finish (Failed c (Unavailable "authorization decision is unavailable" (Some err)))
          else finish (Failed c (Forbidden "permission denied"))
      | None =>
          match Requirement_Scope requirement with
          | ScopePlatform => next (set_ctx (WithPlatformAdministration (c_ctx c)) c)
          | ScopePrincipal => next c
          end
      end
  | None => next c
  end.

(** ** Idempotent execution *)

Definition nul : string := String Ascii.zero "".

(** [idempotencyFingerprint]: reading the body leaves it to be read again. *)
Definition idempotencyFingerprint (c : Gin) : result string :=
  body <-! c_Body c else err => Err err;;
  Ok (sha256_hex (default "<nil>" (c_subject c) +:+ nul +:+ c_Method c +:+ nul +:+ c_FullPath c
                  +:+ nul +:+ body)).

(** The JSON value [c.JSON] prints, and what [json.Unmarshal] makes of one: the body is an
    [any]. *)
Definition response_json (r : HttpResponse) : json :=
  JObject ([("code", JInt (HttpResponse_Code r)); ("message", JString (HttpResponse_Message r));
            ("body", HttpResponse_Body r)]
           ++ if HttpResponse_RequestID r =?s "" then []
              else [("request_id", JString (HttpResponse_RequestID r))]).

Definition any_field (name : string) (o : list (string * json)) : json :=
  default JNull (generic <$> last (field name o)).

Definition unmarshal_Response (text : string) : result HttpResponse :=
  j <-! json_Unmarshal text else e => Err e;;
  o <-! members j else e => Err e;;
  code <-! int_field "code" o else e => Err e;;
  message <-! string_field "message" o else e => Err e;;
  request_id <-! string_field "request_id" o else e => Err e;;
  Ok (Build_HttpResponse code message (any_field "body" o) request_id).

Definition with_RequestID (r : HttpResponse) (id : string) : HttpResponse :=
  Build_HttpResponse (HttpResponse_Code r) (HttpResponse_Message r) (HttpResponse_Body r) id.

(** The bytes a handler has written. *)
Definition written (r : HttpReply) : string :=
  match reply_Response r with Some resp => json_Marshal (response_json resp) | None => "" end.

(** The end of [IdempotencyExecution], after the handler: the result is stored. A failure to
    store it is logged. *)
Definition persist (key owner : string) (r : HttpReply) : prog HttpReply :=
  match unmarshal_Response (written r) with
  | Err _ => Ret r
  | Ok response =>
      if (400 <=? reply_Status r)%Z then
        IdemFail key owner (Build_Failure (HttpResponse_Code response) (HttpResponse_Message response)
                              (reply_Status r)) (λ _, Ret r)
      else IdemComplete key owner (with_RequestID response "") (λ _, Ret r)
  end.

(** [manager] is nil without Redis; its flag is [Enabled()]. *)
Definition IdempotencyExecution (manager : option bool) (paths : list string) (next : ChainOf T)
  : ChainOf T := λ c,
  match ctx_idempotencyKey (c_ctx c) with
  | Some key =>
      if negb (default false manager) || (c_Method c <>?s "POST")
         || negb (MatchesAny path_Match (c_FullPath c) paths) then next c
      else
        match idempotencyFingerprint c with
        | Err err => finish (Failed c (Invalid "read idempotent request" (Some err)))
        | Ok fingerprint =>
            IdemBegin key fingerprint (λ r,
              match r with
              | Err err => finish (Failed c (Unavailable "idempotency is unavailable" (Some err)))
              | Ok decision =>
                  match Decision_State decision with
                  | StateCompleted =>
                      match unmarshal_Response (Decision_Response decision) with
                      | Err err =>
                          finish (Failed c (Unavailable "idempotency response is unavailable" (Some err)))
                      | Ok response =>
                          finish (Build_HttpReply 200 ∅ (Some (with_RequestID response (requestID c))))
                      end
                  | StateFailed =>
                      let failure := Decision_Failure decision in
                      finish (respond c (Failure_HTTPStatus failure) (Failure_Code failure)
                             (Failure_Message failure) JNull)
                  | StateProcessing => finish (Failed c RequestInProgress)
                  | StateConflict =>
                      finish (Failed c (Conflict "idempotency key belongs to a different request" None))
                  | StateAcquired => bind (next c) (after_reply (persist key (Decision_Owner decision)))
                  | StateOther => finish (Failed c (Unavailable "idempotency state is invalid" None))
                  end
              end)
        end
  | None => next c
  end.

End Middleware.
