(* ===== verification/LocalTokens.v ===== *)
(** * Tokens of the service itself

    [Issue] and [randomID] of [internal/auth/jwt.go], next to [Parse] and [Verify] of
    [Middleware]: the tokens isolated tests and local deployments use instead of those of the
    identity service. *)

From stdpp Require Import base gmap list strings.
From S2P Require Import Prelude GoErrors Model Store Effects Platform Authorization Invitations Tokens.
From S2P Require Import Json Http Middleware.

(** [jwt.RegisteredClaims], by the fields that are set. *)
Record Claims := Build_Claims {
  Claims_Issuer : string; Claims_Subject : string; Claims_ID : string;
  Claims_IssuedAt : Z; Claims_NotBefore : Z; Claims_ExpiresAt : Z }.

(** [jwt.NewNumericDate]: whole seconds. *)
Definition NewNumericDate (t : Z) : Z := (second * (t / second))%Z.

(** [jwt.NewWithClaims(method, claims).SignedString(secret)], and the time at which the
    library validates a token. *)
Class JwtSigning `{JwtLibrary} := {
  jwt_SignedString : string → Claims → string → result string;
  jwt_now : Z;
}.

(** As documented: a token signed with the key that the key function gives out for its method,
    by the issuer that is asked for, parses to its subject while it is valid. *)
Class JwtLaws `{JwtSigning} := {
  jwt_parse_signed key issuer method claims secret raw :
    jwt_SignedString method claims secret = Ok raw → key method = Ok secret → Claims_Issuer claims = issuer →
    (Claims_IssuedAt claims ≤ jwt_now)%Z → (Claims_NotBefore claims ≤ jwt_now)%Z →
    (jwt_now < Claims_ExpiresAt claims)%Z →
    jwt_ParseWithClaims key issuer raw = Ok (Claims_Subject claims, true);
}.

(** [randomID]: 16 random bytes. *)
Definition randomID : prog (result string) :=
  RandRead (λ r, match r with Err err => Ret (Err err) | Ok b => Ret (Ok (base64url_encode b)) end).

Section Issue.
Context `{JwtSigning}.

(** [ttl] is a field of [auth.Service]: the lifetime of the configuration. *)
Definition Issue (s : AuthService) (ttl : Z) (subject : string) : prog (result string) :=
  stop_if negb (auth_Enabled s) => Ret (Err (TextError "authentication is not configured"));;
  now <- now;;
  jti <-? randomID else err => Ret (Err (Wrapped "create token id" err));;
  let claims := Build_Claims (auth_issuer s) subject jti (NewNumericDate now) (NewNumericDate now)
                  (NewNumericDate (now + ttl)) in
  Ret (jwt_SignedString "HS256" claims (auth_secret s)).

Lemma NewNumericDate_le t : (NewNumericDate t ≤ t)%Z.
Proof. unfold NewNumericDate, second. pose proof (Z.mul_div_le t 1000000000). lia. Qed.

(** (C34) Tokens come back, in a service that has no verifier of external keys (one that has
    leaves [Verify] to it). A token that is issued is accepted by [Parse] and [Verify] of the
    same service as a service account of its subject, as long as the library validates it
    between the second it was issued in and the second its lifetime ends in; it is signed over
    16 random bytes that its identifier determines. Without a secret of 32 bytes and a client
    nothing is issued and nothing is accepted. *)
Theorem tokens_come_back `{!JwtLaws} s ttl subject env w :
  auth_verifier s = None →
  let '(r, w') := run env (Issue s ttl subject) w in
  w_db w' = w_db w ∧
  (auth_Enabled s = false → (∃ e, r = Err e) ∧ ∀ raw, (∃ e, Parse s raw = Err e) ∧ ∃ e, Verify s raw = Err e) ∧
  (∀ raw, r = Ok raw →
     let issued := env_now env (w_tick w) in
     (∃ b claims, env_rand env (S (w_tick w)) = Ok b ∧ base64url_decode (Claims_ID claims) = b ∧
        Claims_Subject claims = subject ∧ jwt_SignedString "HS256" claims (auth_secret s) = Ok raw) ∧
     ((issued ≤ jwt_now)%Z → (jwt_now < NewNumericDate (issued + ttl))%Z →
      Parse s raw = Ok subject ∧ Verify s raw = Ok (Build_Principal subject TypeServiceAccount "" ""))).
Proof.
  intros Hv. unfold Issue. destruct (auth_Enabled s) eqn:Hen; simpl.
  - destruct (env_rand env (S (w_tick w))) as [b|e]; simpl.
    2: { split_and!; [done|done|]. intros raw. done. }
    split_and!; [done|done|]. intros raw Hraw. split.
    + set (issued := env_now env (w_tick w)) in *.
      exists b, (Build_Claims (auth_issuer s) subject (base64url_encode b) (NewNumericDate issued)
                   (NewNumericDate issued) (NewNumericDate (issued + ttl))).
      split_and!; [done|apply decode_encode|done|exact Hraw].
    + intros Hfrom Hto.
      assert (Parse s raw = Ok subject) as Hp.
      { unfold Parse. rewrite Hen. simpl.
        rewrite (jwt_parse_signed _ _ _ _ _ _ Hraw); [done|done|done| | |done]; simpl;
          pose proof (NewNumericDate_le (env_now env (w_tick w))); lia. }
      split; [done|]. unfold Verify. by rewrite Hv, Hp.
  - split_and!; [done| |done]. intros _. split; [eauto|]. intros raw.
    unfold Verify. rewrite Hv. unfold Parse. rewrite Hen. simpl. eauto.
Qed.

End Issue.
