(* ===== verification/Health.v ===== *)
(** * Health

    [internal/health/service.go], the probes [Live] and [Ready] of
    [internal/transport/http/handler.go] and [healthServer] of
    [internal/transport/grpc/server.go]. *)

From stdpp Require Import base gmap list strings.
From S2P Require Import Floats Config.
From S2P Require Import Prelude GoErrors Model Store Effects Platform.
From S2P Require Import Json Http Middleware.

Record Dependency := Build_Dependency { Dependency_Status : string; Dependency_Latency : string }.
Record Status := Build_Status { Status_Status : string; Status_Dependencies : gmap string Dependency }.

(** What a check sends over the channel. *)
Record check_result := Build_check_result {
  check_name : string; check_dependency : Dependency; check_ready : bool }.

(** [health.Service]: the database and Redis, nil when they are disabled, by what a ping
    answers within a time; [database_first] is the order in which the two checks end. *)
Record HealthService := Build_HealthService {
  health_db : option (Z → option goerr);
  health_redis : option (Z → option goerr);
  health_cfg : Health;
  database_first : bool;
}.

(** [health.New]. *)
Definition health_New (db client : option (Z → option goerr)) (cfg : Config) (first : bool) : HealthService :=
  Build_HealthService db client (Config_Health cfg) first.

Section Health.
Context `{Platform, JsonText}.

Definition health_Live : Status := Build_Status "up" ∅.

Definition checkResult (name : string) (started : Z) (err : option goerr) : prog check_result :=
  Now (λ now,
    let latency := Duration_String (now - started) in
    match err with
    | Some _ => Ret (Build_check_result name (Build_Dependency "down" latency) false)
    | None => Ret (Build_check_result name (Build_Dependency "up" latency) true)
    end).

Definition checkDatabase (s : HealthService) : prog check_result :=
  match health_db s with
  | None => Ret (Build_check_result "database" (Build_Dependency "disabled" "") true)
  | Some ping => Now (λ started, checkResult "database" started (ping (Health_DatabaseTimeout (health_cfg s))))
  end.

Definition checkRedis (s : HealthService) : prog check_result :=
  match health_redis s with
  | None => Ret (Build_check_result "redis" (Build_Dependency "disabled" "") true)
  | Some ping => Now (λ started, checkResult "redis" started (ping (Health_RedisTimeout (health_cfg s))))
  end.

(** The loop over the results, in the order of their arrival. *)
Definition receive (acc : gmap string Dependency * bool) (item : check_result) : gmap string Dependency * bool :=
  (<[check_name item := check_dependency item]> (fst acc), snd acc && check_ready item).
Definition collect (items : list check_result) : Status * bool :=
  let '(dependencies, ready) := foldl receive (∅, true) items in
  (Build_Status (if negb ready then "not_ready" else "ready") dependencies, ready).

(** Both checks run at once; the channel has room for both results. *)
Definition health_Ready (s : HealthService) : prog (Status * bool) :=
  db <- checkDatabase s;;
  cache <- checkRedis s;;
  Ret (collect (if database_first s then [db; cache] else [cache; db])).

(** ** Over HTTP *)

Definition Dependency_json (d : Dependency) : json :=
  JObject (("status", JString (Dependency_Status d))
           :: if Dependency_Latency d =?s "" then [] else [("latency", JString (Dependency_Latency d))]).
(** The keys of a map are printed in order. *)
Definition dependencies_json (m : gmap string Dependency) : json :=
  JObject (prod_map id Dependency_json <$> sort_by (λ a b, negb (String.ltb b.1 a.1)) (map_to_list m)).
Definition Status_json (s : Status) : json :=
  JObject (("status", JString (Status_Status s))
           :: if decide (Status_Dependencies s = ∅) then []
              else [("dependencies", dependencies_json (Status_Dependencies s))]).

Definition Live : Chain := λ c, Ret (OK c (Status_json health_Live)).

Definition Ready (s : HealthService) : Chain := λ c,
  r <- health_Ready s;;
  let '(status, ready) := r in
  Ret (if negb ready
       then respond c 503 CodeDependencyUnavailable "service is not ready" (Status_json status)
       else OK c (Status_json status)).

(** ** Over gRPC *)

Inductive ServingStatus := HealthCheckResponse_NOT_SERVING | HealthCheckResponse_SERVING.

Definition health_Check (s : HealthService) : prog ServingStatus :=
  r <- health_Ready s;;
  Ret (if snd r : bool then HealthCheckResponse_SERVING else HealthCheckResponse_NOT_SERVING).

Definition health_List : gmap string ServingStatus := {[ "" := HealthCheckResponse_SERVING ]}.

(** ** Properties *)

(** What is said of a dependency, given a ping that was made or not. *)
Definition dependency_status (ping : option (option goerr)) : string :=
  match ping with None => "disabled" | Some None => "up" | Some (Some _) => "down" end.
Definition dependency_ready (ping : option (option goerr)) : bool :=
  match ping with Some (Some _) => false | _ => true end.
Definition database_ping (s : HealthService) : option (option goerr) :=
  (λ ping, ping (Health_DatabaseTimeout (health_cfg s))) <$> health_db s.
Definition redis_ping (s : HealthService) : option (option goerr) :=
  (λ ping, ping (Health_RedisTimeout (health_cfg s))) <$> health_redis s.
Definition all_ready (s : HealthService) : bool :=
  dependency_ready (database_ping s) && dependency_ready (redis_ping s).

(** A check is a read of the clock. *)
Definition check_meets (name : string) (ping : option (option goerr)) (r : check_result) : Prop :=
  check_name r = name ∧ Dependency_Status (check_dependency r) = dependency_status ping ∧
  check_ready r = dependency_ready ping.

Definition ready_meets (s : HealthService) (r : Status * bool) : Prop :=
  snd r = all_ready s ∧ Status_Status (fst r) = (if all_ready s then "ready" else "not_ready") ∧
  dom (Status_Dependencies (fst r)) = {["database"; "redis"]} ∧
  Dependency_Status <$> Status_Dependencies (fst r) !! "database" = Some (dependency_status (database_ping s)) ∧
  Dependency_Status <$> Status_Dependencies (fst r) !! "redis" = Some (dependency_status (redis_ping s)).

Lemma collect_order db cache :
  check_name db ≠ check_name cache → collect [db; cache] = collect [cache; db].
Proof.
  intros Hn. unfold collect. simpl. rewrite insert_insert_ne by done.
  by rewrite (andb_comm (check_ready db)).
Qed.

End Health.
