(* ===== verification/Router.v ===== *)
(** * The HTTP server

    The router [NewServer] of [internal/transport/http/server.go] builds: the global
    middleware, the group [/api/v1] with its middleware and routes, the probes, and the pages
    of libraries (metrics, profiles, documentation) behind what protects them. *)

From stdpp Require Import base gmap list strings.
From S2P Require Import Floats Config.
From S2P Require Import Prelude GoErrors Model Store Effects Platform Authorization Service Authn.
From S2P Require Import Json Http Middleware Health.

(** ** [internal/buildinfo] *)

Record BuildVars := Build_BuildVars {
  build_Version : string; build_Commit : string; build_BuildTime : string; build_startedAt : Z }.

Record Info := Build_Info {
  Info_Version : string; Info_Commit : string; Info_BuildTime : string; Info_StartedAt : Z;
  Info_Uptime : string }.

Section Router.
Context `{Platform, JsonText, FloatMachine, JwtLibrary}.
Context (path_Match : string → string → result bool).
Context (mime_ParseMediaType : string → result string).
Context (idempotency_Valid : string → bool).

Definition Current (vars : BuildVars) (now : Z) : Info :=
  Build_Info (build_Version vars) (build_Commit vars) (build_BuildTime vars) (build_startedAt vars)
    (Duration_String (Round_second (now - build_startedAt vars))).

Definition Info_json (b : Info) : json := JObject [
  ("version", JString (Info_Version b)); ("commit", JString (Info_Commit b));
  ("build_time", JString (Info_BuildTime b)); ("started_at", JString (json_Time (Info_StartedAt b)));
  ("uptime", JString (Info_Uptime b))].

Definition Version (vars : BuildVars) : Chain := λ c,
  Now (λ t, Ret (OK c (Info_json (Current vars t)))).

(** ** Routes *)

(** The routes of the group, all of method POST. *)
Definition routes (vars : BuildVars) (h : Handler) : list (string * Chain) := [
  ("/api/v1/version", Version vars);
  ("/api/v1/me", Me);
  ("/api/v1/tenants/create", Http.CreateTenant h);
  ("/api/v1/tenants/manage/create", Http.CreateManagedTenant h);
  ("/api/v1/tenants/select", Http.SelectTenant h);
  ("/api/v1/tenants/get", Http.GetTenant h);
  ("/api/v1/tenants/update", Http.UpdateTenant h);
  ("/api/v1/tenants/list", Http.ListTenants h);
  ("/api/v1/tenants/list-by-user", Http.ListUserTenants h);
  ("/api/v1/memberships/add", Http.AddMembership h);
  ("/api/v1/memberships/get", Http.GetMembership h);
  ("/api/v1/memberships/update", Http.UpdateMembership h);
  ("/api/v1/memberships/list", Http.ListMemberships h);
  ("/api/v1/memberships/batch-get", Http.BatchGetMemberships h);
  ("/api/v1/memberships/directory/search", Http.SearchMembershipDirectory h);
  ("/api/v1/organization-units/create", Http.CreateOrganizationUnit h);
  ("/api/v1/organization-units/get", Http.GetOrganizationUnit h);
  ("/api/v1/organization-units/batch-get", Http.BatchGetOrganizationUnits h);
  ("/api/v1/organization-units/update", Http.UpdateOrganizationUnit h);
  ("/api/v1/organization-units/list", Http.ListOrganizationUnits h);
  ("/api/v1/organization-units/tree", Http.TreeOrganizationUnits h);
  ("/api/v1/invitations/create", Http.CreateInvitation h);
  ("/api/v1/invitations/accept", Http.AcceptInvitation h);
  ("/api/v1/invitations/revoke", Http.RevokeInvitation h);
  ("/api/v1/invitations/get", Http.GetInvitation h);
  ("/api/v1/invitations/list", Http.ListInvitations h);
  ("/api/v1/groups/create", Http.CreateGroup h);
  ("/api/v1/groups/get", Http.GetGroup h);
  ("/api/v1/groups/update", Http.UpdateGroup h);
  ("/api/v1/groups/member-add", Http.AddGroupMember h);
  ("/api/v1/groups/member-remove", Http.RemoveGroupMember h);
  ("/api/v1/groups/members/get", Http.GetGroupMember h);
  ("/api/v1/groups/members/list", Http.ListGroupMembers h);
  ("/api/v1/groups/members/batch-get", Http.BatchGetGroupMembers h);
  ("/api/v1/groups/list", Http.ListGroups h);
  ("/api/v1/groups/search", Http.SearchGroups h);
  ("/api/v1/quotas/get", Http.GetQuota h);
  ("/api/v1/quotas/list", Http.ListQuotas h);
  ("/api/v1/quotas/set", Http.SetQuota h);
  ("/api/v1/quotas/consume", Http.ConsumeQuota h)].

Definition match_route (vars : BuildVars) (h : Handler) (c : Gin) : option Chain :=
  if c_Method c =?s "POST"
  then snd <$> List.find (λ '(path, _), path =?s c_FullPath c) (routes vars h) else None.

(** ** The server *)

(** The configuration and the services the router is built from; the authorizer by its
    decisions; the pages of libraries by their names and what they answer. *)
Record Server := Build_Server {
  server_cfg : Config;
  server_handler : Handler;
  server_build : BuildVars;
  server_limiter : Limiter;
  server_auth : AuthService;
  server_Enforce : Context → option string → Requirement → option goerr;
  server_health : HealthService;
  server_page : string → Gin → HttpReply;
}.
Definition server_authorization (s : Server) : bool :=
  Authorization_Enabled (Config_Authorization (server_cfg s)).
Definition server_auth_config (s : Server) : Auth := Config_Auth (server_cfg s).

(** *** Outside of the API *)

Definition pprofAuth (expected : string) (next : Chain) : Chain := λ c,
  let '(scheme, token, ok) := cut_space (c_Header c "Authorization") in
  if negb ok || negb (EqualFold scheme "Bearer") || negb (token =?s expected)
  then Ret (Build_HttpReply 401 ∅ None) else next c.

Definition page (s : Server) (name : string) : Chain := λ c, Ret (server_page s name c).

(** The profiles [registerPprof] serves, by method and path below the group. *)
Definition registerPprof : list (string * string) := [
  ("GET", "/"); ("GET", "/cmdline"); ("GET", "/profile"); ("POST", "/symbol"); ("GET", "/symbol");
  ("GET", "/trace"); ("GET", "/allocs"); ("GET", "/block"); ("GET", "/goroutine"); ("GET", "/heap");
  ("GET", "/mutex"); ("GET", "/threadcreate")].

(** The routes outside of the API, by method and path. *)
Definition operations (s : Server) : list (string * string * Chain) :=
  let observability := Config_Observability (server_cfg s) in
  let swagger := Config_Swagger (server_cfg s) in
  concat ((λ method, [(method, "/live", Live); (method, "/ready", Ready (server_health s))]) <$> ["GET"; "POST"])
  ++ (if Observability_MetricsEnabled observability then [("GET", "/metrics", page s "metrics")] else [])
  ++ (if Observability_PprofEnabled observability
      then (λ '(method, path), (method, "/debug/pprof" +:+ path,
                                pprofAuth (Observability_PprofToken observability) (page s ("pprof" +:+ path))))
           <$> registerPprof
      else [])
  ++ (if Swagger_Enabled swagger
      then [("GET", "/swagger/*any",
             if Swagger_RequireAuth swagger then JWT (server_auth s) (page s "swagger") else page s "swagger")]
      else []).

Definition match_operation (s : Server) (c : Gin) : option Chain :=
  snd <$> List.find (λ '(method, path, _), (method =?s c_Method c) && (path =?s c_FullPath c)) (operations s).

(** *** The API *)

(** The middleware of the group [/api/v1] around a handler. *)
Definition api {T} `{Answer T} (s : Server) (handler : ChainOf T) : ChainOf T :=
  RateLimit (server_limiter s) (RateLimit_IP (Config_RateLimit (server_cfg s))) "ip" c_ClientIP
  (RateLimit (server_limiter s) (RateLimit_API (Config_RateLimit (server_cfg s))) "api" c_FullPath
  (Authentication path_Match (server_auth s) (server_auth_config s)
  (AuthorizationHTTP (server_authorization s) (server_Enforce s)
  (RateLimit (server_limiter s) (RateLimit_User (Config_RateLimit (server_cfg s))) "user" (λ c, default "" (c_subject c))
  (IdempotencyExecution path_Match (idempotency (tenants (server_handler s)))
     (Idempotency_HTTPPaths (Config_Idempotency (server_cfg s))) handler))))).

(** The handler of the route, entered from the chain; without a route, what is [missing]. *)
Definition dispatch_with {T} `{Answer T} (enter : Chain → ChainOf T) (missing : T) (s : Server) : ChainOf T := λ c,
  match match_operation s c with
  | Some handler => enter handler c
  | None =>
      match match_route (server_build s) (server_handler s) c with
      | Some handler => api s (enter handler) c
      | None => Ret missing
      end
  end.

(** Without a route gin answers 404 with a page of its own. *)
Definition dispatch (s : Server) : Chain := dispatch_with (λ handler, handler) (Build_HttpReply 404 ∅ None) s.

(** The router; the request arrives with neither principal nor marker nor key. The rest of the
    global middleware is in [Edge]. *)
Definition ServeHTTP (s : Server) : Chain :=
  RequestID (IdempotencyKey idempotency_Valid (SecurityHeaders (CORS (HTTP_CORS (Config_HTTP (server_cfg s)))
    (RequireJSON mime_ParseMediaType (dispatch s))))).

End Router.
