(* ===== verification/HttpProofs.v ===== *)
(** * The HTTP server and the service

    What a request to the HTTP server can do to the database: nothing but what the service
    commits for the caller the middleware has authenticated. *)

From Stdlib Require Import Ascii.
From stdpp Require Import base gmap list strings.
From S2P Require Import Floats Config.
From S2P Require Import Prelude GoErrors Model Store Effects Platform Authorization Service Authn.
From S2P Require Import Tables Invariants Commits Requests Concurrency Returns Directory Clients.
From S2P Require Import Json HttpBodies HttpRequests Http Middleware Health Router.

Section Safety.
Context `{Platform, !AuditLaws, JsonText, FloatMachine, JwtLibrary}.
Context (path_Match : string → string → result bool).
Context (mime_ParseMediaType : string → result string).
Context (idempotency_Valid : string → bool).
Implicit Types (C : Context → Prop) (c : Gin).

(** ** Handlers *)

Lemma safe_ret {A} C (a : A) : safe C (Ret a).
Proof. by apply safe_readonly. Qed.

Lemma safe_ShouldBind {A} `{Binding A} C c (k : A → prog HttpReply) :
  (∀ request, safe C (k request)) → safe C (ShouldBind c k).
Proof. intros Hk. unfold ShouldBind. case_match; [apply Hk|apply safe_ret]. Qed.

Lemma safe_finish C (r : HttpReply) : safe C (finish r).
Proof. by apply safe_ret. Qed.

Lemma safe_answer {X} C c (m : prog (X * option goerr)) body : safe C m → safe C (answer c m body).
Proof. intros Hm. apply safe_bind; [done|]. intros a. apply safe_ret. Qed.

Lemma safe_acknowledged C c m body : safe C m → safe C (acknowledged c m body).
Proof. intros Hm. apply safe_bind; [done|]. intros a. apply safe_ret. Qed.

Lemma search_safe C s ctx identities tenantID keyword limit :
  C ctx →
  safe C (Search (Some (Tenants.FindMembershipsByUserIDs s ctx)) identities tenantID keyword limit).
Proof.
  intros HC. apply safe_readonly. unfold Search. destruct identities as [directory|]; [|done].
  case_match; [done|].
  assert (∀ ids status, readonly (Tenants.FindMembershipsByUserIDs s ctx tenantID ids status)) as Hf.
  { intros ids status.
    exact (readonly_bind_inv _ _ (serve_readonly s ctx (ReqFindMembershipsByUserIDs tenantID ids status) eq_refl)). }
  generalize 1%Z, (@nil Entry). induction maxCandidatePages as [|n IH]; intros page entries; simpl; [done|].
  case_match; [done|]. case_match; [|done]. apply readonly_bind; [done|].
  intros [ms [e|]]; simpl; [done|]. case_match; [done|apply IH].
Qed.

Ltac safe_handler HC :=
  repeat first
    [ apply safe_ret
    | apply safe_ShouldBind; intros ?
    | apply safe_answer
    | apply safe_acknowledged
    | safe_service; exact HC
    | apply safe_bind; [apply search_safe; exact HC|intros ?]
    | apply safe_bind; [safe_service; exact HC|intros ?]
    | progress cbv zeta
    | case_match ].

Lemma routes_safe C vars h c path handler :
  C (c_ctx c) → (path, handler) ∈ routes vars h → safe C (handler c).
Proof.
  intros HC Hin. unfold routes in Hin.
  repeat (apply elem_of_cons in Hin as [[= -> ->]|Hin]; [|try by apply elem_of_nil in Hin]).
  all: try (by apply safe_readonly).
  all: unfold CreateTenant, CreateManagedTenant, createTenant, SelectTenant, GetTenant, UpdateTenant,
    AddMembership, GetMembership, UpdateMembership.
  all: safe_handler HC.
Qed.

(** ** Middleware *)

Lemma safe_header C key value p : safe C p → safe C (header key value p).
Proof. intros Hp. apply safe_bind; [done|]. intros a. apply safe_ret. Qed.

Lemma safe_RateLimit C limiter rule dimension keyFunc next c :
  safe C (next c) → safe C (RateLimit limiter rule dimension keyFunc next c).
Proof.
  intros Hn. unfold RateLimit.
  repeat (case_match; try done); repeat apply safe_header; auto using safe_finish.
Qed.

Lemma safe_IdempotencyExecution C manager paths next c :
  safe C (next c) → safe C (IdempotencyExecution path_Match manager paths next c).
Proof.
  intros Hn. unfold IdempotencyExecution. do 3 (case_match; auto using safe_finish).
  match goal with |- safe C (IdemBegin ?a ?b ?k) => apply (safe_bind C (IdemBegin a b Ret) k) end;
    [by apply safe_readonly|].
  intros [d|e]; [|apply safe_ret]. destruct (Decision_State d); try apply safe_ret.
  - apply safe_bind; [done|]. intros r. apply safe_readonly. simpl. unfold persist. by repeat case_match.
  - by case_match.
Qed.

(** Who a request is taken for. *)
Inductive authenticated_as (srv : Server) c : result Principal → Prop :=
| as_psk scheme :
    PSK_Enabled (Auth_PSK (server_auth_config srv)) = true →
    MatchesAny path_Match (c_FullPath c) (PSK_HTTPPaths (Auth_PSK (server_auth_config srv))) = true →
    c_Header c "Authorization" = scheme +:+ String " "%char (PSK_Key (Auth_PSK (server_auth_config srv))) →
    EqualFold scheme "PSK" = true →
    authenticated_as srv c (Ok (Build_Principal "psk" TypeServiceAccount "" ""))
| as_exempt :
    MatchesAny path_Match (c_FullPath c) (Auth_SkipHTTPPaths (server_auth_config srv)) = true →
    authenticated_as srv c (ctx_principal (c_ctx c))
| as_bearer scheme token p :
    c_Header c "Authorization" = scheme +:+ String " "%char token →
    EqualFold scheme "Bearer" = true → Verify (server_auth srv) token = Ok p →
    authenticated_as srv c (Ok p).

(** The contexts a request may reach the service with: the caller is the authenticated
    one, and the platform marker is set on the routes of platform scope only, after the
    authorizer has allowed the call. *)
Record http_caller (srv : Server) c (ctx : Context) : Prop := {
  caller_principal : authenticated_as srv c (ctx_principal ctx);
  caller_platform : ctx_platformAdministration ctx = true →
    ctx_platformAdministration (c_ctx c) = true ∨
    server_authorization srv = true ∧
    ∃ requirement ctx0 credential,
      tenantHTTPRequirement (c_FullPath c) = Some requirement ∧
      Requirement_Scope requirement = ScopePlatform ∧
      ctx_principal ctx0 = ctx_principal ctx ∧
      server_Enforce srv ctx0 credential requirement = None;
}.

Lemma safe_Authentication C srv next c :
  (∀ c', c_FullPath c' = c_FullPath c → authenticated_as srv c (ctx_principal (c_ctx c')) →
    ctx_platformAdministration (c_ctx c') = ctx_platformAdministration (c_ctx c) →
    c_Method c' = c_Method c → safe C (next c')) →
  safe C (Authentication path_Match (server_auth srv) (server_auth_config srv) next c).
Proof.
  intros Hn. unfold Authentication. case_match eqn:Hpsk.
  - reflect_bools. unfold VerifyPSK. destruct (cut_space _) as [[scheme supplied] ok] eqn:Hc.
    case_match eqn:Hv; [apply safe_ret|]. case_match eqn:Hg; [done|]. reflect_bools. subst.
    apply cut_space_spec in Hc as [Ha _]. apply Hn; [done| |done|done]. by eapply as_psk.
  - case_match eqn:Hskip; [by apply Hn; [|apply as_exempt|..]|].
    unfold JWT. destruct (cut_space _) as [[scheme token] ok] eqn:Hc.
    case_match eqn:Hg; [apply safe_ret|]. case_match eqn:Hp; [|apply safe_ret]. reflect_bools. subst.
    apply cut_space_spec in Hc as [Ha _]. apply Hn; [done| |done|done]. by eapply as_bearer.
Qed.

Lemma safe_Authorization C srv next c :
  (∀ c', c_FullPath c' = c_FullPath c → c_Method c' = c_Method c →
    ctx_principal (c_ctx c') = ctx_principal (c_ctx c) →
    (ctx_platformAdministration (c_ctx c') = true →
     ctx_platformAdministration (c_ctx c) = true ∨
     server_authorization srv = true ∧ ∃ requirement,
       tenantHTTPRequirement (c_FullPath c) = Some requirement ∧
       Requirement_Scope requirement = ScopePlatform ∧
       server_Enforce srv (c_ctx c) (c_credential c) requirement = None) → safe C (next c')) →
  safe C (AuthorizationHTTP (server_authorization srv) (server_Enforce srv) next c).
Proof.
  intros Hn. unfold AuthorizationHTTP.
  destruct (tenantHTTPRequirement _) as [req|] eqn:Hreq; [|by apply Hn; auto].
  destruct (server_authorization srv) eqn:Hen; [|by apply Hn; auto]. simpl.
  destruct (server_Enforce _ _ _ _) as [e|] eqn:Henf; [case_match; apply safe_ret|].
  destruct (Requirement_Scope req) eqn:Hsc; apply Hn; auto. intros _. right. eauto.
Qed.

(** *** Outside of the API *)

Lemma match_operation_inv srv c handler :
  match_operation srv c = Some handler → (c_Method c, c_FullPath c, handler) ∈ operations srv.
Proof.
  intros ([[method path] h] & Hf & ->)%fmap_Some. apply List.find_some in Hf as [Hin%list_elem_of_In Hm].
  simpl. reflect_bools. by subst.
Qed.

(** What is there, with every page enabled. *)
Lemma operations_inv srv method path handler :
  (method, path, handler) ∈ operations srv →
  handler = Live ∧ path = "/live" ∨
  handler = Ready (server_health srv) ∧ path = "/ready" ∨
  handler = page srv "metrics" ∧ path = "/metrics" ∨
  (∃ name, handler = pprofAuth (Observability_PprofToken (Config_Observability (server_cfg srv))) (page srv name) ∧
     (method, path) ∈ ((λ '(m, p), (m, "/debug/pprof" +:+ p)) <$> registerPprof) ∧
     Observability_PprofEnabled (Config_Observability (server_cfg srv)) = true) ∨
  (handler = (if Swagger_RequireAuth (Config_Swagger (server_cfg srv)) then JWT (server_auth srv) (page srv "swagger")
              else page srv "swagger") ∧ path = "/swagger/*any" ∧
     Swagger_Enabled (Config_Swagger (server_cfg srv)) = true).
Proof.
  clear path_Match mime_ParseMediaType idempotency_Valid.
  unfold operations. intros Hin. rewrite !elem_of_app in Hin. destruct Hin as [Hin|[Hin|[Hin|Hin]]].
  - simpl in Hin. rewrite !elem_of_cons, elem_of_nil in Hin. naive_solver.
  - case_match; [|by apply elem_of_nil in Hin]. apply list_elem_of_singleton in Hin as [= -> -> ->]. tauto.
  - case_match; [|by apply elem_of_nil in Hin].
    apply list_elem_of_fmap in Hin as ([m p] & [= -> -> ->] & Hin).
    do 3 right. left. eexists. split_and!; [done| |done]. apply list_elem_of_fmap. by exists (m, p).
  - case_match; [|by apply elem_of_nil in Hin]. apply list_elem_of_singleton in Hin as [= -> -> ->]. tauto.
Qed.

(** No route outside of the API has a requirement: the tables are disjoint. *)
Lemma operations_open srv method path handler :
  (method, path, handler) ∈ operations srv → tenantHTTPRequirement path = None.
Proof.
  intros [[_ ->]|[[_ ->]|[[_ ->]|[(name & _ & Hp & _)|(_ & -> & _)]]]]%operations_inv; try done.
  unfold registerPprof in Hp. simpl in Hp.
  repeat (apply elem_of_cons in Hp as [[= -> ->]|Hp]; [done|]). by apply elem_of_nil in Hp.
Qed.

Lemma health_Ready_readonly s : readonly (health_Ready s).
Proof.
  unfold health_Ready, checkDatabase, checkRedis.
  repeat (apply readonly_bind; [|intros ?]); repeat case_match; simpl;
    try done; intros ? ?; by case_match.
Qed.

Lemma operations_readonly srv method path handler c :
  (method, path, handler) ∈ operations srv → readonly (handler c).
Proof.
  intros [[-> _]|[[-> _]|[[-> _]|[(name & -> & _)|(-> & _)]]]]%operations_inv.
  - done.
  - apply readonly_bind; [apply health_Ready_readonly|]. intros [status ready]. by destruct ready.
  - done.
  - unfold pprofAuth. by repeat case_match.
  - unfold JWT. by repeat case_match.
Qed.

Lemma safe_dispatch srv c : safe (http_caller srv c) (dispatch path_Match srv c).
Proof.
  unfold dispatch, dispatch_with. destruct (match_operation srv c) as [operation|] eqn:Hop.
  { apply match_operation_inv in Hop. by eapply safe_readonly, operations_readonly. }
  unfold match_route. case_match eqn:Hm; [|apply safe_ret].
  case_match eqn:Hpost; [|done].
  apply fmap_Some in Hm as ([path handler] & Hf & ->). apply List.find_some in Hf as [Hin%list_elem_of_In Hpath]. reflect_bools. subst path.
  unfold api. do 2 apply safe_RateLimit. apply safe_Authentication. intros c1 Hpath1 Hauth1 Hplat1 Hmeth1.
  apply safe_Authorization. intros c2 Hpath2 Hmeth2 Hp2 Hplat2.
  apply safe_RateLimit, safe_IdempotencyExecution. eapply routes_safe; [|exact Hin].
  split; [by rewrite Hp2|]. intros Ht. destruct (Hplat2 Ht) as [?|(? & req & ? & ? & ?)].
  - left. congruence.
  - right. split; [done|]. exists req, (c_ctx c1), (c_credential c1). rewrite <- Hpath1, Hp2. auto.
Qed.

(** The global middleware leave the caller alone. *)
Lemma http_caller_same srv c c' :
  c_FullPath c' = c_FullPath c → c_Header c' = c_Header c → ctx_principal (c_ctx c') = ctx_principal (c_ctx c) →
  ctx_platformAdministration (c_ctx c') = ctx_platformAdministration (c_ctx c) →
  ∀ ctx, http_caller srv c' ctx → http_caller srv c ctx.
Proof.
  intros Hpath Hh Hp Hf ctx [Ha Hplat]. split.
  - inversion Ha as [? ? ? ?|?|? ? ? ?]; subst; rewrite ?Hpath, ?Hh, ?Hp in *.
    + by eapply as_psk.
    + by apply as_exempt.
    + by eapply as_bearer.
  - rewrite Hpath, Hf in Hplat. done.
Qed.

Lemma safe_ServeHTTP srv c :
  safe (http_caller srv c) (ServeHTTP path_Match mime_ParseMediaType idempotency_Valid srv c).
Proof.
  unfold ServeHTTP.
  assert (∀ c', (∀ ctx, http_caller srv c' ctx → http_caller srv c ctx) →
    safe (http_caller srv c) (SecurityHeaders (CORS (HTTP_CORS (Config_HTTP (server_cfg srv)))
      (RequireJSON mime_ParseMediaType (dispatch path_Match srv))) c')) as Hrest.
  { intros c' Hc. assert (safe (http_caller srv c) (dispatch path_Match srv c')) as Hd
      by (eapply safe_weaken; [exact Hc|apply safe_dispatch]).
    unfold SecurityHeaders, CORS, RequireJSON.
    repeat (apply safe_header || case_match || done || apply safe_ret). }
  assert (∀ c', c_FullPath c' = c_FullPath c → c_Header c' = c_Header c → c_ctx c' = c_ctx c →
    safe (http_caller srv c) (IdempotencyKey idempotency_Valid (SecurityHeaders (CORS (HTTP_CORS (Config_HTTP (server_cfg srv)))
      (RequireJSON mime_ParseMediaType (dispatch path_Match srv)))) c')) as Hkey.
  { intros c' Hpath Hh Hctx. unfold IdempotencyKey.
    case_match; [|case_match; [apply safe_ret|apply safe_header]]; apply Hrest;
      apply http_caller_same; by rewrite ?Hctx. }
  unfold RequestID. case_match; [|by apply safe_header, Hkey].
  apply safe_bind; [|intros id; by apply safe_header, Hkey].
  apply safe_readonly. intros [?|?]; [done|]. simpl. done.
Qed.

(** ** Default deny *)

(** Nothing is written, and the answer is not a success. *)
Definition denied (p : prog HttpReply) : Prop :=
  readonly p ∧ returns (λ r, reply_Status r ≠ 200%Z) p.

Lemma denied_header key value p : denied p → denied (header key value p).
Proof.
  intros [Hr Hs]. split; [by apply readonly_bind|]. apply returns_bind.
  eapply returns_mono; [|exact Hs]. done.
Qed.

Lemma denied_ret r : reply_Status r ≠ 200%Z → denied (Ret r).
Proof. by split. Qed.

Lemma denied_finish r : reply_Status r ≠ 200%Z → denied (finish r).
Proof. apply denied_ret. Qed.

Lemma denied_bind {A} (m : prog A) f : readonly m → (∀ a, denied (f a)) → denied (bind m f).
Proof.
  intros Hm Hf. split; [apply readonly_bind; [done|]; apply Hf|].
  apply returns_bind, returns_any. intros a. apply Hf.
Qed.

Hint Resolve denied_ret denied_finish denied_header : core.

Lemma denied_RateLimit limiter rule dimension keyFunc next c :
  denied (next c) → denied (RateLimit limiter rule dimension keyFunc next c).
Proof.
  intros Hn. unfold RateLimit. repeat (case_match; try done); repeat apply denied_header;
    try done; by apply denied_ret.
Qed.

Lemma denied_Authentication auth cfg next c :
  (∀ c', c_FullPath c' = c_FullPath c → denied (next c')) →
  denied (Authentication path_Match auth cfg next c).
Proof.
  intros Hn. unfold Authentication, JWT. repeat (case_match; try by apply denied_ret); by apply Hn.
Qed.

Lemma denied_ServeHTTP srv c requirement :
  server_authorization srv = true → tenantHTTPRequirement (c_FullPath c) = Some requirement →
  (∀ ctx credential, server_Enforce srv ctx credential requirement ≠ None) →
  denied (ServeHTTP path_Match mime_ParseMediaType idempotency_Valid srv c).
Proof.
  intros Hen Hreq Hdeny.
  assert (∀ c', c_FullPath c' = c_FullPath c → denied (dispatch path_Match srv c')) as Hd.
  { intros c' Hpath. unfold dispatch, dispatch_with. destruct (match_operation srv c') as [operation|] eqn:Hop.
    { apply match_operation_inv, operations_open in Hop. by rewrite Hpath, Hreq in Hop. }
    case_match; [|by apply denied_ret].
    unfold api. do 2 apply denied_RateLimit. apply denied_Authentication. intros c1 Hpath1.
    unfold AuthorizationHTTP. rewrite Hpath1, Hpath, Hreq, Hen. simpl.
    destruct (server_Enforce _ _ _ _) as [e|] eqn:He; [|by apply Hdeny in He].
    case_match; by apply denied_ret. }
  assert (∀ c', c_FullPath c' = c_FullPath c → denied (SecurityHeaders (CORS (HTTP_CORS (Config_HTTP (server_cfg srv)))
      (RequireJSON mime_ParseMediaType (dispatch path_Match srv))) c')) as Hrest.
  { intros c' Hpath. unfold SecurityHeaders, CORS, RequireJSON.
    repeat (apply denied_header || case_match); first [by apply Hd|by apply denied_ret]. }
  assert (∀ c', c_FullPath c' = c_FullPath c → denied (IdempotencyKey idempotency_Valid (SecurityHeaders
    (CORS (HTTP_CORS (Config_HTTP (server_cfg srv))) (RequireJSON mime_ParseMediaType (dispatch path_Match srv)))) c')) as Hkey.
  { intros c' Hpath. unfold IdempotencyKey.
    case_match; [by apply Hrest|]. case_match; [by apply denied_ret|]. by apply denied_header, Hrest. }
  unfold ServeHTTP, RequestID. case_match; [|by apply denied_header, Hkey].
  apply denied_bind; [by intros [?|?]|]. intros id. by apply denied_header, Hkey.
Qed.

(** ** Theorems *)

(** (C29) Default deny: of the 40 routes of the API exactly six have no requirement
    (version, me, and a user's own business: creating and selecting a tenant, listing own
    tenants, accepting an invitation) and exactly four ask for platform scope; on every
    other route, with authorization enabled, a request the authorizer does not allow gets no
    success and leaves the database as it is. *)
Theorem http_default_deny vars h :
  length (routes vars h) = 40%nat ∧ NoDup (map fst (routes vars h)) ∧
  List.filter (λ path, match tenantHTTPRequirement path with None => true | Some _ => false end)
    (map fst (routes vars h))
  = ["/api/v1/version"; "/api/v1/me"; "/api/v1/tenants/create"; "/api/v1/tenants/select";
     "/api/v1/tenants/list-by-user"; "/api/v1/invitations/accept"] ∧
  List.filter (λ path, match tenantHTTPRequirement path with
                       | Some r => match Requirement_Scope r with ScopePlatform => true | _ => false end
                       | None => false end) (map fst (routes vars h))
  = ["/api/v1/tenants/manage/create"; "/api/v1/tenants/get"; "/api/v1/tenants/update";
     "/api/v1/tenants/list"] ∧
  ∀ srv c requirement env w,
    server_authorization srv = true → tenantHTTPRequirement (c_FullPath c) = Some requirement →
    (∀ ctx credential, server_Enforce srv ctx credential requirement ≠ None) →
    let '(r, w') := run env (ServeHTTP path_Match mime_ParseMediaType idempotency_Valid srv c) w in
    reply_Status r ≠ 200%Z ∧ w_db w' = w_db w.
Proof.
  split_and!; [done|by apply (bool_decide_unpack _); vm_compute|by vm_compute..|].
  intros srv c requirement env w Hen Hreq Hdeny.
  destruct (denied_ServeHTTP srv c requirement Hen Hreq Hdeny) as [Hr Hs].
  pose proof (readonly_run env _ w Hr) as Hdb. pose proof (returns_run env _ _ w Hs) as Hst.
  by destruct (run env _ w) as [r w'].
Qed.

End Safety.
