(* ===== verification/Operations.v ===== *)
(** * Probes and pages

    The routes outside of the API: readiness over both transports, and what keeps the profiles
    and the documentation from strangers. *)

From Stdlib Require Import Ascii.
From stdpp Require Import base gmap sets list strings.
From S2P Require Import Floats Config ConfigProofs.
From S2P Require Import Prelude GoErrors Model Store Effects Platform Authorization Service Authn.
From S2P Require Import Directory Clients Json Http Middleware Health Router HttpProofs.

Section Readiness.
Context `{Platform, JsonText}.

Definition with_order (s : HealthService) (first : bool) : HealthService :=
  Build_HealthService (health_db s) (health_redis s) (health_cfg s) first.

(** Each check sends what its ping answers, and nothing is written. *)
Lemma check_run env w (name : string) (ping : option (Z → option goerr)) timeout :
  let p := match ping with
           | None => Ret (Build_check_result name (Build_Dependency "disabled" "") true)
           | Some ping => Now (λ started, checkResult name started (ping timeout))
           end in
  ∃ r n, run env p w = (r, Build_World n (w_db w) (w_locks w)) ∧
    check_meets name ((λ ping, ping timeout) <$> ping) r.
Proof.
  destruct ping as [ping|]; simpl.
  - destruct (ping timeout); simpl; do 2 eexists; (split; [reflexivity|]); by split_and!.
  - exists (Build_check_result name (Build_Dependency "disabled" "") true), (w_tick w). by destruct w.
Qed.

Lemma collect_meets s db cache :
  check_meets "database" (database_ping s) db → check_meets "redis" (redis_ping s) cache →
  ready_meets s (collect [db; cache]).
Proof.
  intros (Hn1 & Hs1 & Hr1) (Hn2 & Hs2 & Hr2). unfold collect, ready_meets. simpl.
  rewrite Hn1, Hn2, Hr1, Hr2. fold (all_ready s).
  rewrite lookup_insert_ne, lookup_insert_eq, lookup_insert_eq, !dom_insert_L by done. simpl.
  rewrite Hs1, Hs2. split_and!; [done|by destruct (all_ready s)|set_solver|done|done].
Qed.

(** (C35) Readiness is exact, and HTTP's probe and gRPC's [Check] agree on it. Whatever order the checks end in, the
    status says of the database and of Redis, and of nothing else, whether each is up, down or
    disabled; the service is ready exactly when no ping that was made has failed; HTTP
    answers 200 or 503 and [Check] serving or not accordingly; and a probe writes nothing. gRPC's
    [List] is not among them: it makes no check and always says serving, so it agrees with
    [Check] exactly when the service is ready. *)
Theorem readiness_agrees s c env w :
  let '((status, ready), w1) := run env (health_Ready s) w in
  w_db w1 = w_db w ∧ w_locks w1 = w_locks w ∧ ready_meets s (status, ready) ∧
  (∀ first, run env (health_Ready (with_order s first)) w = run env (health_Ready s) w) ∧
  run env (Ready s c) w
    = (if all_ready s then OK c (Status_json status)
       else respond c 503 CodeDependencyUnavailable "service is not ready" (Status_json status), w1) ∧
  run env (health_Check s) w
    = (if all_ready s then HealthCheckResponse_SERVING else HealthCheckResponse_NOT_SERVING, w1) ∧
  (∀ name, health_List !! name = if name =?s "" then Some HealthCheckResponse_SERVING else None) ∧
  (health_List !! "" = Some (fst (run env (health_Check s) w)) ↔ all_ready s = true).
Proof.
  destruct (check_run env w "database" (health_db s) (Health_DatabaseTimeout (health_cfg s))) as (db & n1 & Hdb & Hmdb).
  destruct (check_run env (Build_World n1 (w_db w) (w_locks w)) "redis" (health_redis s)
              (Health_RedisTimeout (health_cfg s))) as (cache & n2 & Hredis & Hmredis).
  fold (checkDatabase s) in Hdb. fold (checkRedis s) in Hredis. simpl in Hredis.
  assert (∀ first, run env (health_Ready (with_order s first)) w
            = (collect [db; cache], Build_World n2 (w_db w) (w_locks w))) as Hall.
  { intros first. unfold health_Ready. rewrite run_bind. change (checkDatabase (with_order s first)) with (checkDatabase s).
    rewrite Hdb, run_bind. change (checkRedis (with_order s first)) with (checkRedis s). rewrite Hredis. simpl.
    destruct first; [done|]. rewrite collect_order; [done|].
    destruct Hmdb as [-> _], Hmredis as [-> _]. done. }
  pose proof (Hall (database_first s)) as Hs.
  change (health_Ready (with_order s (database_first s))) with (health_Ready s) in Hs.
  rewrite Hs. pose proof (collect_meets s db cache Hmdb Hmredis) as Hm.
  destruct (collect [db; cache]) as [status ready]. destruct Hm as [Hready Hm]. simpl in Hready. subst ready.
  assert (run env (health_Check s) w
    = (if all_ready s then HealthCheckResponse_SERVING else HealthCheckResponse_NOT_SERVING,
       Build_World n2 (w_db w) (w_locks w))) as Hcheck.
  { unfold health_Check. rewrite run_bind, Hs. simpl. by destruct (all_ready s). }
  split_and!; [done|done|by split|by apply Hall| |done| |].
  - unfold Ready. rewrite run_bind, Hs. simpl. by destruct (all_ready s).
  - intros name. unfold health_List. destruct (String.eqb_spec name "") as [->|Hne]; [done|].
    by apply lookup_singleton_ne.
  - rewrite Hcheck. by destruct (all_ready s).
Qed.

End Readiness.

Section Pages.
Context `{Platform, !AuditLaws, JsonText, FloatMachine, JwtLibrary}.
Context (path_Match : string → string → result bool).
Context (mime_ParseMediaType : string → result string).
Context (idempotency_Valid : string → bool).
Implicit Types (c : Gin) (srv : Server).

(** The same server with other pages. *)
Definition with_pages (srv : Server) (page : string → Gin → HttpReply) : Server :=
  Build_Server (server_cfg srv) (server_handler srv) (server_build srv) (server_limiter srv)
    (server_auth srv) (server_Enforce srv) (server_health srv) page.

(** The same routes, whatever is on the pages. *)
Lemma operations_keys srv pages :
  (fst <$> operations (with_pages srv pages)) = (fst <$> operations srv).
Proof.
  unfold operations. simpl server_cfg.
  by destruct (Observability_MetricsEnabled _), (Observability_PprofEnabled _), (Swagger_Enabled _).
Qed.

Lemma find_keys {K A B} (p : K → bool) (l : list (K * A)) (l' : list (K * B)) :
  (fst <$> l) = (fst <$> l') →
  match List.find (λ x, p (fst x)) l, List.find (λ x, p (fst x)) l' with
  | Some x, Some x' => fst x = fst x'
  | None, None => True
  | _, _ => False
  end.
Proof.
  revert l'. induction l as [|[k a] l IH]; intros [|[k' b] l'] Hl; simplify_eq/=; [done|].
  destruct (p k'); [done|]. by apply IH.
Qed.

Lemma match_operation_pages srv pages c :
  match match_operation (with_pages srv pages) c, match_operation srv c with
  | Some h', Some h =>
      (c_Method c, c_FullPath c, h') ∈ operations (with_pages srv pages) ∧
      (c_Method c, c_FullPath c, h) ∈ operations srv
  | None, None => True
  | _, _ => False
  end.
Proof.
  assert (∀ s, match_operation s c
            = snd <$> List.find (λ x, (fst (fst x) =?s c_Method c) && (snd (fst x) =?s c_FullPath c)) (operations s)) as Hm.
  { intros s. unfold match_operation. f_equal. induction (operations s) as [|[[m p] h] l IH]; [done|].
    simpl. case_match; [done|apply IH]. }
  pose proof (find_keys (λ k, (fst k =?s c_Method c) && (snd k =?s c_FullPath c)) _ _ (operations_keys srv pages)) as Hf.
  destruct (match_operation (with_pages srv pages) c) as [h'|] eqn:Hh',
    (match_operation srv c) as [h|] eqn:Hh.
  - split; by apply match_operation_inv.
  - rewrite Hm in Hh, Hh'. destruct (List.find _ (operations srv)), (List.find _ (operations (with_pages srv pages))); done.
  - rewrite Hm in Hh, Hh'. destruct (List.find _ (operations srv)), (List.find _ (operations (with_pages srv pages))); done.
  - done.
Qed.

(** The caller shows the token of the profiles. *)
Definition profiler srv c : Prop :=
  ∃ scheme, c_Header c "Authorization"
            = scheme +:+ String " "%char (Observability_PprofToken (Config_Observability (server_cfg srv))) ∧
    EqualFold scheme "Bearer" = true.
(** The caller shows a token that verifies. *)
Definition verified srv c : Prop :=
  ∃ scheme token p, c_Header c "Authorization" = scheme +:+ String " "%char token ∧
    EqualFold scheme "Bearer" = true ∧ Verify (server_auth srv) token = Ok p.

Lemma pprofAuth_denied srv c next :
  ¬ profiler srv c →
  pprofAuth (Observability_PprofToken (Config_Observability (server_cfg srv))) next c = Ret (Build_HttpReply 401 ∅ None).
Proof.
  intros Hn. unfold pprofAuth. destruct (cut_space _) as [[scheme token] ok] eqn:Hc.
  case_match eqn:Hg; [done|]. reflect_bools. subst. apply cut_space_spec in Hc as [Hh _].
  destruct Hn. by exists scheme.
Qed.

Lemma JWT_denied srv c next :
  ¬ verified srv c → ∃ r, ∀ next', JWT (server_auth srv) next' c = Ret r ∧ JWT (server_auth srv) next c = Ret r.
Proof.
  intros Hn. unfold JWT. destruct (cut_space _) as [[scheme token] ok] eqn:Hc.
  case_match eqn:Hg; [eauto|]. destruct (Verify _ token) as [p|] eqn:Hp; [|eauto]. reflect_bools. subst.
  apply cut_space_spec in Hc as [Hh _]. destruct Hn. by exists scheme, token, p.
Qed.

(** The rest of the chain sees the pages only through [dispatch]. *)
Lemma ServeHTTP_pages srv pages c env w :
  (∀ c', c_Header c' = c_Header c → c_FullPath c' = c_FullPath c → c_Method c' = c_Method c →
     dispatch path_Match (with_pages srv pages) c' = dispatch path_Match srv c') →
  run env (ServeHTTP path_Match mime_ParseMediaType idempotency_Valid (with_pages srv pages) c) w
  = run env (ServeHTTP path_Match mime_ParseMediaType idempotency_Valid srv c) w.
Proof.
  intros Hd.
  assert (∀ id, IdempotencyKey idempotency_Valid (SecurityHeaders (CORS (HTTP_CORS (Config_HTTP (server_cfg srv)))
            (RequireJSON mime_ParseMediaType (dispatch path_Match (with_pages srv pages))))) (set_request_id id c)
          = IdempotencyKey idempotency_Valid (SecurityHeaders (CORS (HTTP_CORS (Config_HTTP (server_cfg srv)))
            (RequireJSON mime_ParseMediaType (dispatch path_Match srv)))) (set_request_id id c)) as Hk.
  { intros id. unfold IdempotencyKey, SecurityHeaders, CORS, RequireJSON. cbv zeta. by rewrite !Hd. }
  unfold ServeHTTP, RequestID. cbv zeta. simpl server_cfg.
  case_match; [rewrite !run_bind; destruct (run env Generate w) as [id w1]|]; by rewrite Hk.
Qed.

Lemma dispatch_profile srv pages c :
  (c_Method c, c_FullPath c) ∈ ((λ '(m, p), (m, "/debug/pprof" +:+ p)) <$> registerPprof) →
  (Observability_PprofEnabled (Config_Observability (server_cfg srv)) = true → ¬ profiler srv c) →
  dispatch path_Match (with_pages srv pages) c = dispatch path_Match srv c.
Proof.
  intros Hpath Hn. unfold dispatch, dispatch_with. pose proof (match_operation_pages srv pages c) as Hm.
  destruct (match_operation (with_pages srv pages) c) as [h'|], (match_operation srv c) as [h|]; try done.
  destruct Hm as [Hin' Hin].
  assert (∀ s h, (c_Method c, c_FullPath c, h) ∈ operations s →
    (∃ name, h = pprofAuth (Observability_PprofToken (Config_Observability (server_cfg s))) (page s name)) ∧
    Observability_PprofEnabled (Config_Observability (server_cfg s)) = true) as Hshape.
  { clear Hin Hin'. intros s h0 Hin. apply operations_inv in Hin as [[_ Hp]|[[_ Hp]|[[_ Hp]|[(name & -> & _ & ?)|(_ & Hp & _)]]]].
    4: { eauto. }
    all: rewrite Hp in Hpath; unfold registerPprof in Hpath; simpl in Hpath;
      repeat (apply elem_of_cons in Hpath as [[=]|Hpath]); by apply elem_of_nil in Hpath. }
  destruct (Hshape _ _ Hin') as [[name' ->] _], (Hshape _ _ Hin) as [[name ->] Hen].
  simpl server_cfg. by rewrite !pprofAuth_denied by auto.
Qed.

Lemma dispatch_swagger srv pages c :
  c_FullPath c = "/swagger/*any" →
  (Swagger_Enabled (Config_Swagger (server_cfg srv)) = true →
   Swagger_RequireAuth (Config_Swagger (server_cfg srv)) = true ∧ ¬ verified srv c) →
  dispatch path_Match (with_pages srv pages) c = dispatch path_Match srv c.
Proof.
  intros Hpath Hn. unfold dispatch, dispatch_with. pose proof (match_operation_pages srv pages c) as Hm.
  destruct (match_operation (with_pages srv pages) c) as [h'|], (match_operation srv c) as [h|]; try done.
  destruct Hm as [Hin' Hin].
  assert (∀ s h, (c_Method c, c_FullPath c, h) ∈ operations s →
    h = (if Swagger_RequireAuth (Config_Swagger (server_cfg s)) then JWT (server_auth s) (page s "swagger")
         else page s "swagger") ∧ Swagger_Enabled (Config_Swagger (server_cfg s)) = true) as Hshape.
  { clear Hin Hin'. rewrite Hpath. intros s h0 Hin.
    apply operations_inv in Hin as [[_ Hp]|[[_ Hp]|[[_ Hp]|[(name & _ & Hp & _)|(-> & _ & ?)]]]]; try done.
    unfold registerPprof in Hp. simpl in Hp. repeat (apply elem_of_cons in Hp as [[=]|Hp]). by apply elem_of_nil in Hp. }
  destruct (Hshape _ _ Hin') as [-> _], (Hshape _ _ Hin) as [-> Hen]. destruct (Hn Hen) as [Hreq Hv].
  change (server_cfg (with_pages srv pages)) with (server_cfg srv). rewrite Hreq.
  change (JWT (server_auth srv) (page (with_pages srv pages) "swagger") c = JWT (server_auth srv) (page srv "swagger") c).
  destruct (JWT_denied srv c (page srv "swagger") Hv) as [r Hr]. destruct (Hr (page (with_pages srv pages) "swagger")) as [-> ->].
  done.
Qed.

Lemma readonly_header key value p : readonly p → readonly (header key value p).
Proof. intros Hp. by apply readonly_bind. Qed.

Lemma readonly_ServeHTTP srv c :
  match_operation srv c ≠ None →
  readonly (ServeHTTP path_Match mime_ParseMediaType idempotency_Valid srv c).
Proof.
  intros Hop.
  assert (∀ c', c_FullPath c' = c_FullPath c → c_Method c' = c_Method c → readonly (dispatch path_Match srv c')) as Hd.
  { intros c' Hp Hm. unfold dispatch, dispatch_with.
    assert (match_operation srv c' = match_operation srv c) as -> by (unfold match_operation; by rewrite Hp, Hm).
    destruct (match_operation srv c) as [h|] eqn:Hh; [|done].
    apply match_operation_inv in Hh. by eapply operations_readonly. }
  unfold ServeHTTP, RequestID. cbv zeta.
  assert (∀ id, readonly (IdempotencyKey idempotency_Valid (SecurityHeaders (CORS (HTTP_CORS (Config_HTTP (server_cfg srv)))
            (RequireJSON mime_ParseMediaType (dispatch path_Match srv)))) (set_request_id id c))) as Hk.
  { intros id. unfold IdempotencyKey, SecurityHeaders, CORS, RequireJSON.
    repeat (apply readonly_header || case_match || done); by apply Hd. }
  case_match; [|by apply readonly_header].
  apply readonly_bind; [by intros [?|?]|]. intros id. by apply readonly_header.
Qed.

(** (C32) What is outside of the API is guarded. On a route outside of the API a request
    changes nothing in the database. With a valid configuration the token of the profiles has
    at least 32 bytes, and nothing of a profile is shown unless profiling is enabled and the
    caller shows this token: the answer does not depend on what is on the pages. In production
    the same holds of the documentation unless the caller's token verifies. *)
Theorem operations_guarded srv c pages env w :
  valid_config path_Match (server_cfg srv) →
  let serve s := run env (ServeHTTP path_Match mime_ParseMediaType idempotency_Valid s c) w in
  let observability := Config_Observability (server_cfg srv) in
  (match_operation srv c ≠ None → w_db (snd (serve srv)) = w_db w) ∧
  (Observability_PprofEnabled observability = true → 32 ≤ String.length (Observability_PprofToken observability)) ∧
  ((c_Method c, c_FullPath c) ∈ ((λ '(m, p), (m, "/debug/pprof" +:+ p)) <$> registerPprof) →
   (Observability_PprofEnabled observability = true → ¬ profiler srv c) →
   serve (with_pages srv pages) = serve srv) ∧
  (c_FullPath c = "/swagger/*any" → App_Env (Config_App (server_cfg srv)) = "production" →
   (Swagger_Enabled (Config_Swagger (server_cfg srv)) = true → ¬ verified srv c) →
   serve (with_pages srv pages) = serve srv).
Proof.
  intros Hv. simpl. split_and!.
  - intros Hop. by apply readonly_run, readonly_ServeHTTP.
  - apply (servers_pprof _ (config_servers _ _ Hv)).
  - intros Hpath Hn. apply ServeHTTP_pages. intros c' Hh Hp Hm. apply dispatch_profile; [by rewrite Hm, Hp|].
    unfold profiler in *. by rewrite Hh.
  - intros Hpath Hprod Hn. apply ServeHTTP_pages. intros c' Hh Hp Hm. apply dispatch_swagger; [by rewrite Hp|].
    intros Hen. split; [by apply (production_swagger _ (config_production _ _ Hv Hprod))|].
    unfold verified in *. rewrite Hh. auto.
Qed.

End Pages.
