(* ===== verification/Metrics.v ===== *)
(** * Metrics

    [internal/observability/metrics.go] and the places that count: [HTTPMetrics] of
    [transport/http/middleware.go], the metrics interceptors of [transport/grpc/server.go] and
    [grpcclient/client.go], [Do] of [outbound/http.go] and the scheduled job. A counter is a
    number per series, a histogram by how often it was observed; the durations are left out.
    Registering a name twice and giving a family the wrong number of labels panic. A value that
    is not UTF-8 would too, but the server's names and routes are ASCII, and so is the method of
    a request that [net/http] accepts. *)

From stdpp Require Import base gmap sets list strings pretty.
From S2P Require Import Floats Config.
From S2P Require Import Prelude GoErrors Model Store Effects Platform Authorization Service.
From S2P Require Import Json Http Middleware Health Router HttpProofs.

(** ** The registry *)

(** A series: the name of its family and the values of its labels. *)
Definition series : Type := string * list string.

(** The families of [NewMetrics], with their labels. *)
Definition families : list (string * list string) := [
  ("http_requests_total", ["method"; "route"; "status"]);
  ("http_request_duration_seconds", ["method"; "route"]);
  ("cron_runs_total", ["job"; "status"]);
  ("cron_run_duration_seconds", ["job"]);
  ("grpc_server_requests_total", ["method"; "code"]);
  ("grpc_server_duration_seconds", ["method"]);
  ("outbound_requests_total", ["protocol"; "client"; "status"]);
  ("outbound_request_duration_seconds", ["protocol"; "client"])].

(** The gauges of [registerRedisMetrics]. *)
Definition redis_gauges : list string := [
  "redis_pool_hits_total"; "redis_pool_misses_total"; "redis_pool_timeouts_total";
  "redis_pool_connections"; "redis_pool_idle_connections"].

Record Metrics := Build_Metrics { metrics_enabled : bool; metrics_names : list string; metrics_counts : gmap series nat }.

(** [MustRegister] of one name; [None] is a panic. *)
Definition MustRegister (name : string) (m : Metrics) : option Metrics :=
  if bool_decide (name ∈ metrics_names m) then None
  else Some (Build_Metrics (metrics_enabled m) (name :: metrics_names m) (metrics_counts m)).
Fixpoint register_all (names : list string) (m : Metrics) : option Metrics :=
  match names with [] => Some m | name :: names' => m ← MustRegister name m; register_all names' m end.

(** [NewMetrics]; the collectors of the runtime and of the database have names of their own. *)
Definition NewMetrics (cfg : Config) (client : bool) : option Metrics :=
  let m := Build_Metrics (Observability_MetricsEnabled (Config_Observability cfg)) [] ∅ in
  m ← register_all (fst <$> families) m;
  if client then register_all redis_gauges m else Some m.

(** [WithLabelValues(values...)] with [Inc] or [Observe]. *)
Definition count (name : string) (values : list string) (m : Metrics) : option Metrics :=
  match List.find (λ f, fst f =?s name) families with
  | None => None
  | Some (_, labels) =>
      if (length values =? length labels)%nat
      then Some (Build_Metrics (metrics_enabled m) (metrics_names m)
                   (<[(name, values) := S (default 0 (metrics_counts m !! (name, values)))]> (metrics_counts m)))
      else None
  end.

(** ** The places that count *)

(** [HTTPMetrics] after the rest of the chain. *)
Definition HTTPMetrics (c : Gin) (status : Z) (m : Metrics) : option Metrics :=
  if negb (metrics_enabled m) then Some m
  else
    let route := if c_FullPath c =?s "" then "unmatched" else c_FullPath c in
    m ← count "http_requests_total" [c_Method c; route; pretty status] m;
    count "http_request_duration_seconds" [c_Method c; route] m.

(** [metricsInterceptor] and [metricsStreamInterceptor] of the server; [code] is the name of
    the status code. *)
Definition grpc_server_metrics (method code : string) (m : Metrics) : option Metrics :=
  if metrics_enabled m then
    m ← count "grpc_server_requests_total" [method; code] m;
    count "grpc_server_duration_seconds" [method] m
  else Some m.

(** [Do] of the HTTP client: no response is an error. A client without metrics is one with
    metrics that are not enabled. *)
Definition outbound_http_metrics (name : string) (response : option Z) (m : Metrics) : option Metrics :=
  if metrics_enabled m then
    m ← count "outbound_requests_total"
          ["http"; name; match response with Some status => pretty status | None => "error" end] m;
    count "outbound_request_duration_seconds" ["http"; name] m
  else Some m.

(** [metricsInterceptor] of the gRPC client. *)
Definition outbound_grpc_metrics (name code : string) (m : Metrics) : option Metrics :=
  if metrics_enabled m then
    m ← count "outbound_requests_total" ["grpc"; name; code] m;
    count "outbound_request_duration_seconds" ["grpc"; name] m
  else Some m.

Definition ObserveCron (job status : string) (m : Metrics) : option Metrics :=
  if negb (metrics_enabled m) then Some m
  else
    m ← count "cron_runs_total" [job; status] m;
    count "cron_run_duration_seconds" [job] m.

(** Something that is counted. *)
Inductive observation :=
| HttpDone (c : Gin) (status : Z)
| GrpcDone (method code : string)
| HttpCalled (name : string) (response : option Z)
| GrpcCalled (name code : string)
| CronDone (job status : string).

Definition observe (o : observation) : Metrics → option Metrics :=
  match o with
  | HttpDone c status => HTTPMetrics c status
  | GrpcDone method code => grpc_server_metrics method code
  | HttpCalled name response => outbound_http_metrics name response
  | GrpcCalled name code => outbound_grpc_metrics name code
  | CronDone job status => ObserveCron job status
  end.
Fixpoint observe_all (l : list observation) (m : Metrics) : option Metrics :=
  match l with [] => Some m | o :: l' => m ← observe o m; observe_all l' m end.

(** ** Properties *)

(** The series an observation counts. *)
Definition counted (o : observation) : list series :=
  match o with
  | HttpDone c status =>
      let route := if c_FullPath c =?s "" then "unmatched" else c_FullPath c in
      [("http_requests_total", [c_Method c; route; pretty status]);
       ("http_request_duration_seconds", [c_Method c; route])]
  | GrpcDone method code =>
      [("grpc_server_requests_total", [method; code]); ("grpc_server_duration_seconds", [method])]
  | HttpCalled name response =>
      [("outbound_requests_total", ["http"; name; match response with Some status => pretty status | None => "error" end]);
       ("outbound_request_duration_seconds", ["http"; name])]
  | GrpcCalled name code =>
      [("outbound_requests_total", ["grpc"; name; code]); ("outbound_request_duration_seconds", ["grpc"; name])]
  | CronDone job status => [("cron_runs_total", [job; status]); ("cron_run_duration_seconds", [job])]
  end.

Definition bump (m : Metrics) (x : series) : Metrics :=
  Build_Metrics (metrics_enabled m) (metrics_names m)
    (<[x := S (default 0 (metrics_counts m !! x))]> (metrics_counts m)).

Lemma count_ok name values labels m :
  List.find (λ f, fst f =?s name) families = Some (name, labels) → length values = length labels →
  count name values m = Some (bump m (name, values)).
Proof. intros Hf Hl. unfold count. by rewrite Hf, Hl, Nat.eqb_refl. Qed.

Lemma observe_ok o m :
  observe o m = Some (if metrics_enabled m then foldl bump m (counted o) else m).
Proof. destruct m as [[] names counts], o; done. Qed.

Lemma bump_enabled m x : metrics_enabled (bump m x) = metrics_enabled m.
Proof. done. Qed.
Lemma foldl_bump_enabled l m : metrics_enabled (foldl bump m l) = metrics_enabled m.
Proof. revert m. induction l as [|x l IH]; intros m; [done|]. simpl. by rewrite IH. Qed.

Lemma observe_all_ok l m :
  observe_all l m = Some (if metrics_enabled m then foldl bump m (l ≫= counted) else m).
Proof.
  revert m. induction l as [|o l IH]; intros m; simpl; [by destruct (metrics_enabled m)|].
  rewrite observe_ok. simpl. rewrite IH. destruct (metrics_enabled m) eqn:He; [|by rewrite He].
  by rewrite foldl_bump_enabled, He, foldl_app.
Qed.

(** How often a series is in a list. *)
Definition occurrences (x : series) (l : list series) : nat := length (filter (λ y, y = x) l).

Lemma bumps_lookup l m x :
  default 0 (metrics_counts (foldl bump m l) !! x) = default 0 (metrics_counts m !! x) + occurrences x l.
Proof.
  revert m. induction l as [|y l IH]; intros m; simpl; [by rewrite Nat.add_0_r|].
  rewrite IH. unfold occurrences. rewrite filter_cons. simpl. destruct (decide (y = x)) as [->|Hne].
  - rewrite lookup_insert_eq. simpl. lia.
  - by rewrite lookup_insert_ne.
Qed.

Lemma bumps_dom l m : dom (metrics_counts (foldl bump m l)) = dom (metrics_counts m) ∪ list_to_set l.
Proof.
  revert m. induction l as [|x l IH]; intros m; simpl; [set_solver|]. rewrite IH. simpl.
  rewrite dom_insert_L. set_solver.
Qed.

(** Registration never panics, and every place that counts gives its family as many labels as
    it has; when metrics are enabled a series has grown by as many as were counted for it, and
    nothing changes otherwise. *)
Theorem metrics_count cfg client l :
  ∃ m m', NewMetrics cfg client = Some m ∧ observe_all l m = Some m' ∧
    ∀ x, default 0 (metrics_counts m' !! x)
         = if Observability_MetricsEnabled (Config_Observability cfg) then occurrences x (l ≫= counted) else 0.
Proof.
  assert (∃ names, NewMetrics cfg client
          = Some (Build_Metrics (Observability_MetricsEnabled (Config_Observability cfg)) names ∅)) as [names Hm]
    by (destruct client; eexists; by vm_compute).
  eexists _, _. split; [exact Hm|]. split; [apply observe_all_ok|]. intros x. simpl.
  destruct (Observability_MetricsEnabled _); [|done]. by rewrite bumps_lookup.
Qed.
