(* ===== verification/Transports.v ===== *)
(** * The two transports

    The HTTP and the gRPC handlers are two faces of one service: on the same input they make
    the same calls and leave the same database, and one succeeds iff the other does. And
    what the HTTP side does by itself: tenant selection. *)

From Stdlib Require Import Ascii.
From stdpp Require Import base gmap list strings.
From S2P Require Import Prelude GoErrors Model Store Effects Platform Authorization Service.
From S2P Require Import Tables Invariants Requests Concurrency Returns Directory Grpc GrpcProofs.
From S2P Require Import Reads Json HttpBodies HttpRequests Http.

Section Transports.
Context `{Platform, ProtoEnums, JsonText}.

(** ** Agreement *)

(** Both answers carry one value, each in its own form, or both the same error. *)
Definition same_answer {X A} (c : Gin) (body : X → json) (f : X → A) (r : HttpReply) (g : rpc A) : Prop :=
  (∃ x, r = OK c (body x) ∧ g = Reply (f x)) ∨
  (∃ e, r = Failed c e ∧ (g = Fail (grpcError e) ∨ g = Fail (RawError e))).

(** From every world, in every environment, the two programs end in the same world with the
    same answer. *)
Definition agree {X A} (c : Gin) (body : X → json) (f : X → A) (p : prog HttpReply) (q : prog (rpc A))
  : Prop :=
  ∀ env w, let '(r, w1) := run env p w in let '(g, w2) := run env q w in
           w1 = w2 ∧ same_answer c body f r g.

Lemma agree_answer {X A} c (m : prog (X * option goerr)) body err (f : X → A) :
  (err = grpcError ∨ err = RawError) → agree c body f (Http.answer c m body) (Grpc.answer err f m).
Proof.
  intros Herr env w. unfold Http.answer, Grpc.answer. rewrite !run_bind.
  destruct (run env m w) as [[x [e|]] w']; simpl; (split; [done|]).
  - right. exists e. split; [done|]. destruct Herr as [->| ->]; auto.
  - left. eauto.
Qed.

Lemma agree_acknowledged c m body :
  agree c (λ _ : unit, body) (λ _, true) (acknowledged c m body) (acknowledge m).
Proof.
  intros env w. unfold acknowledged, acknowledge. rewrite !run_bind.
  destruct (run env m w) as [[e|] w']; simpl; (split; [done|]); [right; eauto|left; by exists tt].
Qed.

(** The two forms of the values. *)
Definition tenant_json (v : Tenant) : json := TenantBody_json (tenantBody v).
Definition membership_json (v : Membership) : json := MembershipBody_json (membershipBody v).
Definition unit_json (v : OrganizationUnit) : json := OrganizationUnitBody_json (organizationUnitBody v).
Definition invitation_json (v : Invitation) : json := InvitationBody_json (invitationBody v).
Definition group_json (v : Group) : json := GroupBody_json (groupBody v).
Definition quota_json (v : Quota) : json := QuotaBody_json (quotaBody v).

(** A body that binds to a request. *)
Definition binds {A} `{Binding A} (c : Gin) (request : A) : Prop := ShouldBindJSON (c_Body c) = Ok request.

Lemma agree_bound {R X A} `{Binding R} c (request : R) (body : X → json) f k (q : prog (rpc A)) :
  binds c request → agree c body f (k request) q → agree c body f (ShouldBind c k) q.
Proof. unfold binds, ShouldBind. by intros -> ?. Qed.

(** A body that does not bind is refused before any call. *)
Lemma unbound_refused {X} `{Binding X} c err (k : X → prog HttpReply) env w :
  ShouldBindJSON (c_Body c) = Err err →
  run env (ShouldBind c k) w = (Failed c (Invalid "invalid json request" (Some err)), w).
Proof. unfold ShouldBind. by intros ->. Qed.

Lemma seconds_int64 z : in_int64 z → seconds z = wrap64 (z * second).
Proof. intros Hz. unfold seconds. by rewrite (wrap64_id z). Qed.

Ltac agrees := first
  [ by apply agree_acknowledged
  | apply agree_answer; by auto ].

(** (C17) Eighteen operations answer alike over both transports. For the same caller and the same
    fields, the HTTP handler and the gRPC handler end in the same world -- database, locks,
    clock -- in every environment, and both succeed, with the same rows in their own form, or both
    report the same error. The operations, with what the fields must meet: CreateTenant,
    GetTenant, UpdateTenant (a valid tenant status), AddMembership, UpdateMembership (a valid
    membership status), ListMemberships (a valid membership status; without one HTTP lists all
    and gRPC refuses), CreateOrganizationUnit, UpdateOrganizationUnit, CreateInvitation (an
    expiry within int64), AcceptInvitation (a caller that is known, accepting for itself),
    RevokeInvitation, GetInvitation, CreateGroup, UpdateGroup, AddGroupMember,
    RemoveGroupMember, SetQuota and ConsumeQuota. It says nothing of the other operations, nor
    of statuses that are not valid. *)
Theorem transports_agree `{!EnumLaws} h c (s := tenants h) (ctx := c_ctx c) :
  (∀ code name owner, binds c (Build_CreateTenantRequest code name owner) →
     agree c (λ '(t, m), CreateTenantResponseBody_json (Build_CreateTenantResponseBody (tenantBody t) (membershipBody m)))
       (λ '(t, m), (toProtoTenant t, toProtoMembership m))
       (Http.CreateTenant h c) (grpc_CreateTenant s ctx code name owner)) ∧
  (∀ id, binds c (Build_GetTenantRequest id) →
     agree c tenant_json toProtoTenant
       (Http.GetTenant h c) (grpc_GetTenant s ctx id)) ∧
  (∀ id name st v reason, binds c (Build_UpdateTenantRequest id name st v reason) →
     validTenantStatus st = true →
     agree c tenant_json toProtoTenant
       (Http.UpdateTenant h c) (grpc_UpdateTenant s ctx id name (tenantStatusProto st) v)) ∧
  (∀ t u o, binds c (Build_AddMembershipRequest t u o) →
     agree c membership_json toProtoMembership (Http.AddMembership h c) (grpc_AddMembership s ctx t u o)) ∧
  (∀ m st o v reason, binds c (Build_UpdateMembershipRequest m st o v reason) →
     validMembershipStatus st = true →
     agree c membership_json toProtoMembership
       (Http.UpdateMembership h c) (grpc_UpdateMembership s ctx m (membershipStatusProto st) o v)) ∧
  (∀ t u st p n, binds c (Build_ListMembershipsRequest t u st p n) → validMembershipStatus st = true →
     agree c (λ p, MembershipPageBody_json (membershipPageBody p))
       (λ p, (map toProtoMembership (MembershipPage_Memberships p), PageResult (MembershipPage_Total p) (MembershipPage_Page p) (MembershipPage_PageSize p)))
       (Http.ListMemberships h c) (grpc_ListMemberships s ctx (Some (p, n)) t u (membershipStatusProto st))) ∧
  (∀ t p code name, binds c (Build_CreateOrganizationUnitRequest t p code name) →
     agree c unit_json toProtoOrganizationUnit
       (Http.CreateOrganizationUnit h c) (grpc_CreateOrganizationUnit s ctx t p code name)) ∧
  (∀ u p name st v, binds c (Build_UpdateOrganizationUnitRequest u p name st v) →
     agree c unit_json toProtoOrganizationUnit
       (Http.UpdateOrganizationUnit h c) (grpc_UpdateOrganizationUnit s ctx u p name st v)) ∧
  (∀ t email e, binds c (Build_CreateInvitationRequest t email e) → in_int64 e →
     agree c (λ '(i, token), CreateInvitationResponseBody_json (Build_CreateInvitationResponseBody (invitationBody i) token))
       (λ '(i, token), (toProtoInvitation i, token))
       (Http.CreateInvitation h c) (grpc_CreateInvitation s ctx t email e)) ∧
  (∀ token p, binds c (Build_AcceptInvitationRequest token) → ctx_principal ctx = Ok p →
     agree c (λ '(i, m), AcceptInvitationResponseBody_json (Build_AcceptInvitationResponseBody (invitationBody i) (membershipBody m)))
       (λ '(i, m), (toProtoInvitation i, toProtoMembership m))
       (Http.AcceptInvitation h c) (grpc_AcceptInvitation s ctx token (Principal_ID p))) ∧
  (∀ i v, binds c (Build_RevokeInvitationRequest i v) →
     agree c invitation_json toProtoInvitation
       (Http.RevokeInvitation h c) (grpc_RevokeInvitation s ctx i v)) ∧
  (∀ i, binds c (Build_GetInvitationRequest i) →
     agree c invitation_json toProtoInvitation (Http.GetInvitation h c) (grpc_GetInvitation s ctx i)) ∧
  (∀ t code name, binds c (Build_CreateGroupRequest t code name) →
     agree c group_json toProtoGroup (Http.CreateGroup h c) (grpc_CreateGroup s ctx t code name)) ∧
  (∀ g name st v, binds c (Build_UpdateGroupRequest g name st v) →
     agree c group_json toProtoGroup (Http.UpdateGroup h c) (grpc_UpdateGroup s ctx g name st v)) ∧
  (∀ g m, binds c (Build_GroupMemberRequest g m) →
     agree c (λ _ : unit, AddGroupMemberResponseBody_json (Build_AddGroupMemberResponseBody true))
       (λ _, true)
       (Http.AddGroupMember h c) (grpc_AddGroupMember s ctx g m)) ∧
  (∀ g m v, binds c (Build_RemoveGroupMemberRequest g m v) →
     agree c (λ _ : unit, RemoveGroupMemberResponseBody_json (Build_RemoveGroupMemberResponseBody true))
       (λ _, true)
       (Http.RemoveGroupMember h c) (grpc_RemoveGroupMember s ctx g m v)) ∧
  (∀ t key l v, binds c (Build_SetQuotaRequest t key l v) →
     agree c quota_json toProtoQuota (Http.SetQuota h c) (grpc_SetQuota s ctx t key l v)) ∧
  (∀ t key a, binds c (Build_ConsumeQuotaRequest t key a) →
     agree c (λ '(q, allowed), ConsumeQuotaResponseBody_json (Build_ConsumeQuotaResponseBody (quotaBody q) allowed))
       (λ '(q, allowed), (toProtoQuota q, allowed))
       (Http.ConsumeQuota h c) (grpc_ConsumeQuota s ctx t key a)).
Proof.
  split_and!; intros; (eapply agree_bound; [eassumption|]); simpl; subst s ctx.
  all: unfold grpc_UpdateTenant, grpc_UpdateMembership, grpc_ListMemberships, grpc_CreateInvitation.
  all: rewrite ?tenant_status_roundtrip, ?membership_status_roundtrip by done.
  all: rewrite ?seconds_int64 by done.
  all: try agrees.
  match goal with Hp : ctx_principal _ = _ |- _ => rewrite Hp end. agrees.
Qed.

(** ** Tenant selection *)

(** Selecting a tenant: without storage faults, a token of a tenant is handed out only
    to a user with an interactive session who has an active membership of this tenant, which
    exists -- and then it is the identity service's token for exactly this user, tenant,
    membership and session; nothing is written. (The tenant's own status is not looked at.) *)
Theorem tenant_selection_sound h c env w :
  (∀ n, env_fault env n = None) → inv (w_db w) →
  let '(r, w') := run env (Http.SelectTenant h c) w in
  w_db w' = w_db w ∧
  (reply_Status r = 200%Z →
   ∃ tenantID p m t token expiresAt,
     binds c (Build_SelectTenantRequest tenantID) ∧
     ctx_principal (c_ctx c) = Ok p ∧ Principal_Type p = TypeUser ∧ Principal_SessionID p ≠ "" ∧
     memberships (w_db w) !! Membership_ID m = Some m ∧ Membership_UserID m = Principal_ID p ∧
     Membership_TenantID m = tenantID ∧ Membership_Status m = "active" ∧
     Store.tenants (w_db w) !! tenantID = Some t ∧
     issuer h (Principal_ID p) tenantID (Membership_ID m) (Principal_SessionID p) = Ok (token, expiresAt) ∧
     r = OK c (SelectTenantResponseBody_json
                 (Build_SelectTenantResponseBody token "Bearer" expiresAt tenantID (Membership_ID m)))).
Proof.
  intros Hf Hd. unfold Http.SelectTenant, ShouldBind, binds.
  destruct (ShouldBindJSON (c_Body c)) as [[tenantID]|err] eqn:Hb; [|done]. simpl.
  destruct (ctx_principal (c_ctx c)) as [p|e] eqn:Hp; [|done].
  destruct (negb _ || _ || _) eqn:Hg; [done|]. reflect_bools.
  unfold Tenants.ValidateMembership, Repository.ValidateMembership, Repository.GetTenant.
  simpl. rewrite Hf.
  destruct (Repository.active_membership _ _ _) as [m|] eqn:Hm; simpl; [|done].
  rewrite Hf. apply active_membership_row in Hm as ([k Hk] & Hu & Ht & Hs).
  assert (Membership_ID m = k) as Hid by (by destruct (inv_memberships _ Hd) as [Hwf _]; apply Hwf in Hk as []).
  destruct (Store.tenants (w_db w) !! tenantID) as [t|] eqn:Hten; simpl; [|done].
  destruct (Membership_ID m =?s "") eqn:Hne; [done|].
  destruct (issuer h _ _ _ _) as [[token exp]|e'] eqn:Hi; simpl; [|done].
  split; [done|]. intros _. exists tenantID, p, m, t, token, exp. subst k. by split_and!.
Qed.

End Transports.
