(* ===== verification/Replay.v ===== *)
(** * Replayed responses

    The round trip of an HTTP response through the idempotency store: printed by the
    handler, captured, decoded, stored, and sent again for the same key. *)

From stdpp Require Import base gmap list strings.
From S2P Require Import Prelude GoErrors Model Store Effects Platform Authorization Service Authn.
From S2P Require Import Json Http Middleware.

(** ** What a program stores *)

(** A result that is given to the idempotency store. *)
Inductive settlement :=
| Completed {V : Type} (key owner : string) (value : V)
| Refused (key owner : string) (value : Failure).

(** The results a run gives to the store, in order; the store may fail to take them. *)
Fixpoint settled {A} (env : Env) (p : prog A) (w : World) : list settlement :=
  let n := w_tick w in
  match p with
  | Ret _ => []
  | Now k => settled env (k (env_now env n)) (tick w)
  | NewUUID k => settled env (k (env_uuid env n)) (tick w)
  | RandRead k => settled env (k (env_rand env n)) (tick w)
  | Query q k => settled env (k (match env_fault env n with Some e => Err e | None => q (w_db w) end)) (tick w)
  | Transact v x0 b k =>
      let '(r, n', d') := Within env v x0 b n (w_db w) in settled env (k r) (set_db n' d' w)
  | MutexLock name k =>
      let r := lock_call env n name (w_locks w) in settled env (k (fst r)) (set_locks (snd r) w)
  | MutexUnlock name value k =>
      let r := unlock_call env n name value (w_locks w) in settled env (k (fst r)) (set_locks (snd r) w)
  | IdemBegin _ _ k => settled env (k (env_begin env n)) (tick w)
  | IdemComplete key owner value k => Completed key owner value :: settled env (k (env_fault env n)) (tick w)
  | IdemFail key owner value k => Refused key owner value :: settled env (k (env_fault env n)) (tick w)
  end.

Lemma settled_bind {A B} env (m : prog A) (f : A → prog B) w :
  settled env (bind m f) w = settled env m w ++ let '(a, w') := run env m w in settled env (f a) w'.
Proof.
  revert w. induction m as [a|k IH|k IH|k IH|X q k IH|X v x0 b k IH|n k IH|n u k IH|x y k IH
    |V x y z k IH|x y z k IH]; intros w; simpl; auto.
  - destruct (Within _ _ _ _ _ _) as [[r n'] d']. auto.
  - by rewrite IH.
  - by rewrite IH.
Qed.

Section Replay.
Context `{Platform, JsonText}.
Context (path_Match : string → string → result bool).

(** The text of a response is read back as the value it was printed from. *)
Definition codec_ok (r : HttpResponse) : Prop :=
  json_Unmarshal (json_Marshal (response_json r)) = Ok (response_json r).

(** What the store keeps of a response: the body has been through an [any]. *)
Definition stored (r : HttpResponse) : HttpResponse :=
  Build_HttpResponse (HttpResponse_Code r) (HttpResponse_Message r) (generic (HttpResponse_Body r)) "".

Lemma int_field_response r :
  in_int64 (HttpResponse_Code r) → decode_int64 0 (JInt (HttpResponse_Code r)) = Ok (HttpResponse_Code r).
Proof. intros Hc. simpl. by rewrite bool_decide_eq_true_2. Qed.

Lemma unmarshal_marshal r :
  codec_ok r → in_int64 (HttpResponse_Code r) →
  unmarshal_Response (json_Marshal (response_json r))
  = Ok (Build_HttpResponse (HttpResponse_Code r) (HttpResponse_Message r)
          (generic (HttpResponse_Body r)) (HttpResponse_RequestID r)).
Proof.
  intros Hr Hc. unfold unmarshal_Response. rewrite Hr. unfold response_json.
  destruct (String.eqb_spec (HttpResponse_RequestID r) "") as [He|He];
    unfold members, int_field, string_field, any_field; cbn [app];
    change (field "code" _) with [JInt (HttpResponse_Code r)];
    change (field "message" _) with [JString (HttpResponse_Message r)];
    change (field "body" _) with [HttpResponse_Body r];
    cbn [store]; rewrite int_field_response by done; [rewrite He; done|done].
Qed.

(** A request that finds its key in the store: what it is answered does not depend on the
    handler. *)
Lemma run_replay key next c env w paths decision :
  ctx_idempotencyKey (c_ctx c) = Some key → c_Method c = "POST" →
  MatchesAny path_Match (c_FullPath c) paths = true → (∃ body, c_Body c = Ok body) →
  env_begin env (w_tick w) = Ok decision →
  let p := IdempotencyExecution path_Match (Some true) paths next c in
  (Decision_State decision = StateFailed →
   run env p w = (respond c (Failure_HTTPStatus (Decision_Failure decision))
                    (Failure_Code (Decision_Failure decision))
                    (Failure_Message (Decision_Failure decision)) JNull, tick w)) ∧
  (∀ response, Decision_State decision = StateCompleted →
   unmarshal_Response (Decision_Response decision) = Ok response →
   run env p w = (Build_HttpReply 200 ∅ (Some (with_RequestID response (requestID c))), tick w)).
Proof.
  intros Hkey Hpost Hpath [body Hb] Hbegin. unfold IdempotencyExecution, idempotencyFingerprint.
  rewrite Hkey, Hpost, Hpath, Hb. simpl. rewrite Hbegin.
  split; [intros ->; done|]. intros response -> Hu. by rewrite Hu.
Qed.

Lemma settled_replay key next c env w paths decision :
  ctx_idempotencyKey (c_ctx c) = Some key → c_Method c = "POST" →
  MatchesAny path_Match (c_FullPath c) paths = true → (∃ body, c_Body c = Ok body) →
  env_begin env (w_tick w) = Ok decision →
  Decision_State decision = StateFailed ∨ Decision_State decision = StateCompleted →
  settled env (IdempotencyExecution path_Match (Some true) paths next c) w = [].
Proof.
  intros Hkey Hpost Hpath [body Hb] Hbegin Hs. unfold IdempotencyExecution, idempotencyFingerprint.
  rewrite Hkey, Hpost, Hpath, Hb. simpl. rewrite Hbegin. destruct Hs as [-> | ->]; [done|].
  by destruct (unmarshal_Response _).
Qed.

(** A request the store is asked about: a POST to one of the paths, with the key and a body that
    can be read. *)
Definition keyed (paths : list string) (key : string) (c : Gin) : Prop :=
  ctx_idempotencyKey (c_ctx c) = Some key ∧ c_Method c = "POST" ∧
  MatchesAny path_Match (c_FullPath c) paths = true ∧ ∃ body, c_Body c = Ok body.

(** The handler's result as it is stored, and the decision of a store that has it. *)
Definition settlement_of (key owner : string) (status : Z) (resp : HttpResponse) : settlement :=
  if (400 <=? status)%Z
  then Refused key owner (Build_Failure (HttpResponse_Code resp) (HttpResponse_Message resp) status)
  else Completed key owner (stored resp).
Definition remembers (s : settlement) (decision : Decision) (text : string) : Prop :=
  match s with
  | Refused _ _ failure => Decision_State decision = StateFailed ∧ Decision_Failure decision = failure
  | Completed _ _ _ => Decision_State decision = StateCompleted ∧ Decision_Response decision = text
  end.

(** The first execution: the handler runs once, and its result is stored as the last call. *)
Lemma run_acquired key owner r resp next c env w w1 paths decision :
  reply_Response r = Some resp → codec_ok resp → in_int64 (HttpResponse_Code resp) →
  ctx_idempotencyKey (c_ctx c) = Some key → c_Method c = "POST" →
  MatchesAny path_Match (c_FullPath c) paths = true → (∃ body, c_Body c = Ok body) →
  env_begin env (w_tick w) = Ok decision → Decision_State decision = StateAcquired → Decision_Owner decision = owner →
  run env (next c) (tick w) = (r, w1) →
  let p := IdempotencyExecution path_Match (Some true) paths next c in
  run env p w = (r, tick w1) ∧
  settled env p w = settled env (next c) (tick w) ++ [settlement_of key owner (reply_Status r) resp].
Proof.
  intros Hr Hc Hi Hkey Hpost Hpath [body Hb] Hbegin Hs <- Hrun. unfold IdempotencyExecution, idempotencyFingerprint.
  rewrite Hkey, Hpost, Hpath, Hb. simpl. rewrite Hbegin, Hs. simpl. rewrite run_bind, settled_bind, Hrun.
  unfold persist, written, settlement_of. rewrite Hr, unmarshal_marshal by done. by destruct (400 <=? reply_Status r)%Z.
Qed.

(** (C16) Idempotent replay, of a response whose text reads back as the response and whose code
    fits 64 bits. When the store lets a request with a key run, the handler is run once, its
    reply is sent, and its response is given to the store under the key as the last call -- a
    refusal as its status, code and message. A later request with the key, in any environment whose store
    remembers this, is answered from the store, whatever the handler would do, and makes no
    other call: the same status, code and message, the request's own identifier, and the same
    body up to the order of its members (for numbers a float64 holds). *)
Theorem idempotent_replay key owner r resp next next' c c' env env' w w1 w' paths first again :
  reply_Response r = Some resp → codec_ok resp → codec_ok (stored resp) →
  in_int64 (HttpResponse_Code resp) → json_plain (HttpResponse_Body resp) →
  keyed paths key c → keyed paths key c' →
  env_begin env (w_tick w) = Ok first → Decision_State first = StateAcquired → Decision_Owner first = owner →
  run env (next c) (tick w) = (r, w1) →
  let settlement := settlement_of key owner (reply_Status r) resp in
  env_begin env' (w_tick w') = Ok again →
  remembers settlement again (json_Marshal (response_json (stored resp))) →
  (run env (IdempotencyExecution path_Match (Some true) paths next c) w = (r, tick w1) ∧
   settled env (IdempotencyExecution path_Match (Some true) paths next c) w
   = settled env (next c) (tick w) ++ [settlement]) ∧
  settled env' (IdempotencyExecution path_Match (Some true) paths next' c') w' = [] ∧
  if (400 <=? reply_Status r)%Z then
    run env' (IdempotencyExecution path_Match (Some true) paths next' c') w'
    = (respond c' (reply_Status r) (HttpResponse_Code resp) (HttpResponse_Message resp) JNull, tick w')
  else
    ∃ body, json_equiv (HttpResponse_Body resp) body ∧
      run env' (IdempotencyExecution path_Match (Some true) paths next' c') w'
      = (respond c' 200 (HttpResponse_Code resp) (HttpResponse_Message resp) body, tick w').
Proof.
  intros Hr Hc Hcs Hi Hp (Hk & Hm & Hpath & Hb) (Hk' & Hm' & Hpath' & Hb') Hbegin Hs Ho Hrun settlement Hbegin' Hrem.
  split; [by eapply run_acquired|].
  destruct (run_replay key next' c' env' w' paths again Hk' Hm' Hpath' Hb' Hbegin') as [Hfail Hdone].
  unfold settlement, settlement_of in Hrem.
  destruct (400 <=? reply_Status r)%Z eqn:Hst; destruct Hrem as [Hstate Hd].
  - split; [by eapply settled_replay; [..|left]|]. by rewrite (Hfail Hstate), Hd.
  - assert (unmarshal_Response (Decision_Response again) = Ok (Build_HttpResponse (HttpResponse_Code resp)
      (HttpResponse_Message resp) (generic (generic (HttpResponse_Body resp))) "")) as Hu
      by (rewrite Hd; by rewrite unmarshal_marshal).
    split; [by eapply settled_replay; [..|right]|]. exists (generic (HttpResponse_Body resp)).
    split; [by apply generic_equiv|]. erewrite Hdone; [|done|exact Hu]. simpl. by rewrite generic_idem.
Qed.

End Replay.
