(* ===== verification/Outbound.v ===== *)
(** * Outbound clients

    [internal/outbound/http.go], [internal/outbound/registry.go] and
    [internal/grpcclient/client.go]: HTTP and gRPC clients with credentials, deadlines,
    circuit breakers and retries, and the registry that makes them from the configuration.
    Tracing is left out; what is counted is in [Metrics]. *)

From stdpp Require Import base gmap list strings.
From S2P Require Import Floats Config.
From S2P Require Import Prelude GoErrors Effects.

(** ** Calls over the network *)

(** What the clients read of a [context.Context], and the metadata it carries out. *)
Record CallContext := Build_CallContext {
  call_Deadline : option Z;
  call_request_id : option string;
  call_idempotencyKey : option string;
  call_outgoing : list (string * string);
}.

Definition Header : Type := gmap string (list string).

Record HttpRequest := Build_HttpRequest {
  request_Method : string; request_URL : string; request_Header : Header; request_Body : string }.
Record Response := Build_Response { Response_StatusCode : Z; Response_Body : string }.

(** The [gobreaker.Settings] of a client, over the errors [E] of its calls. *)
Record Settings (E : Type) := Build_Settings {
  Settings_Name : string;
  Settings_Timeout : Z;
  ReadyToTrip : Z → bool;
  IsExcluded : option E → bool;
}.
Arguments Build_Settings {E}.
Arguments ReadyToTrip {E}.
Arguments IsExcluded {E}.

(** What a breaker is told about a call it has admitted: whether it failed, and whether the
    settings exclude its outcome, so that it counts neither as a success nor as a failure. *)
Record settlement := Build_settlement { settled_failed : bool; settled_excluded : bool }.

(** A program with the calls it makes: a request sent, a remote procedure invoked, a timer
    waited for (or the context's error), a breaker asked for admission (or its refusal) and
    told how the call went. *)
Inductive net (A : Type) :=
| NRet (a : A)
| NSend (r : HttpRequest) (k : option Response * option goerr → net A)
| NInvoke (ctx : CallContext) (method : string) (k : option goerr → net A)
| NWait (delay : Z) (k : option goerr → net A)
| NAdmit (k : option goerr → net A)
| NSettle (s : settlement) (k : net A).
Arguments NRet {A}.
Arguments NSend {A}.
Arguments NInvoke {A}.
Arguments NWait {A}.
Arguments NAdmit {A}.
Arguments NSettle {A}.

Fixpoint nbind {A B} (p : net A) (f : A → net B) : net B :=
  match p with
  | NRet a => f a
  | NSend r k => NSend r (λ x, nbind (k x) f)
  | NInvoke ctx method k => NInvoke ctx method (λ x, nbind (k x) f)
  | NWait delay k => NWait delay (λ x, nbind (k x) f)
  | NAdmit k => NAdmit (λ x, nbind (k x) f)
  | NSettle s k => NSettle s (nbind k f)
  end.

(** ** TLS *)

(** [os.ReadFile], [CertPool.AppendCertsFromPEM] and [tls.LoadX509KeyPair]. *)
Class TlsFiles := {
  os_ReadFile : string → result string;
  AppendCertsFromPEM : string → bool;
  Certificate : Type;
  LoadX509KeyPair : string → string → result Certificate;
}.

(** The [tls.Config]; the minimum version is always 1.2. *)
Record TlsConfig `{TlsFiles} := Build_TlsConfig {
  tls_ServerName : string; tls_RootCAs : option string; tls_Certificates : list Certificate }.

(** ** [internal/outbound/http.go] *)

(** [net/url]. *)
Class UrlLibrary := {
  URL : Type;
  url_Parse : string → result URL;
  url_Scheme : URL → string;
  url_Host : URL → string;
  ResolveReference : URL → URL → URL;
  url_String : URL → string;
  http_NewRequest : string → string → option goerr;
}.

Definition breaker_settings {E} (name : string) (cfg : Breaker) (excluded : option E → bool) : Settings E :=
  Build_Settings name (Breaker_OpenTimeout cfg)
    (λ consecutiveFailures, Breaker_FailureThreshold cfg <=? consecutiveFailures)%Z excluded.

(** [statusError], or another error. *)
Inductive call_error := StatusFailure (response : Response) | CallFailure (err : goerr).

Section Http.
Context `{FloatMachine, TlsFiles, UrlLibrary}.

(** The constants of the [http.Transport] are left out. *)
Record Transport := Build_Transport {
  transport_TLS : TlsConfig; transport_ResponseHeaderTimeout : Z }.

Record HTTPClient := Build_HTTPClient {
  client_name : string;
  client_baseURL : URL;
  client_transport : Transport;
  client_cfg : HTTPUpstream;
  client_breaker : option (Settings call_error);
}.

Definition httpTransport (cfg : ClientTLS) (timeout : Z) : result Transport :=
  roots <-! (if ClientTLS_CAFile cfg <>?s "" then
               match os_ReadFile (ClientTLS_CAFile cfg) with
               | Err err => Err (Wrapped "read outbound HTTP CA" err)
               | Ok pem => if negb (AppendCertsFromPEM pem) then Err (TextError "parse outbound HTTP CA")
                           else Ok (Some pem)
               end
             else Ok None)
    else err => Err err;;
  certificates <-! (if ClientTLS_CertFile cfg <>?s "" then
                      match LoadX509KeyPair (ClientTLS_CertFile cfg) (ClientTLS_KeyFile cfg) with
                      | Err err => Err (Wrapped "load outbound HTTP client certificate" err)
                      | Ok certificate => Ok [certificate]
                      end
                    else Ok [])
    else err => Err err;;
  Ok (Build_Transport (Build_TlsConfig _ (ClientTLS_ServerName cfg) roots certificates) timeout).

Definition NewHTTPClient (name : string) (cfg : HTTPUpstream) : result HTTPClient :=
  stop_if (ClientAuth_Type (HTTPUpstream_Auth cfg) <>?s "") && negb (ClientTLS_Enabled (HTTPUpstream_TLS cfg)) =>
    Err (TextError "refusing to send outbound HTTP credentials without TLS");;
  match url_Parse (HTTPUpstream_BaseURL cfg) with
  | Err _ => Err (TextError "parse outbound HTTP base URL")
  | Ok baseURL =>
      stop_if (url_Scheme baseURL =?s "") || (url_Host baseURL =?s "") =>
        Err (TextError "parse outbound HTTP base URL");;
      transport <-! httpTransport (HTTPUpstream_TLS cfg) (HTTPUpstream_Timeout cfg) else err => Err err;;
      Ok (Build_HTTPClient name baseURL transport cfg
            (if Breaker_Enabled (HTTPUpstream_Breaker cfg)
             then Some (breaker_settings name (HTTPUpstream_Breaker cfg)
                          (λ e, match e with
                                | Some (CallFailure err) => Is err ContextCanceled
                                | _ => false
                                end))
             else None))
  end.

Definition retryableMethod (ctx : CallContext) (method : string) : bool :=
  if (method =?s "GET") || (method =?s "HEAD") || (method =?s "OPTIONS") || (method =?s "PUT")
     || (method =?s "DELETE") then true
  else match call_idempotencyKey ctx with Some _ => true | None => false end.

Definition retryableHTTPStatus (status : Z) : bool :=
  ((status =? 429) || (status =? 502) || (status =? 503) || (status =? 504))%Z.

(** [header.Get(key)] and [header.Set(key, value)], for a key in canonical form. *)
Definition header_Get (h : Header) (key : string) : string :=
  match h !! key with Some (value :: _) => value | _ => "" end.

Definition applyHTTPAuth (h : Header) (auth : ClientAuth) : Header :=
  if ClientAuth_Type auth =?s "bearer" then <["Authorization" := ["Bearer " +:+ ClientAuth_Token auth]]> h
  else if ClientAuth_Type auth =?s "psk" then <["Authorization" := ["PSK " +:+ ClientAuth_Token auth]]> h
  else h.

(** The delay of [waitBackoff]: the product is made in [float64]. *)
Definition http_backoff (retry : Retry) (attempt : Z) : Z :=
  let delay := int64_of_float (float_mul (float_of_Z (Retry_InitialBackoff retry)) (pow2 (attempt - 1))) in
  if (Retry_MaxBackoff retry <? delay)%Z then Retry_MaxBackoff retry else delay.
Definition waitBackoff (retry : Retry) (attempt : Z) : net (option goerr) :=
  NWait (http_backoff retry attempt) NRet.

(** The request of an attempt; a nil header is an empty one. *)
Definition http_request (c : HTTPClient) (method target body : string) (headers : Header) : HttpRequest :=
  let header := if (0 <? String.length body)%nat && (header_Get headers "Content-Type" =?s "")
                then <["Content-Type" := ["application/json"]]> headers else headers in
  Build_HttpRequest method target (applyHTTPAuth header (HTTPUpstream_Auth (client_cfg c))) body.

(** The loop, with [left] turns to go. *)
Fixpoint http_attempts (c : HTTPClient) (method target body : string) (headers : Header)
    (maxAttempts attempt : Z) (left : nat) : net (option Response * option goerr) :=
  match left with
  | O => NRet (None, Some (TextError "outbound HTTP attempts exhausted"))
  | S left' =>
      guard http_NewRequest method target
        else err => NRet (None, Some (Wrapped "create outbound HTTP request" err));;
      NSend (http_request c method target body headers) (λ '(response, err),
        let answered := match response with
                        | None => true
                        | Some r => negb (retryableHTTPStatus (Response_StatusCode r))
                        end in
        let again := http_attempts c method target body headers maxAttempts (attempt + 1) left' in
        stop_if match err with None => answered || (attempt =? maxAttempts)%Z | Some _ => false end =>
          NRet (response, None);;
        guard (if (attempt =? maxAttempts)%Z then err else None)
          else err => NRet (None, Some (Wrapped "call outbound HTTP service" err));;
        if (attempt <? maxAttempts)%Z then
          nbind (waitBackoff (HTTPUpstream_Retry (client_cfg c)) attempt) (λ waited,
            guard waited else err => NRet (None, Some err);;
            again)
        else again)
  end.

Definition doWithRetry (c : HTTPClient) (ctx : CallContext) (method requestPath body : string)
    (headers : Header) : net (option Response * option goerr) :=
  match url_Parse requestPath with
  | Err _ => NRet (None, Some (TextError "outbound HTTP path must be relative"))
  | Ok reference =>
      stop_if (url_Scheme reference <>?s "") || (url_Host reference <>?s "") =>
        NRet (None, Some (TextError "outbound HTTP path must be relative"));;
      let target := url_String (ResolveReference (client_baseURL c) reference) in
      let maxAttempts := if retryableMethod ctx method
                         then Retry_MaxAttempts (HTTPUpstream_Retry (client_cfg c)) else 1%Z in
      http_attempts c method target body headers maxAttempts 1 (Z.to_nat maxAttempts)
  end.

(** [breaker.Execute(call)]: a refusal, or the result of the call, of which the breaker is told
    the outcome; [IsExcluded] is asked about every outcome, a nil error too. *)
Definition Execute {X E} (settings : Settings E) (refused : goerr → E) (call : net (X * option E)) (zero : X)
  : net (X * option E) :=
  NAdmit (λ admitted,
    guard admitted else err => NRet (zero, Some (refused err));;
    nbind call (λ r,
      NSettle (Build_settlement (bool_decide (is_Some (snd r))) (IsExcluded settings (snd r))) (NRet r))).

Definition execute (c : HTTPClient) (ctx : CallContext) (method requestPath body : string)
    (headers : Header) : net (option Response * option goerr) :=
  match client_breaker c with
  | None => doWithRetry c ctx method requestPath body headers
  | Some breaker =>
      let call := nbind (doWithRetry c ctx method requestPath body headers) (λ '(response, err),
        NRet (match err, response with
              | None, Some r =>
                  if retryableHTTPStatus (Response_StatusCode r) then (None, Some (StatusFailure r))
                  else (response, None)
              | None, None => (None, None)
              | Some err, _ => (response, Some (CallFailure err))
              end)) in
      nbind (Execute breaker CallFailure call None) (λ '(response, err),
        NRet (match err with
              | Some (StatusFailure r) => (Some r, None)
              | Some (CallFailure err) => (response, Some err)
              | None => (response, None)
              end))
  end.

(** [Do] measures the call besides. *)
Definition Do (c : HTTPClient) (ctx : CallContext) (method requestPath body : string) (headers : Header)
  : net (option Response * option goerr) := execute c ctx method requestPath body headers.

End Http.

(** ** [internal/grpcclient/client.go] *)

Record TLSConfig := Build_TLSConfig {
  TLSConfig_Enabled : bool; TLSConfig_ServerName : string; TLSConfig_CAFile : string;
  TLSConfig_CertFile : string; TLSConfig_KeyFile : string; TLSConfig_AllowInsecureToken : bool }.
(** [grpcclient.Config]. *)
Record ClientConfig := Build_ClientConfig {
  ClientConfig_Target : string; ClientConfig_Timeout : Z; ClientConfig_Token : string;
  ClientConfig_PSK : string; ClientConfig_TLS : TLSConfig; ClientConfig_Name : string;
  ClientConfig_Retry : Retry; ClientConfig_Breaker : Breaker }.

(** An invoker fills in the reply and answers the error. *)
Definition Invoker : Type := CallContext → string → net (option goerr).
Definition Interceptor : Type := Invoker → Invoker.

Section GrpcClient.
Context `{TlsFiles}.
(** [path.Match], [status.Code] of an error, and the check of the target by [grpc.NewClient]. *)
Context (path_Match : string → string → result bool).
Context (status_Code : goerr → Z).
Context (grpc_NewClient : string → option goerr).

Definition codes_OK : Z := 0.
Definition codes_DeadlineExceeded : Z := 4.
Definition codes_ResourceExhausted : Z := 8.
Definition codes_Unavailable : Z := 14.

(** [status.Code(err)], [OK] for nil. *)
Definition call_Code (err : option goerr) : Z :=
  match err with Some err => status_Code err | None => codes_OK end.

(** [idempotency.FromContext] found a key, or a pattern matches; a malformed one does not. *)
Definition retryGRPCMethod (ctx : CallContext) (method : string) (patterns : list string) : bool :=
  match call_idempotencyKey ctx with
  | Some _ => true
  | None => existsb (λ pattern, match path_Match pattern method with Ok b => b | Err _ => false end) patterns
  end.

(** The delay of [waitRetry]: the shift is made in 64 bits. *)
Definition grpc_backoff (cfg : Retry) (attempt : Z) : Z :=
  let delay := wrap64 (Z.shiftl (Retry_InitialBackoff cfg) (attempt - 1)) in
  if (Retry_MaxBackoff cfg <? delay)%Z then Retry_MaxBackoff cfg else delay.
Definition waitRetry (cfg : Retry) (attempt : Z) : net (option goerr) := NWait (grpc_backoff cfg attempt) NRet.

Definition retryable_code (err : option goerr) : bool :=
  ((call_Code err =? codes_Unavailable) || (call_Code err =? codes_ResourceExhausted))%Z.

(** The loop, with [left] turns to go and the last error. *)
Fixpoint grpc_attempts (cfg : Retry) (invoker : Invoker) (ctx : CallContext) (method : string) (attempt : Z)
    (left : nat) (err : option goerr) : net (option goerr) :=
  match left with
  | O => NRet err
  | S left' =>
      nbind (invoker ctx method) (λ err,
        stop_if negb (retryable_code err) => NRet err;;
        if (attempt <? Retry_MaxAttempts cfg)%Z then
          nbind (waitRetry cfg attempt) (λ waitErr,
            guard waitErr else waitErr => NRet (Some waitErr);;
            grpc_attempts cfg invoker ctx method (attempt + 1) left' err)
        else grpc_attempts cfg invoker ctx method (attempt + 1) left' err)
  end.

Definition retryInterceptor (cfg : Retry) : Interceptor := λ invoker ctx method,
  stop_if negb (retryGRPCMethod ctx method (Retry_Methods cfg)) => invoker ctx method;;
  grpc_attempts cfg invoker ctx method 1 (Z.to_nat (Retry_MaxAttempts cfg)) None.

Definition breakerInterceptor (name : string) (cfg : Breaker) : Interceptor := λ invoker ctx method,
  let settings := breaker_settings name cfg (λ err,
    (negb (call_Code err =? codes_Unavailable) && negb (call_Code err =? codes_ResourceExhausted)
     && negb (call_Code err =? codes_DeadlineExceeded))%Z) in
  nbind (Execute settings (λ err, err) (nbind (invoker ctx method) (λ err, NRet (tt, err))) tt)
    (λ r, NRet (snd r)).

Definition timeoutInterceptor (timeout : Z) : Interceptor := λ invoker ctx method,
  match call_Deadline ctx with
  | Some _ => invoker ctx method
  | None => invoker (Build_CallContext (Some timeout) (call_request_id ctx) (call_idempotencyKey ctx)
                       (call_outgoing ctx)) method
  end.

(** The pairs the call is sent with. *)
Definition metadata_pairs (token psk : string) (ctx : CallContext) : list (string * string) :=
  (if token <>?s "" then [("authorization", "Bearer " +:+ token)]
   else if psk <>?s "" then [("authorization", "PSK " +:+ psk)] else [])
  ++ match call_request_id ctx with Some id => [("x-request-id", id)] | None => [] end
  ++ match call_idempotencyKey ctx with Some key => [("idempotency-key", key)] | None => [] end.

Definition metadataInterceptor (token psk : string) : Interceptor := λ invoker ctx method,
  invoker (Build_CallContext (call_Deadline ctx) (call_request_id ctx) (call_idempotencyKey ctx)
             (call_outgoing ctx ++ metadata_pairs token psk ctx)) method.

(** No credentials ([insecure]), or TLS. *)
Definition transportCredentials (cfg : TLSConfig) : result (option TlsConfig) :=
  stop_if negb (TLSConfig_Enabled cfg) => Ok None;;
  roots <-! (if TLSConfig_CAFile cfg <>?s "" then
               match os_ReadFile (TLSConfig_CAFile cfg) with
               | Err err => Err (Wrapped "read grpc CA" err)
               | Ok pem => if negb (AppendCertsFromPEM pem) then Err (TextError "parse grpc CA")
                           else Ok (Some pem)
               end
             else Ok None)
    else err => Err err;;
  certificates <-! (if (TLSConfig_CertFile cfg <>?s "") || (TLSConfig_KeyFile cfg <>?s "") then
                      stop_if (TLSConfig_CertFile cfg =?s "") || (TLSConfig_KeyFile cfg =?s "") =>
                        Err (TextError "grpc client certificate and key must be configured together");;
                      match LoadX509KeyPair (TLSConfig_CertFile cfg) (TLSConfig_KeyFile cfg) with
                      | Err err => Err (Wrapped "load grpc client certificate" err)
                      | Ok certificate => Ok [certificate]
                      end
                    else Ok [])
    else err => Err err;;
  Ok (Some (Build_TlsConfig _ (TLSConfig_ServerName cfg) roots certificates)).

(** A [grpc.ClientConn]: target, credentials and the chain of interceptors, the first one
    outermost. *)
Record ClientConn := Build_ClientConn {
  conn_Target : string; conn_Credentials : option TlsConfig; conn_Interceptors : list Interceptor }.

Definition Dial (cfg : ClientConfig) : result ClientConn :=
  let tls := ClientConfig_TLS cfg in
  stop_if ClientConfig_Target cfg =?s "" => Err (TextError "grpc client target is required");;
  stop_if (ClientConfig_Timeout cfg <=? 0)%Z => Err (TextError "grpc client timeout must be positive");;
  transport <-! transportCredentials tls else err => Err err;;
  stop_if (ClientConfig_Token cfg <>?s "") && negb (TLSConfig_Enabled tls)
          && negb (TLSConfig_AllowInsecureToken tls) =>
    Err (TextError "refusing to send grpc bearer token without TLS");;
  stop_if (ClientConfig_PSK cfg <>?s "") && (ClientConfig_Token cfg <>?s "") =>
    Err (TextError "grpc client bearer token and PSK are mutually exclusive");;
  stop_if (ClientConfig_PSK cfg <>?s "") && negb (TLSConfig_Enabled tls)
          && negb (TLSConfig_AllowInsecureToken tls) =>
    Err (TextError "refusing to send grpc PSK without TLS");;
  let interceptors :=
    [timeoutInterceptor (ClientConfig_Timeout cfg);
     metadataInterceptor (ClientConfig_Token cfg) (ClientConfig_PSK cfg)]
    ++ (if Breaker_Enabled (ClientConfig_Breaker cfg)
        then [breakerInterceptor (ClientConfig_Name cfg) (ClientConfig_Breaker cfg)] else [])
    ++ (if (1 <? Retry_MaxAttempts (ClientConfig_Retry cfg))%Z
        then [retryInterceptor (ClientConfig_Retry cfg)] else []) in
  guard grpc_NewClient (ClientConfig_Target cfg) else err => Err err;;
  Ok (Build_ClientConn (ClientConfig_Target cfg) transport interceptors).

(** A unary call on a connection. *)
Definition conn_Invoke (c : ClientConn) : Invoker :=
  foldr (λ interceptor invoker, interceptor invoker) (λ ctx method, NInvoke ctx method NRet) (conn_Interceptors c).

End GrpcClient.

(** ** [internal/outbound/registry.go] *)

Section Registry.
Context `{FloatMachine, TlsFiles, UrlLibrary}.
Context (path_Match : string → string → result bool).
Context (status_Code : goerr → Z).
Context (grpc_NewClient : string → option goerr).
Context (range : ∀ A, gmap string A → list (string * A)).

Record Registry := Build_Registry {
  registry_http : gmap string HTTPClient;
  registry_grpc : gmap string ClientConn;
}.

(** The configuration of a gRPC client. *)
Definition client_config (name : string) (upstream : GRPCUpstream) : ClientConfig :=
  let tls := GRPCUpstream_TLS upstream in
  let auth := GRPCUpstream_Auth upstream in
  Build_ClientConfig (GRPCUpstream_Target upstream) (GRPCUpstream_Timeout upstream)
    (if ClientAuth_Type auth =?s "bearer" then ClientAuth_Token auth else "")
    (if ClientAuth_Type auth =?s "psk" then ClientAuth_Token auth else "")
    (Build_TLSConfig (ClientTLS_Enabled tls) (ClientTLS_ServerName tls) (ClientTLS_CAFile tls)
       (ClientTLS_CertFile tls) (ClientTLS_KeyFile tls) (GRPCUpstream_AllowInsecureCredentials upstream))
    name (GRPCUpstream_Retry upstream) (GRPCUpstream_Breaker upstream).

(** A loop that makes a client for every upstream, or returns the first error. *)
Fixpoint make_clients {U C} (make : string → U → result C) (text : string) (l : list (string * U))
    (clients : gmap string C) : result (gmap string C) :=
  match l with
  | [] => Ok clients
  | (name, upstream) :: l' =>
      client <-! make name upstream else err => Err (Wrapped text err);;
      make_clients make text l' (<[name := client]> clients)
  end.

(** On an error the clients made so far are closed. *)
Definition NewRegistry (cfg : Config) : result Registry :=
  http <-! make_clients NewHTTPClient "create outbound HTTP client"
             (range _ (Outbound_HTTP (Config_Outbound cfg))) ∅
    else err => Err err;;
  grpc <-! make_clients (λ name upstream, Dial path_Match status_Code grpc_NewClient (client_config name upstream))
             "create outbound gRPC client" (range _ (Outbound_GRPC (Config_Outbound cfg))) ∅
    else err => Err err;;
  Ok (Build_Registry http grpc).

(** [Registry.HTTP] and [Registry.GRPC]. *)
Definition registry_HTTP (r : Registry) (name : string) : option HTTPClient := registry_http r !! name.
Definition registry_GRPC (r : Registry) (name : string) : option ClientConn := registry_grpc r !! name.

End Registry.
