(* ===== verification/OutboundProofs.v ===== *)
(** * Outbound clients: retries and credentials

    The retry loops of the HTTP and the gRPC client refine one policy, the breaker changes no
    result, and a valid configuration gives a registry whose clients keep their
    credentials under TLS. *)

From stdpp Require Import base gmap list strings.
From S2P Require Import Floats Config ConfigProofs.
From S2P Require Import Prelude GoErrors Effects Outbound.

(** ** Executions *)

Inductive event :=
| Sent (r : HttpRequest) (answer : option Response * option goerr)
| Invoked (ctx : CallContext) (method : string) (answer : option goerr)
| Waited (delay : Z) (answer : option goerr)
| Asked (answer : option goerr)
| Settled (s : settlement).

(** The answers of the network, the timers and the breakers, by what has happened before. *)
Record Network := Build_Network {
  net_send : list event → HttpRequest → option Response * option goerr;
  net_invoke : list event → CallContext → string → option goerr;
  net_wait : list event → Z → option goerr;
  net_admit : list event → option goerr;
}.

(** Every program ends: with a result and the events from the start. *)
Fixpoint nrun {A} (n : Network) (p : net A) (h : list event) : A * list event :=
  match p with
  | NRet a => (a, h)
  | NSend r k => let a := net_send n h r in nrun n (k a) (h ++ [Sent r a])
  | NInvoke ctx method k => let a := net_invoke n h ctx method in nrun n (k a) (h ++ [Invoked ctx method a])
  | NWait delay k => let a := net_wait n h delay in nrun n (k a) (h ++ [Waited delay a])
  | NAdmit k => let a := net_admit n h in nrun n (k a) (h ++ [Asked a])
  | NSettle s k => nrun n k (h ++ [Settled s])
  end.

Lemma nrun_bind {A B} n (p : net A) (f : A → net B) h :
  nrun n (nbind p f) h = nrun n (f (fst (nrun n p h))) (snd (nrun n p h)).
Proof. revert h. induction p; intros h; simpl; auto. Qed.

Lemma nrun_extends {A} n (p : net A) h : ∃ tr, snd (nrun n p h) = h ++ tr.
Proof.
  revert h. induction p as [a|r k IH|ctx m k IH|d k IH|k IH|s k IH]; intros h; simpl; [by exists []; rewrite app_nil_r|..].
  - destruct (IH (net_send n h r) (h ++ [Sent r (net_send n h r)])) as [tr ->]. rewrite <- app_assoc. eauto.
  - destruct (IH (net_invoke n h ctx m) (h ++ [Invoked ctx m (net_invoke n h ctx m)])) as [tr ->].
    rewrite <- app_assoc. eauto.
  - destruct (IH (net_wait n h d) (h ++ [Waited d (net_wait n h d)])) as [tr ->]. rewrite <- app_assoc. eauto.
  - destruct (IH (net_admit n h) (h ++ [Asked (net_admit n h)])) as [tr ->]. rewrite <- app_assoc. eauto.
  - destruct (IH (h ++ [Settled s])) as [tr ->]. rewrite <- app_assoc. eauto.
Qed.

(** ** The retry policy *)

(** The runs of a loop that makes a call, and while the answer asks for it and turns are left
    waits and calls again: from attempt [attempt], with [left] turns to go. *)
Section Policy.
Context {A X : Type} (call : A → event) (again : A → bool) (delay : Z → Z).
Context (finish : A → X) (cut : goerr → X).

Inductive retried : Z → nat → list event → X → Prop :=
| retried_done attempt left a : again a = false → retried attempt (S left) [call a] (finish a)
| retried_last attempt a : again a = true → retried attempt 1 [call a] (finish a)
| retried_cut attempt left a e :
    again a = true → retried attempt (S (S left)) [call a; Waited (delay attempt) (Some e)] (cut e)
| retried_more attempt left a tr x :
    again a = true → retried (attempt + 1)%Z (S left) tr x →
    retried attempt (S (S left)) (call a :: Waited (delay attempt) None :: tr) x.

End Policy.

(** The calls of a trace, and its longest delays. *)
Definition is_call (e : event) : bool := match e with Sent _ _ | Invoked _ _ _ => true | _ => false end.
Definition calls (tr : list event) : list event := List.filter is_call tr.
Definition waits_at_most (d : Z) (tr : list event) : Prop :=
  Forall (λ e, match e with Waited d' _ => (d' ≤ d)%Z | _ => True end) tr.

Lemma retried_bounds {A X} (call : A → event) again delay (finish : A → X) cut attempt left tr x longest :
  (∀ a, is_call (call a) = true) → (∀ i, (delay i ≤ longest)%Z) →
  retried call again delay finish cut attempt left tr x →
  1 ≤ length (calls tr) ≤ left ∧ waits_at_most longest tr.
Proof.
  intros Hcall Hd. assert (∀ a, match call a with Waited d _ => (d ≤ longest)%Z | _ => True end) as Hw.
  { intros a. specialize (Hcall a). by destruct (call a). }
  unfold waits_at_most.
  induction 1; unfold calls in *; simpl; rewrite Hcall; simpl; try destruct IHretried as (? & ?);
    (split; [lia|]); repeat constructor; auto; apply Hw.
Qed.

(** A call behind a breaker: refused without a call, or made and reported; without a breaker
    it is just made. *)
Inductive guarded {X} (breaker : bool) (refused : goerr → X) (settle : X → settlement)
    (R : list event → X → Prop) : list event → X → Prop :=
| guarded_off tr x : breaker = false → R tr x → guarded breaker refused settle R tr x
| guarded_refused e : breaker = true → guarded breaker refused settle R [Asked (Some e)] (refused e)
| guarded_admitted tr x :
    breaker = true → R tr x →
    guarded breaker refused settle R (Asked None :: tr ++ [Settled (settle x)]) x.

Lemma guarded_mono {X} breaker (refused : goerr → X) settle (R R' : list event → X → Prop) tr x :
  (∀ tr x, R tr x → R' tr x) → guarded breaker refused settle R tr x → guarded breaker refused settle R' tr x.
Proof. intros HR []; [by apply guarded_off, HR|by apply guarded_refused|by apply guarded_admitted, HR]. Qed.

Lemma guarded_silent {X} breaker (refused : goerr → X) settle (R : list event → X → Prop) tr x :
  guarded breaker refused settle R tr x → (∀ tr x, R tr x → tr = []) → calls tr = [].
Proof. intros [tr' x' _ Hr|e _|tr' x' _ Hr] HR; [by rewrite (HR _ _ Hr)|done|by rewrite (HR _ _ Hr)]. Qed.

Lemma guarded_bounds {X} breaker (refused : goerr → X) settle R tr x left longest :
  (∀ tr x, R tr x → 1 ≤ length (calls tr) ≤ left ∧ waits_at_most longest tr) →
  guarded breaker refused settle R tr x → length (calls tr) ≤ left ∧ waits_at_most longest tr.
Proof.
  intros HR [tr' x' _ [? ?]%HR|e _|tr' x' _ [? ?]%HR]; [split; [lia|done]|split; [simpl; lia|by repeat constructor]|].
  unfold calls, waits_at_most in *. simpl. rewrite List.filter_app, length_app. simpl.
  split; [lia|]. constructor; [done|]. apply Forall_app. by repeat constructor.
Qed.

(** ** HTTP *)

Section Http.
Context `{FloatMachine, TlsFiles, UrlLibrary}.

(** An answer after which the client tries again, and what it returns after its last. *)
Definition http_failed (a : option Response * option goerr) : bool :=
  match snd a, fst a with
  | Some _, _ => true
  | None, Some r => retryableHTTPStatus (Response_StatusCode r)
  | None, None => false
  end.
Definition http_result (a : option Response * option goerr) : option Response * option goerr :=
  match a with
  | (response, None) => (response, None)
  | (_, Some err) => (None, Some (Wrapped "call outbound HTTP service" err))
  end.

Definition http_retried (c : HTTPClient) (r : HttpRequest) : Z → nat → list event → option Response * option goerr → Prop :=
  retried (Sent r) http_failed (http_backoff (HTTPUpstream_Retry (client_cfg c))) http_result
    (λ e, (None, Some e)).

(** One turn. *)
Lemma http_turn n c method target body headers maxAttempts attempt left h
    (r := http_request c method target body headers) (a := net_send n h r)
    (delay := http_backoff (HTTPUpstream_Retry (client_cfg c)) attempt)
    (w := net_wait n (h ++ [Sent r a]) delay) :
  http_NewRequest method target = None →
  nrun n (http_attempts c method target body headers maxAttempts attempt (S left)) h
  = if negb (http_failed a) || (attempt =? maxAttempts)%Z then (http_result a, h ++ [Sent r a])
    else if (attempt <? maxAttempts)%Z then
      match w with
      | Some err => ((None, Some err), (h ++ [Sent r a]) ++ [Waited delay w])
      | None => nrun n (http_attempts c method target body headers maxAttempts (attempt + 1) left)
                  ((h ++ [Sent r a]) ++ [Waited delay w])
      end
    else nrun n (http_attempts c method target body headers maxAttempts (attempt + 1) left) (h ++ [Sent r a]).
Proof.
  intros Hnew. simpl. rewrite Hnew. simpl. fold r a. destruct a as [response [e|]] eqn:Ha; simpl.
  - destruct (attempt =? maxAttempts)%Z; simpl; [done|]. case_match; [|done]. simpl. fold delay w. by destruct w.
  - unfold http_failed. simpl.
    destruct response as [x|]; simpl; [destruct (retryableHTTPStatus _); simpl|]; try done.
    destruct (attempt =? maxAttempts)%Z; simpl; [done|]. case_match; [|done]. simpl. fold delay w. by destruct w.
Qed.

Lemma http_attempts_retried n c method target body headers maxAttempts :
  http_NewRequest method target = None →
  ∀ left attempt h, (attempt + Z.of_nat left = maxAttempts)%Z →
  let '(x, h') := nrun n (http_attempts c method target body headers maxAttempts attempt (S left)) h in
  ∃ tr, h' = h ++ tr ∧ http_retried c (http_request c method target body headers) attempt (S left) tr x.
Proof.
  intros Hnew. induction left as [|left IH]; intros attempt h Hl; rewrite http_turn by done;
    set (r := http_request _ _ _ _ _); destruct (http_failed (net_send n h r)) eqn:Hf; simpl.
  2,4: eexists; (split; [done|]); by apply retried_done.
  - replace (attempt =? maxAttempts)%Z with true by lia. eexists. split; [done|]. by apply retried_last.
  - replace (attempt =? maxAttempts)%Z with false by lia. replace (attempt <? maxAttempts)%Z with true by lia.
    destruct (net_wait n _ _) as [e|].
    + rewrite <- app_assoc. eexists. split; [done|]. by apply (retried_cut _ _ _ _ (λ e, (None, Some e))).
    + specialize (IH (attempt + 1)%Z ((h ++ [Sent r (net_send n h r)])
        ++ [Waited (http_backoff (HTTPUpstream_Retry (client_cfg c)) attempt) None]) ltac:(lia)).
      destruct (nrun n _ _) as [x h']. destruct IH as (tr & -> & Htr). rewrite <- !app_assoc.
      eexists. split; [done|]. by apply retried_more.
Qed.

(** What the breaker is told. *)
Definition http_excluded (e : option call_error) : bool :=
  match e with Some (CallFailure err) => Is err ContextCanceled | _ => false end.
Definition http_settlement (x : option Response * option goerr) : settlement :=
  Build_settlement (http_failed x)
    match snd x with Some e => Is e ContextCanceled | None => false end.

(** The attempts a request may take. *)
Definition http_limit (c : HTTPClient) (ctx : CallContext) (method : string) : Z :=
  if retryableMethod ctx method then Retry_MaxAttempts (HTTPUpstream_Retry (client_cfg c)) else 1.

Lemma http_backoff_capped retry attempt : (http_backoff retry attempt ≤ Retry_MaxBackoff retry)%Z.
Proof. unfold http_backoff. case_match; lia. Qed.

Lemma doWithRetry_retried n c ctx method path body headers h reference :
  url_Parse path = Ok reference → url_Scheme reference = "" → url_Host reference = "" →
  let target := url_String (ResolveReference (client_baseURL c) reference) in
  http_NewRequest method target = None → (1 ≤ http_limit c ctx method)%Z →
  let '(x, h') := nrun n (doWithRetry c ctx method path body headers) h in
  ∃ tr, h' = h ++ tr ∧
    http_retried c (http_request c method target body headers) 1 (Z.to_nat (http_limit c ctx method)) tr x.
Proof.
  intros Hp Hs Hh target Hn Hl. unfold doWithRetry. rewrite Hp, Hs, Hh. simpl. fold target.
  fold (http_limit c ctx method). set (m := http_limit c ctx method) in *.
  replace (Z.to_nat m) with (S (Z.to_nat (m - 1))) by lia. apply http_attempts_retried; [done|lia].
Qed.

(** What comes of a path that parses. *)
Lemma doWithRetry_either n c ctx method path body headers h reference
    (target := url_String (ResolveReference (client_baseURL c) reference)) :
  url_Parse path = Ok reference → (1 ≤ Retry_MaxAttempts (HTTPUpstream_Retry (client_cfg c)))%Z →
  let '(x, h') := nrun n (doWithRetry c ctx method path body headers) h in
  ∃ tr, h' = h ++ tr ∧
    (url_Scheme reference ≠ "" ∨ url_Host reference ≠ "" → tr = []) ∧
    (url_Scheme reference = "" → url_Host reference = "" → http_NewRequest method target = None →
     http_retried c (http_request c method target body headers) 1 (Z.to_nat (http_limit c ctx method)) tr x).
Proof.
  intros Hp Hmax. assert (1 ≤ http_limit c ctx method)%Z as Hl by (unfold http_limit; case_match; lia).
  destruct (decide (url_Scheme reference = "" ∧ url_Host reference = "")) as [[Hs Hh]|Hne].
  - pose proof (doWithRetry_retried n c ctx method path body headers h reference Hp Hs Hh) as Hr.
    destruct (http_NewRequest method target) as [e|] eqn:Hn.
    + pose proof (nrun_extends n (doWithRetry c ctx method path body headers) h) as [tr Htr].
      destruct (nrun n _ h) as [x h']. exists tr. split; [done|]. split; [naive_solver|done].
    + specialize (Hr Hn Hl). destruct (nrun n _ h) as [x h']. destruct Hr as (tr & -> & Hr).
      exists tr. split; [done|]. split; [naive_solver|done].
  - unfold doWithRetry. rewrite Hp.
    assert ((url_Scheme reference <>?s "") || (url_Host reference <>?s "") = true) as ->.
    { destruct (String.eqb_spec (url_Scheme reference) ""), (String.eqb_spec (url_Host reference) ""); naive_solver. }
    simpl. exists []. split; [by rewrite app_nil_r|]. naive_solver.
Qed.

(** The breaker does not change what a call returns. *)
Lemma execute_guarded n c ctx method path body headers h R :
  (∀ settings, client_breaker c = Some settings → IsExcluded settings = http_excluded) →
  (∀ h, let '(x, h') := nrun n (doWithRetry c ctx method path body headers) h in ∃ tr, h' = h ++ tr ∧ R tr x) →
  let '(x, h') := nrun n (execute c ctx method path body headers) h in
  ∃ tr, h' = h ++ tr ∧
    guarded (match client_breaker c with Some _ => true | None => false end) (λ e, (None, Some e))
      http_settlement R tr x.
Proof.
  intros Hex HR. unfold execute. destruct (client_breaker c) as [settings|].
  - specialize (Hex settings eq_refl). unfold Execute. rewrite nrun_bind. simpl. destruct (net_admit n h) as [e|].
    + simpl. eexists. split; [done|]. by apply (guarded_refused _ (λ e, (None, Some e))).
    + rewrite !nrun_bind. specialize (HR (h ++ [Asked None])).
      destruct (nrun n (doWithRetry _ _ _ _ _ _) _) as [[response err] h'] eqn:Hrun.
      destruct HR as (tr & -> & Htr). simpl. rewrite Hex.
      assert (∀ s x, R tr x → s = http_settlement x → ∃ tr0,
        ((h ++ [Asked None]) ++ tr) ++ [Settled s] = h ++ tr0 ∧
        guarded true (λ e, (None, Some e)) http_settlement R tr0 x) as Hdone.
      { intros s x Hx ->. exists (Asked None :: tr ++ [Settled (http_settlement x)]).
        split; [by rewrite <- !app_assoc|]. by apply guarded_admitted. }
      destruct err as [e|]; [|destruct response as [r|]; [destruct (retryableHTTPStatus _) eqn:Hr|]]; simpl;
        (apply Hdone; [done|]); unfold http_settlement, http_failed; simpl; by rewrite ?Hr.
  - specialize (HR h). destruct (nrun n _ h) as [x h']. destruct HR as (tr & -> & Htr).
    eexists. split; [done|]. by apply guarded_off.
Qed.

End Http.

(** ** gRPC *)

Section GrpcClient.
Context `{TlsFiles}.
Context (path_Match : string → string → result bool).
Context (status_Code : goerr → Z).
Context (grpc_NewClient : string → option goerr).

Definition base : Invoker := λ ctx method, NInvoke ctx method NRet.

Definition grpc_retried (cfg : Retry) (ctx : CallContext) (method : string)
  : Z → nat → list event → option goerr → Prop :=
  retried (Invoked ctx method) (retryable_code status_Code) (grpc_backoff cfg) (λ a, a) Some.

Lemma grpc_backoff_capped retry attempt : (grpc_backoff retry attempt ≤ Retry_MaxBackoff retry)%Z.
Proof. unfold grpc_backoff. case_match; lia. Qed.

Lemma grpc_attempts_retried n cfg ctx method :
  ∀ left attempt err h, (attempt + Z.of_nat left = Retry_MaxAttempts cfg)%Z →
  let '(x, h') := nrun n (grpc_attempts status_Code cfg base ctx method attempt (S left) err) h in
  ∃ tr, h' = h ++ tr ∧ grpc_retried cfg ctx method attempt (S left) tr x.
Proof.
  induction left as [|left IH]; intros attempt err h Hl; cbn [grpc_attempts]; rewrite nrun_bind;
    cbn [base nrun fst snd]; set (a := net_invoke n h ctx method);
    destruct (retryable_code status_Code a) eqn:Ha; cbn [negb].
  2,4: eexists; (split; [done|]); by apply (retried_done _ _ _ (λ a, a)).
  - replace (attempt <? Retry_MaxAttempts cfg)%Z with false by lia. cbn [nrun].
    eexists. split; [done|]. by apply (retried_last _ _ _ (λ a, a)).
  - replace (attempt <? Retry_MaxAttempts cfg)%Z with true by lia. rewrite nrun_bind.
    cbn [waitRetry nrun fst snd]. destruct (net_wait n _ _) as [e|].
    + cbn [nrun]. rewrite <- app_assoc. eexists. split; [done|]. by apply retried_cut.
    + specialize (IH (attempt + 1)%Z a ((h ++ [Invoked ctx method a]) ++ [Waited (grpc_backoff cfg attempt) None])
        ltac:(lia)).
      destruct (nrun n _ _) as [x h']. destruct IH as (tr & -> & Htr). rewrite <- !app_assoc.
      eexists. split; [done|]. by apply retried_more.
Qed.

(** The attempts a call may take. *)
Definition grpc_limit (cfg : Retry) (ctx : CallContext) (method : string) : Z :=
  if (1 <? Retry_MaxAttempts cfg)%Z && retryGRPCMethod path_Match ctx method (Retry_Methods cfg)
  then Retry_MaxAttempts cfg else 1.

(** The last interceptor, when it is there, and the transport. *)
Definition retrying (cfg : Retry) : Invoker :=
  if (1 <? Retry_MaxAttempts cfg)%Z then retryInterceptor path_Match status_Code cfg base else base.

Lemma retrying_retried n cfg ctx method h :
  let '(x, h') := nrun n (retrying cfg ctx method) h in
  ∃ tr, h' = h ++ tr ∧ grpc_retried cfg ctx method 1 (Z.to_nat (grpc_limit cfg ctx method)) tr x.
Proof.
  assert (let '(x, h') := nrun n (base ctx method) h in
          ∃ tr, h' = h ++ tr ∧ grpc_retried cfg ctx method 1 1 tr x) as Hone.
  { cbn [base nrun]. set (a := net_invoke n h ctx method). eexists. split; [done|].
    destruct (retryable_code status_Code a) eqn:Ha;
      [by apply (retried_last _ _ _ (λ a, a))|by apply (retried_done _ _ _ (λ a, a))]. }
  unfold retrying, grpc_limit, retryInterceptor. destruct (1 <? Retry_MaxAttempts cfg)%Z eqn:Hm; [|exact Hone].
  destruct (retryGRPCMethod _ _ _ _); simpl; [|exact Hone].
  replace (Z.to_nat (Retry_MaxAttempts cfg)) with (S (Z.to_nat (Retry_MaxAttempts cfg - 1))) by lia.
  apply grpc_attempts_retried. lia.
Qed.

(** What the breaker is told: it excludes every outcome but three failures. *)
Definition grpc_settlement (x : option goerr) : settlement :=
  Build_settlement (bool_decide (is_Some x))
    (negb (call_Code status_Code x =? codes_Unavailable)
     && negb (call_Code status_Code x =? codes_ResourceExhausted)
     && negb (call_Code status_Code x =? codes_DeadlineExceeded))%Z.

(** The context a call is sent with: a deadline, and the metadata. *)
Definition sent_context (cfg : ClientConfig) (ctx : CallContext) : CallContext :=
  Build_CallContext (Some (default (ClientConfig_Timeout cfg) (call_Deadline ctx))) (call_request_id ctx)
    (call_idempotencyKey ctx)
    (call_outgoing ctx ++ metadata_pairs (ClientConfig_Token cfg) (ClientConfig_PSK cfg) ctx).

Lemma Dial_inv cfg conn (tls := ClientConfig_TLS cfg) :
  Dial path_Match status_Code grpc_NewClient cfg = Ok conn →
  conn_Target conn = ClientConfig_Target cfg ∧ transportCredentials tls = Ok (conn_Credentials conn) ∧
  (ClientConfig_Token cfg ≠ "" ∨ ClientConfig_PSK cfg ≠ "" →
   TLSConfig_Enabled tls = true ∨ TLSConfig_AllowInsecureToken tls = true) ∧
  conn_Interceptors conn =
    [timeoutInterceptor (ClientConfig_Timeout cfg);
     metadataInterceptor (ClientConfig_Token cfg) (ClientConfig_PSK cfg)]
    ++ (if Breaker_Enabled (ClientConfig_Breaker cfg)
        then [breakerInterceptor status_Code (ClientConfig_Name cfg) (ClientConfig_Breaker cfg)] else [])
    ++ (if (1 <? Retry_MaxAttempts (ClientConfig_Retry cfg))%Z
        then [retryInterceptor path_Match status_Code (ClientConfig_Retry cfg)] else []).
Proof.
  unfold Dial. fold tls. cbv zeta. destruct (_ =?s ""); [done|]. destruct (_ <=? 0)%Z; [done|].
  destruct (transportCredentials tls) as [creds|] eqn:Ht; [|done].
  destruct (_ && _ && _) eqn:Htok; [done|].
  destruct ((ClientConfig_PSK cfg <>?s "") && (ClientConfig_Token cfg <>?s "")); [done|].
  destruct ((ClientConfig_PSK cfg <>?s "") && _ && _) eqn:Hpsk; [done|]. destruct (grpc_NewClient _); [done|]. intros [= <-].
  split_and!; [done|done| |done].
  intros [Hne%String.eqb_neq|Hne%String.eqb_neq]; [rewrite Hne in Htok|rewrite Hne in Hpsk];
    destruct (TLSConfig_Enabled tls), (TLSConfig_AllowInsecureToken tls); auto.
Qed.

Lemma conn_Invoke_eq cfg conn ctx method :
  Dial path_Match status_Code grpc_NewClient cfg = Ok conn →
  conn_Invoke conn ctx method =
    (if Breaker_Enabled (ClientConfig_Breaker cfg)
     then breakerInterceptor status_Code (ClientConfig_Name cfg) (ClientConfig_Breaker cfg)
            (retrying (ClientConfig_Retry cfg)) else retrying (ClientConfig_Retry cfg))
      (sent_context cfg ctx) method.
Proof.
  intros (_ & _ & _ & Hi)%Dial_inv. unfold conn_Invoke, retrying, sent_context. rewrite Hi.
  destruct (Breaker_Enabled _), (1 <? _)%Z, ctx as [[d|] id key out]; done.
Qed.

Lemma conn_Invoke_guarded n cfg conn ctx method h :
  Dial path_Match status_Code grpc_NewClient cfg = Ok conn →
  let '(x, h') := nrun n (conn_Invoke conn ctx method) h in
  ∃ tr, h' = h ++ tr ∧
    guarded (Breaker_Enabled (ClientConfig_Breaker cfg)) Some grpc_settlement
      (grpc_retried (ClientConfig_Retry cfg) (sent_context cfg ctx) method 1
         (Z.to_nat (grpc_limit (ClientConfig_Retry cfg) (sent_context cfg ctx) method))) tr x.
Proof.
  intros Hd. rewrite (conn_Invoke_eq _ _ _ _ Hd). set (ctx' := sent_context cfg ctx).
  destruct (Breaker_Enabled _).
  - unfold breakerInterceptor, Execute. rewrite nrun_bind. simpl. destruct (net_admit n h) as [e|].
    + simpl. eexists. split; [done|]. by apply (guarded_refused _ Some).
    + rewrite !nrun_bind. pose proof (retrying_retried n (ClientConfig_Retry cfg) ctx' method (h ++ [Asked None])) as HR.
      destruct (nrun n (retrying _ _ _) _) as [x h']. destruct HR as (tr & -> & Htr). simpl.
      exists (Asked None :: tr ++ [Settled (grpc_settlement x)]). split; [by rewrite <- !app_assoc|].
      by apply guarded_admitted.
  - pose proof (retrying_retried n (ClientConfig_Retry cfg) ctx' method h) as HR.
    destruct (nrun n _ h) as [x h']. destruct HR as (tr & -> & Htr). eexists. split; [done|]. by apply guarded_off.
Qed.

End GrpcClient.

(** ** The clients of a valid configuration *)

Section Startup.
Context `{FloatMachine, TlsFiles, UrlLibrary}.
Context (path_Match : string → string → result bool).
Context (status_Code : goerr → Z).
Context (grpc_NewClient : string → option goerr).
Context (range : ∀ A, gmap string A → list (string * A)).
Context (range_visits : ∀ A (m : gmap string A), range A m ≡ₚ map_to_list m).

Lemma NewHTTPClient_inv name cfg c :
  NewHTTPClient name cfg = Ok c →
  client_cfg c = cfg ∧
  client_breaker c = (if Breaker_Enabled (HTTPUpstream_Breaker cfg)
    then Some (breaker_settings name (HTTPUpstream_Breaker cfg) http_excluded) else None) ∧
  (ClientAuth_Type (HTTPUpstream_Auth cfg) ≠ "" → ClientTLS_Enabled (HTTPUpstream_TLS cfg) = true).
Proof.
  unfold NewHTTPClient. destruct (_ && _) eqn:Ha; [done|]. destruct (url_Parse _); [|done].
  destruct (_ || _); [done|]. destruct (httpTransport _ _); [|done]. intros [= <-]. split_and!; [done|done|].
  simpl. intros Hne%String.eqb_neq. rewrite Hne in Ha. by destruct (ClientTLS_Enabled _).
Qed.

(** The files and addresses the configuration names are there. *)
Record resources_available (c : Config) : Prop := {
  available_urls : map_Forall (λ _ u, ∃ base, url_Parse (HTTPUpstream_BaseURL u) = Ok base ∧
    url_Scheme base ≠ "" ∧ url_Host base ≠ "") (Outbound_HTTP (Config_Outbound c));
  available_authorities : ∀ file, ∃ pem, os_ReadFile file = Ok pem ∧ AppendCertsFromPEM pem = true;
  available_certificates : ∀ cert key, ∃ pair, LoadX509KeyPair cert key = Ok pair;
  available_targets : ∀ target, grpc_NewClient target = None;
}.

Lemma httpTransport_ok c tls timeout : resources_available c → ∃ t, httpTransport tls timeout = Ok t.
Proof.
  intros [_ Hca Hcert _]. unfold httpTransport.
  destruct (Hca (ClientTLS_CAFile tls)) as (pem & -> & ->).
  destruct (Hcert (ClientTLS_CertFile tls) (ClientTLS_KeyFile tls)) as [pair ->].
  repeat case_match; simplify_eq/=; eauto.
Qed.

Lemma transportCredentials_ok c tls :
  resources_available c → (TLSConfig_Enabled tls = true → TLSConfig_CertFile tls = "" ↔ TLSConfig_KeyFile tls = "") →
  ∃ creds, transportCredentials tls = Ok creds ∧ (TLSConfig_Enabled tls = true → creds ≠ None).
Proof.
  intros [_ Hca Hcert _] Hpair. unfold transportCredentials.
  destruct (TLSConfig_Enabled tls); simpl; [|eauto]. specialize (Hpair eq_refl).
  destruct (Hca (TLSConfig_CAFile tls)) as (pem & -> & ->).
  destruct (Hcert (TLSConfig_CertFile tls) (TLSConfig_KeyFile tls)) as [pair ->].
  destruct (String.eqb_spec (TLSConfig_CertFile tls) "") as [Hc|Hc], (String.eqb_spec (TLSConfig_KeyFile tls) "") as [Hk|Hk];
    try (exfalso; tauto); destruct (TLSConfig_CAFile tls =?s ""); simpl; eauto.
Qed.

Lemma http_client_ok cfg name u :
  resources_available cfg → Outbound_HTTP (Config_Outbound cfg) !! name = Some u →
  valid_policy path_Match (HTTPUpstream_Auth u) (HTTPUpstream_Retry u) (HTTPUpstream_Breaker u) (HTTPUpstream_TLS u) false →
  ∃ c, NewHTTPClient name u = Ok c.
Proof.
  intros Hres Hu [Hauth _ _ _ _ _]. unfold NewHTTPClient.
  destruct (available_urls _ Hres _ _ Hu) as (b & -> & Hs%String.eqb_neq & Hh%String.eqb_neq). rewrite Hs, Hh.
  destruct (httpTransport_ok cfg (HTTPUpstream_TLS u) (HTTPUpstream_Timeout u) Hres) as [t ->]. simpl.
  destruct Hauth as [->|(_ & _ & [->|?])]; [simpl|rewrite andb_false_r|done]; eauto.
Qed.

Lemma grpc_client_ok cfg name u insecure :
  resources_available cfg → GRPCUpstream_Target u ≠ "" → (0 < GRPCUpstream_Timeout u)%Z →
  (insecure = true → GRPCUpstream_AllowInsecureCredentials u = true) →
  valid_policy path_Match (GRPCUpstream_Auth u) (GRPCUpstream_Retry u) (GRPCUpstream_Breaker u) (GRPCUpstream_TLS u) insecure →
  ∃ c, Dial path_Match status_Code grpc_NewClient (client_config name u) = Ok c ∧
    (conn_Credentials c = None →
     (ClientAuth_Type (GRPCUpstream_Auth u) = "" ∨ insecure = true) ∧ ClientTLS_Enabled (GRPCUpstream_TLS u) = false).
Proof.
  intros Hres Ht Htime Hins [Hauth _ _ _ _ Hpair]. unfold Dial, client_config. cbv zeta. simpl.
  apply String.eqb_neq in Ht. rewrite Ht. replace (GRPCUpstream_Timeout u <=? 0)%Z with false by lia.
  edestruct (transportCredentials_ok cfg) as (creds & -> & Hcreds); [done|by apply Hpair|].
  rewrite (available_targets _ Hres). simpl in *.
  assert (ClientAuth_Type (GRPCUpstream_Auth u) ≠ "" →
    negb (ClientTLS_Enabled (GRPCUpstream_TLS u)) && negb (GRPCUpstream_AllowInsecureCredentials u) = false) as Hsec.
  { destruct Hauth as [?|(_ & _ & [->|?])]; [done|done|]. rewrite Hins by done. by rewrite andb_false_r. }
  assert (creds = None →
    (ClientAuth_Type (GRPCUpstream_Auth u) = "" ∨ insecure = true) ∧ ClientTLS_Enabled (GRPCUpstream_TLS u) = false) as Hnone.
  { intros ->. destruct (ClientTLS_Enabled _); [by destruct (Hcreds eq_refl)|]. split; [|done].
    destruct Hauth as [?|(_ & _ & [?|?])]; auto; done. }
  destruct Hauth as [Htype|([Htype|Htype] & Htok & _)]; rewrite Htype in Hsec, Hnone |- *; simpl;
    rewrite <- ?andb_assoc, ?Hsec, ?andb_false_r by done; (eexists; split; [reflexivity|exact Hnone]).
Qed.

Lemma make_clients_ok {U C} (make : string → U → result C) text l m :
  (∀ name u, (name, u) ∈ l → ∃ c, make name u = Ok c) → NoDup l.*1 →
  ∃ m', make_clients make text l m = Ok m' ∧
    ∀ name, m' !! name = match (list_to_map l : gmap string U) !! name with
                         | Some u => match make name u with Ok c => Some c | Err _ => None end
                         | None => m !! name
                         end.
Proof.
  revert m. induction l as [|[k u] l IH]; intros m Hok Hnd; [by exists m|]. simpl.
  inversion_clear Hnd as [|? ? Hk Hnd'].
  destruct (Hok k u) as [c Hc]; [by left|]. rewrite Hc.
  destruct (IH (<[k:=c]> m)) as (m' & -> & Hm'); [intros ? ? Hin; apply Hok; by right|done|].
  exists m'. split; [done|]. intros name. rewrite Hm'. destruct (decide (name = k)) as [->|Hne].
  - rewrite lookup_insert_eq, (not_elem_of_list_to_map_1 l k Hk), lookup_insert_eq. by rewrite Hc.
  - by rewrite !lookup_insert_ne by done.
Qed.

(** The clients made from a map are those of its entries. *)
Lemma range_clients {U C} (make : string → U → result C) text (us : gmap string U) :
  map_Forall (λ name u, ∃ c, make name u = Ok c) us →
  ∃ m, make_clients make text (range U us) ∅ = Ok m ∧
    ∀ name, m !! name = u ← us !! name; match make name u with Ok c => Some c | Err _ => None end.
Proof.
  intros Hok. assert (NoDup (range U us).*1) as Hnd by (rewrite range_visits; apply NoDup_fst_map_to_list).
  destruct (make_clients_ok make text (range U us) ∅) as (m & Hm & Hlook); [|done|].
  - intros name u Hin. rewrite range_visits in Hin. apply elem_of_map_to_list in Hin. eauto.
  - exists m. split; [done|]. intros name. rewrite Hlook.
    assert ((list_to_map (range U us) : gmap string U) = us) as ->.
    { rewrite <- (list_to_map_to_list us) at 2. by apply list_to_map_proper. }
    by destruct (us !! name).
Qed.

(** Every upstream of a valid configuration has its client. *)
Lemma upstream_clients cfg :
  valid_config path_Match cfg → resources_available cfg →
  map_Forall (λ name u, ∃ c, NewHTTPClient name u = Ok c) (Outbound_HTTP (Config_Outbound cfg)) ∧
  map_Forall (λ name u, ∃ c, Dial path_Match status_Code grpc_NewClient (client_config name u) = Ok c ∧
    (conn_Credentials c = None →
     (ClientAuth_Type (GRPCUpstream_Auth u) = "" ∨
      GRPCUpstream_AllowInsecureCredentials u && (App_Env (Config_App cfg) <>?s "production") = true) ∧
     ClientTLS_Enabled (GRPCUpstream_TLS u) = false)) (Outbound_GRPC (Config_Outbound cfg)).
Proof.
  intros [_ _ _ _ [Hh Hg] _] Hres. split; intros name u Hu.
  - destruct (Hh _ _ Hu) as (_ & _ & Hp). by eapply http_client_ok.
  - destruct (Hg _ _ Hu) as (Ht & Htime & Hp). eapply grpc_client_ok; [exact Hres|exact Ht|exact Htime| |exact Hp].
    by intros [? _]%andb_prop.
Qed.

(** A valid configuration whose resources are there gives a registry with a client for every
    upstream. *)
Lemma NewRegistry_ok cfg :
  valid_config path_Match cfg → resources_available cfg →
  ∃ r, NewRegistry path_Match status_Code grpc_NewClient range cfg = Ok r ∧
    (∀ name, registry_HTTP r name = u ← Outbound_HTTP (Config_Outbound cfg) !! name;
       match NewHTTPClient name u with Ok c => Some c | Err _ => None end) ∧
    (∀ name, registry_GRPC r name = u ← Outbound_GRPC (Config_Outbound cfg) !! name;
       match Dial path_Match status_Code grpc_NewClient (client_config name u) with Ok c => Some c | Err _ => None end).
Proof.
  intros Hv Hres. destruct (upstream_clients cfg Hv Hres) as [Hh Hg]. unfold NewRegistry.
  destruct (range_clients NewHTTPClient "create outbound HTTP client" (Outbound_HTTP (Config_Outbound cfg)) Hh)
    as (mh & -> & Hmh).
  destruct (range_clients (λ name u, Dial path_Match status_Code grpc_NewClient (client_config name u))
    "create outbound gRPC client" (Outbound_GRPC (Config_Outbound cfg))) as (mg & -> & Hmg); [|by eexists].
  eapply map_Forall_impl; [exact Hg|]. by intros name u (c & ? & _); exists c.
Qed.

(** *** Theorems *)

(** (C18) Calls to other services refine one retry policy, whatever the network, the timers
    and the breakers answer: an HTTP request to a relative path, and a call on a dialled gRPC
    connection, sends the same request again only while the answer is a temporary failure,
    turns are left -- one, unless the method may be repeated -- and the wait is not cut
    short, and returns the last answer; so there are at most [MaxAttempts] calls and no wait
    above [MaxBackoff]. A breaker refuses the call as a whole or is told its outcome, and
    changes no result. A path that names another host makes no call. *)
Theorem outbound_calls_refine_policy n h ctx method :
  (∀ name cfg c path body headers reference, NewHTTPClient name cfg = Ok c →
     (1 ≤ Retry_MaxAttempts (HTTPUpstream_Retry cfg))%Z → url_Parse path = Ok reference →
     let '(x, h') := nrun n (Do c ctx method path body headers) h in
     let target := url_String (ResolveReference (client_baseURL c) reference) in
     let limit := Z.to_nat (http_limit c ctx method) in
     ∃ tr, h' = h ++ tr ∧
       (url_Scheme reference ≠ "" ∨ url_Host reference ≠ "" → calls tr = []) ∧
       (url_Scheme reference = "" → url_Host reference = "" → http_NewRequest method target = None →
        guarded (Breaker_Enabled (HTTPUpstream_Breaker cfg)) (λ e, (None, Some e)) http_settlement
          (http_retried c (http_request c method target body headers) 1 limit) tr x ∧
        (length (calls tr) ≤ limit)%nat ∧ waits_at_most (Retry_MaxBackoff (HTTPUpstream_Retry cfg)) tr)) ∧
  (∀ cfg conn, Dial path_Match status_Code grpc_NewClient cfg = Ok conn →
     let '(x, h') := nrun n (conn_Invoke conn ctx method) h in
     let limit := Z.to_nat (grpc_limit path_Match (ClientConfig_Retry cfg) (sent_context cfg ctx) method) in
     ∃ tr, h' = h ++ tr ∧
       guarded (Breaker_Enabled (ClientConfig_Breaker cfg)) Some (grpc_settlement status_Code)
         (grpc_retried status_Code (ClientConfig_Retry cfg) (sent_context cfg ctx) method 1 limit) tr x ∧
       (length (calls tr) ≤ limit)%nat ∧ waits_at_most (Retry_MaxBackoff (ClientConfig_Retry cfg)) tr).
Proof.
  split.
  - intros name cfg c path body headers reference (Hcfg & Hbr & _)%NewHTTPClient_inv Hmax Hp. unfold Do.
    set (target := url_String _). set (limit := Z.to_nat _).
    set (R := λ tr x, (url_Scheme reference ≠ "" ∨ url_Host reference ≠ "" → tr = []) ∧
      (url_Scheme reference = "" → url_Host reference = "" → http_NewRequest method target = None →
       http_retried c (http_request c method target body headers) 1 limit tr x)).
    pose proof (execute_guarded n c ctx method path body headers h R) as Hg.
    destruct (nrun n _ h) as [x h']. destruct Hg as (tr & -> & Hg).
    { rewrite Hbr. by case_match; intros ? [= <-]. }
    { intros h1. apply doWithRetry_either; [done|by rewrite Hcfg]. }
    exists tr. split; [done|]. split.
    + intros Habs. apply (guarded_silent _ _ _ _ _ _ Hg). by intros ? ? [Hr _]; apply Hr.
    + intros Hs Hh Hn. rewrite Hbr in Hg.
      assert (guarded (Breaker_Enabled (HTTPUpstream_Breaker cfg)) (λ e, (None, Some e)) http_settlement
        (http_retried c (http_request c method target body headers) 1 limit) tr x) as Hg'.
      { apply (guarded_mono _ _ _ R); [by intros ? ? [_ Hr]; apply Hr|]. by destruct (Breaker_Enabled _). }
      split; [done|]. eapply guarded_bounds; [|exact Hg']. intros ? ?. apply retried_bounds; [done|].
      intros i. rewrite Hcfg. apply http_backoff_capped.
  - intros cfg conn Hd. pose proof (conn_Invoke_guarded path_Match status_Code grpc_NewClient n cfg conn ctx method h Hd) as Hg.
    destruct (nrun n _ h) as [x h']. destruct Hg as (tr & -> & Hg). exists tr. split; [done|]. split; [done|].
    eapply guarded_bounds; [|exact Hg]. intros ? ?. apply retried_bounds; [done|]. intros i. apply grpc_backoff_capped.
Qed.

End Startup.
