(* ===== verification/GrpcServer.v ===== *)
(** * The gRPC server

    [NewServer] of [internal/transport/grpc/server.go]: the credentials, the chain of unary
    interceptors around the handlers of [Grpc], and the table of requirements. A call is the
    metadata it carries and one request message. The services have no streams of their own,
    those of the health and reflection services pass the chain of stream interceptors at the
    end. Recovery, logs and metrics are in [GrpcEdge]; environment values and reflection are left
    out. The health service is in [Health], starting and stopping in [Resources]. *)

From stdpp Require Import base gmap list strings.
From S2P Require Import Floats Config.
From S2P Require Import Prelude GoErrors Model Store Effects Platform Authorization Service Authn.
From S2P Require Import Dictionary Directory Grpc Http Middleware Outbound.

(** ** Credentials *)

(** The [tls.Config] of the server; [stls_ClientCAs] also asks every client for a certificate
    ([RequireAndVerifyClientCert]). The minimum version is always 1.2. *)
Record ServerTls `{TlsFiles} := Build_ServerTls {
  stls_Certificates : list Certificate; stls_ClientCAs : option string }.

Definition serverCredentials `{TlsFiles} (cfg : GRPCTLS) : result ServerTls :=
  certificate <-! LoadX509KeyPair (GRPCTLS_CertFile cfg) (GRPCTLS_KeyFile cfg)
    else err => Err (Wrapped "load grpc certificate" err);;
  stop_if GRPCTLS_ClientCAFile cfg =?s "" => Ok (Build_ServerTls _ [certificate] None);;
  pem <-! os_ReadFile (GRPCTLS_ClientCAFile cfg) else err => Err (Wrapped "read grpc client CA" err);;
  stop_if negb (AppendCertsFromPEM pem) => Err (TextError "parse grpc client CA");;
  Ok (Build_ServerTls _ [certificate] (Some pem)).

(** ** Requests and responses *)

(** The request messages, by the fields the handlers read. *)
Inductive GrpcRequest :=
| CreateTenantRequest (code name ownerUserId : string)
| GetTenantRequest (tenantId : string)
| ListTenantsRequest (page : option (Z * Z)) (keyword : string) (status : Z)
| UpdateTenantRequest (tenantId name : string) (status expectedVersion : Z)
| AddMembershipRequest (tenantId userId primaryOrganizationUnitId : string)
| UpdateMembershipRequest (membershipId : string) (status : Z) (primaryOrganizationUnitId : string)
    (expectedVersion : Z)
| ListMembershipsRequest (page : option (Z * Z)) (tenantId userId : string) (status : Z)
| SearchMembershipDirectoryRequest (tenantId keyword : string) (limit : Z)
| CreateOrganizationUnitRequest (tenantId parentId code name : string)
| GetOrganizationUnitRequest (organizationUnitId : string)
| UpdateOrganizationUnitRequest (organizationUnitId parentId name status : string) (expectedVersion : Z)
| ListOrganizationUnitsRequest (tenantId : string)
| CreateInvitationRequest (tenantId email : string) (expiresInSeconds : Z)
| AcceptInvitationRequest (token userId : string)
| RevokeInvitationRequest (invitationId : string) (expectedVersion : Z)
| GetInvitationRequest (invitationId : string)
| ListInvitationsRequest (page : option (Z * Z)) (tenantId : string)
| CreateGroupRequest (tenantId code name : string)
| UpdateGroupRequest (groupId name status : string) (expectedVersion : Z)
| GetGroupRequest (groupId : string)
| AddGroupMemberRequest (groupId membershipId : string)
| RemoveGroupMemberRequest (groupId membershipId : string) (expectedVersion : Z)
| GetGroupMemberRequest (groupId membershipId : string)
| ListGroupMembersRequest (groupId : string)
| ListGroupsRequest (tenantId : string)
| GetQuotaRequest (tenantId key : string)
| ListQuotasRequest (page : option (Z * Z)) (tenantId keyword : string)
| SetQuotaRequest (tenantId key : string) (limit expectedVersion : Z)
| ConsumeQuotaRequest (tenantId key : string) (amount : Z)
| ValidateMembershipRequest (userId tenantId : string)
| GetMembershipRequest (membershipId : string)
| ListUserTenantsRequest (page : option (Z * Z)) (userId : string)
| ResolveOrganizationScopeRequest (membershipId : string)
| DescribeRequest
| QueryRequest (tenantId dictionaryCode : string) (search : DictionarySearch)
| TreeRequest (tenantId dictionaryCode : string) (mode : TreeMode) (parentId keyword : string)
    (maxDepth maxNodes : Z) (filters : gmap string string)
| ResolveCodesRequest (tenantId dictionaryCode : string) (codes : list string).

(** [dictionaryv1.ProviderCapability] and [internal/dictionarycontract/capabilities.go]. *)
Record ProviderCapability := Build_ProviderCapability {
  Capability_DictionaryCode : string; Capability_SupportsSearch : bool; Capability_SupportsTree : bool;
  Capability_FilterKeys : list string; Capability_SortKeys : list string;
  Capability_MaxPageSize : Z; Capability_MaxTreeDepth : Z; Capability_MaxTreeNodes : Z }.
Definition Capabilities : list ProviderCapability :=
  [Build_ProviderCapability OrganizationUnitDictionaryCode true true ["status"]
     ["code"; "name"; "path"] 100 32 5000].

Definition grpc_Describe : prog (rpc (string * list ProviderCapability)) :=
  Ret (Reply ("tenant-service", Capabilities)).

(** The response messages. *)
Inductive GrpcResponse :=
| CreateTenantResponse (r : PbTenant * PbMembership)
| TenantResponse (r : PbTenant)
| TenantsResponse (r : list PbTenant * PbPageResult)
| MembershipResponse (r : PbMembership)
| MembershipsResponse (r : list PbMembership * PbPageResult)
| MembershipDirectoryResponse (r : list MembershipDirectoryEntry)
| OrganizationUnitResponse (r : PbOrganizationUnit)
| OrganizationUnitsResponse (r : list PbOrganizationUnit)
| CreateInvitationResponse (r : PbInvitation * string)
| AcceptInvitationResponse (r : PbInvitation * PbMembership)
| InvitationResponse (r : PbInvitation)
| InvitationsResponse (r : list PbInvitation * PbPageResult)
| GroupResponse (r : PbGroup)
| GroupsResponse (r : list PbGroup)
| DoneResponse (r : bool)
| GroupMemberResponse (r : PbGroupMember)
| GroupMembersResponse (r : list PbGroupMember)
| QuotaResponse (r : PbQuota)
| QuotasResponse (r : list PbQuota * PbPageResult)
| ConsumeQuotaResponse (r : PbQuota * bool)
| ValidateMembershipResponse (r : bool * option (PbTenant * PbMembership))
| ScopeResponse (r : list string)
| DescribeResponse (r : string * list ProviderCapability)
| QueryResponse (r : list DictionaryItem * PbPageResult)
| TreeResponse (r : list TreeNode * bool)
| ResolveCodesResponse (r : list ResolvedCode).

(** [tenantServer], and the dictionary provider beside it. *)
Record TenantServer := Build_TenantServer {
  ts_service : Service;
  ts_identity : option (string → Z → Z → result UserPage);
}.

(** The names of the generated code: the methods of the two services. *)
Class MethodNames := {
  TenantService_FullMethodName : string → string;
  DictionaryProviderService_FullMethodName : string → string;
}.

(** The packages of the platform the chain is made with. The authorizer's interceptor refuses a
    call or lets it through, by the requirement, the context and the credentials; that of the
    idempotency store answers itself or calls the handler, and then may note the outcome under
    what it remembers. *)
Class PlatformInterceptors `{Platform} := {
  authz_UnaryServerInterceptor :
    (string → option Requirement) → Context → Incoming → string → option rpc_error;
  idempotency_State : Type;
  idempotency_Before : list string → Context → string → GrpcRequest → prog (rpc GrpcResponse + idempotency_State);
  idempotency_After : idempotency_State → rpc GrpcResponse → prog unit;
}.

(** What a chain of interceptors ends with: an answer, or something richer. [after_answer] runs
    after a handler that has returned. *)
Class CallAnswer (R T : Type) := {
  answered : rpc R → T;
  after_answer : (rpc R → prog unit) → T → prog T;
}.
#[export] Instance rpc_answer R : CallAnswer R (rpc R) := {|
  answered a := a; after_answer f a := bind (f a) (λ _, Ret a) |}.

Definition map_rpc {A B} (f : A → B) (r : rpc A) : rpc B :=
  match r with Reply a => Reply (f a) | Fail e => Fail e end.
(** A handler's response as a message of the connection. *)
Definition respond_with {A} (f : A → GrpcResponse) (m : prog (rpc A)) : prog (rpc GrpcResponse) :=
  bind m (λ r, Ret (map_rpc f r)).

(** ** The table of requirements *)

Definition grpc_requirements : list (string * Requirement) := [
  ("GetMembership", Build_Requirement "tenant.membership" "read" ScopePrincipal);
  ("GetGroup", Build_Requirement "tenant.group" "read" ScopePrincipal);
  ("GetTenant", Build_Requirement "tenant.profile" "read" ScopePlatform);
  ("ListTenants", Build_Requirement "tenant.profile" "list" ScopePlatform);
  ("UpdateTenant", Build_Requirement "tenant.profile" "update" ScopePlatform);
  ("AddMembership", Build_Requirement "tenant.membership" "create" ScopePrincipal);
  ("UpdateMembership", Build_Requirement "tenant.membership" "update" ScopePrincipal);
  ("ListMemberships", Build_Requirement "tenant.membership" "list" ScopePrincipal);
  ("SearchMembershipDirectory", Build_Requirement "tenant.membership" "list" ScopePrincipal);
  ("CreateOrganizationUnit", Build_Requirement "tenant.organization-unit" "create" ScopePrincipal);
  ("GetOrganizationUnit", Build_Requirement "tenant.organization-unit" "read" ScopePrincipal);
  ("UpdateOrganizationUnit", Build_Requirement "tenant.organization-unit" "update" ScopePrincipal);
  ("ListOrganizationUnits", Build_Requirement "tenant.organization-unit" "list" ScopePrincipal);
  ("CreateInvitation", Build_Requirement "tenant.invitation" "create" ScopePrincipal);
  ("GetInvitation", Build_Requirement "tenant.invitation" "read" ScopePrincipal);
  ("RevokeInvitation", Build_Requirement "tenant.invitation" "revoke" ScopePrincipal);
  ("ListInvitations", Build_Requirement "tenant.invitation" "list" ScopePrincipal);
  ("CreateGroup", Build_Requirement "tenant.group" "create" ScopePrincipal);
  ("UpdateGroup", Build_Requirement "tenant.group" "update" ScopePrincipal);
  ("AddGroupMember", Build_Requirement "tenant.group" "add-member" ScopePrincipal);
  ("GetGroupMember", Build_Requirement "tenant.group" "read-member" ScopePrincipal);
  ("RemoveGroupMember", Build_Requirement "tenant.group" "remove-member" ScopePrincipal);
  ("ListGroupMembers", Build_Requirement "tenant.group" "list-members" ScopePrincipal);
  ("ListGroups", Build_Requirement "tenant.group" "list" ScopePrincipal);
  ("GetQuota", Build_Requirement "tenant.quota" "read" ScopePrincipal);
  ("ListQuotas", Build_Requirement "tenant.quota" "list" ScopePrincipal);
  ("SetQuota", Build_Requirement "tenant.quota" "update" ScopePrincipal);
  ("ConsumeQuota", Build_Requirement "tenant.quota" "consume" ScopePrincipal)].

Definition tenantGRPCRequirement `{MethodNames} (enabled : bool) (method : string) : option Requirement :=
  if negb enabled then None
  else snd <$> List.find (λ '(name, _), TenantService_FullMethodName name =?s method) grpc_requirements.

Section Server.
Context `{Platform, !ProtoEnums, MethodNames, !PlatformInterceptors, FloatMachine, JwtLibrary, TlsFiles}.
Context (path_Match : string → string → result bool).
Context (idempotency_Valid : string → bool).

(** ** Handlers *)

(** The method a message is sent to. *)
Definition method_of (r : GrpcRequest) : string :=
  match r with
  | CreateTenantRequest _ _ _ => TenantService_FullMethodName "CreateTenant"
  | GetTenantRequest _ => TenantService_FullMethodName "GetTenant"
  | ListTenantsRequest _ _ _ => TenantService_FullMethodName "ListTenants"
  | UpdateTenantRequest _ _ _ _ => TenantService_FullMethodName "UpdateTenant"
  | AddMembershipRequest _ _ _ => TenantService_FullMethodName "AddMembership"
  | UpdateMembershipRequest _ _ _ _ => TenantService_FullMethodName "UpdateMembership"
  | ListMembershipsRequest _ _ _ _ => TenantService_FullMethodName "ListMemberships"
  | SearchMembershipDirectoryRequest _ _ _ => TenantService_FullMethodName "SearchMembershipDirectory"
  | CreateOrganizationUnitRequest _ _ _ _ => TenantService_FullMethodName "CreateOrganizationUnit"
  | GetOrganizationUnitRequest _ => TenantService_FullMethodName "GetOrganizationUnit"
  | UpdateOrganizationUnitRequest _ _ _ _ _ => TenantService_FullMethodName "UpdateOrganizationUnit"
  | ListOrganizationUnitsRequest _ => TenantService_FullMethodName "ListOrganizationUnits"
  | CreateInvitationRequest _ _ _ => TenantService_FullMethodName "CreateInvitation"
  | AcceptInvitationRequest _ _ => TenantService_FullMethodName "AcceptInvitation"
  | RevokeInvitationRequest _ _ => TenantService_FullMethodName "RevokeInvitation"
  | GetInvitationRequest _ => TenantService_FullMethodName "GetInvitation"
  | ListInvitationsRequest _ _ => TenantService_FullMethodName "ListInvitations"
  | CreateGroupRequest _ _ _ => TenantService_FullMethodName "CreateGroup"
  | UpdateGroupRequest _ _ _ _ => TenantService_FullMethodName "UpdateGroup"
  | GetGroupRequest _ => TenantService_FullMethodName "GetGroup"
  | AddGroupMemberRequest _ _ => TenantService_FullMethodName "AddGroupMember"
  | RemoveGroupMemberRequest _ _ _ => TenantService_FullMethodName "RemoveGroupMember"
  | GetGroupMemberRequest _ _ => TenantService_FullMethodName "GetGroupMember"
  | ListGroupMembersRequest _ => TenantService_FullMethodName "ListGroupMembers"
  | ListGroupsRequest _ => TenantService_FullMethodName "ListGroups"
  | GetQuotaRequest _ _ => TenantService_FullMethodName "GetQuota"
  | ListQuotasRequest _ _ _ => TenantService_FullMethodName "ListQuotas"
  | SetQuotaRequest _ _ _ _ => TenantService_FullMethodName "SetQuota"
  | ConsumeQuotaRequest _ _ _ => TenantService_FullMethodName "ConsumeQuota"
  | ValidateMembershipRequest _ _ => TenantService_FullMethodName "ValidateMembership"
  | GetMembershipRequest _ => TenantService_FullMethodName "GetMembership"
  | ListUserTenantsRequest _ _ => TenantService_FullMethodName "ListUserTenants"
  | ResolveOrganizationScopeRequest _ => TenantService_FullMethodName "ResolveOrganizationScope"
  | DescribeRequest => DictionaryProviderService_FullMethodName "Describe"
  | QueryRequest _ _ _ => DictionaryProviderService_FullMethodName "Query"
  | TreeRequest _ _ _ _ _ _ _ _ => DictionaryProviderService_FullMethodName "Tree"
  | ResolveCodesRequest _ _ _ => DictionaryProviderService_FullMethodName "ResolveCodes"
  end.

(** The registered services: the handler of a message. *)
Definition handle (t : TenantServer) (ctx : Context) (r : GrpcRequest) : prog (rpc GrpcResponse) :=
  let s := ts_service t in
  match r with
  | CreateTenantRequest code name owner => respond_with CreateTenantResponse (grpc_CreateTenant s ctx code name owner)
  | GetTenantRequest id => respond_with TenantResponse (grpc_GetTenant s ctx id)
  | ListTenantsRequest page keyword status => respond_with TenantsResponse (grpc_ListTenants s ctx page keyword status)
  | UpdateTenantRequest id name status v => respond_with TenantResponse (grpc_UpdateTenant s ctx id name status v)
  | AddMembershipRequest t u o => respond_with MembershipResponse (grpc_AddMembership s ctx t u o)
  | UpdateMembershipRequest m status o v => respond_with MembershipResponse (grpc_UpdateMembership s ctx m status o v)
  | ListMembershipsRequest page t u status => respond_with MembershipsResponse (grpc_ListMemberships s ctx page t u status)
  | SearchMembershipDirectoryRequest tenant keyword limit =>
      respond_with MembershipDirectoryResponse (grpc_SearchMembershipDirectory s ctx (ts_identity t) tenant keyword limit)
  | CreateOrganizationUnitRequest t p code name =>
      respond_with OrganizationUnitResponse (grpc_CreateOrganizationUnit s ctx t p code name)
  | GetOrganizationUnitRequest u => respond_with OrganizationUnitResponse (grpc_GetOrganizationUnit s ctx u)
  | UpdateOrganizationUnitRequest u p name status v =>
      respond_with OrganizationUnitResponse (grpc_UpdateOrganizationUnit s ctx u p name status v)
  | ListOrganizationUnitsRequest t => respond_with OrganizationUnitsResponse (grpc_ListOrganizationUnits s ctx t)
  | CreateInvitationRequest t email e => respond_with CreateInvitationResponse (grpc_CreateInvitation s ctx t email e)
  | AcceptInvitationRequest token u => respond_with AcceptInvitationResponse (grpc_AcceptInvitation s ctx token u)
  | RevokeInvitationRequest i v => respond_with InvitationResponse (grpc_RevokeInvitation s ctx i v)
  | GetInvitationRequest i => respond_with InvitationResponse (grpc_GetInvitation s ctx i)
  | ListInvitationsRequest page t => respond_with InvitationsResponse (grpc_ListInvitations s ctx page t)
  | CreateGroupRequest t code name => respond_with GroupResponse (grpc_CreateGroup s ctx t code name)
  | UpdateGroupRequest g name status v => respond_with GroupResponse (grpc_UpdateGroup s ctx g name status v)
  | GetGroupRequest g => respond_with GroupResponse (grpc_GetGroup s ctx g)
  | AddGroupMemberRequest g m => respond_with DoneResponse (grpc_AddGroupMember s ctx g m)
  | RemoveGroupMemberRequest g m v => respond_with DoneResponse (grpc_RemoveGroupMember s ctx g m v)
  | GetGroupMemberRequest g m => respond_with GroupMemberResponse (grpc_GetGroupMember s ctx g m)
  | ListGroupMembersRequest g => respond_with GroupMembersResponse (grpc_ListGroupMembers s ctx g)
  | ListGroupsRequest t => respond_with GroupsResponse (grpc_ListGroups s ctx t)
  | GetQuotaRequest t key => respond_with QuotaResponse (grpc_GetQuota s ctx t key)
  | ListQuotasRequest page t keyword => respond_with QuotasResponse (grpc_ListQuotas s ctx page t keyword)
  | SetQuotaRequest t key limit v => respond_with QuotaResponse (grpc_SetQuota s ctx t key limit v)
  | ConsumeQuotaRequest t key a => respond_with ConsumeQuotaResponse (grpc_ConsumeQuota s ctx t key a)
  | ValidateMembershipRequest u t => respond_with ValidateMembershipResponse (grpc_ValidateMembership s ctx u t)
  | GetMembershipRequest m => respond_with MembershipResponse (grpc_GetMembership s ctx m)
  | ListUserTenantsRequest page u => respond_with TenantsResponse (grpc_ListUserTenants s ctx page u)
  | ResolveOrganizationScopeRequest m => respond_with ScopeResponse (grpc_ResolveOrganizationScope s ctx m)
  | DescribeRequest => respond_with DescribeResponse grpc_Describe
  | QueryRequest t code search => respond_with QueryResponse (grpc_Query t code search)
  | TreeRequest t code mode p keyword maxDepth maxNodes filters =>
      respond_with TreeResponse (grpc_Tree t code mode p keyword maxDepth maxNodes filters)
  | ResolveCodesRequest t code codes => respond_with ResolveCodesResponse (grpc_ResolveCodes t code codes)
  end.

(** ** The server *)

(** A call: the context of the connection, the metadata and the message. *)
Record GrpcCall := Build_GrpcCall {
  g_ctx : Context; g_md : Incoming; g_request : GrpcRequest }.

(** The services and the configuration the chain is made from, the address and the credentials
    ([None] without TLS). *)
Record Server := Build_Server {
  gs_cfg : Config;
  gs_auth : AuthService;
  gs_tenants : TenantServer;
  gs_credentials : option ServerTls;
}.

Definition NewServer (cfg : Config) (authService : AuthService) (tenants : TenantServer) : result Server :=
  credentials <-! (if GRPCTLS_Enabled (GRPC_TLS (Config_GRPC cfg)) then
                     match serverCredentials (GRPC_TLS (Config_GRPC cfg)) with
                     | Err err => Err err
                     | Ok creds => Ok (Some creds)
                     end
                   else Ok None)
    else err => Err err;;
  Ok (Build_Server cfg authService tenants credentials).

Section Chain.
Context {T : Type} `{!CallAnswer GrpcResponse T}.

(** [platformidempotency.UnaryServerInterceptor]. *)
Definition idempotent (methods : list string) (ctx : Context) (r : GrpcRequest) (handler : prog T) : prog T :=
  bind (idempotency_Before methods ctx (method_of r) r) (λ before,
    match before with
    | inl answer => Ret (answered answer)
    | inr state => bind handler (after_answer (idempotency_After state))
    end).

(** The interceptors after the identifier of the request, around the handler; [recovery] is
    around those after the idempotency key. *)
Definition call_chain (recovery : prog T → prog T) (handler : Context → prog T) (srv : Server) (c : GrpcCall)
  : prog T :=
  match idempotencyInterceptor idempotency_Valid (g_ctx c) (g_md c) with
  | Fail e => Ret (answered (Fail e))
  | Reply ctx =>
      recovery
        match authenticateGRPC path_Match (Verify (gs_auth srv)) ctx (g_md c) (method_of (g_request c))
                (Config_Auth (gs_cfg srv)) with
        | Fail e => Ret (answered (Fail e))
        | Reply ctx =>
            match authz_UnaryServerInterceptor
                    (tenantGRPCRequirement (Authorization_Enabled (Config_Authorization (gs_cfg srv))))
                    ctx (g_md c) (method_of (g_request c)) with
            | Some e => Ret (answered (Fail e))
            | None =>
                idempotent (Idempotency_GRPCMethods (Config_Idempotency (gs_cfg srv))) ctx (g_request c) (handler ctx)
            end
        end
  end.

End Chain.

(** The chain around the handlers of the server, which do not panic. *)
Definition authenticated_call (srv : Server) (c : GrpcCall) : prog (rpc GrpcResponse) :=
  call_chain (λ call, call) (λ ctx, handle (gs_tenants srv) ctx (g_request c)) srv c.

(** The whole chain; the identifier of the request is sent with the answer. The rest of the
    interceptors is in [GrpcEdge]. *)
Definition ServeGRPC (srv : Server) (c : GrpcCall) : prog (string * rpc GrpcResponse) :=
  requestIDInterceptor (g_md c) (λ id, bind (authenticated_call srv c) (λ answer, Ret (id, answer))).

(** ** Streams *)

Section Streams.
Context {T : Type} `{!CallAnswer unit T}.

(** [requestIDStreamInterceptor]: the identifier is set as a header of the stream, which may
    fail, before the handler is called. *)
Definition requestIDStreamInterceptor (md : Incoming) (SetHeader : string → option goerr)
    (handler : string → prog T) : prog T :=
  requestIDInterceptor md (λ id,
    match SetHeader id with
    | Some _ => Ret (answered (Fail (StatusError codes_Internal "set request metadata")))
    | None => handler id
    end).

(** [idempotencyStreamInterceptor] and [authStreamInterceptor]. *)
Definition idempotencyStreamInterceptor (ctx : Context) (md : Incoming) (handler : Context → prog T) : prog T :=
  match idempotencyInterceptor idempotency_Valid ctx md with Fail e => Ret (answered (Fail e)) | Reply ctx => handler ctx end.
Definition authStreamInterceptor (srv : Server) (method : string) (ctx : Context) (md : Incoming)
    (handler : Context → prog T) : prog T :=
  match authenticateGRPC path_Match (Verify (gs_auth srv)) ctx md method (Config_Auth (gs_cfg srv)) with
  | Fail e => Ret (answered (Fail e))
  | Reply ctx => handler ctx
  end.

(** The chain of stream interceptors around a handler; there is no authorizer in it. *)
Definition stream_chain (recovery : prog T → prog T) (srv : Server) (method : string) (ctx : Context) (md : Incoming)
    (SetHeader : string → option goerr) (handler : Context → prog T) : prog T :=
  requestIDStreamInterceptor md SetHeader (λ _,
    idempotencyStreamInterceptor ctx md (λ ctx, recovery (authStreamInterceptor srv method ctx md handler))).

End Streams.

Definition ServeStream (srv : Server) (method : string) (ctx : Context) (md : Incoming)
    (SetHeader : string → option goerr) (handler : Context → prog (rpc unit)) : prog (rpc unit) :=
  stream_chain (λ call, call) srv method ctx md SetHeader handler.

End Server.
