(* ===== verification/ServerProofs.v ===== *)
(** * The two servers and the service

    What calls over gRPC can do to the database, and both transports together: in any
    interleaving of calls over HTTP and over gRPC nothing is changed but what the service
    commits for the caller a server has authenticated. And which gRPC methods are open. *)

From Stdlib Require Import Ascii.
From stdpp Require Import base gmap list strings.
From S2P Require Import Floats Config.
From S2P Require Import Prelude GoErrors Model Store Effects Platform Authorization Service Authn.
From S2P Require Import Repository Tables Invariants Commits Dictionary Requests Concurrency Returns Directory Clients.
From S2P Require Import Json HttpBodies HttpRequests Http Middleware Router HttpProofs Grpc Outbound.
From S2P Require Import GrpcServer.

(** The idempotency store is not the database. *)
Class InterceptorLaws `{Platform, !PlatformInterceptors} := {
  before_readonly methods ctx method r : readonly (idempotency_Before methods ctx method r);
  after_readonly state answer : readonly (idempotency_After state answer);
}.

Section Grpc.
Context `{Platform, !AuditLaws, !ProtoEnums, MethodNames, !PlatformInterceptors, !InterceptorLaws}.
Context `{JwtLibrary, TlsFiles}.
Context (path_Match : string → string → result bool).
Context (idempotency_Valid : string → bool).
Implicit Types (C : Context → Prop) (c : GrpcCall).

(** ** Handlers *)

Lemma safe_respond C {A} (f : A → GrpcResponse) (m : prog (rpc A)) : safe C m → safe C (respond_with f m).
Proof. intros Hm. apply safe_bind; [done|]. intros a. by apply safe_readonly. Qed.

Lemma safe_grpc_answer {X A} C h (f : X → A) (m : prog (X * option goerr)) : safe C m → safe C (Grpc.answer h f m).
Proof. intros Hm. apply safe_bind; [done|]. intros a. by apply safe_readonly. Qed.

Lemma safe_acknowledge C (m : prog (option goerr)) : safe C m → safe C (acknowledge m).
Proof. intros Hm. apply safe_bind; [done|]. intros a. by apply safe_readonly. Qed.

Lemma Query_readonly tenantID code search : readonly (Dictionary.Query tenantID code search).
Proof.
  unfold Dictionary.Query. case_match; [done|]. cbv zeta. case_match; [done|].
  intros [items|e]; [|done]. cbn [bind wrap_query].
  match goal with |- readonly (match ?o with Some _ => _ | None => _ end) => by destruct o end.
Qed.

Lemma ResolveCodes_readonly tenantID code codes : readonly (ResolveCodes tenantID code codes).
Proof. unfold ResolveCodes. case_match; [done|]. case_match; [done|]. by intros [items|e]. Qed.

Lemma safe_provide {X A} C (f : X → A) (m : prog (result X)) : readonly m → safe C (provide f m).
Proof. intros Hm. apply safe_readonly, readonly_bind; [done|]. by intros [?|?]. Qed.

Lemma handle_safe C t ctx r : C ctx → safe C (handle t ctx r).
Proof.
  intros HC. destruct r; apply safe_respond.
  all: try (apply safe_grpc_answer; safe_service; exact HC).
  all: try (apply safe_acknowledge; safe_service; exact HC).
  - unfold grpc_ListTenants. case_match. case_match; [by apply safe_readonly|].
    apply safe_grpc_answer. safe_service; exact HC.
  - unfold grpc_ListMemberships. case_match. apply safe_grpc_answer. safe_service; exact HC.
  - apply safe_bind; [by apply search_safe|]. intros a. by apply safe_readonly.
  - unfold grpc_ListInvitations. case_match. apply safe_grpc_answer. safe_service; exact HC.
  - unfold grpc_ListQuotas. case_match. apply safe_grpc_answer. safe_service; exact HC.
  - apply safe_bind; [safe_service; exact HC|]. intros [[? ?] ?]. by apply safe_readonly.
  - unfold grpc_ListUserTenants. case_match. apply safe_grpc_answer. safe_service; exact HC.
  - by apply safe_readonly.
  - apply safe_provide, Query_readonly.
  - apply safe_provide, Tree_readonly.
  - apply safe_provide, ResolveCodes_readonly.
Qed.

(** ** The chain *)

(** Who a call of a method with this context and metadata is taken for. *)
Inductive authenticated_by (srv : GrpcServer.Server) method (ctx : Context) (md : Incoming) : result Principal → Prop :=
| grpc_psk scheme rest (cfg := Auth_PSK (Config_Auth (gs_cfg srv))) :
    PSK_Enabled cfg = true → MatchesAny path_Match method (PSK_GRPCMethods cfg) = true →
    md_authorization md = (scheme +:+ String " " (PSK_Key cfg)) :: rest → EqualFold scheme "PSK" = true →
    PSK_Key cfg ≠ "" → authenticated_by srv method ctx md (Ok (Build_Principal "psk" TypeServiceAccount "" ""))
| grpc_exempt :
    MatchesAny path_Match method (Auth_SkipGRPCMethods (Config_Auth (gs_cfg srv))) = true →
    authenticated_by srv method ctx md (ctx_principal ctx)
| grpc_bearer scheme token rest p :
    md_authorization md = (scheme +:+ String " " token) :: rest → EqualFold scheme "Bearer" = true →
    Verify (gs_auth srv) token = Ok p → authenticated_by srv method ctx md (Ok p).

(** The contexts its handler may see. *)
Record caller_with (srv : GrpcServer.Server) method (ctx : Context) (md : Incoming) (ctx' : Context) : Prop := {
  grpc_caller_principal : authenticated_by srv method ctx md (ctx_principal ctx');
  grpc_caller_platform : ctx_platformAdministration ctx' = ctx_platformAdministration ctx;
}.

(** The same for a call of this server. *)
Definition grpc_authenticated (srv : GrpcServer.Server) c : result Principal → Prop :=
  authenticated_by srv (method_of (g_request c)) (g_ctx c) (g_md c).
Definition grpc_caller (srv : GrpcServer.Server) c : Context → Prop :=
  caller_with srv (method_of (g_request c)) (g_ctx c) (g_md c).

Lemma authenticated_caller srv method ctx0 md ctx ctx' :
  idempotencyInterceptor idempotency_Valid ctx0 md = Reply ctx →
  authenticateGRPC path_Match (Verify (gs_auth srv)) ctx md method (Config_Auth (gs_cfg srv)) = Reply ctx' →
  caller_with srv method ctx0 md ctx'.
Proof.
  intros Hi Ha.
  assert (ctx_principal ctx = ctx_principal ctx0 ∧ ctx_platformAdministration ctx = ctx_platformAdministration ctx0)
    as [Hp Hf].
  { unfold idempotencyInterceptor in Hi. destruct (md_idempotency_key _); try case_match; by simplify_eq. }
  destruct (authentication_cases _ _ _ _ _ _ _ Ha) as [Hplat Hcases].
  split; [|by rewrite Hplat]. destruct (PSK_Enabled _ && _) eqn:Hpsk.
  - apply andb_prop in Hpsk as [? ?]. destruct Hcases as (-> & scheme & rest & ? & ? & ?). by eapply grpc_psk.
  - destruct Hcases as [[? ->]|(scheme & token & rest & p & ? & ? & ? & ->)].
    + rewrite Hp. by apply grpc_exempt.
    + by eapply grpc_bearer.
Qed.

Lemma call_caller srv c ctx ctx' :
  idempotencyInterceptor idempotency_Valid (g_ctx c) (g_md c) = Reply ctx →
  authenticateGRPC path_Match (Verify (gs_auth srv)) ctx (g_md c) (method_of (g_request c))
    (Config_Auth (gs_cfg srv)) = Reply ctx' → grpc_caller srv c ctx'.
Proof. apply authenticated_caller. Qed.

(** What the handler of a stream does matters only at the contexts of authenticated callers. *)
Lemma stream_callers srv method ctx md SetHeader handler handler' env w :
  (∀ ctx', caller_with srv method ctx md ctx' → handler ctx' = handler' ctx') →
  run env (ServeStream path_Match idempotency_Valid srv method ctx md SetHeader handler) w
  = run env (ServeStream path_Match idempotency_Valid srv method ctx md SetHeader handler') w.
Proof.
  intros Hh.
  assert (∀ id, match SetHeader id with
    | Some _ => Ret (Fail (StatusError codes_Internal "set request metadata"))
    | None => idempotencyStreamInterceptor idempotency_Valid ctx md
                (λ ctx, authStreamInterceptor path_Match srv method ctx md handler)
    end = match SetHeader id with
    | Some _ => Ret (Fail (StatusError codes_Internal "set request metadata"))
    | None => idempotencyStreamInterceptor idempotency_Valid ctx md
                (λ ctx, authStreamInterceptor path_Match srv method ctx md handler')
    end) as He.
  { intros id. destruct (SetHeader id); [done|].
    unfold idempotencyStreamInterceptor. destruct (idempotencyInterceptor _ _ _) as [ctx1|e] eqn:Hi; [|done].
    unfold authStreamInterceptor. destruct (authenticateGRPC _ _ _ _ _ _) as [ctx2|e] eqn:Ha; [|done].
    apply Hh. by eapply authenticated_caller. }
  unfold ServeStream, stream_chain, requestIDStreamInterceptor, requestIDInterceptor.
  case_match; [|by rewrite He]. rewrite !run_bind. destruct (run env Generate w) as [id w1]. by rewrite He.
Qed.

Lemma idempotent_safe C methods ctx r handler : safe C handler → safe C (idempotent methods ctx r handler).
Proof.
  intros Hh. apply safe_bind; [apply safe_readonly, before_readonly|].
  intros [answer|state]; [by apply safe_readonly|]. apply safe_bind; [done|]. intros answer.
  apply safe_readonly, readonly_bind; [apply after_readonly|done].
Qed.

Lemma requestID_safe {A} C md (handler : string → prog A) :
  (∀ id, safe C (handler id)) → safe C (requestIDInterceptor md handler).
Proof.
  intros Hh. unfold requestIDInterceptor. case_match; [|by apply Hh].
  apply safe_bind; [|done]. apply safe_readonly. by intros [?|?].
Qed.

Lemma safe_ServeGRPC srv c :
  safe (grpc_caller srv c) (ServeGRPC path_Match idempotency_Valid srv c).
Proof.
  apply requestID_safe. intros id. apply safe_bind; [|intros a; by apply safe_readonly]. unfold authenticated_call, call_chain.
  destruct (idempotencyInterceptor _ _ _) as [ctx1|e] eqn:Hi; [|by apply safe_readonly].
  destruct (authenticateGRPC _ _ _ _ _ _) as [ctx2|e] eqn:Ha; [|by apply safe_readonly].
  destruct (authz_UnaryServerInterceptor _ _ _ _) as [e|]; [by apply safe_readonly|].
  apply idempotent_safe, handle_safe. by eapply call_caller.
Qed.

(** ** Open methods *)

(** The methods anyone a server has authenticated may call. *)
Definition open_method (r : GrpcRequest) : bool :=
  match r with
  | CreateTenantRequest _ _ _ | AcceptInvitationRequest _ _ | ListUserTenantsRequest _ _
  | ValidateMembershipRequest _ _ | ResolveOrganizationScopeRequest _
  | DescribeRequest | QueryRequest _ _ _ | TreeRequest _ _ _ _ _ _ _ _ | ResolveCodesRequest _ _ _ => true
  | _ => false
  end.

(** The names of the generated code are distinct. *)
Class MethodLaws := {
  tenant_method_inj a b : TenantService_FullMethodName a = TenantService_FullMethodName b → a = b;
  tenant_dictionary_methods a b : TenantService_FullMethodName a ≠ DictionaryProviderService_FullMethodName b;
}.

Lemma requirement_by_name `{!MethodLaws} name :
  tenantGRPCRequirement true (TenantService_FullMethodName name)
  = snd <$> List.find (λ '(n, _), n =?s name) grpc_requirements.
Proof.
  unfold tenantGRPCRequirement. simpl negb. cbv iota. f_equal.
  induction grpc_requirements as [|[n req] l IH]; simpl; [done|]. rewrite IH.
  destruct (String.eqb_spec n name) as [->|Hne]; [by rewrite String.eqb_refl|].
  destruct (String.eqb_spec (TenantService_FullMethodName n) (TenantService_FullMethodName name)) as [He|]; [|done].
  by apply tenant_method_inj in He.
Qed.

Lemma dictionary_open `{!MethodLaws} name :
  tenantGRPCRequirement true (DictionaryProviderService_FullMethodName name) = None.
Proof.
  unfold tenantGRPCRequirement. simpl negb. cbv iota.
  destruct (List.find _ _) as [[n req]|] eqn:Hf; [|done].
  apply List.find_some in Hf as [_ Hn]. apply String.eqb_eq in Hn. by apply tenant_dictionary_methods in Hn.
Qed.

(** A call that is refused before its handler writes nothing and is answered by an error. *)
Lemma denied_ServeGRPC srv c env w :
  (∀ ctx, grpc_caller srv c ctx → authz_UnaryServerInterceptor
     (tenantGRPCRequirement (Authorization_Enabled (Config_Authorization (gs_cfg srv)))) ctx (g_md c)
     (method_of (g_request c)) ≠ None) →
  let '(r, w') := run env (ServeGRPC path_Match idempotency_Valid srv c) w in
  (∃ e, snd r = Fail e) ∧ w_db w' = w_db w.
Proof.
  intros Hdeny. set (p := ServeGRPC _ _ srv c). set (failed := λ r : string * rpc GrpcResponse, ∃ e, snd r = Fail e).
  assert (readonly p ∧ returns failed p) as [Hr Hs].
  { assert (∀ id, let q := bind (authenticated_call path_Match idempotency_Valid srv c) (λ answer, Ret (id, answer)) in
      readonly q ∧ returns failed q) as Hq.
    { intros id. unfold authenticated_call, call_chain, failed.
      destruct (idempotencyInterceptor _ _ _) as [ctx1|e] eqn:Hi; [|split; simpl; by eauto].
      destruct (authenticateGRPC _ _ _ _ _ _) as [ctx2|e] eqn:Ha; [|split; simpl; by eauto].
      destruct (authz_UnaryServerInterceptor _ _ _ _) as [e|] eqn:Hz; [split; simpl; by eauto|].
      exfalso. eapply Hdeny, Hz. by eapply call_caller. }
    subst p. unfold ServeGRPC, requestIDInterceptor. case_match; [|apply Hq].
    split; [apply readonly_bind; [by intros [?|?]|]; intros id; apply Hq|].
    apply returns_bind, returns_any. intros id. apply Hq. }
  pose proof (readonly_run env _ w Hr) as Hdb. pose proof (returns_run env _ _ w Hs) as Hst.
  by destruct (run env p w) as [r w'].
Qed.


End Grpc.

(** ** Both transports *)

Section Servers.
Context `{Platform, !AuditLaws, !ProtoEnums, MethodNames, !PlatformInterceptors, !InterceptorLaws}.
Context `{JsonText, FloatMachine, JwtLibrary, TlsFiles}.
Context (path_Match : string → string → result bool).
Context (mime_ParseMediaType : string → result string).
Context (idempotency_Valid : string → bool).

Inductive Call := OverHTTP (c : Gin) | OverGRPC (c : GrpcCall).
Definition call_context (c : Call) : Context :=
  match c with OverHTTP c => c_ctx c | OverGRPC c => g_ctx c end.

Definition serve_call (srv : Router.Server) (gsrv : GrpcServer.Server) (c : Call)
  : prog (HttpReply + string * rpc GrpcResponse) :=
  match c with
  | OverHTTP c => bind (ServeHTTP path_Match mime_ParseMediaType idempotency_Valid srv c) (λ r, Ret (inl r))
  | OverGRPC c => bind (ServeGRPC path_Match idempotency_Valid gsrv c) (λ r, Ret (inr r))
  end.

(** Who a call is taken for, and when it is made a platform administrator's: on a route of
    platform scope of the HTTP server, after the authorizer has allowed it. *)
Definition caller_of (srv : Router.Server) (gsrv : GrpcServer.Server) (c : Call) (p : result Principal) : Prop :=
  match c with
  | OverHTTP c => authenticated_as path_Match srv c p
  | OverGRPC c => grpc_authenticated path_Match gsrv c p
  end.
Definition made_administrator (srv : Router.Server) (c : Call) (p : result Principal) : Prop :=
  match c with
  | OverHTTP c => server_authorization srv = true ∧ ∃ requirement ctx0 credential,
      tenantHTTPRequirement (c_FullPath c) = Some requirement ∧
      Requirement_Scope requirement = ScopePlatform ∧ ctx_principal ctx0 = p ∧
      server_Enforce srv ctx0 credential requirement = None
  | OverGRPC _ => False
  end.

Lemma safe_serve_call srv gsrv c :
  safe (λ ctx, caller_of srv gsrv c (ctx_principal ctx) ∧
    (ctx_platformAdministration ctx = true →
     ctx_platformAdministration (call_context c) = true ∨ made_administrator srv c (ctx_principal ctx)))
    (serve_call srv gsrv c).
Proof.
  destruct c as [c|c]; simpl; (apply safe_bind; [|intros r; by apply safe_readonly]).
  - eapply safe_weaken; [|apply safe_ServeHTTP]. intros ctx [? Hplat]. by split.
  - eapply safe_weaken; [|apply safe_ServeGRPC]. intros ctx [? Hplat]. split; [done|]. rewrite Hplat. by left.
Qed.

(** (C4) End to end: in any interleaving of any calls to the HTTP server and to the gRPC
    server -- of any route or method, with any body, message and headers -- the database
    invariant holds, and a call changes the database only as one commit with one event, on
    the rows of one tenant, for a caller who is the bearer of a token that verifies (or holds
    the pre-shared key, or uses an exempt path) and may act on this tenant, creates it or
    accepts its invitation; the caller is a platform administrator only on an HTTP route of
    platform scope the authorizer has allowed, and never over gRPC. *)
Theorem requests_isolated srv gsrv calls env w ps w1 ps' w2 :
  inv (w_db w) →
  (∀ i c, calls !! i = Some c → ctx_platformAdministration (call_context c) = false) →
  pool_steps env (serve_call srv gsrv <$> calls, w) (ps, w1) →
  pool_step env (ps, w1) (ps', w2) →
  inv (w_db w2) ∧
  (w_db w2 = w_db w1 ∨
   ∃ i c ctx T e, calls !! i = Some c ∧ caller_of srv gsrv c (ctx_principal ctx) ∧
     (ctx_platformAdministration ctx = true → made_administrator srv c (ctx_principal ctx)) ∧
     db_only T (w_db w1) (w_db w2) ∧ authorised ctx T (w_db w1) (w_db w2) ∧
     tenant_outbox_events (w_db w2) = tenant_outbox_events (w_db w1) ++ [Build_OutboxRow e 0 None ""]).
Proof.
  intros Hd Hmark Hs Hstep.
  set (Cs := λ i ctx, ∃ c, calls !! i = Some c ∧ caller_of srv gsrv c (ctx_principal ctx) ∧
    (ctx_platformAdministration ctx = true → made_administrator srv c (ctx_principal ctx))).
  assert (pool_safe Cs (ps, w1)) as Hsafe.
  { eapply pool_safe_steps; [apply pool_safe_initial; [exact Hd|]|exact Hs].
    intros i p Hp. rewrite list_lookup_fmap in Hp. apply fmap_Some in Hp as (c & Hc & ->).
    eapply safe_weaken; [|apply safe_serve_call]. intros ctx [? Hplat]. exists c.
    rewrite (Hmark _ _ Hc) in Hplat. split_and!; [done|done|]. by intros [?|?]%Hplat. }
  destruct (pool_safe_step _ _ _ _ Hsafe Hstep) as [[Hd2 _] Hc]. split; [exact Hd2|].
  destruct Hc as [?|(i & ctx & b & _ & (c & Hc & Ha & Hplat) & [_ _ (e & He) _ (T & ? & ?) _ _ _])]; [by left|right].
  by exists i, c, ctx, T, e.
Qed.

End Servers.
