(* ===== verification/Edge.v ===== *)
(** * The edges of the servers

    What surrounds the chains of [Router] and [GrpcServer]: the request log, the recovery from
    panics, the deadline and what is counted, of [transport/http/middleware.go] and
    [transport/grpc/server.go], in the order of the two [NewServer]s. A chain ends with an
    outcome, which may be a panic; the middleware in between is that of [Middleware] and
    [GrpcServer], at this type. A handler writes its reply last, so one that panics has written
    nothing. Whether the deadline has passed when the rest of the chain returns is an input. The
    name of the environment, which nothing reads, and the limit of a body are left out. *)

From stdpp Require Import base gmap list strings.
From S2P Require Import Floats Config.
From S2P Require Import Prelude GoErrors Model Store Effects Platform Authorization Service Authn.
From S2P Require Import Returns Json Http Middleware Health Router HttpProofs Metrics.

(** ** HTTP *)

(** How a chain ends: with a reply, without having written anything, or with a panic, which
    may come from a connection that is broken. The headers that were set stay with the writer. *)
Inductive Ending :=
| Wrote (r : HttpReply)
| Silent (headers : gmap string string)
| Panicked (headers : gmap string string) (broken : bool).

(** A record of the log, without its durations and spans; that of a call leaves out the identifier
    of the request. *)
Inductive line :=
| RequestLine (request_id method path : string) (status : Z) (client_ip : string)
| PanicLine (request_id : string)
| CallLine (method code : string)
| CallPanicLine (method : string).

Record Outcome := Build_Outcome { ending : Ending; lines : list line; observed : list observation }.
Definition ended (e : Ending) : Outcome := Build_Outcome e [] [].

Definition with_headers (h : gmap string string) (r : HttpReply) : HttpReply :=
  Build_HttpReply (reply_Status r) (reply_Headers r ∪ h) (reply_Response r).
Definition ending_header (key value : string) (e : Ending) : Ending :=
  match e with
  | Wrote r => Wrote (with_header key value r)
  | Silent h => Silent (h ∪ {[key := value]})
  | Panicked h broken => Panicked (h ∪ {[key := value]}) broken
  end.
#[export] Instance Outcome_answer : Answer Outcome := {|
  reply r := ended (Wrote r);
  set_header key value o := Build_Outcome (ending_header key value (ending o)) (lines o) (observed o);
  after_reply f o :=
    match ending o with
    | Wrote r => bind (f r) (λ r, Ret (Build_Outcome (Wrote r) (lines o) (observed o)))
    | _ => Ret o
    end |}.

(** How a chain may end, and whether it may settle an idempotency key. *)
Fixpoint ends {A} (settles : bool) (Q : A → Prop) (p : prog A) : Prop :=
  match p with
  | Ret a => Q a
  | Now k => ∀ x, ends settles Q (k x)
  | NewUUID k => ∀ x, ends settles Q (k x)
  | RandRead k => ∀ x, ends settles Q (k x)
  | Effects.Query _ k => ∀ x, ends settles Q (k x)
  | Transact _ _ _ k => ∀ x, ends settles Q (k x)
  | MutexLock _ k => ∀ x, ends settles Q (k x)
  | MutexUnlock _ _ k => ∀ x, ends settles Q (k x)
  | IdemBegin _ _ k => ∀ x, ends settles Q (k x)
  | IdemComplete _ _ _ k => settles = true ∧ ∀ x, ends settles Q (k x)
  | IdemFail _ _ _ k => settles = true ∧ ∀ x, ends settles Q (k x)
  end.

Lemma ends_bind {A B} settles (Q : B → Prop) (m : prog A) f :
  ends settles (λ a, ends settles Q (f a)) m → ends settles Q (bind m f).
Proof. induction m; simpl; naive_solver. Qed.

Lemma ends_mono {A} settles (Q Q' : A → Prop) p : (∀ a, Q a → Q' a) → ends settles Q p → ends settles Q' p.
Proof. intros HQ. induction p; simpl; naive_solver. Qed.

Lemma ends_returns {A} settles (Q : A → Prop) p : ends settles Q p → returns Q p.
Proof. induction p; simpl; naive_solver. Qed.

Section HttpEdge.
Context `{Platform, JsonText, FloatMachine, JwtLibrary}.
Context (path_Match : string → string → result bool).
Context (mime_ParseMediaType : string → result string).
Context (idempotency_Valid : string → bool).

(** [c.Writer.Status()]: gin sets 404 when there is no route. *)
Definition writer_status (c : Gin) (e : Ending) : Z :=
  match e with Wrote r => reply_Status r | _ => if c_FullPath c =?s "" then 404 else 200 end.

(** Nothing here is deferred: a panic goes through. *)
Definition RequestLogger (next : ChainOf Outcome) : ChainOf Outcome := λ c,
  bind (next c) (λ o,
    match ending o with
    | Panicked _ _ => Ret o
    | e => Ret (Build_Outcome e
                  (lines o ++ [RequestLine (requestID c) (c_Method c) (c_FullPath c) (writer_status c e) (c_ClientIP c)])
                  (observed o))
    end).

(** The observation is ignored by metrics that are not enabled. *)
Definition HTTPMetrics (next : ChainOf Outcome) : ChainOf Outcome := λ c,
  bind (next c) (λ o,
    match ending o with
    | Panicked _ _ => Ret o
    | e => Ret (Build_Outcome e (lines o) (observed o ++ [HttpDone c (writer_status c e)]))
    end).

(** [gin.CustomRecovery] gives up on a broken connection. *)
Definition Recovery (next : ChainOf Outcome) : ChainOf Outcome := λ c,
  bind (next c) (λ o,
    match ending o with
    | Panicked h true => Ret (Build_Outcome (Silent h) (lines o) (observed o))
    | Panicked h false =>
        Ret (Build_Outcome (Wrote (with_headers h (respond c 500 CodeInternal "internal server error" JNull)))
               (lines o ++ [PanicLine (requestID c)]) (observed o))
    | _ => Ret o
    end).

Definition Timeout (late : bool) (next : ChainOf Outcome) : ChainOf Outcome := λ c,
  bind (next c) (λ o,
    match ending o with
    | Silent h =>
        if late then Ret (Build_Outcome (Wrote (with_headers h (Failed c RequestTimeout))) (lines o) (observed o))
        else Ret o
    | _ => Ret o
    end).

(** The whole router, around handlers that are entered by [enter]. *)
Definition ServeEdge (s : Server) (late : bool) (enter : Chain → ChainOf Outcome) : ChainOf Outcome :=
  RequestID (IdempotencyKey idempotency_Valid (RequestLogger (Recovery (HTTPMetrics
    (SecurityHeaders (CORS (HTTP_CORS (Config_HTTP (server_cfg s))) (Timeout late
      (RequireJSON mime_ParseMediaType (dispatch_with path_Match enter (ended (Silent ∅)) s))))))))).

(** What is sent: gin writes a page of its own for a route that does not exist, and only the
    status if nothing was written; a panic that is not recovered aborts the connection. *)
Definition sent (c : Gin) (e : Ending) : option HttpReply :=
  match e with
  | Wrote r => Some r
  | Silent h => Some (Build_HttpReply (writer_status c e) h None)
  | Panicked _ _ => None
  end.

(** The handlers of the program, and handlers that panic. *)
Definition returning (handler : Chain) : ChainOf Outcome := λ c, bind (handler c) (λ r, Ret (ended (Wrote r))).
Definition crashing (broken : bool) (handler : Chain) : ChainOf Outcome := λ c, Ret (ended (Panicked ∅ broken)).

(** *** A chain with outcomes against the chain of replies *)

(** The two run alike, and their results are related. *)
Definition carries {A B} (Q : A → B → Prop) (P : prog A) (p : prog B) : Prop := ∀ env w,
  Q (fst (run env P w)) (fst (run env p w)) ∧ snd (run env P w) = snd (run env p w).

(** Relations that hold of replies that are written, and that headers keep. *)
Record steady_relation (Q : Outcome → HttpReply → Prop) : Prop := {
  steady_reply r : Q (ended (Wrote r)) r;
  steady_header key value o r : Q o r → Q (set_header key value o) (set_header key value r);
}.

Lemma carries_ret {A B} (Q : A → B → Prop) o r : Q o r → carries Q (Ret o) (Ret r).
Proof. by intros HQ env w. Qed.

Lemma carries_bind {A B X} (Q : A → B → Prop) (m : prog X) f g : (∀ a, carries Q (f a) (g a)) → carries Q (bind m f) (bind m g).
Proof. intros Hf env w. rewrite !run_bind. destruct (run env m w) as [a w']. apply Hf. Qed.

(** What is done with two outcomes that are related. *)
Lemma carries_then {A B A' B'} (Q : A → B → Prop) (Q' : A' → B' → Prop) P p f g :
  carries Q P p → (∀ o r, Q o r → carries Q' (f o) (g r)) → carries Q' (bind P f) (bind p g).
Proof.
  intros Hp Hf env w. rewrite !run_bind. destruct (Hp env w) as [HQ Hw].
  destruct (run env P w) as [o w1], (run env p w) as [r w2]. simpl in *. subst w2. by apply Hf.
Qed.
Lemma carries_then_left {A B A'} (Q : A → B → Prop) (Q' : A' → B → Prop) P p f :
  carries Q P p → (∀ o r, Q o r → carries Q' (f o) (Ret r)) → carries Q' (bind P f) p.
Proof.
  intros Hp Hf env w. rewrite run_bind. destruct (Hp env w) as [HQ Hw].
  destruct (run env P w) as [o w1], (run env p w) as [r w2]. simpl in *. subst w2. by apply (Hf _ _ HQ env w1).
Qed.

Section Steady.
Context (Q : Outcome → HttpReply → Prop) (HQ : steady_relation Q).

Lemma carries_finish r : carries Q (finish r) (finish r).
Proof using HQ. apply carries_ret, HQ. Qed.

Lemma carries_header key value P p : carries Q P p → carries Q (header key value P) (header key value p).
Proof using HQ. intros Hp. eapply carries_then; [exact Hp|]. intros o r Hor. by apply carries_ret, HQ. Qed.

Ltac carried := repeat first
  [ assumption | apply carries_finish | apply carries_header | progress cbv zeta | case_match ].

Lemma carries_RateLimit limiter rule dimension keyFunc next next' c :
  carries Q (next c) (next' c) →
  carries Q (RateLimit limiter rule dimension keyFunc next c) (RateLimit limiter rule dimension keyFunc next' c).
Proof using HQ. intros Hn. unfold RateLimit. carried. Qed.

Lemma carries_Authentication service cfg next next' c :
  (∀ c', carries Q (next c') (next' c')) →
  carries Q (Authentication path_Match service cfg next c) (Authentication path_Match service cfg next' c).
Proof using HQ. intros Hn. unfold Authentication, JWT. carried; apply Hn. Qed.

Lemma carries_AuthorizationHTTP enabled Enforce next next' c :
  (∀ c', carries Q (next c') (next' c')) →
  carries Q (AuthorizationHTTP enabled Enforce next c) (AuthorizationHTTP enabled Enforce next' c).
Proof using HQ. intros Hn. unfold AuthorizationHTTP. carried; apply Hn. Qed.

Lemma carries_IdempotencyExecution manager paths next next' c :
  (∀ key owner, carries Q (bind (next c) (after_reply (persist key owner))) (bind (next' c) (after_reply (persist key owner)))) →
  carries Q (next c) (next' c) →
  carries Q (IdempotencyExecution path_Match manager paths next c) (IdempotencyExecution path_Match manager paths next' c).
Proof using HQ.
  intros Hafter Hn. unfold IdempotencyExecution. do 3 (case_match; try by carried).
  match goal with |- carries Q (IdemBegin ?a ?b ?k) (IdemBegin _ _ ?k') =>
    apply (carries_bind Q (IdemBegin a b Ret) k k') end.
  intros [d|e]; [|apply carries_finish]. destruct (Decision_State d); try apply carries_finish; [apply Hafter|].
  by carried.
Qed.

Lemma carries_SecurityHeaders next next' c :
  carries Q (next c) (next' c) → carries Q (SecurityHeaders next c) (SecurityHeaders next' c).
Proof using HQ. intros Hn. unfold SecurityHeaders. carried. Qed.

Lemma carries_CORS cfg next next' c : carries Q (next c) (next' c) → carries Q (CORS cfg next c) (CORS cfg next' c).
Proof using HQ. intros Hn. unfold CORS. carried. Qed.

Lemma carries_RequireJSON next next' c :
  carries Q (next c) (next' c) →
  carries Q (RequireJSON mime_ParseMediaType next c) (RequireJSON mime_ParseMediaType next' c).
Proof using HQ. intros Hn. unfold RequireJSON. carried. Qed.

End Steady.

(** A request whose route exists, or that gin knows to have none and that is in time. *)
Definition routed (s : Server) (c : Gin) : Prop :=
  match_operation s c ≠ None ∨ match_route (server_build s) (server_handler s) c ≠ None.
Definition arrives (s : Server) (late : bool) (c : Gin) : Prop :=
  routed s c ∨ c_FullPath c = "" ∧ late = false.

(** The end of a chain and the reply it stands for. *)
Definition stands_for (c : Gin) (e : Ending) (r : HttpReply) : Prop :=
  e = Wrote r ∨ c_FullPath c = "" ∧ ∃ h, e = Silent h ∧ r = Build_HttpReply 404 h None.
Definition unlogged (late : bool) (c : Gin) (o : Outcome) (r : HttpReply) : Prop :=
  o = ended (ending o) ∧ stands_for c (ending o) r ∧ (late = true → ending o = Wrote r).
Definition logged (c : Gin) (o : Outcome) (r : HttpReply) : Prop :=
  stands_for c (ending o) r ∧
  (∃ id, lines o = [RequestLine id (c_Method c) (c_FullPath c) (reply_Status r) (c_ClientIP c)]) ∧
  observed o ≫= counted = counted (HttpDone c (reply_Status r)).

Lemma stands_for_header c key value e r :
  stands_for c e r → stands_for c (ending_header key value e) (with_header key value r).
Proof. intros [->|(Hp & h & -> & ->)]; [by left|]. right. split; [done|]. by eexists. Qed.

Lemma stands_for_status c e r : stands_for c e r → writer_status c e = reply_Status r ∧ sent c e = Some r.
Proof. intros [->|(Hp & h & -> & ->)]; [done|]. simpl. by rewrite Hp. Qed.

Lemma unlogged_steady late c : steady_relation (unlogged late c).
Proof.
  split; [intros r; split_and!; [done|by left|done]|].
  intros key value [e ls os] r ([= -> ->] & He & Hl). split_and!; [done|by apply stands_for_header|].
  intros Ht. simpl in *. by rewrite (Hl Ht).
Qed.

Lemma wrote_steady : steady_relation (λ o r, o = ended (Wrote r)).
Proof. split; [done|]. by intros key value o r ->. Qed.

Lemma carries_weaken (Q Q' : Outcome → HttpReply → Prop) P p :
  (∀ o r, Q o r → Q' o r) → carries Q P p → carries Q' P p.
Proof. intros HQ Hp env w. destruct (Hp env w). auto. Qed.

Lemma carries_returning handler c : carries (λ o r, o = ended (Wrote r)) (returning handler c) (handler c).
Proof.
  unfold returning. intros env w. rewrite run_bind. by destruct (run env (handler c) w).
Qed.

(** The API around a handler that returns. *)
Lemma carries_api s handler c :
  carries (λ o r, o = ended (Wrote r)) (api path_Match s (returning handler) c) (api path_Match s handler c).
Proof.
  pose proof wrote_steady as HQ. unfold api. do 2 apply (carries_RateLimit _ HQ).
  apply (carries_Authentication _ HQ). intros c1. apply (carries_AuthorizationHTTP _ HQ). intros c2.
  apply (carries_RateLimit _ HQ), (carries_IdempotencyExecution _ HQ).
  - intros key owner. eapply carries_then; [apply carries_returning|]. intros o r ->. simpl. intros env w.
    rewrite run_bind. by destruct (run env (persist key owner r) w).
  - apply carries_returning.
Qed.

Lemma carries_dispatch s late c :
  arrives s late c →
  carries (unlogged late c) (dispatch_with path_Match returning (ended (Silent ∅)) s c) (dispatch path_Match s c).
Proof.
  intros Ha. unfold dispatch, dispatch_with.
  assert (∀ P p, carries (λ o r, o = ended (Wrote r)) P p → carries (unlogged late c) P p) as Hw.
  { intros P p. apply carries_weaken. intros o r ->. apply unlogged_steady. }
  destruct (match_operation s c) as [operation|] eqn:Hop; [apply Hw, carries_returning|].
  destruct (match_route _ _ c) as [handler|] eqn:Hroute; [apply Hw, carries_api|].
  destruct Ha as [[?|?]|[Hp ->]]; [done|done|]. apply carries_ret.
  split_and!; [done| |done]. right. split; [done|]. by eexists.
Qed.

(** From the recovery inwards. *)
Lemma carries_inner s late c :
  arrives s late c →
  carries (unlogged late c)
    (SecurityHeaders (CORS (HTTP_CORS (Config_HTTP (server_cfg s))) (Timeout late (RequireJSON mime_ParseMediaType
       (dispatch_with path_Match returning (ended (Silent ∅)) s)))) c)
    (SecurityHeaders (CORS (HTTP_CORS (Config_HTTP (server_cfg s))) (RequireJSON mime_ParseMediaType
       (dispatch path_Match s))) c).
Proof.
  intros Ha. pose proof (unlogged_steady late c) as HQ. apply (carries_SecurityHeaders _ HQ), (carries_CORS _ HQ).
  unfold Timeout. eapply carries_then_left; [by apply (carries_RequireJSON _ HQ), carries_dispatch|].
  intros [e ls os] r ([= -> ->] & He & Hl). simpl in *. destruct He as [->|(Hp & h & -> & ->)].
  - apply carries_ret, HQ.
  - destruct late; [by specialize (Hl eq_refl)|]. apply carries_ret. split_and!; [done| |done].
    right. split; [done|]. by eexists.
Qed.

Lemma carries_logged s late c :
  arrives s late c →
  carries (logged c)
    (RequestLogger (Recovery (HTTPMetrics (SecurityHeaders (CORS (HTTP_CORS (Config_HTTP (server_cfg s))) (Timeout late
       (RequireJSON mime_ParseMediaType (dispatch_with path_Match returning (ended (Silent ∅)) s))))))) c)
    (SecurityHeaders (CORS (HTTP_CORS (Config_HTTP (server_cfg s))) (RequireJSON mime_ParseMediaType
       (dispatch path_Match s))) c).
Proof.
  intros Ha. unfold RequestLogger, Recovery, HTTPMetrics.
  apply (carries_then_left (λ o r, stands_for c (ending o) r ∧ lines o = [] ∧ observed o = [HttpDone c (reply_Status r)])).
  - apply (carries_then_left (λ o r, stands_for c (ending o) r ∧ lines o = [] ∧ observed o = [HttpDone c (reply_Status r)])).
    + eapply carries_then_left; [by apply carries_inner|]. intros [e ls os] r ([= -> ->] & He & _). simpl in He |- *.
      destruct (stands_for_status c e r He) as [Hst _].
      assert (carries (λ o r, stands_for c (ending o) r ∧ lines o = [] ∧ observed o = [HttpDone c (reply_Status r)])
        (Ret (Build_Outcome e [] [HttpDone c (writer_status c e)])) (Ret r)) as Hr
        by (apply carries_ret; by rewrite Hst).
      by destruct He as [->|(Hp & h & -> & ->)].
    + intros [e ls os] r (He & Hls & Hos). pose proof He as He'. simpl in He'.
      by destruct He' as [->|(Hp & h & -> & ->)]; apply carries_ret.
  - intros [e ls os] r (He & Hls & Hos). simpl in He, Hls, Hos. subst ls os.
    destruct (stands_for_status c e r He) as [Hst _].
    assert (carries (logged c) (Ret (Build_Outcome e ([] ++ [RequestLine (requestID c) (c_Method c) (c_FullPath c)
      (writer_status c e) (c_ClientIP c)]) [HttpDone c (reply_Status r)])) (Ret r)) as Hr.
    { apply carries_ret. rewrite Hst. split_and!; [done|by eexists|done]. }
    by destruct He as [->|(Hp & h & -> & ->)].
Qed.

(** The key is refused before anything is logged. *)
Definition key_refused (c : Gin) : bool :=
  (c_Header c "Idempotency-Key" <>?s "") && negb (idempotency_Valid (c_Header c "Idempotency-Key")).
Definition transparent (c : Gin) (o : Outcome) (r : HttpReply) : Prop :=
  if key_refused c then o = ended (Wrote r) else logged c o r.

Lemma transparent_header key value c o r :
  transparent c o r → transparent c (set_header key value o) (with_header key value r).
Proof.
  unfold transparent. destruct (key_refused c); [by intros ->|].
  intros (He & Hl & Ho). split_and!; [by apply stands_for_header|done|done].
Qed.

Lemma carries_ServeEdge s late c :
  arrives s late c →
  carries (transparent c) (ServeEdge s late returning c)
    (ServeHTTP path_Match mime_ParseMediaType idempotency_Valid s c).
Proof.
  intros Ha.
  assert (∀ P p key value, carries (transparent c) P p → carries (transparent c) (header key value P) (header key value p)) as Hh.
  { intros P p key value Hp. eapply carries_then; [exact Hp|]. intros o r Hor. by apply carries_ret, transparent_header. }
  assert (∀ c' P p, c_Method c' = c_Method c → c_FullPath c' = c_FullPath c → c_ClientIP c' = c_ClientIP c →
            key_refused c = false → carries (logged c') P p → carries (transparent c) P p) as Hsame.
  { intros c' P p Hm Hp Hi Hk. apply carries_weaken. intros o r. unfold transparent. rewrite Hk.
    unfold logged, stands_for. simpl. by rewrite Hm, Hp, Hi. }
  assert (∀ id, carries (transparent c)
    (IdempotencyKey idempotency_Valid (RequestLogger (Recovery (HTTPMetrics (SecurityHeaders
      (CORS (HTTP_CORS (Config_HTTP (server_cfg s))) (Timeout late (RequireJSON mime_ParseMediaType
         (dispatch_with path_Match returning (ended (Silent ∅)) s)))))))) (set_request_id id c))
    (IdempotencyKey idempotency_Valid (SecurityHeaders (CORS (HTTP_CORS (Config_HTTP (server_cfg s)))
      (RequireJSON mime_ParseMediaType (dispatch path_Match s)))) (set_request_id id c))) as Hkey.
  { intros id. unfold IdempotencyKey. cbv zeta. change (c_Header (set_request_id id c)) with (c_Header c).
    destruct (c_Header c "Idempotency-Key" =?s "") eqn:He.
    { eapply Hsame; [..|by apply carries_logged]; [done..|]. unfold key_refused. by rewrite He. }
    destruct (idempotency_Valid _) eqn:Hv; simpl.
    - apply Hh. eapply Hsame; [..|by apply carries_logged]; [done..|]. unfold key_refused. by rewrite He, Hv.
    - apply carries_ret. unfold transparent, key_refused. by rewrite He, Hv. }
  unfold ServeEdge, ServeHTTP, RequestID. cbv zeta. case_match; [|by apply Hh].
  apply carries_bind. intros id. by apply Hh.
Qed.

(** *** Panics *)

(** Nothing has been logged or counted yet. *)
Definition quiet (o : Outcome) : Prop := lines o = [] ∧ observed o = [].

Section Quiet.
Context (settles : bool).
Notation calm := (ends settles quiet).

Lemma calm_finish r : calm (finish (T := Outcome) r).
Proof. done. Qed.
Lemma calm_header key value p : calm p → calm (header key value p).
Proof. intros Hp. apply ends_bind. by eapply ends_mono; [|exact Hp]. Qed.

Ltac calmed := repeat first
  [ assumption | apply calm_finish | apply calm_header | progress cbv zeta | case_match ].

Lemma calm_RateLimit limiter rule dimension keyFunc next c :
  calm (next c) → calm (RateLimit limiter rule dimension keyFunc next c).
Proof. intros Hn. unfold RateLimit. calmed. Qed.

Lemma calm_IdempotencyExecution manager paths next c :
  (∀ key owner, calm (bind (next c) (after_reply (persist key owner)))) → calm (next c) →
  calm (IdempotencyExecution path_Match manager paths next c).
Proof.
  intros Hafter Hn. unfold IdempotencyExecution. do 3 (case_match; try by calmed).
  intros [d|e]; [|apply calm_finish]. destruct (Decision_State d); try apply calm_finish; [apply Hafter|]. by calmed.
Qed.

Lemma calm_api s next c :
  (∀ c key owner, calm (bind (next c) (after_reply (persist key owner)))) → (∀ c, calm (next c)) →
  calm (api path_Match s next c).
Proof.
  intros Hafter Hn. unfold api. do 2 apply calm_RateLimit. unfold Authentication, JWT, AuthorizationHTTP.
  repeat first [apply calm_finish|apply calm_RateLimit, calm_IdempotencyExecution; [done|done]|case_match].
Qed.

Lemma calm_inner s late enter c :
  (∀ handler c key owner, calm (bind (enter handler c) (after_reply (persist key owner)))) →
  (∀ handler c, calm (enter handler c)) →
  calm (SecurityHeaders (CORS (HTTP_CORS (Config_HTTP (server_cfg s))) (Timeout late (RequireJSON mime_ParseMediaType
       (dispatch_with path_Match enter (ended (Silent ∅)) s)))) c).
Proof.
  intros Hafter Hn.
  assert (calm (dispatch_with path_Match enter (ended (Silent ∅)) s c)) as Hd
    by (unfold dispatch_with; do 2 (case_match; [by auto using calm_api|]); done).
  assert (calm (Timeout late (RequireJSON mime_ParseMediaType (dispatch_with path_Match enter (ended (Silent ∅)) s)) c)) as Ht.
  { apply ends_bind. apply (ends_mono _ quiet).
    - intros [[r|h|h b] ls os] [Hls Hos]; simpl in *; [done| |done]. by destruct late.
    - unfold RequireJSON. by calmed. }
  unfold SecurityHeaders, CORS. calmed.
Qed.

End Quiet.

(** What a request ends with, whatever its handler does: no panic goes through, and one that is
    recovered is logged, answered with an internal error, and not counted. *)
Definition contained (c : Gin) (o : Outcome) : Prop :=
  (∀ h broken, ending o ≠ Panicked h broken) ∧
  (∀ id, PanicLine id ∈ lines o →
     lines o = [PanicLine id; RequestLine id (c_Method c) (c_FullPath c) 500 (c_ClientIP c)] ∧ observed o = [] ∧
     ∃ r, ending o = Wrote r ∧ reply_Status r = 500%Z ∧
          reply_Response r = Some (Build_HttpResponse CodeInternal "internal server error" JNull id)).

Lemma contained_header key value c o : contained c o → contained c (set_header key value o).
Proof.
  intros [Hp Hl]. split.
  - intros h broken. specialize (Hp). destruct o as [[r|h'|h' b] ls os]; simpl in *; [done|done|].
    by destruct (Hp h' b).
  - intros id Hin. destruct (Hl id Hin) as (? & ? & r & He & ? & ?). split_and!; [done|done|].
    simpl. rewrite He. by eexists.
Qed.

Lemma ends_recovered settles s late enter c :
  ends settles quiet (SecurityHeaders (CORS (HTTP_CORS (Config_HTTP (server_cfg s))) (Timeout late
     (RequireJSON mime_ParseMediaType (dispatch_with path_Match enter (ended (Silent ∅)) s)))) c) →
  ends settles (contained c) (RequestLogger (Recovery (HTTPMetrics (SecurityHeaders
     (CORS (HTTP_CORS (Config_HTTP (server_cfg s))) (Timeout late (RequireJSON mime_ParseMediaType
        (dispatch_with path_Match enter (ended (Silent ∅)) s))))))) c).
Proof.
  intros Hi. unfold RequestLogger, Recovery, HTTPMetrics. do 3 apply ends_bind.
  eapply ends_mono; [|exact Hi]. intros [[r|h|h []] ls os] [Hls Hos]; simpl in *; subst ls os; simpl.
  - split; [done|]. intros id Hin. set_solver.
  - split; [done|]. intros id Hin. set_solver.
  - split; [done|]. intros id Hin. set_solver.
  - split; [done|]. intros id [[= ->]|Hin]%elem_of_cons; [|set_solver]. split_and!; [done|done|]. by eexists.
Qed.

Lemma ends_ServeEdge settles s late enter c :
  (∀ handler c key owner, ends settles quiet (bind (enter handler c) (after_reply (persist key owner)))) →
  (∀ handler c, ends settles quiet (enter handler c)) →
  ends settles (contained c) (ServeEdge s late enter c).
Proof.
  intros Hafter Hn. unfold ServeEdge, RequestID. cbv zeta.
  assert (∀ p key value, ends settles (contained c) p → ends settles (contained c) (header key value p)) as Hh.
  { intros p key value Hp. apply ends_bind. eapply ends_mono; [|exact Hp]. intros o. apply contained_header. }
  assert (∀ c', c_Method c' = c_Method c → c_FullPath c' = c_FullPath c → c_ClientIP c' = c_ClientIP c →
    ends settles (contained c) (RequestLogger (Recovery (HTTPMetrics (SecurityHeaders
     (CORS (HTTP_CORS (Config_HTTP (server_cfg s))) (Timeout late (RequireJSON mime_ParseMediaType
        (dispatch_with path_Match enter (ended (Silent ∅)) s))))))) c')) as Hi.
  { intros c' Hm Hp Hip. eapply ends_mono; [|by apply ends_recovered, calm_inner]. intros o. unfold contained.
    by rewrite Hm, Hp, Hip. }
  assert (∀ id, ends settles (contained c) (IdempotencyKey idempotency_Valid (RequestLogger (Recovery (HTTPMetrics (SecurityHeaders
     (CORS (HTTP_CORS (Config_HTTP (server_cfg s))) (Timeout late (RequireJSON mime_ParseMediaType
        (dispatch_with path_Match enter (ended (Silent ∅)) s)))))))) (set_request_id id c))) as Hkey.
  { intros id. unfold IdempotencyKey. cbv zeta. case_match; [by apply Hi|]. case_match; [|by apply Hh, Hi].
    split; [done|]. intros x Hin. simpl in Hin. set_solver. }
  case_match; [|by apply Hh]. apply ends_bind. intros [x|e]; simpl; intros; by apply Hh.
Qed.

(** The program's own handlers, and handlers that panic: those settle no key, so what the store
    has begun stays begun. *)
Lemma http_returning s late c env w :
  arrives s late c →
  transparent c (fst (run env (ServeEdge s late returning c) w))
    (fst (run env (ServeHTTP path_Match mime_ParseMediaType idempotency_Valid s c) w)) ∧
  snd (run env (ServeEdge s late returning c) w)
  = snd (run env (ServeHTTP path_Match mime_ParseMediaType idempotency_Valid s c) w).
Proof. intros Ha. by apply carries_ServeEdge. Qed.

Lemma http_crashing s late broken c : ends false (contained c) (ServeEdge s late (crashing broken) c).
Proof. by apply ends_ServeEdge. Qed.

(** What a transparent outcome sends is the reply. *)
Lemma transparent_sent c o r : transparent c o r → sent c (ending o) = Some r.
Proof.
  unfold transparent. destruct (key_refused c); [by intros ->|]. intros (He & _ & _).
  by apply stands_for_status.
Qed.

End HttpEdge.
