(* ===== verification/GrpcEdge.v ===== *)
(** * The edge of the gRPC server

    The interceptors of [transport/grpc/server.go] around and inside the chain of [GrpcServer]:
    recovery and metrics, for calls and for streams. *)

From stdpp Require Import base gmap list strings.
From S2P Require Import Floats Config Json.
From S2P Require Import Prelude GoErrors Model Store Effects Platform Authorization Service Authn.
From S2P Require Import Dictionary Directory Grpc Http Middleware Outbound.
From S2P Require Import Returns Health Router Metrics Edge GrpcServer.

(** How a call ends. *)
Inductive CallEnding (R : Type) := Returned (answer : rpc R) | Crashed.
Arguments Returned {R} answer.
Arguments Crashed {R}.
Record CallOutcome (R : Type) := Build_CallOutcome {
  call_ending : CallEnding R; call_lines : list line; call_observed : list observation }.
Arguments Build_CallOutcome {R} _ _ _.
Arguments call_ending {R} _.
Arguments call_lines {R} _.
Arguments call_observed {R} _.
Definition call_ended {R} (e : CallEnding R) : CallOutcome R := Build_CallOutcome e [] [].

#[export] Instance CallOutcome_answer R : CallAnswer R (CallOutcome R) := {|
  answered a := call_ended (Returned a);
  after_answer f o :=
    match call_ending o with Returned a => bind (f a) (λ _, Ret o) | Crashed => Ret o end |}.

(** [status.Code(err).String()]. *)
Definition code_name (c : code) : string :=
  match c with
  | codes_InvalidArgument => "InvalidArgument" | codes_NotFound => "NotFound" | codes_Aborted => "Aborted"
  | Grpc.codes_Unavailable => "Unavailable" | codes_Internal => "Internal" | codes_Unauthenticated => "Unauthenticated"
  end.
Definition answer_code {R} (a : rpc R) : string :=
  match a with Reply _ => "OK" | Fail (StatusError c _) => code_name c | Fail (RawError _) => "Unknown" end.

(** [recoveryInterceptor] and [metricsInterceptor], around a call of a method. *)
Definition recoveryInterceptor {R} (method : string) (call : prog (CallOutcome R)) : prog (CallOutcome R) :=
  bind call (λ o,
    match call_ending o with
    | Crashed =>
        Ret (Build_CallOutcome (Returned (Fail (StatusError codes_Internal "internal server error")))
               (call_lines o ++ [CallPanicLine method]) (call_observed o))
    | Returned _ => Ret o
    end).
Definition metricsInterceptor {R} (method : string) (call : prog (CallOutcome R)) : prog (CallOutcome R) :=
  bind call (λ o,
    match call_ending o with
    | Returned a =>
        Ret (Build_CallOutcome (Returned a) (call_lines o ++ [CallLine method (answer_code a)])
               (call_observed o ++ [GrpcDone method (answer_code a)]))
    | Crashed => Ret o
    end).

(** Those of streams do the same. *)
Definition recoveryStreamInterceptor (method : string) (stream : prog (CallOutcome unit)) : prog (CallOutcome unit) :=
  recoveryInterceptor method stream.
Definition metricsStreamInterceptor (method : string) (stream : prog (CallOutcome unit)) : prog (CallOutcome unit) :=
  metricsInterceptor method stream.

Section GrpcEdge.
Context `{Platform, !ProtoEnums, MethodNames, !PlatformInterceptors, FloatMachine, JwtLibrary, TlsFiles}.
Context (path_Match : string → string → result bool).
Context (idempotency_Valid : string → bool).

(** The whole chains, around a handler. *)
Definition CallEdge (srv : Server) (c : GrpcCall) (handler : Context → prog (CallOutcome GrpcResponse))
  : prog (string * CallOutcome GrpcResponse) :=
  let method := method_of (g_request c) in
  requestIDInterceptor (g_md c) (λ id,
    bind (call_chain path_Match idempotency_Valid (recoveryInterceptor method)
            (λ ctx, metricsInterceptor method (handler ctx)) srv c)
      (λ o, Ret (id, o))).
Definition StreamEdge (srv : Server) (method : string) (ctx : Context) (md : Incoming)
    (SetHeader : string → option goerr) (handler : Context → prog (CallOutcome unit)) : prog (CallOutcome unit) :=
  stream_chain path_Match idempotency_Valid (recoveryStreamInterceptor method) srv method ctx md SetHeader
    (λ ctx, metricsStreamInterceptor method (handler ctx)).

(** A handler that returns. *)
Definition answering {R} (call : prog (rpc R)) : prog (CallOutcome R) :=
  bind call (λ a, Ret (call_ended (Returned a))).

(** ** Calls whose handler returns *)

(** The answer, which was logged and counted once if the handler gave it, and not at all if the
    chain did. *)
Definition call_transparent {R} (method : string) (o : CallOutcome R) (a : rpc R) : Prop :=
  call_ending o = Returned a ∧
  (call_lines o = [] ∧ call_observed o = [] ∨
   call_lines o = [CallLine method (answer_code a)] ∧ call_observed o = [GrpcDone method (answer_code a)]).

Lemma carries_answered {R} method (a : rpc R) :
  carries (call_transparent method) (Ret (answered (T := CallOutcome R) a)) (Ret (answered (T := rpc R) a)).
Proof. apply carries_ret. split; [done|by left]. Qed.

Lemma carries_metrics {R} method (call : prog (rpc R)) :
  carries (call_transparent method) (metricsInterceptor method (answering call)) call.
Proof.
  intros env w. unfold metricsInterceptor, answering. rewrite !run_bind. destruct (run env call w) as [a w']. simpl.
  split; [|done]. split; [done|by right].
Qed.

Lemma carries_recovery {R} method P (p : prog (rpc R)) :
  carries (call_transparent method) P p → carries (call_transparent method) (recoveryInterceptor method P) p.
Proof.
  intros Hp. eapply carries_then_left; [exact Hp|]. intros [e ls os] a [[= ->] Hl]. by apply carries_ret.
Qed.

Lemma carries_idempotent method methods ctx r P p :
  carries (call_transparent method) P p →
  carries (call_transparent method) (idempotent (T := CallOutcome GrpcResponse) methods ctx r P) (idempotent methods ctx r p).
Proof.
  intros Hp. unfold idempotent. apply carries_bind. intros [a|state]; [apply carries_answered|].
  eapply carries_then; [exact Hp|]. intros o a [He Hl]. simpl. rewrite He. intros env w. rewrite !run_bind.
  by destruct (run env (idempotency_After state a) w) as [u w'].
Qed.

Lemma carries_CallEdge srv c :
  carries (λ o a, fst o = fst a ∧ call_transparent (method_of (g_request c)) (snd o) (snd a))
    (CallEdge srv c (λ ctx, answering (handle (gs_tenants srv) ctx (g_request c))))
    (ServeGRPC path_Match idempotency_Valid srv c).
Proof.
  unfold CallEdge, ServeGRPC.
  assert (carries (call_transparent (method_of (g_request c)))
    (call_chain path_Match idempotency_Valid (recoveryInterceptor (method_of (g_request c)))
       (λ ctx, metricsInterceptor (method_of (g_request c)) (answering (handle (gs_tenants srv) ctx (g_request c)))) srv c)
    (authenticated_call path_Match idempotency_Valid srv c)) as Hc.
  { unfold authenticated_call, call_chain. case_match; [|apply carries_answered]. apply carries_recovery.
    case_match; [|apply carries_answered]. case_match; [apply carries_answered|].
    apply carries_idempotent, carries_metrics. }
  assert (∀ id : string, carries (λ o a, fst o = fst a ∧ call_transparent (method_of (g_request c)) (snd o) (snd a))
    (bind (call_chain path_Match idempotency_Valid (recoveryInterceptor (method_of (g_request c)))
       (λ ctx, metricsInterceptor (method_of (g_request c)) (answering (handle (gs_tenants srv) ctx (g_request c)))) srv c)
       (λ o, Ret (id, o)))
    (bind (authenticated_call path_Match idempotency_Valid srv c) (λ answer, Ret (id, answer)))) as Hid.
  { intros id. eapply carries_then; [exact Hc|]. intros o a Hoa. by apply carries_ret. }
  unfold requestIDInterceptor. cbv zeta. case_match; [|by apply Hid]. by apply carries_bind.
Qed.

Lemma carries_StreamEdge srv method ctx md SetHeader handler :
  carries (call_transparent method)
    (StreamEdge srv method ctx md SetHeader (λ ctx, answering (handler ctx)))
    (ServeStream path_Match idempotency_Valid srv method ctx md SetHeader handler).
Proof.
  unfold StreamEdge, ServeStream, stream_chain, requestIDStreamInterceptor, requestIDInterceptor. cbv zeta.
  assert (carries (call_transparent method)
    (idempotencyStreamInterceptor idempotency_Valid ctx md (λ ctx, recoveryStreamInterceptor method
        (authStreamInterceptor path_Match srv method ctx md (λ ctx, metricsStreamInterceptor method (answering (handler ctx))))))
    (idempotencyStreamInterceptor idempotency_Valid ctx md (λ ctx, authStreamInterceptor path_Match srv method ctx md handler)))
    as Hrest.
  { unfold idempotencyStreamInterceptor, authStreamInterceptor. case_match; [|apply carries_answered].
    apply carries_recovery. case_match; [|apply carries_answered]. apply carries_metrics. }
  repeat (case_match || (apply carries_bind; intros ?)); first [apply carries_answered|exact Hrest].
Qed.

(** ** Calls that panic *)

(** No panic goes through; one that is recovered is an internal error, logged and not counted. *)
Definition call_contained {R} (method : string) (o : CallOutcome R) : Prop :=
  ∃ a, call_ending o = Returned a ∧
    (CallPanicLine method ∈ call_lines o →
       a = Fail (StatusError codes_Internal "internal server error") ∧
       call_lines o = [CallPanicLine method] ∧ call_observed o = []).

Definition call_quiet {R} (method : string) (o : CallOutcome R) : Prop :=
  match call_ending o with
  | Returned _ => CallPanicLine method ∉ call_lines o
  | Crashed => call_lines o = [] ∧ call_observed o = []
  end.

Lemma returns_answered {R} method (a : rpc R) : returns (call_contained method) (Ret (answered (T := CallOutcome R) a)).
Proof. exists a. split; [done|]. intros Hin. simpl in Hin. set_solver. Qed.

Lemma returns_recovered {R} method (call : prog (CallOutcome R)) :
  returns (call_quiet method) call → returns (call_contained method) (recoveryInterceptor method call).
Proof.
  intros Hc. apply returns_bind. eapply returns_mono; [|exact Hc]. intros [[a|] ls os]; unfold call_quiet; simpl.
  - intros Hl. by exists a.
  - intros [-> ->]. eexists. split; [done|]. by intros _.
Qed.

(** A handler that logs and counts nothing itself, whatever it ends with. *)
Definition plain_handler {R} (o : CallOutcome R) : Prop := call_lines o = [] ∧ call_observed o = [].

Lemma returns_metrics {R} method (call : prog (CallOutcome R)) :
  returns plain_handler call → returns (call_quiet method) (metricsInterceptor method call).
Proof.
  intros Hc. apply returns_bind. eapply returns_mono; [|exact Hc]. intros [[a|] ls os] [Hl Ho]; simpl in *; subst; [|done].
  unfold call_quiet. simpl. set_solver.
Qed.

Lemma quiet_answered {R} method (a : rpc R) : returns (call_quiet method) (Ret (answered (T := CallOutcome R) a)).
Proof. unfold call_quiet. simpl. set_solver. Qed.

Lemma contained_CallEdge srv c handler :
  (∀ ctx, returns plain_handler (handler ctx)) →
  returns (λ o, call_contained (method_of (g_request c)) (snd o)) (CallEdge srv c handler).
Proof.
  intros Hh. unfold CallEdge, requestIDInterceptor. cbv zeta.
  assert (∀ id : string, returns (λ o, call_contained (method_of (g_request c)) (snd o))
    (bind (call_chain path_Match idempotency_Valid (recoveryInterceptor (method_of (g_request c)))
            (λ ctx, metricsInterceptor (method_of (g_request c)) (handler ctx)) srv c) (λ o, Ret (id, o)))) as Hc.
  { intros id. apply returns_bind. simpl. unfold call_chain. case_match; [|apply returns_answered].
    apply returns_recovered. case_match; [|apply quiet_answered]. case_match; [apply quiet_answered|].
    apply returns_bind, returns_any. intros [a'|state]; [apply quiet_answered|]. apply returns_bind.
    eapply returns_mono; [|apply returns_metrics, Hh]. intros [[a'|] ls os] Hq; simpl; [|done].
    apply returns_bind, returns_any. by intros _. }
  case_match; [|apply Hc]. apply returns_bind, returns_any. apply Hc.
Qed.

Lemma contained_StreamEdge srv method ctx md SetHeader handler :
  (∀ ctx, returns plain_handler (handler ctx)) →
  returns (call_contained method) (StreamEdge srv method ctx md SetHeader handler).
Proof.
  intros Hh. unfold StreamEdge, stream_chain, requestIDStreamInterceptor, requestIDInterceptor. cbv zeta.
  assert (returns (call_contained method) (idempotencyStreamInterceptor idempotency_Valid ctx md
    (λ ctx, recoveryStreamInterceptor method (authStreamInterceptor path_Match srv method ctx md
       (λ ctx, metricsStreamInterceptor method (handler ctx)))))) as Hrest.
  { unfold idempotencyStreamInterceptor, authStreamInterceptor. case_match; [|apply returns_answered].
    apply returns_recovered. case_match; [|apply quiet_answered]. by apply returns_metrics. }
  repeat (case_match || (apply returns_bind, returns_any; intros ?)); first [apply returns_answered|exact Hrest].
Qed.

End GrpcEdge.

(** ** Theorem *)

Section Edges.
Context `{Platform, !ProtoEnums, JsonText, MethodNames, !PlatformInterceptors, FloatMachine, JwtLibrary, TlsFiles}.
Context (path_Match : string → string → result bool).
Context (mime_ParseMediaType : string → result string).
Context (idempotency_Valid : string → bool).

(** (C31) The edges of the servers add nothing to a request whose handler returns, and contain one
    whose handler panics. A request over HTTP is answered as by the chain without the request
    log, the recovery, the metrics and the deadline, in the same state of the world, and it is
    logged and counted once with the status of the reply, unless its idempotency key is refused;
    in particular a deadline that has passed changes no reply of a route. When a handler
    panics, the request ends all the same, without settling an idempotency key: either the chain
    has refused it, or it is logged with its panic, answered 500 with an internal error that says
    nothing of the panic, and not counted. The same holds of calls and streams over gRPC,
    which are counted when the handler has answered, and not when the chain has. *)
Theorem edges_contain_panics srv gsrv c g method ctx md SetHeader stream env w :
  (∀ late, arrives srv late c →
     let served := run env (ServeEdge path_Match mime_ParseMediaType idempotency_Valid srv late returning c) w in
     let reply := run env (ServeHTTP path_Match mime_ParseMediaType idempotency_Valid srv c) w in
     snd served = snd reply ∧ sent c (ending (fst served)) = Some (fst reply) ∧
     transparent idempotency_Valid c (fst served) (fst reply)) ∧
  (∀ late broken, ends false (contained c)
     (ServeEdge path_Match mime_ParseMediaType idempotency_Valid srv late (crashing broken) c)) ∧
  (let served := run env (CallEdge path_Match idempotency_Valid gsrv g
                            (λ ctx, answering (handle (gs_tenants gsrv) ctx (g_request g)))) w in
   let answer := run env (ServeGRPC path_Match idempotency_Valid gsrv g) w in
   snd served = snd answer ∧ fst (fst served) = fst (fst answer) ∧
   call_transparent (method_of (g_request g)) (snd (fst served)) (snd (fst answer))) ∧
  (∀ handler, (∀ ctx, returns plain_handler (handler ctx)) →
     returns (λ o, call_contained (method_of (g_request g)) (snd o)) (CallEdge path_Match idempotency_Valid gsrv g handler)) ∧
  (let served := run env (StreamEdge path_Match idempotency_Valid gsrv method ctx md SetHeader
                            (λ ctx, answering (stream ctx))) w in
   let answer := run env (ServeStream path_Match idempotency_Valid gsrv method ctx md SetHeader stream) w in
   snd served = snd answer ∧ call_transparent method (fst served) (fst answer)) ∧
  (∀ handler, (∀ ctx, returns plain_handler (handler ctx)) →
     returns (call_contained method) (StreamEdge path_Match idempotency_Valid gsrv method ctx md SetHeader handler)).
Proof.
  split_and!.
  - intros late Ha served reply.
    destruct (http_returning path_Match mime_ParseMediaType idempotency_Valid srv late c env w Ha) as [Ht Hw].
    split_and!; [exact Hw| |exact Ht]. by eapply transparent_sent.
  - intros late broken. apply http_crashing.
  - destruct (carries_CallEdge path_Match idempotency_Valid gsrv g env w) as [[Hid Ht] Hw]. done.
  - intros handler. apply contained_CallEdge.
  - destruct (carries_StreamEdge path_Match idempotency_Valid gsrv method ctx md SetHeader stream env w) as [Ht Hw]. done.
  - intros handler. apply contained_StreamEdge.
Qed.

End Edges.
