(* ===== verification/System.v ===== *)
(** * Programs that open and close things

    What the program does to the process it runs in, outside of requests: it opens
    databases, connections and transactions, uses them and closes them. Such code is a
    [sys]: the tree of the calls it makes, each an indexed operation whose type says what
    it answers. [run_sys] executes a program against an environment that answers every
    call, and keeps the set of what is open; [wps] is the weakest precondition that is
    sound for every environment. It refuses to use what is not open. *)

From stdpp Require Import base gmap sets list strings.
From S2P Require Import Prelude Floats GoErrors Effects.

(** What [open] gives out: a number that is in use nowhere else. *)
Definition handle := nat.

(** ** Calls *)

(** [redis.Options], by the fields the program sets. *)
Record RedisOptions := Build_RedisOptions {
  Options_Addr : string; Options_Username : string; Options_Password : string; Options_DB : Z;
  Options_DialTimeout : Z; Options_ReadTimeout : Z; Options_WriteTimeout : Z }.

(** [pgx.ConnConfig] and [mysql.Config], by the fields the program sets; the rest of the
    connection string is opaque. *)
Record PgxConfig := Build_PgxConfig {
  Pgx_Database : string; Pgx_RuntimeParams : gmap string string; Pgx_rest : string }.
Record MySQLConfig := Build_MySQLConfig {
  MySQL_DBName : string; MySQL_ParseTime : bool; MySQL_Loc : string; MySQL_rest : string }.

(** [eventbus.Config]. *)
Record BusConfig := Build_BusConfig {
  Bus_URLs : list string; Bus_ClientName : string; Bus_StreamName : string; Bus_Subjects : list string;
  Bus_Storage : string; Bus_MaxAge : Z; Bus_DuplicateWindow : Z; Bus_ConnectTimeout : Z; Bus_PublishTimeout : Z }.

(** Constructors of libraries that cannot fail. *)
Inductive creation :=
| StdlibOpenDB (cfg : PgxConfig)
| RedisNewClient (options : RedisOptions).

(** Those that can. *)
Inductive opening :=
| SqlxOpen (driver dsn : string)
| SqlOpen (driver url : string)
| BeginTx (db : handle)
| NewTraceExporter (endpoint : string)
| MigrateNew (source databaseURL : string)
| GrpcNewClient (target : string)
| NewJWKSVerifier (url issuer audience : string)
| NewBus (cfg : BusConfig)
| Listen (address : string).

(** The other calls, by what they answer. [SetPool] is the four settings of
    [database.Open]; [MigrateClose] answers for the source and for the database. *)
Inductive call : Type → Type :=
| MkdirAll (path : string) : call (option goerr)
| CloseRotator (file : string) : call (option goerr)
| SetPool (db : handle) (maxOpen maxIdle maxLifetime maxIdleTime : Z) : call unit
| PingDB (db : handle) (timeout : Z) : call (option goerr)
| CloseDB (db : handle) : call (option goerr)
| ExecTx (tx : handle) (statement : string) (arguments : list string) : call (option goerr)
| CommitTx (tx : handle) : call (option goerr)
| RollbackTx (tx : handle) : call (option goerr)
| PingRedis (client : handle) : call (option goerr)
| InstrumentTracing (client : handle) : call (option goerr)
| CloseRedis (client : handle) : call (option goerr)
| SetTracerProvider (exporter : handle) (service version : string) (ratio : float64) : call unit
| ShutdownTracing (exporter : handle) : call (option goerr)
| MigrateSteps (m : handle) (n : Z) : call (option goerr)
| MigrateDown (m : handle) : call (option goerr)
| MigrateUp (m : handle) : call (option goerr)
| MigrateClose (m : handle) : call (option goerr * option goerr)
| CloseIdleConnections (client : string) : call unit
| CloseConn (connection : handle) : call (option goerr)
| CloseVerifier (verifier : handle) : call unit
| NewDispatcher (bus : handle) (batchSize lease retryDelay : Z) : call (option goerr)
| NewRetentionCleaner (retention batchSize : Z) : call (option goerr)
| CloseBus (bus : handle) : call (option goerr)
| ServeOn (listener : handle) : call unit
| ShutdownHTTP (listener : option handle) : call (option goerr)
| GracefulStop (listener : option handle) : call (option goerr)
| StopServer : call unit.

(** What a call needs open, and what it closes. A transaction that is over may be rolled
    back: [database/sql] answers [ErrTxDone]. *)
Definition uses {X} (c : call X) : gset handle :=
  match c with
  | MkdirAll _ | CloseRotator _ | RollbackTx _ | CloseIdleConnections _
  | NewRetentionCleaner _ _ | ShutdownHTTP None | GracefulStop None | StopServer => ∅
  | SetPool h _ _ _ _ | PingDB h _ | CloseDB h | ExecTx h _ _ | CommitTx h | PingRedis h
  | InstrumentTracing h | CloseRedis h | SetTracerProvider h _ _ _ | ShutdownTracing h
  | MigrateSteps h _ | MigrateDown h | MigrateUp h | MigrateClose h | CloseConn h
  | CloseVerifier h | NewDispatcher h _ _ _ | CloseBus h | ServeOn h | ShutdownHTTP (Some h)
  | GracefulStop (Some h) => {[h]}
  end.
Definition closes {X} (c : call X) : gset handle :=
  match c with
  | CloseDB h | CommitTx h | RollbackTx h | CloseRedis h | ShutdownTracing h | MigrateClose h
  | CloseConn h | CloseVerifier h | CloseBus h | ShutdownHTTP (Some h) | GracefulStop (Some h) => {[h]}
  | _ => ∅
  end.
Definition opens_from (o : opening) : gset handle :=
  match o with BeginTx db => {[db]} | _ => ∅ end.

Inductive sys (A : Type) : Type :=
| SRet (a : A)
| SNew (c : creation) (k : handle → sys A)
| SOpen (o : opening) (k : result handle → sys A)
| SCall {X : Type} (c : call X) (k : X → sys A).
Arguments SRet {A} a.
Arguments SNew {A} c k.
Arguments SOpen {A} o k.
Arguments SCall {A X} c k.

Fixpoint sbind {A B} (m : sys A) (f : A → sys B) : sys B :=
  match m with
  | SRet a => f a
  | SNew c k => SNew c (λ x, sbind (k x) f)
  | SOpen o k => SOpen o (λ x, sbind (k x) f)
  | SCall c k => SCall c (λ x, sbind (k x) f)
  end.

Declare Scope sys_scope.
Delimit Scope sys_scope with sys.
Notation "x <~ m ;; k" := (sbind m (λ x, k))
  (at level 100, m at next level, right associativity, only parsing) : sys_scope.
(** [v, err := m; if err != nil { return h }; k] *)
Notation "x <~? m 'else' e => h ;; k" :=
  (sbind m (λ r, match r with Ok x => k | Err e => h end))
  (at level 100, m at next level, e name, h at next level, right associativity, only parsing) : sys_scope.
(** [if err := m; err != nil { return h }; k] *)
Notation "'attempt' m 'else' e => h ;; k" :=
  (sbind m (λ r, match r with None => k | Some e => h end))
  (at level 100, m at next level, e name, h at next level, right associativity, only parsing) : sys_scope.
(** [_ = m; k] *)
Notation "m ;;; k" := (sbind m (λ _, k))
  (at level 100, k at level 200, right associativity, only parsing) : sys_scope.
Open Scope sys_scope.

Definition create (c : creation) : sys handle := SNew c SRet.
Definition open (o : opening) : sys (result handle) := SOpen o SRet.
Definition do {X} (c : call X) : sys X := SCall c SRet.

(** ** Executions *)

(** The answers of the outside, by the number of the call. *)
Record SysEnv := Build_SysEnv {
  env_open : nat → opening → option goerr;
  env_call : ∀ X, nat → call X → X;
}.

Inductive event :=
| Created (c : creation) (h : handle)
| Opened (o : opening) (h : handle)
| Refused (o : opening) (err : goerr)
| Called {X : Type} (c : call X) (x : X).

(** The number of the next call, what is open, and what has happened, the latest first. *)
Record Process := Build_Process { p_next : nat; p_open : gset handle; p_log : list event }.

Definition note (s : Process) (opened : gset handle) (e : event) : Process :=
  Build_Process (S (p_next s)) opened (e :: p_log s).

Fixpoint run_sys {A} (env : SysEnv) (p : sys A) (s : Process) : A * Process :=
  match p with
  | SRet a => (a, s)
  | SNew c k =>
      let h := p_next s in run_sys env (k h) (note s ({[h]} ∪ p_open s) (Created c h))
  | SOpen o k =>
      let h := p_next s in
      match env_open env h o with
      | Some err => run_sys env (k (Err err)) (note s (p_open s) (Refused o err))
      | None => run_sys env (k (Ok h)) (note s ({[h]} ∪ p_open s) (Opened o h))
      end
  | SCall c k =>
      let x := env_call env _ (p_next s) c in
      run_sys env (k x) (note s (p_open s ∖ closes c) (Called c x))
  end.

Lemma run_sys_bind {A B} env (m : sys A) (f : A → sys B) s :
  run_sys env (sbind m f) s = let '(a, s1) := run_sys env m s in run_sys env (f a) s1.
Proof.
  revert s. induction m as [a|c k IH|o k IH|X c k IH]; intros s; simpl; [done|apply IH| |apply IH].
  destruct (env_open env (p_next s) o); apply IH.
Qed.

(** Handles that are open have been given out before. *)
Definition numbered (s : Process) : Prop := ∀ h, h ∈ p_open s → h < p_next s.

(** ** Weakest preconditions *)

Section Wps.
(** What the calls must meet. *)
Context (I : ∀ X, call X → Prop).

Fixpoint wps {A} (p : sys A) (Q : A → gset handle → Prop) (L : gset handle) : Prop :=
  match p with
  | SRet a => Q a L
  | SNew c k => ∀ h, h ∉ L → wps (k h) Q ({[h]} ∪ L)
  | SOpen o k =>
      opens_from o ⊆ L ∧ (∀ e, wps (k (Err e)) Q L) ∧ ∀ h, h ∉ L → wps (k (Ok h)) Q ({[h]} ∪ L)
  | SCall c k => uses c ⊆ L ∧ I _ c ∧ ∀ x, wps (k x) Q (L ∖ closes c)
  end.

Lemma wps_mono {A} (p : sys A) (Q Q' : A → gset handle → Prop) L :
  (∀ a L, Q a L → Q' a L) → wps p Q L → wps p Q' L.
Proof.
  intros HQ. revert L. induction p as [a|c k IH|o k IH|X c k IH]; intros L; simpl; [auto| | |].
  - intros Hp h Hh. apply IH, Hp, Hh.
  - intros (Ho & He & Hp). split_and!; [done|intros e; apply IH, He|intros h Hh; apply IH, Hp, Hh].
  - intros (Hu & Hi & Hp). split_and!; [done|done|intros x; apply IH, Hp].
Qed.

Lemma wps_bind {A B} (m : sys A) (f : A → sys B) Q L :
  wps m (λ a L, wps (f a) Q L) L → wps (sbind m f) Q L.
Proof.
  revert L. induction m as [a|c k IH|o k IH|X c k IH]; intros L; simpl; [done| | |].
  - intros Hp h Hh. apply IH, Hp, Hh.
  - intros (Ho & He & Hp). split_and!; [done|intros e; apply IH, He|intros h Hh; apply IH, Hp, Hh].
  - intros (Hu & Hi & Hp). split_and!; [done|done|intros x; apply IH, Hp].
Qed.

(** The calls a run makes. *)
Definition allowed (e : event) : Prop := match e with @Called X c _ => I X c | _ => True end.

Lemma numbered_note s L e : numbered s → L ⊆ {[p_next s]} ∪ p_open s → numbered (note s L e).
Proof.
  intros Hn HL h Hh. simpl in *. assert (h ∈ {[p_next s]} ∪ p_open s) as [Hh'|Hh']%elem_of_union by set_solver.
  - apply elem_of_singleton in Hh' as ->. lia.
  - specialize (Hn h Hh'). lia.
Qed.

(** Soundness: in any environment the program ends in its postcondition, the calls it has
    made are allowed, and the handles keep their numbering. *)
Lemma wps_run {A} env (p : sys A) Q s a s' :
  wps p Q (p_open s) → numbered s → run_sys env p s = (a, s') →
  Q a (p_open s') ∧ numbered s' ∧ (Forall allowed (p_log s) → Forall allowed (p_log s')).
Proof.
  revert s. induction p as [b|c k IH|o k IH|X c k IH]; intros s Hp Hn; simpl in *.
  - intros [= <- <-]. auto.
  - assert (p_next s ∉ p_open s) as Hf by (intros Hin; specialize (Hn _ Hin); lia).
    intros Hr. eapply IH in Hr as (? & ? & Hl); [|exact (Hp _ Hf)|by apply numbered_note].
    split_and!; [done..|]. intros Ha. apply Hl. by constructor.
  - assert (p_next s ∉ p_open s) as Hf by (intros Hin; specialize (Hn _ Hin); lia).
    destruct Hp as (Ho & He & Hp). destruct (env_open env (p_next s) o) as [e|]; intros Hr.
    + eapply IH in Hr as (? & ? & Hl); [|exact (He e)|apply numbered_note; [done|set_solver]].
      split_and!; [done..|]. intros Ha. apply Hl. by constructor.
    + eapply IH in Hr as (? & ? & Hl); [|exact (Hp _ Hf)|by apply numbered_note].
      split_and!; [done..|]. intros Ha. apply Hl. by constructor.
  - destruct Hp as (Hu & Hi & Hp). intros Hr.
    eapply IH in Hr as (? & ? & Hl); [|apply Hp|apply numbered_note; [done|set_solver]].
    split_and!; [done..|]. intros Ha. apply Hl. by constructor.
Qed.

End Wps.

(** Without a condition on the calls. *)
Notation wpo := (wps (λ _ _, True)).

(** One step of a proof of [wps]: bind, or the next call. *)
Ltac wps_step :=
  lazymatch goal with
  | |- wps _ (sbind _ _) _ _ => apply wps_bind
  | |- wps _ (create _) _ _ => intros ? ?
  | |- wps _ (open _) _ _ => split_and!; [simpl; set_solver|intros ?|intros ? ?]
  | |- wps _ (do _) _ _ => split_and!; [simpl; set_solver|simpl; auto|intros ?]
  | |- wps _ (SRet _) _ _ => simpl
  | |- wps _ (match ?x with _ => _ end) _ _ => destruct x eqn:?
  end.
