(* ===== verification/Urls.v ===== *)
(** * Query strings and file paths

    What [net/url] does with the part of a URL after the question mark: [QueryEscape] and
    [QueryUnescape], [ParseQuery] and [Values.Encode]. A [Values] that is encoded and parsed
    again is the same. And the functions of [path/filepath] the program uses. *)

From Stdlib Require Import Ascii.
From stdpp Require Import base gmap list strings sorting.
From S2P Require Import Prelude GoErrors.

Local Notation bytes := String.list_ascii_of_string.
Local Notation text := String.string_of_list_ascii.

(** ** Escaping *)

(** [shouldEscape(c, encodeQueryComponent)] is false. *)
Definition unreserved (a : ascii) : bool :=
  let n := N_of_ascii a in
  ((97 <=? n) && (n <=? 122) || (65 <=? n) && (n <=? 90) || (48 <=? n) && (n <=? 57)
   || (n =? 45) || (n =? 95) || (n =? 46) || (n =? 126))%N.

(** A digit of [upperhex], and [unhex] of one of either case. *)
Definition upperhex (n : N) : ascii := ascii_of_N (if (n <? 10)%N then 48 + n else 55 + n).
Definition unhex (a : ascii) : option N :=
  let n := N_of_ascii a in
  if ((48 <=? n) && (n <=? 57))%N then Some (n - 48)%N
  else if ((97 <=? n) && (n <=? 102))%N then Some (n - 87)%N
  else if ((65 <=? n) && (n <=? 70))%N then Some (n - 55)%N
  else None.

Definition escape_byte (a : ascii) : list ascii :=
  if unreserved a then [a]
  else if Ascii.eqb a " " then ["+"%char]
  else ["%"%char; upperhex (N_of_ascii a / 16); upperhex (N_of_ascii a mod 16)].

Definition escape (l : list ascii) : list ascii := mbind escape_byte l.

Fixpoint unescape (l : list ascii) : option (list ascii) :=
  match l with
  | [] => Some []
  | a :: l1 =>
      if Ascii.eqb a "%" then
        match l1 with
        | x :: y :: l2 =>
            match unhex x, unhex y with
            | Some m, Some n => cons (ascii_of_N (16 * m + n)) <$> unescape l2
            | _, _ => None
            end
        | _ => None
        end
      else if Ascii.eqb a "+" then cons " "%char <$> unescape l1
      else cons a <$> unescape l1
  end.

(** [url.QueryEscape] and [url.QueryUnescape]. *)
Definition QueryEscape (s : string) : string := text (escape (bytes s)).
Definition QueryUnescape (s : string) : option string := text <$> unescape (bytes s).

(** ** Values *)

Notation Values := (gmap string (list string)).

(** [strings.Split(s, sep)] and [strings.Cut(s, sep)] for one byte. *)
Fixpoint split_on (sep : ascii) (l : list ascii) : list (list ascii) :=
  match l with
  | [] => [[]]
  | a :: l' =>
      if Ascii.eqb a sep then [] :: split_on sep l'
      else match split_on sep l' with [] => [[a]] | w :: ws => (a :: w) :: ws end
  end.
Fixpoint cut_on (sep : ascii) (l : list ascii) : list ascii * list ascii :=
  match l with
  | [] => ([], [])
  | a :: l' =>
      if Ascii.eqb a sep then ([], l')
      else let '(before, after) := cut_on sep l' in (a :: before, after)
  end.

(** [v.Add(key, value)]. *)
Definition add_value (key value : string) (v : Values) : Values :=
  <[key := default [] (v !! key) ++ [value]]> v.

(** One setting of a query; a malformed one is skipped. *)
Definition parse_setting (v : Values) (setting : list ascii) : Values :=
  if existsb (Ascii.eqb ";") setting then v
  else match setting with
  | [] => v
  | _ =>
      let '(key, value) := cut_on "=" setting in
      match unescape key, unescape value with
      | Some key, Some value => add_value (text key) (text value) v
      | _, _ => v
      end
  end.

(** [url.ParseQuery], what it returns next to its error. *)
Definition ParseQuery (query : string) : Values :=
  foldl parse_setting ∅ (split_on "&" (bytes query)).

Definition key_le (a b : string * list string) : bool := negb (String.ltb b.1 a.1).

Definition encode_setting (key value : string) : list ascii :=
  escape (bytes key) ++ "="%char :: escape (bytes value).
Definition settings (v : Values) : list (string * string) :=
  mbind (λ '(key, values), pair key <$> values) (sort_by key_le (map_to_list v)).
Fixpoint join_on (sep : ascii) (l : list (list ascii)) : list ascii :=
  match l with
  | [] => []
  | [w] => w
  | w :: l' => w ++ sep :: join_on sep l'
  end.

(** [v.Encode()]: by key. *)
Definition Encode (v : Values) : string :=
  text (join_on "&" ((λ '(key, value), encode_setting key value) <$> settings v)).

(** ** File paths *)

(** [strings.Join(l, "/")]. *)
Fixpoint join_slash (l : list string) : string :=
  match l with [] => "" | [w] => w | w :: l' => w +:+ "/" +:+ join_slash l' end.

(** The elements of a path, taken one by one; the ones kept, the last first. *)
Definition clean_step (rooted : bool) (kept : list string) (element : string) : list string :=
  if (element =?s "") || (element =?s ".") then kept
  else if element =?s ".." then
    match kept with
    | top :: kept' => if top =?s ".." then ".." :: kept else kept'
    | [] => if rooted then [] else [".."]
    end
  else element :: kept.

(** [filepath.Clean], [filepath.Dir], and [filepath.Abs] in a working directory. *)
Definition Clean (path : string) : string :=
  let rooted := HasPrefix path "/" in
  let out := (if rooted then "/" else "") +:+ join_slash (rev (foldl (clean_step rooted) [] (split_slash path))) in
  if out =?s "" then "." else out.
(** Up to and with the last slash. *)
Definition directory_part (path : string) : string :=
  text (rev ((fix drop l := match l with [] => [] | a :: l' => if Ascii.eqb a "/" then l else drop l' end)
               (rev (bytes path)))).
Definition Dir (path : string) : string := Clean (directory_part path).
Definition Abs (Getwd : result string) (path : string) : result string :=
  if HasPrefix path "/" then Ok (Clean path)
  else match Getwd with Err err => Err err | Ok wd => Ok (Clean (wd +:+ "/" +:+ path)) end.

Example Clean_1 : Clean "/a//b/../c/./d/" = "/a/c/d". Proof. done. Qed.
Example Clean_2 : map Clean [""; "a/.."; "../../a"; "/../a"; "a/../.."] = ["."; "."; "../../a"; "/a"; ".."].
Proof. done. Qed.
Example Dir_1 : map Dir ["logs/app.log"; "app.log"; "/app.log"; "/a/b/"] = ["logs"; "."; "/"; "/a/b"].
Proof. done. Qed.

(** ** Round trips *)

Lemma escape_cons a l : escape (a :: l) = escape_byte a ++ escape l.
Proof. done. Qed.

(** One byte comes back, whatever follows. *)
Lemma unescape_byte a l : unescape (escape_byte a ++ l) = cons a <$> unescape l.
Proof. by destruct a as [[] [] [] [] [] [] [] []]. Qed.

Lemma unescape_escape l : unescape (escape l) = Some l.
Proof. induction l as [|a l IH]; [done|]. by rewrite escape_cons, unescape_byte, IH. Qed.

(** A string that is escaped and unescaped is the same. *)
Lemma QueryUnescape_QueryEscape s : QueryUnescape (QueryEscape s) = Some s.
Proof.
  unfold QueryUnescape, QueryEscape.
  rewrite String.list_ascii_of_string_of_list_ascii, unescape_escape. simpl.
  by rewrite String.string_of_list_ascii_of_string.
Qed.

(** The bytes with a meaning in a query do not occur in an escaped string. *)
Definition plain (a : ascii) : Prop := a ≠ "&"%char ∧ a ≠ "="%char ∧ a ≠ ";"%char ∧ a ≠ "?"%char ∧ a ≠ "#"%char.

Lemma escape_byte_plain a : Forall plain (escape_byte a).
Proof. destruct a as [[] [] [] [] [] [] [] []]; repeat constructor; done. Qed.

Lemma escape_plain l : Forall plain (escape l).
Proof. induction l as [|a l IH]; [done|]. rewrite escape_cons. by apply Forall_app_2; [apply escape_byte_plain|]. Qed.

Lemma split_on_app sep w l :
  Forall (λ a, a ≠ sep) w → split_on sep (w ++ sep :: l) = w :: split_on sep l.
Proof.
  induction 1 as [|a w Ha Hw IH]; simpl; [by rewrite Ascii.eqb_refl|].
  apply Ascii.eqb_neq in Ha. by rewrite Ha, IH.
Qed.

Lemma split_on_whole sep w : Forall (λ a, a ≠ sep) w → split_on sep w = [w].
Proof. induction 1 as [|a w Ha Hw IH]; simpl; [done|]. apply Ascii.eqb_neq in Ha. by rewrite Ha, IH. Qed.

Lemma split_on_join sep l :
  l ≠ [] → Forall (Forall (λ a, a ≠ sep)) l → split_on sep (join_on sep l) = l.
Proof.
  intros Hne Hl. induction Hl as [|w l Hw Hl IH]; [done|]. destruct l as [|w' l].
  - simpl. by apply split_on_whole.
  - change (join_on sep (w :: w' :: l)) with (w ++ sep :: join_on sep (w' :: l)).
    rewrite split_on_app by done. f_equal. by apply IH.
Qed.

Lemma cut_on_app sep w l : Forall (λ a, a ≠ sep) w → cut_on sep (w ++ sep :: l) = (w, l).
Proof.
  induction 1 as [|a w Ha Hw IH]; simpl; [by rewrite Ascii.eqb_refl|].
  apply Ascii.eqb_neq in Ha. by rewrite Ha, IH.
Qed.

(** A setting that is encoded is read back. *)
Lemma parse_encoded v key value : parse_setting v (encode_setting key value) = add_value key value v.
Proof.
  unfold parse_setting, encode_setting.
  destruct (existsb _ _) eqn:He.
  { apply existsb_exists in He as (a & Hin%list_elem_of_In & <-%Ascii.eqb_eq).
    pose proof (escape_plain (bytes key)) as Hk. pose proof (escape_plain (bytes value)) as Hv.
    rewrite Forall_forall in Hk, Hv. apply elem_of_app in Hin as [Hin|[?|Hin]%elem_of_cons]; [|done|].
    - by apply Hk in Hin as (_ & _ & ? & _).
    - by apply Hv in Hin as (_ & _ & ? & _). }
  destruct (escape (bytes key) ++ _) as [|a l] eqn:Hl; [by destruct (escape (bytes key))|].
  rewrite <- Hl, cut_on_app, !unescape_escape, !String.string_of_list_ascii_of_string; [done|].
  eapply Forall_impl; [apply escape_plain|]. by intros x (_ & ? & _).
Qed.

Lemma parse_settings l v :
  foldl parse_setting v ((λ '(key, value), encode_setting key value) <$> l)
  = foldl (λ v '(key, value), add_value key value v) v l.
Proof.
  revert v. induction l as [|[key value] l IH]; intros v; [done|]. simpl. by rewrite parse_encoded, IH.
Qed.

(** The values a list of settings gives to a key. *)
Definition values_of (key : string) (l : list (string * string)) : list string :=
  snd <$> filter (λ s, s.1 = key) l.

Lemma add_values_lookup l v key :
  foldl (λ v '(key, value), add_value key value v) v l !! key
  = match values_of key l with [] => v !! key | ws => Some (default [] (v !! key) ++ ws) end.
Proof.
  revert v. induction l as [|[key' value] l IH]; intros v; [done|]. simpl. rewrite IH. unfold add_value, values_of.
  rewrite filter_cons. simpl. destruct (decide (key' = key)) as [->|Hne].
  - rewrite lookup_insert_eq, fmap_cons. simpl. generalize (filter (λ s : string * string, s.1 = key) l).*2. intros [|w ws]; [done|]. by rewrite <- app_assoc.
  - by rewrite lookup_insert_ne by done.
Qed.

Lemma values_of_app key l l' : values_of key (l ++ l') = values_of key l ++ values_of key l'.
Proof. unfold values_of. by rewrite filter_app, fmap_app. Qed.

Lemma values_of_pairs key key' ws :
  values_of key (pair key' <$> ws) = if decide (key' = key) then ws else [].
Proof.
  unfold values_of. induction ws as [|w ws IH]; [by case_decide|].
  rewrite fmap_cons, filter_cons. simpl. case_decide; [|done]. by rewrite fmap_cons, IH.
Qed.

Lemma values_of_entries key (l : list (string * list string)) :
  NoDup l.*1 →
  values_of key (mbind (λ '(key, values), pair key <$> values) l)
  = default [] ((list_to_map l : gmap string (list string)) !! key).
Proof.
  induction l as [|[key' ws] l IH]; [done|]. rewrite fmap_cons, bind_cons. intros [Hn Hnd]%NoDup_cons.
  rewrite values_of_app, values_of_pairs, IH by done. case_decide as He.
  - subst. cbn [list_to_map foldr uncurry fst snd]. rewrite lookup_insert_eq. simpl. rewrite not_elem_of_list_to_map_1 by done. simpl. by rewrite app_nil_r.
  - cbn [list_to_map foldr uncurry fst snd]. by rewrite lookup_insert_ne by done.
Qed.

Lemma values_of_settings v key : values_of key (settings v) = default [] (v !! key).
Proof.
  assert (sort_by key_le (map_to_list v) ≡ₚ map_to_list v) as Hp by apply sort_by_Permutation.
  unfold settings. rewrite values_of_entries.
  - by rewrite (list_to_map_proper _ (map_to_list v)), list_to_map_to_list;
      [|rewrite Hp; apply NoDup_fst_map_to_list|].
  - rewrite Hp. apply NoDup_fst_map_to_list.
Qed.

(** Encoding and parsing again gives every key its values, in order; a key without values
    is lost. *)
Lemma ParseQuery_Encode v key :
  default [] (ParseQuery (Encode v) !! key) = default [] (v !! key).
Proof.
  unfold ParseQuery, Encode. rewrite String.list_ascii_of_string_of_list_ascii.
  rewrite <- (values_of_settings v key).
  destruct (settings v) as [|s l] eqn:Hs; [by destruct key|]. rewrite <- Hs.
  rewrite split_on_join.
  - rewrite parse_settings, add_values_lookup, lookup_empty. by destruct (values_of key (settings v)).
  - by rewrite Hs.
  - apply Forall_fmap, Forall_true. intros [k w]. simpl. unfold encode_setting.
    assert (∀ x, Forall (λ a, a ≠ "&"%char) (escape x)) as He.
    { intros x. eapply Forall_impl; [apply escape_plain|]. by intros a [? _]. }
    apply Forall_app_2; [apply He|]. constructor; [done|apply He].
Qed.
