(* ===== verification/Migration.v ===== *)
(** * Migrations

    [internal/migration/migration.go], [runStartupMigration] of [internal/app/app.go] and
    [cmd/migrate/main.go]: the URL the migrator is given, the schema that is made before it,
    and the steps it runs. The migrator itself is a library. *)

From Stdlib Require Import Ascii.
From stdpp Require Import base gmap sets list strings.
From S2P Require Import Floats Config.
From S2P Require Import Prelude GoErrors Effects Outbound System Urls.

Local Notation bytes := String.list_ascii_of_string.
Local Notation text := String.string_of_list_ascii.

(** ** Strings *)

(** [strings.IndexByte(s, c)] and [strings.LastIndex(s, c)] for one byte. *)
Definition IndexByte (l : list ascii) (c : ascii) : option nat := fst <$> list_find (λ a, a = c) l.
Definition LastIndex (l : list ascii) (c : ascii) : option nat :=
  (λ i, length l - 1 - i.1) <$> list_find (λ a, a = c) (rev l).

(** [escape(path, encodePath)], for [URL.String]. *)
Definition path_byte (a : ascii) : list ascii :=
  let n := N_of_ascii a in
  if (unreserved a || (n =? 36) || (n =? 38) || (n =? 43) || (n =? 44) || (n =? 47) || (n =? 58)
      || (n =? 59) || (n =? 61) || (n =? 64))%N
  then [a] else ["%"%char; upperhex (n / 16); upperhex (n mod 16)].
(** [(&url.URL{Scheme: "file", Path: path}).String()] for an absolute path. *)
Definition file_url (path : string) : string := "file://" +:+ text (mbind path_byte (bytes path)).

(** What [net/url] lets the program read and write of a parsed URL, besides [UrlLibrary]. *)
Class UrlFields `{UrlLibrary} := {
  url_Path : URL → string;
  url_RawQuery : URL → string;
  with_Path : string → URL → URL;
  with_RawQuery : string → URL → URL;
}.

Section Migration.
Context `{UrlFields}.
(** The working directory. *)
Context (Getwd : result string).

(** ** The URL of the database *)

(** [parsed.Query()]. *)
Definition Query (u : URL) : Values := ParseQuery (url_RawQuery u).

(** The branch for MySQL, whose addresses [net/url] does not parse. *)
Definition mysql_url (databaseURL databaseName table : string) : result string :=
  let replaced :=
    if databaseName <>?s "" then
      let l := bytes databaseURL in
      let pathEnd := default (length l) (IndexByte l "?") in
      match LastIndex (take pathEnd l) "/" with
      | None => Err (TextError "mysql migration URL is missing database path")
      | Some slash => Ok (text (take (slash + 1) l) +:+ databaseName +:+ text (drop pathEnd l))
      end
    else Ok databaseURL in
  databaseURL <-! replaced else err => Err err;;
  stop_if table =?s "" => Ok databaseURL;;
  let separator := if Contains databaseURL "?" then "&" else "?" in
  Ok (databaseURL +:+ separator +:+ "x-migrations-table=" +:+ QueryEscape table).

(** The settings the other branch puts into the query. *)
Definition migration_query (table schema : string) (query : Values) : Values :=
  let query := if table <>?s "" then <["x-migrations-table" := [table]]> query else query in
  if schema <>?s "" then <["search_path" := [schema]]> query else query.

Definition withMigrationOptions (databaseURL databaseName table schema : string) : result string :=
  stop_if (databaseName =?s "") && (table =?s "") && (schema =?s "") => Ok databaseURL;;
  stop_if HasPrefix databaseURL "mysql://" => mysql_url databaseURL databaseName table;;
  parsed <-! url_Parse databaseURL else err => Err (Wrapped "parse migration database URL" err);;
  let query := Query parsed in
  let parsed := if databaseName <>?s "" then with_Path ("/" +:+ databaseName) parsed else parsed in
  Ok (url_String (with_RawQuery (Encode (migration_query table schema query)) parsed)).

(** ** The schema *)

Definition lock_statement : string := "SELECT pg_advisory_xact_lock(hashtext($1))".
(** The statement with the name of the schema between double quotes. *)
Definition quotation : string := String (ascii_of_N 34) "".
Definition schema_statement (schema : string) : string :=
  "CREATE SCHEMA IF NOT EXISTS " +:+ quotation +:+ schema +:+ quotation.

(** The work between [db.Begin] and the deferred [tx.Rollback]. *)
Definition create_schema (schema : string) (tx : handle) : sys (option goerr) :=
  attempt do (ExecTx tx lock_statement ["platform-schema:" +:+ schema])
    else err => SRet (Some (Wrapped ("lock migration schema " +:+ schema) err));;
  attempt do (ExecTx tx (schema_statement schema) [])
    else err => SRet (Some (Wrapped ("create migration schema " +:+ schema) err));;
  attempt do (CommitTx tx)
    else err => SRet (Some (Wrapped ("commit migration schema " +:+ schema) err));;
  SRet None.

Definition ensureSchema (cfg : Migration) (databaseURL : string) : sys (option goerr) :=
  let schema := Migration_Schema cfg in
  stop_if negb (Migration_CreateSchema cfg) || (schema =?s "")
          || HasPrefix (Migration_DatabaseURL cfg) "mysql://" => SRet None;;
  stop_if negb (validMigrationTable schema) => SRet (Some (TextError "invalid migration schema"));;
  match url_Parse databaseURL with
  | Err err => SRet (Some (Wrapped "parse database URL for schema creation" err))
  | Ok parsed =>
      let parsed := with_RawQuery (Encode (delete "x-migrations-table" (Query parsed))) parsed in
      db <~? open (SqlOpen "postgres" (url_String parsed))
        else err => SRet (Some (Wrapped "open database to create schema" err));;
      begun <~ open (BeginTx db);;
      result <~ match begun with
                | Err err => SRet (Some (Wrapped "begin schema creation" err))
                | Ok tx =>
                    result <~ create_schema schema tx;;
                    do (RollbackTx tx);;; SRet result
                end;;
      do (CloseDB db);;; SRet result
  end.

(** ** Running the migrations *)

(** The deferred function of [Run]: the errors of closing are added to the result. *)
Definition close_migrator (m : handle) (runErr : option goerr) : sys (option goerr) :=
  closed <~ do (MigrateClose m);;
  let '(sourceErr, databaseErr) := closed in
  let runErr := match sourceErr with
                | Some err => Join runErr (Some (Wrapped "close migration source" err))
                | None => runErr
                end in
  SRet (match databaseErr with
        | Some err => Join runErr (Some (Wrapped "close migration database" err))
        | None => runErr
        end).

(** What [steps] and [direction] ask for. *)
Definition migrate_call (m : handle) (direction : string) (steps : Z) : call (option goerr) :=
  if negb (steps =? 0)%Z then MigrateSteps m steps
  else if direction =?s "down" then MigrateDown m
  else MigrateUp m.

Definition Run (cfg : Migration) (direction : string) (steps : Z) : sys (option goerr) :=
  stop_if Migration_DatabaseURL cfg =?s "" =>
    SRet (Some (TextError "migration.database_url is required"));;
  match Abs Getwd (Migration_Path cfg) with
  | Err err => SRet (Some (Wrapped "resolve migration path" err))
  | Ok absPath =>
      let source := file_url absPath in
      match withMigrationOptions (Migration_DatabaseURL cfg) (Migration_DatabaseName cfg)
              (Migration_Table cfg) (Migration_Schema cfg) with
      | Err err => SRet (Some err)
      | Ok databaseURL =>
          attempt ensureSchema cfg databaseURL else err => SRet (Some err);;
          m <~? open (MigrateNew source databaseURL)
            else err => SRet (Some (Wrapped "create migrator" err));;
          err <~ do (migrate_call m direction steps);;
          close_migrator m
            match err with
            | Some err => if negb (Is err ErrNoChange) then Some (Wrapped "run migration" err) else None
            | None => None
            end
      end
  end.

(** [runStartupMigration]. *)
Definition runStartupMigration (cfg : Config) : sys (option goerr) :=
  stop_if negb (Migration_AutoUp (Config_Migration cfg)) => SRet None;;
  attempt Run (Config_Migration cfg) "up" 0
    else err => SRet (Some (Wrapped "startup database migration" err));;
  SRet None.

(** [main] of [cmd/migrate], from the flags to the exit code. *)
Definition migrate_main (LoadWithProfile : string → string → result Config)
    (configPath profile direction : string) (steps : Z) : sys Z :=
  stop_if (direction <>?s "up") && (direction <>?s "down") => SRet 2%Z;;
  err <~ match LoadWithProfile configPath profile with
         | Ok cfg => Run (Config_Migration cfg) direction steps
         | Err err => SRet (Some err)
         end;;
  SRet (match err with Some _ => 1%Z | None => 0%Z end).

End Migration.
