(* ===== verification/MigrationProofs.v ===== *)
(** * Migrations are run safely

    Whatever fails, a migration closes what it opens and executes no statement but the two of
    the source, around a validated name; and the URL it gives the migrator reads back as it was
    with the configured database, table and schema. *)

From Stdlib Require Import Ascii.
From stdpp Require Import base gmap sets list strings.
From S2P Require Import Floats Config.
From S2P Require Import Prelude GoErrors Effects Outbound System Urls Migration.

Local Notation bytes := String.list_ascii_of_string.
Local Notation text := String.string_of_list_ascii.

(** The bytes of an encoded query. *)
Definition query_byte (a : ascii) : bool :=
  unreserved a || Ascii.eqb a "%" || Ascii.eqb a "+" || Ascii.eqb a "&" || Ascii.eqb a "=".

(** [net/url] as documented: a URL with a host that is printed parses to one with the same path
    and query, when the path begins with a slash and the query is escaped. *)
Class UrlLaws `{UrlFields} := {
  url_reparsed databaseURL u name q :
    url_Parse databaseURL = Ok u → url_Host u ≠ "" → Forall (λ a, query_byte a = true) (bytes q) →
    (∃ u', url_Parse (url_String (with_RawQuery q u)) = Ok u' ∧
           url_RawQuery u' = q ∧ url_Path u' = url_Path u) ∧
    ∃ u', url_Parse (url_String (with_RawQuery q (with_Path ("/" +:+ name) u))) = Ok u' ∧
          url_RawQuery u' = q ∧ url_Path u' = "/" +:+ name;
}.

(** ** Statements and handles *)

(** The statements the program may execute on a schema. *)
Inductive safe_statement : string → list string → Prop :=
| safe_lock schema :
    validMigrationTable schema = true → safe_statement lock_statement ["platform-schema:" +:+ schema]
| safe_schema schema : validMigrationTable schema = true → safe_statement (schema_statement schema) [].

Definition safe_call X (c : call X) : Prop :=
  match c with ExecTx _ statement arguments => safe_statement statement arguments | _ => True end.

Section Safety.
Context `{UrlFields} (Getwd : result string).

Lemma create_schema_wps schema tx L :
  validMigrationTable schema = true → tx ∈ L →
  wps safe_call (create_schema schema tx) (λ _ L', L' ∖ {[tx]} = L ∖ {[tx]}) L.
Proof.
  intros Hv Hin. unfold create_schema.
  repeat (apply wps_bind; split_and!; [simpl; set_solver|by constructor|]; intros [e|]; [simpl; set_solver|]).
  simpl. set_solver.
Qed.

Lemma ensureSchema_wps cfg databaseURL L :
  wps safe_call (ensureSchema cfg databaseURL) (λ _ L', L' = L) L.
Proof.
  unfold ensureSchema. case_match; [done|]. case_match eqn:Hv; [done|]. reflect_bools.
  case_match; [|done]. apply wps_bind. split_and!; [simpl; set_solver|done|]. intros db Hdb.
  apply wps_bind. split_and!; [simpl; set_solver|intros e|intros tx Htx].
  - simpl. split_and!; [set_solver|done|]. intros _. set_solver.
  - apply wps_bind, wps_bind. eapply wps_mono; [|apply create_schema_wps; [done|set_solver]].
    intros r L' HL'. assert (db ≠ tx) as Hne by set_solver.
    assert (L' ∖ {[tx]} = {[db]} ∪ L) as HL by (rewrite HL'; set_solver).
    simpl. split_and!; [set_solver|done|]. intros _. split_and!; [set_solver|done|]. intros _.
    set_solver.
Qed.

Lemma Run_wps cfg direction steps L :
  wps safe_call (Run Getwd cfg direction steps) (λ _ L', L' = L) L.
Proof.
  unfold Run. case_match; [done|]. case_match; [|done]. case_match; [|done].
  apply wps_bind. eapply wps_mono; [|apply ensureSchema_wps]. intros [e|] L' ->; [done|].
  apply wps_bind. split_and!; [simpl; set_solver|done|]. intros m Hm.
  apply wps_bind. unfold migrate_call.
  assert (∀ r, wps safe_call (close_migrator m r) (λ _ L', L' = L) ({[m]} ∪ L)) as Hclose.
  { intros r. unfold close_migrator. apply wps_bind. split_and!; [simpl; set_solver|done|].
    intros [[e|] [e'|]]; simpl; set_solver. }
  repeat case_match; (split_and!; [simpl; set_solver|done|]; intros x; simpl;
    rewrite difference_empty_L; apply Hclose).
Qed.

(** A schema that is asked for is there when [ensureSchema] succeeds. *)
Definition schema_asked (cfg : Migration) : bool :=
  Migration_CreateSchema cfg && (Migration_Schema cfg <>?s "")
  && negb (HasPrefix (Migration_DatabaseURL cfg) "mysql://").

Definition schema_created (schema : string) (log : list event) : Prop :=
  ∃ tx, Called (ExecTx tx lock_statement ["platform-schema:" +:+ schema]) None ∈ log ∧
    Called (ExecTx tx (schema_statement schema) []) None ∈ log ∧ Called (CommitTx tx) None ∈ log.

Lemma create_schema_run env schema tx s s' :
  run_sys env (create_schema schema tx) s = (None, s') → schema_created schema (p_log s').
Proof.
  unfold create_schema. simpl.
  destruct (env_call env _ _ (ExecTx tx lock_statement _)) as [e|] eqn:H1; [by intros [=]|]. simpl.
  destruct (env_call env _ _ (ExecTx tx (schema_statement schema) _)) as [e|] eqn:H2; [by intros [=]|]. simpl.
  destruct (env_call env _ _ (CommitTx tx)) as [e|] eqn:H3; [by intros [=]|]. intros [= <-].
  exists tx. simpl. split_and!; set_solver.
Qed.

#[local] Opaque create_schema.

Lemma ensureSchema_run env cfg databaseURL s s' :
  run_sys env (ensureSchema cfg databaseURL) s = (None, s') → schema_asked cfg = true →
  schema_created (Migration_Schema cfg) (p_log s').
Proof.
  unfold ensureSchema, schema_asked. intros Hrun Hasked. reflect_bools.
  destruct (Migration_CreateSchema cfg), (HasPrefix _ _); simpl in *; try done.
  destruct (String.eqb_spec (Migration_Schema cfg) ""); simpl in *; [done|].
  destruct (validMigrationTable _); simpl in *; [|done].
  destruct (url_Parse databaseURL) as [u|]; [|done]. simpl in Hrun.
  destruct (env_open env _ _) as [e|]; [done|]. simpl in Hrun.
  destruct (env_open env _ (BeginTx _)) as [e|]; [done|]. cbn [sbind] in Hrun. rewrite !run_sys_bind in Hrun.
  destruct (run_sys env (create_schema _ _) _) as [r0 s1] eqn:Hc. simpl in Hrun.
  injection Hrun as -> <-. apply create_schema_run in Hc as (tx & ? & ? & ?).
  exists tx. simpl. split_and!; set_solver.
Qed.

(** The choice of the call. *)
Lemma migrate_call_asks m direction steps :
  (steps ≠ 0%Z → migrate_call m direction steps = MigrateSteps m steps) ∧
  (steps = 0%Z → direction = "down" → migrate_call m direction steps = MigrateDown m) ∧
  (steps = 0%Z → direction ≠ "down" → migrate_call m direction steps = MigrateUp m).
Proof.
  unfold migrate_call. split_and!.
  - intros Hn. by apply Z.eqb_neq in Hn as ->.
  - by intros -> ->.
  - intros -> Hd. simpl. by apply String.eqb_neq in Hd as ->.
Qed.

(** (C19) Running the migrations is safe and honest. From any process, whatever fails,
    [Run] leaves open what was open and nothing else; every statement it executes is one of
    the two of the source, with a name that matches the pattern; and when it answers no error,
    a schema that is asked for was committed, then a migrator was opened once on the URL of the
    options, asked once, answered without error or without a change, and was closed without
    error. A number of steps other than zero asks for so many steps, up or down by its sign,
    whatever the direction; without one, the direction down asks for all the way down and any
    other for all the way up. *)
Theorem migrations_safe cfg direction steps env n L r s' :
  (∀ h, h ∈ L → h < n) →
  run_sys env (Run Getwd cfg direction steps) (Build_Process n L []) = (r, s') →
  p_open s' = L ∧
  (∀ tx statement arguments x, Called (ExecTx tx statement arguments) x ∈ p_log s' →
     ∃ schema, validMigrationTable schema = true ∧
       ((statement = lock_statement ∧ arguments = ["platform-schema:" +:+ schema]) ∨
        (statement = schema_statement schema ∧ arguments = []))) ∧
  (r = None → ∃ absPath url m asked err before,
     Abs Getwd (Migration_Path cfg) = Ok absPath ∧
     withMigrationOptions (Migration_DatabaseURL cfg) (Migration_DatabaseName cfg)
       (Migration_Table cfg) (Migration_Schema cfg) = Ok url ∧
     p_log s' = Called (MigrateClose m) (None, None) :: Called asked err
                :: Opened (MigrateNew (file_url absPath) url) m :: before ∧
     (steps ≠ 0%Z → asked = MigrateSteps m steps) ∧
     (steps = 0%Z → direction = "down" → asked = MigrateDown m) ∧
     (steps = 0%Z → direction ≠ "down" → asked = MigrateUp m) ∧
     (err = None ∨ ∃ e, err = Some e ∧ Is e ErrNoChange = true) ∧
     (schema_asked cfg = true → schema_created (Migration_Schema cfg) before)).
Proof.
  intros HL Hrun.
  destruct (wps_run safe_call env _ (λ _ L', L' = L) (Build_Process n L []) _ _ (Run_wps cfg direction steps L) HL Hrun) as (Hopen & _ & Hlog).
  split_and!; [done| |].
  { intros tx st args x Hin. specialize (Hlog (List.Forall_nil _)). rewrite Forall_forall in Hlog.
    destruct (Hlog _ Hin) as [schema|schema]; eauto. }
  intros ->. unfold Run in Hrun. case_match; [done|].
  destruct (Abs _ _) as [absPath|] eqn:Habs; [|done].
  destruct (withMigrationOptions _ _ _ _) as [url|] eqn:Hurl; [|done].
  rewrite run_sys_bind in Hrun.
  destruct (run_sys env (ensureSchema cfg url) _) as [[e|] s1] eqn:Hs; [done|]. simpl in Hrun.
  destruct (env_open env _ _) as [e|]; [done|]. simpl in Hrun.
  set (err := env_call env _ _ (migrate_call _ _ _)) in *.
  destruct (env_call env _ _ (MigrateClose _)) as [sourceErr databaseErr].
  destruct (migrate_call_asks (p_next s1) direction steps) as (Hsteps & Hdown & Hup).
  exists absPath, url, (p_next s1), (migrate_call (p_next s1) direction steps), err, (p_log s1).
  split_and!; [done|done| |exact Hsteps|exact Hdown|exact Hup| |].
  3: { intros Ha. by eapply ensureSchema_run. }
  all: destruct err as [e|], sourceErr as [e1|], databaseErr as [e2|]; simpl in Hrun; try done;
    try (destruct (Is e ErrNoChange) eqn:?; simpl in Hrun; try done).
  all: try (by left); try (by right; eauto).
  all: by injection Hrun as <-.
Qed.

End Safety.

(** ** The URL of the database *)

Lemma split_on_app_sep sep l l' : split_on sep (l ++ sep :: l') = split_on sep l ++ split_on sep l'.
Proof.
  induction l as [|a l IH]; simpl; [by rewrite Ascii.eqb_refl|].
  rewrite IH. case_match; [done|]. by destruct (split_on sep l) as [|w ws] eqn:Hs; [destruct l; simpl in Hs; repeat case_match|].
Qed.

(** A setting that is appended to a query adds a value to a key. *)
Lemma ParseQuery_append query key value :
  let setting := text (encode_setting key value) in
  ParseQuery (query +:+ "&" +:+ setting) = add_value key value (ParseQuery query) ∧
  ParseQuery setting = add_value key value ∅.
Proof.
  assert (∀ l, split_on "&" (escape l) = [escape l]) as Hone.
  { intros l. apply split_on_whole. eapply Forall_impl; [apply escape_plain|]. by intros a [? _]. }
  assert (split_on "&" (encode_setting key value) = [encode_setting key value]) as Hs.
  { apply split_on_whole. unfold encode_setting.
    assert (∀ x, Forall (λ a, a ≠ "&"%char) (escape x)) as He.
    { intros x. eapply Forall_impl; [apply escape_plain|]. by intros a [? _]. }
    apply Forall_app_2; [apply He|]. constructor; [done|apply He]. }
  simpl. unfold ParseQuery. rewrite !list_ascii_app, String.list_ascii_of_string_of_list_ascii, Hs. split.
  - change (bytes "&" ++ encode_setting key value) with ("&"%char :: encode_setting key value).
    by rewrite split_on_app_sep, foldl_app, Hs; simpl; rewrite parse_encoded.
  - simpl. by rewrite parse_encoded.
Qed.

Lemma Contains_byte s a : Contains s (String a "") = existsb (Ascii.eqb a) (bytes s).
Proof.
  induction s as [|b s IH]; [done|]. cbn [Contains String.prefix existsb bytes]. rewrite IH.
  destruct (ascii_dec a b) as [->|Hne]; [by rewrite Ascii.eqb_refl; destruct s|].
  apply Ascii.eqb_neq in Hne. by rewrite Hne.
Qed.

Lemma list_find_app_here (l l' : list ascii) c :
  c ∉ l → list_find (λ a, a = c) (l ++ c :: l') = Some (length l, c).
Proof.
  intros Hn. apply list_find_Some. split_and!; [by rewrite lookup_app_r, Nat.sub_diag|done|].
  intros j y Hj Hlt ->. rewrite lookup_app_l in Hj by done. by apply list_elem_of_lookup_2 in Hj.
Qed.

Lemma LastIndex_app (b o : list ascii) c : c ∉ o → LastIndex (b ++ c :: o) c = Some (length b).
Proof.
  intros Hn. unfold LastIndex.
  assert (rev (b ++ c :: o) = rev o ++ c :: rev b) as -> by (rewrite rev_app_distr; simpl; by rewrite <- app_assoc).
  rewrite list_find_app_here by (by rewrite list_elem_of_In, <- List.in_rev, <- list_elem_of_In). simpl. f_equal.
  rewrite length_app, length_rev. simpl. lia.
Qed.

(** A string is its part before the first separator, and the rest after it, if it is there. *)
Lemma cut_on_inv sep l a q :
  cut_on sep l = (a, q) → sep ∉ a ∧ (l = a ++ sep :: q ∨ (l = a ∧ q = [])).
Proof.
  revert a q. induction l as [|b l IH]; simpl; intros a q; [intros [= <- <-]; set_solver|].
  destruct (Ascii.eqb_spec b sep) as [->|Hne]; [intros [= <- <-]; set_solver|].
  destruct (cut_on sep l) as [a' q'] eqn:Hc. intros [= <- <-].
  destruct (IH _ _ eq_refl) as (Hn & [->|[-> ->]]); (split; [set_solver|]); auto.
Qed.

Lemma cut_on_absent sep l : sep ∉ l → cut_on sep l = (l, []).
Proof.
  induction l as [|b l IH]; [done|]. intros Hn. simpl.
  destruct (Ascii.eqb_spec b sep) as [->|]; [set_solver|]. by rewrite IH by set_solver.
Qed.

(** The address of a URL and its query: before and after the first question mark. *)
Definition address (s : string) : list ascii := fst (cut_on "?" (bytes s)).
Definition query_of (s : string) : Values := ParseQuery (text (snd (cut_on "?" (bytes s)))).

Lemma address_app s t : "?"%char ∉ bytes s → address (s +:+ "?" +:+ t) = bytes s ∧ query_of (s +:+ "?" +:+ t) = ParseQuery t.
Proof.
  intros Hn. unfold address, query_of. rewrite !list_ascii_app.
  change (bytes "?" ++ bytes t) with ("?"%char :: bytes t).
  rewrite cut_on_app by (apply Forall_forall; intros x Hx ->; done). simpl.
  by rewrite String.string_of_list_ascii_of_string.
Qed.

(** With the database's name the part after the last slash of the address is replaced. *)
Lemma mysql_name s name a q before old :
  cut_on "?" (bytes s) = (a, q) → a = before ++ "/"%char :: old → "/"%char ∉ old → name ≠ "" →
  "?"%char ∉ bytes name →
  ∃ s', mysql_url s name "" = Ok s' ∧ cut_on "?" (bytes s') = (before ++ "/"%char :: bytes name, q).
Proof.
  intros Hc -> Hold Hname Hq. unfold mysql_url. apply String.eqb_neq in Hname. rewrite Hname. simpl.
  apply cut_on_inv in Hc as [Ha Hl].
  assert (∃ rest, bytes s = (before ++ "/"%char :: old) ++ rest ∧
            default (length (bytes s)) (IndexByte (bytes s) "?") = length (before ++ "/"%char :: old) ∧
            (rest = "?"%char :: q ∨ rest = [] ∧ q = [])) as (rest & -> & -> & Hrest).
  { destruct Hl as [Hl|[Hl ->]]; rewrite Hl.
    - exists ("?"%char :: q). unfold IndexByte. rewrite list_find_app_here by done. auto.
    - exists []. rewrite app_nil_r. split_and!; [done| |by right]. unfold IndexByte.
      destruct (list_find _ _) as [[i x]|] eqn:Hf; [|done].
      apply list_find_Some in Hf as (Hx & -> & _). by apply list_elem_of_lookup_2 in Hx. }
  rewrite take_app_length, LastIndex_app, drop_app_length by done.
  eexists. split; [done|]. rewrite !list_ascii_app, !String.list_ascii_of_string_of_list_ascii.
  replace (take (length before + 1) ((before ++ "/"%char :: old) ++ rest)) with (before ++ ["/"%char])
    by (rewrite <- app_assoc, take_app_add; done).
  assert ("?"%char ∉ before ++ "/"%char :: bytes name) as Hn by set_solver.
  assert ((before ++ ["/"%char]) ++ bytes name ++ rest = (before ++ "/"%char :: bytes name) ++ rest) as ->
    by by rewrite <- !app_assoc.
  destruct Hrest as [->|[-> ->]].
  - apply cut_on_app, Forall_forall. by intros x Hx ->.
  - rewrite app_nil_r. by apply cut_on_absent.
Qed.

(** With a table its setting is added to the query. *)
Lemma mysql_table s table :
  table ≠ "" →
  ∃ s', mysql_url s "" table = Ok s' ∧ address s' = address s ∧
    query_of s' = add_value "x-migrations-table" table (query_of s).
Proof.
  intros Ht. apply String.eqb_neq in Ht. unfold mysql_url. simpl. rewrite Ht.
  eexists. split; [done|]. rewrite Contains_byte.
  change ("x-migrations-table=" +:+ QueryEscape table)
    with (text (bytes "x-migrations-table=") +:+ text (escape (bytes table))).
  assert (text (bytes "x-migrations-table=") +:+ text (escape (bytes table))
          = text (encode_setting "x-migrations-table" table)) as ->.
  { apply list_ascii_inj. by rewrite list_ascii_app, !String.list_ascii_of_string_of_list_ascii. }
  destruct (ParseQuery_append (text (snd (cut_on "?" (bytes s)))) "x-migrations-table" table) as [Happ Hone].
  set (setting := text (encode_setting "x-migrations-table" table)) in *. clearbody setting.
  destruct (cut_on "?" (bytes s)) as [a q] eqn:Hc. simpl in Happ.
  pose proof (cut_on_inv _ _ _ _ Hc) as [Ha Hl].
  destruct (existsb _ _) eqn:He.
  - destruct Hl as [Hl|[Hl ->]].
    + unfold address, query_of. rewrite !list_ascii_app, Hl, <- app_assoc. cbn [app].
      rewrite !cut_on_app by (apply Forall_forall; by intros x Hx ->). split; [done|]. cbn [snd].
      rewrite <- Happ. f_equal. apply list_ascii_inj.
      by rewrite !String.list_ascii_of_string_of_list_ascii, !list_ascii_app, !String.list_ascii_of_string_of_list_ascii.
    + exfalso. apply existsb_exists in He as (x & Hin%list_elem_of_In & <-%Ascii.eqb_eq). by rewrite Hl in Hin.
  - assert ("?"%char ∉ bytes s) as Hn.
    { intros Hin. apply not_true_iff_false in He. apply He, existsb_exists.
      exists "?"%char. split; [by apply list_elem_of_In|done]. }
    destruct (address_app s setting Hn) as [-> ->].
    rewrite Hone. unfold address, query_of. by rewrite (cut_on_absent _ _ Hn).
Qed.

Lemma mysql_url_split s name table :
  mysql_url s name table
  = match mysql_url s name "" with Ok s' => mysql_url s' "" table | Err e => Err e end.
Proof.
  unfold mysql_url. simpl. destruct (if name <>?s "" then _ else _); [|done].
  by destruct (table =?s "").
Qed.

Lemma Encode_bytes v : Forall (λ a, query_byte a = true) (bytes (Encode v)).
Proof.
  unfold Encode. rewrite String.list_ascii_of_string_of_list_ascii.
  assert (∀ x, Forall (λ a, query_byte a = true) (escape x)) as He.
  { induction x as [|a x IH]; [done|]. rewrite escape_cons. apply Forall_app_2; [|done].
    by destruct a as [[] [] [] [] [] [] [] []]; repeat constructor. }
  assert (∀ l, Forall (Forall (λ a, query_byte a = true)) l →
    Forall (λ a, query_byte a = true) (join_on "&" l)) as Hj.
  { intros l. induction 1 as [|w l Hw Hl IH]; [done|]. destruct l; [done|].
    apply Forall_app_2; [done|]. constructor; auto. }
  apply Hj, Forall_fmap, Forall_true. intros [k w]. simpl. unfold encode_setting.
  apply Forall_app_2; [apply He|]. constructor; [done|apply He].
Qed.

Lemma mysql_address s : HasPrefix s "mysql://" = true → "/"%char ∈ address s.
Proof.
  intros [t ->]%prefix_iff. unfold address. rewrite list_ascii_app.
  change (bytes "mysql://") with (bytes "mysql:" ++ ["/"%char; "/"%char]). rewrite <- app_assoc. simpl.
  destruct (cut_on "?" (bytes t)). simpl. set_solver.
Qed.

Section Options.
Context `{UrlLaws}.

(** (C33) The URL of the migrations reads back. Without options it is the configured one. A MySQL
    address is always accepted: for a name of a database without a question mark it keeps what
    precedes its last slash, the name replaces what follows, and the query gains the table. Any other URL with a host parses again, to one
    with the path of the database, and a query in which the table and the schema are the
    configured ones and every other key has its values; an option that is empty changes
    nothing. *)
Theorem migration_url_options databaseURL name table schema :
  (name = "" → table = "" → schema = "" →
   withMigrationOptions databaseURL name table schema = Ok databaseURL) ∧
  (HasPrefix databaseURL "mysql://" = true → "?"%char ∉ bytes name →
   ∃ url before old, withMigrationOptions databaseURL name table schema = Ok url ∧
     address databaseURL = before ++ "/"%char :: old ∧ "/"%char ∉ old ∧
     address url = before ++ "/"%char :: (if name =?s "" then old else bytes name) ∧
     ∀ key, default [] (query_of url !! key)
            = default [] (query_of databaseURL !! key)
              ++ if (key =?s "x-migrations-table") && (table <>?s "") then [table] else []) ∧
  (∀ u, HasPrefix databaseURL "mysql://" = false → url_Parse databaseURL = Ok u → url_Host u ≠ "" →
   name ≠ "" ∨ table ≠ "" ∨ schema ≠ "" →
   ∃ url u', withMigrationOptions databaseURL name table schema = Ok url ∧ url_Parse url = Ok u' ∧
     url_Path u' = (if name =?s "" then url_Path u else "/" +:+ name) ∧
     ∀ key, default [] (Migration.Query u' !! key)
            = if (key =?s "x-migrations-table") && (table <>?s "") then [table]
              else if (key =?s "search_path") && (schema <>?s "") then [schema]
              else default [] (Migration.Query u !! key)).
Proof.
  split_and!; [by intros -> -> ->| |].
  - intros Hp Hq.
    assert (withMigrationOptions databaseURL name table schema = mysql_url databaseURL name table) as ->.
    { unfold withMigrationOptions. rewrite Hp. case_match eqn:He; [|done]. reflect_bools. by subst. }
    destruct (list_elem_of_split_r _ _ (mysql_address _ Hp)) as (before & old & Ha & Hold).
    rewrite mysql_url_split.
    assert (∃ s1, mysql_url databaseURL name "" = Ok s1 ∧
      address s1 = before ++ "/"%char :: (if name =?s "" then old else bytes name) ∧
      query_of s1 = query_of databaseURL) as (s1 & -> & Ha1 & <-).
    { destruct (String.eqb_spec name "") as [->|Hne]; [by exists databaseURL|].
      unfold address, query_of in *. destruct (cut_on "?" (bytes databaseURL)) as [a q] eqn:Hc.
      destruct (mysql_name _ name a q before old Hc Ha Hold Hne Hq) as (s1 & -> & Hc1).
      exists s1. by rewrite Hc1. }
    destruct (String.eqb_spec table "") as [->|Hne].
    + exists s1, before, old. split_and!; try done. intros key. by rewrite andb_false_r, app_nil_r.
    + destruct (mysql_table s1 table Hne) as (s2 & -> & Ha2 & Hq2). exists s2, before, old.
      split_and!; try done; [by rewrite Ha2|]. intros key. rewrite Hq2, andb_true_r. unfold add_value.
      destruct (String.eqb_spec key "x-migrations-table") as [->|Hk].
      * by rewrite lookup_insert_eq.
      * by rewrite lookup_insert_ne, app_nil_r by done.
  - intros u Hp Hu Hh Hsome. unfold withMigrationOptions. rewrite Hp, Hu.
    case_match eqn:He; [reflect_bools; naive_solver|].
    set (v := migration_query table schema (Migration.Query u)).
    destruct (url_reparsed databaseURL u name (Encode v) Hu Hh (Encode_bytes v)) as [(u1 & Hp1 & Hq1 & Hpath1) (u2 & Hp2 & Hq2 & Hpath2)].
    assert (∀ key, default [] (ParseQuery (Encode v) !! key)
              = if (key =?s "x-migrations-table") && (table <>?s "") then [table]
                else if (key =?s "search_path") && (schema <>?s "") then [schema]
                else default [] (Migration.Query u !! key)) as Hkeys.
    { intros key. rewrite ParseQuery_Encode. unfold v, migration_query.
      destruct (String.eqb_spec table ""), (String.eqb_spec schema ""); simpl; rewrite ?andb_false_r, ?andb_true_r; try done;
        repeat (case_match; reflect_bools; subst); rewrite ?lookup_insert_ne by done; rewrite ?lookup_insert_eq; try done;
        try (rewrite lookup_insert_ne by done; by rewrite ?lookup_insert_eq). }
    destruct (String.eqb_spec name "") as [->|Hne]; simpl.
    + exists (url_String (with_RawQuery (Encode v) u)), u1. split_and!; try done.
      intros key. unfold Migration.Query at 1. rewrite Hq1. apply Hkeys.
    + eexists _, u2. split_and!; try done. intros key. unfold Migration.Query at 1. rewrite Hq2. apply Hkeys.
Qed.

End Options.
