(* ===== verification/Resources.v ===== *)
(** * What the process opens

    The constructors that open logs, databases, Redis, tracing, key sets and connections, with
    the hooks that close them: [internal/logging/logging.go], [internal/database/database.go],
    [Open] and [NewLocker] of [internal/cache/redis.go], [internal/observability/tracing.go],
    [NewRuntime] of [internal/auth/jwt.go], the life cycle of [internal/outbound/registry.go],
    and [newLogger], [newDatabase], [newRedis] and [newLocker] of [internal/app/app.go]; the HTTP
    server of [transport/http/server.go] and the listeners of both servers. *)

From Stdlib Require Import Ascii.
From stdpp Require Import base gmap sets list strings.
From S2P Require Import Floats Config.
From S2P Require Import Prelude GoErrors Model Store Effects Platform Authorization Service Middleware Outbound System Urls.

(** A function given to [fx.StopHook]. *)
Definition hook := sys (option goerr).
(** A constructor: its value and the hooks it has appended, or an error. *)
Definition constructor (A : Type) := sys (result (A * list hook)).

(** ** Logs *)

(** [strconv.Atoi]. *)
Definition is_digit (a : ascii) : bool := let n := N_of_ascii a in ((48 <=? n) && (n <=? 57))%N.
Definition decimal (l : list ascii) : Z := foldl (λ n a, 10 * n + (Z.of_N (N_of_ascii a) - 48))%Z 0%Z l.
Definition Atoi (l : list ascii) : result Z :=
  let '(negative, digits) :=
    match l with
    | a :: l' => if Ascii.eqb a "-" then (true, l') else if Ascii.eqb a "+" then (false, l') else (false, l)
    | [] => (false, [])
    end in
  if (length digits =? 0)%nat || negb (forallb is_digit digits) then Err (TextError "invalid syntax")
  else
    let z := if negative : bool then (- decimal digits)%Z else decimal digits in
    if (min_int64 <=? z)%Z && (z <=? max_int64)%Z then Ok z else Err (TextError "value out of range").

(** [slog.Level.UnmarshalText]: a name, and an offset with its sign. *)
Definition parse_level `{UnicodeTables} (s : string) : result Z :=
  let l := String.list_ascii_of_string s in
  let '(name, offset) :=
    match list_find (λ a, a = "+"%char ∨ a = "-"%char) l with
    | Some (i, _) => (take i l, Atoi (drop i l))
    | None => (l, Ok 0%Z)
    end in
  offset <-! offset else err => Err (Wrapped "slog: level string" err);;
  let name := ToUpper (String.string_of_list_ascii name) in
  let level z := Ok (wrap64 (z + offset)) in
  if name =?s "DEBUG" then level (-4)%Z
  else if name =?s "INFO" then level 0%Z
  else if name =?s "WARN" then level 4%Z
  else if name =?s "ERROR" then level 8%Z
  else Err (Wrapped "slog: level string" (TextError "unknown name")).

(** A logger: its level, its format, the settings of the rotated file, and the attributes
    added to every record. *)
Record Logger := Build_Logger {
  logger_level : Z; logger_text : bool; logger_log : Log; logger_attributes : list (string * string) }.

(** [logging.New]; the closer is the rotated file. The file is opened by the first record. *)
Definition logging_New `{UnicodeTables} (cfg : Log) : sys (result (Logger * hook)) :=
  attempt do (MkdirAll (Dir (Log_File cfg)))
    else err => SRet (Err (Wrapped "create log directory" err));;
  match parse_level (ToLower (Log_Level cfg)) with
  | Err err => SRet (Err (Wrapped "parse log level" err))
  | Ok level =>
      SRet (Ok (Build_Logger level (Log_Format cfg =?s "text") cfg [], do (CloseRotator (Log_File cfg))))
  end.

Definition newLogger `{UnicodeTables} (cfg : Config) : constructor Logger :=
  opened <~? logging_New (Config_Log cfg) else err => SRet (Err err);;
  let '(logger, closer) := opened in
  SRet (Ok (Build_Logger (logger_level logger) (logger_text logger) (logger_log logger)
              [("service", App_Name (Config_App cfg)); ("environment", Runtime_ActiveProfile (Config_Runtime cfg))],
            [closer])).

(** ** Databases *)

(** The parsers of the drivers, and the time zones of the machine. *)
Class Drivers := {
  pgx_ParseConfig : string → result PgxConfig;
  mysql_ParseDSN : string → result MySQLConfig;
  FormatDSN : MySQLConfig → string;
  LoadLocation : string → option goerr;
}.

Definition driverName (dbType : string) : result string :=
  if dbType =?s "mysql" then Ok "mysql"
  else if (dbType =?s "postgres") || (dbType =?s "kingbase") then Ok "pgx"
  else Err (TextError ("unsupported database type " +:+ dbType)).

Section Databases.
Context `{Drivers}.

(** The settings of a connection as the service uses it. *)
Definition pgx_config (cfg : Database) (c : PgxConfig) : PgxConfig :=
  let c := if Database_Name cfg <>?s ""
           then Build_PgxConfig (Database_Name cfg) (Pgx_RuntimeParams c) (Pgx_rest c) else c in
  let params := if Database_Schema cfg <>?s ""
                then <["search_path" := Database_Schema cfg]> (Pgx_RuntimeParams c) else Pgx_RuntimeParams c in
  Build_PgxConfig (Pgx_Database c) (<["timezone" := "Asia/Shanghai"]> params) (Pgx_rest c).
Definition mysql_config (cfg : Database) (c : MySQLConfig) : MySQLConfig :=
  Build_MySQLConfig (if Database_Name cfg <>?s "" then Database_Name cfg else MySQL_DBName c)
    true "Asia/Shanghai" (MySQL_rest c).

(** The handle of the database, before it is pinged. *)
Definition open_database (cfg : Database) (driver : string) : sys (result handle) :=
  if driver =?s "pgx" then
    match pgx_ParseConfig (Database_DSN cfg) with
    | Err err => SRet (Err (Wrapped "parse database dsn" err))
    | Ok c => db <~ create (StdlibOpenDB (pgx_config cfg c));; SRet (Ok db)
    end
  else if driver =?s "mysql" then
    match mysql_ParseDSN (Database_DSN cfg) with
    | Err err => SRet (Err (Wrapped "parse database dsn" err))
    | Ok c =>
        match LoadLocation "Asia/Shanghai" with
        | Some err => SRet (Err (Wrapped "load database timezone" err))
        | None =>
            db <~? open (SqlxOpen driver (FormatDSN (mysql_config cfg c)))
              else err => SRet (Err (Wrapped "open database" err));;
            SRet (Ok db)
        end
    end
  else
    db <~? open (SqlxOpen driver (Database_DSN cfg)) else err => SRet (Err (Wrapped "open database" err));;
    SRet (Ok db).

(** [database.Open]. *)
Definition database_Open (cfg : Database) : sys (result handle) :=
  match driverName (Database_Type cfg) with
  | Err err => SRet (Err err)
  | Ok driver =>
      db <~? open_database cfg driver else err => SRet (Err err);;
      do (SetPool db (Database_MaxOpenConns cfg) (Database_MaxIdleConns cfg) (Database_ConnMaxLifetime cfg)
            (Database_ConnMaxIdleTime cfg));;;
      attempt do (PingDB db (Database_PingTimeout cfg))
        else err => (do (CloseDB db);;; SRet (Err (Wrapped "ping database" err)));;
      SRet (Ok db)
  end.

Definition newDatabase (cfg : Config) : constructor (option handle) :=
  stop_if negb (Database_Enabled (Config_Database cfg)) => SRet (Ok (None, []));;
  db <~? database_Open (Config_Database cfg) else err => SRet (Err err);;
  SRet (Ok (Some db, [do (CloseDB db)])).

End Databases.

(** ** Redis and tracing *)

Definition redis_options (cfg : Redis) : RedisOptions :=
  Build_RedisOptions (Redis_Address cfg) (Redis_Username cfg) (Redis_Password cfg) (Redis_DB cfg)
    (Redis_DialTimeout cfg) (Redis_ReadTimeout cfg) (Redis_WriteTimeout cfg).

(** [cache.Open]. *)
Definition cache_Open (cfg : Redis) : sys (result handle) :=
  client <~ create (RedisNewClient (redis_options cfg));;
  attempt do (PingRedis client)
    else err => (do (CloseRedis client);;; SRet (Err (Wrapped "ping redis" err)));;
  SRet (Ok client).

(** [Tracing]: the provider is known by its exporter. *)
Record Tracing := Build_Tracing { tracing_enabled : bool; tracing_provider : option handle }.

Definition NewTracing (Version : string) (cfg : Config) : constructor Tracing :=
  let observability := Config_Observability cfg in
  stop_if negb (Observability_TracingEnabled observability) => SRet (Ok (Build_Tracing false None, []));;
  exporter <~? open (NewTraceExporter (Observability_TracingEndpoint observability))
    else err => SRet (Err (Wrapped "create OTLP trace exporter" err));;
  do (SetTracerProvider exporter (App_Name (Config_App cfg)) Version (Observability_TracingSampleRatio observability));;;
  SRet (Ok (Build_Tracing true (Some exporter), [do (ShutdownTracing exporter)])).

Definition newRedis (cfg : Config) (tracing : Tracing) : constructor (option handle) :=
  stop_if negb (Redis_Enabled (Config_Redis cfg)) => SRet (Ok (None, []));;
  client <~? cache_Open (Config_Redis cfg) else err => SRet (Err err);;
  instrumented <~ (if tracing_enabled tracing then do (InstrumentTracing client) else SRet None);;
  match instrumented with
  | Some err => do (CloseRedis client);;; SRet (Err (Wrapped "instrument redis tracing" err))
  | None => SRet (Ok (Some client, [do (CloseRedis client)]))
  end.

(** [newLocker]: whether there is a locker; the field [locker] of [Service]. *)
Definition newLocker (client : option handle) : bool :=
  match client with None => false | Some _ => true end.

(** [internal/idempotency/manager.go]: what the platform's manager is given; of it, [Enabled()]
    is kept. *)
Record ManagerConfig := Build_ManagerConfig { manager_Enabled : bool; manager_Service : string;
  manager_ProcessingTTL : Z; manager_ResultTTL : Z; manager_FailureTTL : Z }.
Definition manager_config (cfg : Config) : ManagerConfig :=
  let idempotency := Config_Idempotency cfg in
  Build_ManagerConfig (Idempotency_Enabled idempotency) (App_Name (Config_App cfg))
    (Idempotency_ProcessingTTL idempotency) (Idempotency_ResultTTL idempotency) (Idempotency_FailureTTL idempotency).
Definition idempotency_New (New : option handle → ManagerConfig → bool) (client : option handle) (cfg : Config) : bool :=
  New client (manager_config cfg).

(** [NewTransactor], by [Available()], and [NewService] and [NewRuntimeService] of
    [tenant/service.go]. *)
Definition NewTransactor (db : option handle) : bool := match db with None => false | Some _ => true end.
Definition NewService (transactor locker : bool) : Service := Build_Service transactor locker None.
Definition NewRuntimeService (transactor locker manager : bool) : Service :=
  let service := NewService transactor locker in
  Build_Service (transactor_available service) (Service.locker service) (Some manager).

(** [auth.NewRuntime] with the key set it opens. *)
Definition NewRuntime (VerifyBearer : handle → string → result Principal) (cfg : Config) : constructor AuthService :=
  let service := auth_New cfg in
  stop_if Auth_JWKSURL (Config_Auth cfg) =?s "" => SRet (Ok (service, []));;
  verifier <~? open (NewJWKSVerifier (Auth_JWKSURL (Config_Auth cfg)) (Auth_Issuer (Config_Auth cfg))
                       (Auth_Audience (Config_Auth cfg)))
    else err => SRet (Err (Wrapped "configure identity token verifier" err));;
  SRet (Ok (Build_AuthService (auth_issuer service) (auth_secret service) (auth_clientID service)
              (auth_clientSecret service) (Some (VerifyBearer verifier)),
            [do (CloseVerifier verifier);;; SRet None])).

(** ** Clients of other services *)

Section Clients.
Context `{FloatMachine, TlsFiles, UrlLibrary}.
Context (path_Match : string → string → result bool).
Context (status_Code : goerr → Z).
Context (range : ∀ A, gmap string A → list (string * A)).

(** The registry with what its connections have opened. *)
Record OpenRegistry := Build_OpenRegistry {
  open_http : gmap string HTTPClient;
  open_grpc : gmap string (ClientConn * handle);
}.

(** [Registry.close]: the first error counts. *)
Fixpoint close_connections (l : list (string * (ClientConn * handle))) (closeErr : option goerr)
  : sys (option goerr) :=
  match l with
  | [] => SRet closeErr
  | (name, (_, connection)) :: l' =>
      err <~ do (CloseConn connection);;
      close_connections l'
        (match err, closeErr with
         | Some err, None => Some (Wrapped "close outbound gRPC client" err)
         | _, _ => closeErr
         end)
  end.
Fixpoint close_idle (l : list (string * HTTPClient)) : sys unit :=
  match l with
  | [] => SRet tt
  | (name, client) :: l' => do (CloseIdleConnections (client_name client));;; close_idle l'
  end.
Definition registry_close (r : OpenRegistry) : sys (option goerr) :=
  close_idle (range _ (open_http r));;; close_connections (range _ (open_grpc r)) None.

(** [grpcclient.Dial]: making the connection is the last step, after the checks. *)
Definition dial (cfg : ClientConfig) : sys (result (ClientConn * handle)) :=
  match Dial path_Match status_Code (λ _, None) cfg with
  | Err err => SRet (Err err)
  | Ok conn =>
      connection <~? open (GrpcNewClient (ClientConfig_Target cfg)) else err => SRet (Err err);;
      SRet (Ok (conn, connection))
  end.

(** The two loops of [NewRegistry]. *)
Fixpoint open_http_clients (l : list (string * HTTPUpstream)) (r : OpenRegistry) : sys (result OpenRegistry) :=
  match l with
  | [] => SRet (Ok r)
  | (name, upstream) :: l' =>
      match NewHTTPClient name upstream with
      | Err err => registry_close r;;; SRet (Err (Wrapped "create outbound HTTP client" err))
      | Ok client => open_http_clients l' (Build_OpenRegistry (<[name := client]> (open_http r)) (open_grpc r))
      end
  end.
Fixpoint open_grpc_clients (l : list (string * GRPCUpstream)) (r : OpenRegistry) : sys (result OpenRegistry) :=
  match l with
  | [] => SRet (Ok r)
  | (name, upstream) :: l' =>
      connection <~? dial (client_config name upstream)
        else err => (registry_close r;;; SRet (Err (Wrapped "create outbound gRPC client" err)));;
      open_grpc_clients l' (Build_OpenRegistry (open_http r) (<[name := connection]> (open_grpc r)))
  end.

Definition open_registry (cfg : Config) : constructor OpenRegistry :=
  r <~? open_http_clients (range _ (Outbound_HTTP (Config_Outbound cfg))) (Build_OpenRegistry ∅ ∅)
    else err => SRet (Err err);;
  r <~? open_grpc_clients (range _ (Outbound_GRPC (Config_Outbound cfg))) r else err => SRet (Err err);;
  SRet (Ok (r, [registry_close r])).

(** The registry without the handles. *)
Definition registry_of (r : OpenRegistry) : Registry := Build_Registry (open_http r) (fst <$> open_grpc r).

(** ** Clients of the platform's services *)

(** [identityclient.New] and [authorization.New]: whether there is a connection. *)
Definition identity_New (r : Registry) : result ClientConn :=
  match registry_GRPC r "identity" with Some connection => Ok connection | None => Err (Sentinel ErrIdentityUnavailable) end.
Definition authorization_New {A} (NewGRPCAuthorizer : option ClientConn → Z → A) (r : Registry) : A :=
  match registry_GRPC r "authorization" with
  | None => NewGRPCAuthorizer None (2 * second)%Z
  | Some connection => NewGRPCAuthorizer (Some connection) (2 * second)%Z
  end.

End Clients.

(** ** Servers *)

(** [NewServer] of [internal/transport/http/server.go]: gin parses the trusted proxies, and runs
    in release mode in production; the handler is the router of [Router] and [Edge]. *)
Record HttpServer := Build_HttpServer { http_ReleaseMode : bool; http_Addr : string;
  http_ReadTimeout : Z; http_WriteTimeout : Z; http_IdleTimeout : Z }.
Definition http_NewServer (SetTrustedProxies : list string → option goerr) (cfg : Config) : result HttpServer :=
  let http := Config_HTTP cfg in
  match SetTrustedProxies (HTTP_TrustedProxies http) with
  | Some err => Err (Wrapped "configure trusted proxies" err)
  | None =>
      Ok (Build_HttpServer (App_Env (Config_App cfg) =?s "production") (HTTP_Address http)
            (HTTP_ReadTimeout http) (HTTP_WriteTimeout http) (HTTP_IdleTimeout http))
  end.

(** The hooks of the HTTP server of [NewServer]: the listener that is started, and how it is
    stopped. Serving goes on in a goroutine, and ends when the server is shut down. *)
Definition http_OnStart (address : string) : sys (result handle) :=
  listener <~? open (Listen address) else err => SRet (Err (Wrapped "listen http" err));;
  do (ServeOn listener);;; SRet (Ok listener).
Definition http_OnStop (listener : option handle) : hook := do (ShutdownHTTP listener).

(** [start] and [stop] of [internal/transport/grpc/server.go]: [GracefulStop] is waited for
    until the context is done, with its error. *)
Definition grpc_start (enabled : bool) (address : string) : sys (result (option handle)) :=
  stop_if negb enabled => SRet (Ok None);;
  listener <~? open (Listen address) else err => SRet (Err (Wrapped "listen grpc" err));;
  do (ServeOn listener);;; SRet (Ok (Some listener)).
Definition grpc_stop (listener : option handle) : hook :=
  waited <~ do (GracefulStop listener);;
  match waited with
  | None => SRet None
  | Some ctxErr => do StopServer;;; SRet (Some ctxErr)
  end.

(** ** The command *)

(** [main] of [cmd/api], from its flags: what it prints before it exits with a code, or the
    configuration the application runs with. *)
Definition version_line (Version Commit BuildTime : string) : string :=
  "version=" +:+ Version +:+ " commit=" +:+ Commit +:+ " build_time=" +:+ BuildTime.
Definition api_main (Version Commit BuildTime : string) (LoadWithProfile : string → string → result Config)
    (configPath profile : string) (showVersion : bool) : (string * Z) + Config :=
  if showVersion then inl (version_line Version Commit BuildTime, 0%Z)
  else match LoadWithProfile configPath profile with
       | Err err => inl ("load configuration", 1%Z)
       | Ok cfg => inr cfg
       end.
