(* ===== verification/ResourceProofs.v ===== *)
(** * Constructors are tidy

    A constructor that fails has closed what it opened; one that succeeds has appended hooks
    that close exactly what it has left open, whenever they run. The registry made with
    connections is the one of [Outbound]. *)

From Stdlib Require Import Ascii.
From stdpp Require Import base gmap sets list strings.
From S2P Require Import Floats Config.
From S2P Require Import Prelude GoErrors Effects Platform Authorization Service Middleware Outbound System Urls Resources.

(** The hooks of a constructor, run one after the other when the process stops. *)
Fixpoint run_hooks (l : list hook) : sys (option goerr) :=
  match l with
  | [] => SRet None
  | h :: l' => err <~ h;; rest <~ run_hooks l';; SRet (Join err rest)
  end.

(** The hooks close [O], and need nothing else open. *)
Definition closing (O : gset handle) (l : list hook) : Prop :=
  ∀ L, O ⊆ L → wpo (run_hooks l) (λ _ L', L' = L ∖ O) L.

Definition tidy {A} (k : constructor A) : Prop :=
  ∀ L, wpo k (λ r L',
    match r with
    | Err _ => L' = L
    | Ok (_, hooks) => ∃ O, O ## L ∧ L' = O ∪ L ∧ closing O hooks
    end) L.

Lemma closing_nil : closing ∅ [].
Proof. intros L _. simpl. set_solver. Qed.

Lemma closing_one h (k : hook) :
  (∀ L, h ∈ L → wpo k (λ _ L', L' = L ∖ {[h]}) L) → closing {[h]} [k].
Proof.
  intros Hk L HL. simpl. apply wps_bind. eapply wps_mono; [|apply Hk; set_solver]. by intros e L' ->.
Qed.

Lemma tidy_nothing {A} (a : A) : tidy (SRet (Ok (a, []))).
Proof. intros L. exists ∅. split_and!; [set_solver|set_solver|apply closing_nil]. Qed.

Lemma tidy_error {A} e : tidy (SRet (@Err (A * list hook) e)).
Proof. by intros L. Qed.

(** What has been opened, and its hook. *)
Lemma tidy_opened h L (k : hook) :
  h ∉ L → (∀ L', h ∈ L' → wpo k (λ _ L'', L'' = L' ∖ {[h]}) L') →
  ∃ O : gset handle, O ## L ∧ {[h]} ∪ L = O ∪ L ∧ closing O [k].
Proof. intros Hh Hk. exists {[h]}. split_and!; [set_solver|done|by apply closing_one]. Qed.

(** A hook that is one call. *)
Lemma hook_call (c : call (option goerr)) h L :
  uses c = {[h]} → closes c = {[h]} → h ∈ L → wpo (do c) (λ _ L', L' = L ∖ {[h]}) L.
Proof. intros Hu Hc Hh. simpl. rewrite Hu, Hc. split_and!; [set_solver|done|done]. Qed.

Section Tidy.
Context `{UnicodeTables, Drivers}.

Lemma newLogger_tidy cfg : tidy (newLogger cfg).
Proof.
  intros L. unfold newLogger, logging_New. apply wps_bind, wps_bind. split_and!; [done|done|].
  intros [e|]; simpl; [set_solver|]. case_match; simpl; [|set_solver].
  exists ∅. split_and!; [set_solver|set_solver|]. intros L' _. simpl. split_and!; [set_solver|done|].
  intros _. set_solver.
Qed.

(** Opening leaves a new handle open, or nothing. *)
Definition opens (p : sys (result handle)) : Prop :=
  ∀ L, wpo p (λ r L', match r with Err _ => L' = L | Ok h => h ∉ L ∧ L' = {[h]} ∪ L end) L.

Lemma open_database_opens cfg driver : opens (open_database cfg driver).
Proof.
  intros L. unfold open_database.
  repeat case_match; simpl; try done; split_and!; try done; set_solver.
Qed.

Lemma database_Open_opens cfg : opens (database_Open cfg).
Proof.
  intros L. unfold database_Open. case_match; [|done]. apply wps_bind.
  eapply wps_mono; [|apply open_database_opens]. intros [db|e] L'; [|done]. intros [Hdb ->].
  simpl. split_and!; [set_solver|done|]. intros _. split_and!; [set_solver|done|].
  intros [e|]; simpl; [|split; [done|set_solver]]. split_and!; [set_solver|done|]. set_solver.
Qed.

Lemma newDatabase_tidy cfg : tidy (newDatabase cfg).
Proof.
  unfold newDatabase. case_match; [apply tidy_nothing|]. intros L. apply wps_bind.
  eapply wps_mono; [|apply database_Open_opens]. intros [db|e] L'; [|done]. intros [Hdb ->].
  apply tidy_opened; [done|]. intros L' HL'. by apply hook_call.
Qed.

Lemma cache_Open_opens cfg : opens (cache_Open cfg).
Proof.
  intros L. unfold cache_Open. intros client Hc. simpl. split_and!; [set_solver|done|].
  intros [e|]; simpl; [|split; [done|set_solver]]. split_and!; [set_solver|done|]. set_solver.
Qed.

Lemma newRedis_tidy cfg tracing : tidy (newRedis cfg tracing).
Proof.
  unfold newRedis. case_match; [apply tidy_nothing|]. intros L. apply wps_bind.
  eapply wps_mono; [|apply cache_Open_opens]. intros [client|e] L'; [|done]. intros [Hc ->].
  assert (∀ L', client ∈ L' → wpo (do (CloseRedis client)) (λ _ L'', L'' = L' ∖ {[client]}) L') as Hclose
    by (intros L' ?; by apply hook_call).
  apply wps_bind. destruct (tracing_enabled tracing); simpl.
  - split_and!; [set_solver|done|]. rewrite difference_empty_L. intros [e|]; simpl.
    + split_and!; [set_solver|done|]. set_solver.
    + by apply tidy_opened.
  - by apply tidy_opened.
Qed.

Lemma NewTracing_tidy version cfg : tidy (NewTracing version cfg).
Proof.
  unfold NewTracing. case_match; [apply tidy_nothing|]. intros L. simpl.
  split_and!; [set_solver|done|]. intros h Hh. split_and!; [set_solver|done|]. intros _.
  rewrite difference_empty_L. apply tidy_opened; [done|].
  intros L' HL'. by apply hook_call.
Qed.

Lemma NewRuntime_tidy VerifyBearer cfg : tidy (NewRuntime VerifyBearer cfg).
Proof.
  unfold NewRuntime. case_match; [apply tidy_nothing|]. intros L. simpl.
  split_and!; [set_solver|done|]. intros h Hh. apply tidy_opened; [done|].
  intros L' HL'. simpl. split_and!; [set_solver|done|done].
Qed.

End Tidy.

(** ** The registry *)

Section Registry.
Context `{FloatMachine, TlsFiles, UrlLibrary}.
Context (path_Match : string → string → result bool).
Context (status_Code : goerr → Z).
Context (range : ∀ A, gmap string A → list (string * A)).
Context (range_visits : ∀ A (m : gmap string A), range A m ≡ₚ map_to_list m).

Definition handle_list (l : list (string * (ClientConn * handle))) : list handle := (λ x, snd (snd x)) <$> l.
Definition handles (r : OpenRegistry) : list handle := handle_list (map_to_list (open_grpc r)).

Lemma close_connections_wps l err L :
  NoDup (handle_list l) → list_to_set (handle_list l) ⊆ L →
  wpo (close_connections l err) (λ _ L', L' = L ∖ list_to_set (handle_list l)) L.
Proof.
  revert err L. induction l as [|[name [conn h]] l IH]; intros err L; simpl; [set_solver|].
  intros [Hh Hnd]%NoDup_cons Hin. split_and!; [set_solver|done|]. intros x.
  assert (h ∉ (list_to_set (handle_list l) : gset handle)) as Hn by by rewrite elem_of_list_to_set.
  eapply wps_mono; [|apply IH; [done|set_solver]]. simpl. intros e L' ->. set_solver.
Qed.

Lemma close_idle_wps l Q L : Q tt L → wpo (close_idle l) Q L.
Proof.
  intros HQ. induction l as [|[name client] l IH]; simpl; [done|]. split_and!; [set_solver|done|]. intros _.
  by rewrite difference_empty_L.
Qed.

Lemma registry_close_wps r L :
  NoDup (handles r) → list_to_set (handles r) ⊆ L →
  wpo (registry_close range r) (λ _ L', L' = L ∖ list_to_set (handles r)) L.
Proof.
  intros Hnd Hin. unfold registry_close. apply wps_bind, close_idle_wps.
  assert (handle_list (range _ (open_grpc r)) ≡ₚ handles r) as Hp
    by (unfold handles, handle_list; by rewrite range_visits).
  assert ((list_to_set (handle_list (range _ (open_grpc r))) : gset handle) = list_to_set (handles r)) as Hs
    by (apply set_eq; intros x; rewrite !elem_of_list_to_set, Hp; done).
  rewrite <- Hs. apply close_connections_wps; [by rewrite Hp|by rewrite Hs].
Qed.

(** While the registry is made it holds what has been opened since. *)
Definition holding (L : gset handle) (r : OpenRegistry) (L' : gset handle) : Prop :=
  NoDup (handles r) ∧ L' = list_to_set (handles r) ∪ L ∧ list_to_set (handles r) ## L.

Lemma holding_close L r L' : holding L r L' → wpo (registry_close range r) (λ _ L'', L'' = L) L'.
Proof.
  intros (Hnd & -> & Hd). eapply wps_mono; [|apply registry_close_wps; [done|set_solver]].
  simpl. intros e L'' ->. set_solver.
Qed.

Lemma open_http_clients_wps l r L L' :
  holding L r L' →
  wpo (open_http_clients range l r) (λ res L'',
    match res with Err _ => L'' = L | Ok r' => holding L r' L'' ∧ open_grpc r' = open_grpc r end) L'.
Proof.
  revert r. induction l as [|[name upstream] l IH]; intros r Hr; simpl; [done|].
  destruct (NewHTTPClient name upstream) as [client|e].
  - by apply (IH (Build_OpenRegistry (<[name := client]> (open_http r)) (open_grpc r))).
  - apply wps_bind. eapply wps_mono; [|by apply holding_close]. by intros x L'' ->.
Qed.

Lemma open_grpc_clients_wps l r L L' :
  NoDup (fst <$> l) → (∀ name, name ∈ fst <$> l → open_grpc r !! name = None) → holding L r L' →
  wpo (open_grpc_clients path_Match status_Code range l r) (λ res L'',
    match res with Err _ => L'' = L | Ok r' => holding L r' L'' end) L'.
Proof.
  revert r L'. induction l as [|[name upstream] l IH]; intros r L' Hnd Hfresh Hr; simpl; [done|].
  apply NoDup_cons in Hnd as [Hname Hnd].
  assert (∀ e, wpo (registry_close range r;;; SRet (@Err OpenRegistry (Wrapped "create outbound gRPC client" e)))
            (λ res L'', match res with Err _ => L'' = L | Ok r' => holding L r' L'' end) L') as Hfail.
  { intros e. apply wps_bind. eapply wps_mono; [|by apply holding_close]. by intros x L'' ->. }
  unfold dial. destruct (Dial _ _ _ _) as [conn|e]; [|apply Hfail]. simpl.
  split_and!; [set_solver|intros e; apply Hfail|]. intros h Hh. apply IH; [done| |].
  - intros name' Hin. simpl. rewrite lookup_insert_ne by (intros ->; done). apply Hfresh. set_solver.
  - destruct Hr as (Hhnd & -> & Hd). unfold holding, handles. simpl.
    assert (handle_list (map_to_list (<[name := (conn, h)]> (open_grpc r))) ≡ₚ h :: handles r) as Hp.
    { unfold handle_list. rewrite map_to_list_insert by (apply Hfresh; set_solver). done. }
    assert ((list_to_set (handle_list (map_to_list (<[name := (conn, h)]> (open_grpc r)))) : gset handle)
            = {[h]} ∪ list_to_set (handles r)) as ->.
    { apply set_eq. intros x. rewrite elem_of_list_to_set, Hp, elem_of_cons, elem_of_union, elem_of_list_to_set. set_solver. }
    rewrite Hp, NoDup_cons, <- (elem_of_list_to_set (C:=gset handle)). set_solver.
Qed.

Lemma open_registry_tidy cfg : tidy (open_registry path_Match status_Code range cfg).
Proof.
  intros L. unfold open_registry. apply wps_bind.
  assert (holding L (Build_OpenRegistry ∅ ∅) L) as H0'.
  { unfold holding, handles. simpl. rewrite map_to_list_empty. simpl. split_and!; [constructor|set_solver|set_solver]. }
  eapply wps_mono; [|by apply open_http_clients_wps]. intros [r|e] L1; [|done]. intros [Hr Hg].
  apply wps_bind. eapply wps_mono; [|apply open_grpc_clients_wps; [| |exact Hr]].
  - intros [r'|e] L2; [|done]. intros (Hnd & -> & Hd). exists (list_to_set (handles r')). split_and!; [done|done|].
    intros L' HL'. simpl. apply wps_bind. eapply wps_mono; [|by apply registry_close_wps]. by intros x L'' ->.
  - rewrite range_visits. apply NoDup_fst_map_to_list.
  - intros name _. rewrite Hg. simpl. apply lookup_empty.
Qed.

(** *** The registry of [Outbound] *)

Context (grpc_NewClient : string → option goerr).

Lemma Dial_checks_first cfg :
  Dial path_Match status_Code grpc_NewClient cfg
  = match Dial path_Match status_Code (λ _, None) cfg with
    | Err e => Err e
    | Ok conn => match grpc_NewClient (ClientConfig_Target cfg) with Some e => Err e | None => Ok conn end
    end.
Proof. unfold Dial. cbv zeta. by repeat case_match. Qed.

Lemma open_http_clients_run env l r s :
  match fst (run_sys env (open_http_clients range l r) s) with
  | Ok r' => make_clients NewHTTPClient "create outbound HTTP client" l (open_http r) = Ok (open_http r') ∧
             open_grpc r' = open_grpc r
  | Err e => make_clients NewHTTPClient "create outbound HTTP client" l (open_http r) = Err e
  end.
Proof.
  revert r s. induction l as [|[name upstream] l IH]; intros r s; simpl; [done|].
  destruct (NewHTTPClient name upstream) as [client|e];
    [exact (IH (Build_OpenRegistry (<[name := client]> (open_http r)) (open_grpc r)) s)|].
  rewrite run_sys_bind. by destruct (run_sys env (registry_close range r) s).
Qed.

Lemma open_grpc_clients_run env l r s :
  (∀ n target, env_open env n (GrpcNewClient target) = grpc_NewClient target) →
  match fst (run_sys env (open_grpc_clients path_Match status_Code range l r) s),
    make_clients (λ name upstream, Dial path_Match status_Code grpc_NewClient (client_config name upstream))
      "create outbound gRPC client" l (fst <$> open_grpc r) with
  | Ok r', Ok m => fst <$> open_grpc r' = m ∧ open_http r' = open_http r
  | Err e, Err e' => e = e'
  | _, _ => False
  end.
Proof.
  intros Henv. revert r s. induction l as [|[name upstream] l IH]; intros r s; simpl; [done|].
  rewrite Dial_checks_first, run_sys_bind. unfold dial.
  destruct (Dial _ _ _ _) as [conn|e]; simpl.
  - rewrite Henv. destruct (grpc_NewClient _) as [e|]; simpl.
    + rewrite run_sys_bind. by destruct (run_sys env (registry_close range r) _).
    + rewrite <- fmap_insert with (f := fst) (x := (conn, p_next s)).
      exact (IH (Build_OpenRegistry (open_http r) (<[name := (conn, p_next s)]> (open_grpc r))) _).
  - rewrite run_sys_bind. by destruct (run_sys env (registry_close range r) _).
Qed.

(** The registry with its connections is the registry of [Outbound]. *)
Lemma open_registry_run env cfg s :
  (∀ n target, env_open env n (GrpcNewClient target) = grpc_NewClient target) →
  match fst (run_sys env (open_registry path_Match status_Code range cfg) s) with
  | Ok (r, _) => Ok (registry_of r)
  | Err e => Err e
  end = NewRegistry path_Match status_Code grpc_NewClient range cfg.
Proof.
  intros Henv. unfold open_registry, NewRegistry. rewrite run_sys_bind.
  pose proof (open_http_clients_run env (range _ (Outbound_HTTP (Config_Outbound cfg))) (Build_OpenRegistry ∅ ∅) s) as Hh.
  destruct (run_sys env (open_http_clients _ _ _) s) as [[r|e] s1]; simpl in Hh; [|by rewrite Hh].
  destruct Hh as [-> Hg]. rewrite run_sys_bind.
  pose proof (open_grpc_clients_run env (range _ (Outbound_GRPC (Config_Outbound cfg))) r s1 Henv) as Hc.
  rewrite Hg, fmap_empty in Hc.
  destruct (run_sys env (open_grpc_clients _ _ _ _ _) s1) as [[r'|e] s2], (make_clients _ _ _ _) as [m|e']; simpl in *; try done.
  - destruct Hc as [<- Hh]. unfold registry_of. by rewrite Hh.
  - by subst.
Qed.

End Registry.

(** ** Servers *)

(** Starting opens a listener or nothing, and stopping closes it. *)
Definition stopped_by (listener : option handle) (L L' : gset handle) (stop : hook) : Prop :=
  match listener with Some h => h ∉ L ∧ L' = {[h]} ∪ L | None => L' = L end ∧
  ∀ L'', (∀ h, listener = Some h → h ∈ L'') →
    wpo stop (λ _ L3, L3 = L'' ∖ match listener with Some h => {[h]} | None => ∅ end) L''.

Lemma http_server_stops address L :
  wpo (http_OnStart address) (λ r L',
    match r with Err _ => L' = L | Ok h => stopped_by (Some h) L L' (http_OnStop (Some h)) end) L.
Proof.
  simpl. split_and!; [set_solver|done|]. intros h Hh. split_and!; [set_solver|done|]. intros _.
  split; [split; [done|set_solver]|]. intros L' HL'. simpl. split_and!; [set_solver|done|done].
Qed.

Lemma grpc_server_stops enabled address L :
  wpo (grpc_start enabled address) (λ r L',
    match r with Err _ => L' = L | Ok listener => stopped_by listener L L' (grpc_stop listener) end) L.
Proof.
  unfold grpc_start. destruct enabled; simpl.
  - split_and!; [set_solver|done|]. intros h Hh. split_and!; [set_solver|done|]. intros _.
    split; [split; [done|set_solver]|]. intros L' HL'. simpl. split_and!; [set_solver|done|].
    intros [e|]; simpl; [|done]. split_and!; [set_solver|done|]. intros _. set_solver.
  - split; [done|]. intros L' _. simpl. split_and!; [set_solver|done|].
    intros [e|]; simpl; [|done]. split_and!; [set_solver|done|]. intros _. set_solver.
Qed.

(** ** Theorems *)

Definition erase {A} (k : constructor A) : constructor unit :=
  sbind k (λ r, SRet (match r with Ok (_, hooks) => Ok (tt, hooks) | Err e => Err e end)).

Lemma erase_tidy {A} (k : constructor A) : tidy k → tidy (erase k).
Proof. intros Hk L. apply wps_bind. eapply wps_mono; [|apply Hk]. by intros [[a hooks]|e] L'. Qed.

Section Constructors.
Context `{UnicodeTables, Drivers, FloatMachine, TlsFiles, UrlLibrary}.
Context (path_Match : string → string → result bool).
Context (status_Code : goerr → Z).
Context (range : ∀ A, gmap string A → list (string * A)).
Context (range_visits : ∀ A (m : gmap string A), range A m ≡ₚ map_to_list m).
Context (Version : string) (VerifyBearer : handle → string → result Principal).

(** Everything that opens something when the process starts. *)
Definition constructors (cfg : Config) (tracing : Tracing) : list (constructor unit) :=
  [erase (newLogger cfg); erase (NewTracing Version cfg); erase (newDatabase cfg); erase (newRedis cfg tracing);
   erase (NewRuntime VerifyBearer cfg); erase (open_registry path_Match status_Code range cfg)].

(** (C22) The process opens and closes in pairs. Whatever the configuration and the answers of
    the outside, a constructor (logs, tracing, database, Redis, key sets, clients) that fails has
    closed what it opened; one that succeeds leaves open a set of its own, and the hooks it has
    appended close exactly this set, from whatever else is open when they run and whatever
    fails then. Nothing is used that is not open. And the registry of clients, made with its
    connections, is the one of [NewRegistry]. *)
Theorem constructors_tidy cfg tracing :
  (∀ k env n L r s', k ∈ constructors cfg tracing → (∀ h, h ∈ L → h < n) →
     run_sys env k (Build_Process n L []) = (r, s') →
     match r with
     | Err _ => p_open s' = L
     | Ok (_, hooks) => ∃ O, O ## L ∧ p_open s' = O ∪ L ∧
         ∀ env' n' L' e s'', O ⊆ L' → (∀ h, h ∈ L' → h < n') →
           run_sys env' (run_hooks hooks) (Build_Process n' L' []) = (e, s'') → p_open s'' = L' ∖ O
     end) ∧
  (∀ env s grpc_NewClient, (∀ n target, env_open env n (GrpcNewClient target) = grpc_NewClient target) →
     match fst (run_sys env (open_registry path_Match status_Code range cfg) s) with
     | Ok (r, _) => Ok (registry_of r)
     | Err e => Err e
     end = NewRegistry path_Match status_Code grpc_NewClient range cfg).
Proof.
  split; [|intros env s grpc_NewClient Henv; by apply open_registry_run].
  intros k env n L r s' Hk HL Hrun.
  assert (tidy k) as Ht.
  { unfold constructors in Hk. rewrite !elem_of_cons, elem_of_nil in Hk.
    destruct Hk as [->|[->|[->|[->|[->|[->|[]]]]]]]; apply erase_tidy;
      eauto using newLogger_tidy, NewTracing_tidy, newDatabase_tidy, newRedis_tidy, NewRuntime_tidy, open_registry_tidy. }
  destruct (wps_run (λ _ _, True) env k _ (Build_Process n L []) r s' (Ht L) HL Hrun) as (Hpost & _ & _).
  destruct r as [[a hooks]|e]; [|done]. destruct Hpost as (O & Hd & Hopen & Hclose).
  exists O. split_and!; [done|done|]. intros env' n' L' e s'' HO HL' Hrun'.
  by destruct (wps_run (λ _ _, True) env' _ _ (Build_Process n' L' []) e s'' (Hclose L' HO) HL' Hrun') as (? & _ & _).
Qed.

End Constructors.
