(* ===== verification/EventRuntime.v ===== *)
(** * The publisher of events

    [internal/app/eventbus.go]: starting the bus, the loops that empty the outbox and clean it,
    and stopping. The dispatcher, the cleaner and the bus are a library: a round of a loop is
    one step, which may answer anything. *)

From stdpp Require Import base gmap sets list strings relations.
From S2P Require Import Floats Config.
From S2P Require Import Prelude GoErrors Effects System.

(** ** Starting *)

(** [eventRuntime], by the fields its methods set: [cancel] is not nil, the bus. *)
Record EventRuntime := Build_EventRuntime { ev_cancel : bool; ev_bus : option handle }.
Definition newEventRuntime : EventRuntime := Build_EventRuntime false None.

Definition bus_config (cfg : Config) : BusConfig :=
  let bus := Config_EventBus cfg in
  Build_BusConfig (EventBus_URLs bus) (App_Name (Config_App cfg)) (EventBus_StreamName bus) ["platform.>"]
    (EventBus_Storage bus) (EventBus_MaxAge bus) (EventBus_DuplicateWindow bus) (EventBus_ConnectTimeout bus)
    (EventBus_PublishTimeout bus).

(** [newTenantOutboxStore]: no store without a database. *)
Definition newTenantOutboxStore {S} (NewSQLStore : handle → string → result S) (db : option handle)
  : result (option S) :=
  match db with
  | None => Ok None
  | Some db =>
      match NewSQLStore db "tenant_outbox_events" with Ok store => Ok (Some store) | Err err => Err err end
  end.

(** [eventRuntime.start]: the runtime afterwards, whether the two loops run, the error. [store]
    is whether there is an outbox store. *)
Definition start (cfg : Config) (store : bool) (r : EventRuntime) : sys (EventRuntime * bool * option goerr) :=
  let settings := Config_EventBus cfg in
  stop_if negb (EventBus_Enabled settings) => SRet (r, false, None);;
  stop_if negb store => SRet (r, false, Some (TextError "enabled event bus requires database outbox"));;
  bus <~? open (NewBus (bus_config cfg)) else err => SRet (r, false, Some err);;
  attempt do (NewDispatcher bus (EventBus_DispatchBatchSize settings) (EventBus_DispatchLease settings)
                (EventBus_DispatchRetryDelay settings))
    else err => (do (CloseBus bus);;; SRet (r, false, Some err));;
  let r := Build_EventRuntime true (Some bus) in
  attempt do (NewRetentionCleaner (EventBus_PublishedRetention settings) (EventBus_CleanupBatchSize settings))
    else err => (do (CloseBus bus);;; SRet (r, false, Some err));;
  SRet (r, true, None).

(** ** Running and stopping *)

(** A loop ([dispatch], [clean]): in a round, at its [select], or returned. *)
Inductive loop := InRound | AtSelect | Ended.
(** [stop]: not called, waiting for the loops, about to close the bus, returned. *)
Inductive stopping := NotCalled | Waiting | Closing | Returned.

#[export] Instance loop_eq_dec : EqDecision loop.
Proof. solve_decision. Defined.
#[export] Instance stopping_eq_dec : EqDecision stopping.
Proof. solve_decision. Defined.

(** [canceled]: the context of the loops is done; [bus_closed]: how often the bus was closed. *)
Record Live := Build_Live {
  runtime : EventRuntime;
  canceled : bool;
  dispatching : loop;
  cleaning : loop;
  stop_at : stopping;
  bus_closed : nat;
}.

Definition launch (r : EventRuntime) (running : bool) : Live :=
  let l := if running then InRound else Ended in Build_Live r false l l NotCalled 0.

(** What happens next: a loop ends its round, takes a tick or sees that its context is done;
    [stop] is called, finds that both loops have returned, or closes the bus. *)
Inductive action :=
| Round_ends (dispatcher : bool) | Tick (dispatcher : bool) | Done_seen (dispatcher : bool)
| Stop_called | Loops_returned | Bus_closes.

(** One turn of a loop. When a tick is there and the context is done, [select] may take
    either. *)
Definition turn (done : bool) (l : loop) (a : action) : option loop :=
  match a, l with
  | Round_ends _, InRound => Some AtSelect
  | Tick _, AtSelect => Some InRound
  | Done_seen _, AtSelect => if done then Some Ended else None
  | _, _ => None
  end.

Definition with_loops (s : Live) (d c : loop) : Live :=
  Build_Live (runtime s) (canceled s) d c (stop_at s) (bus_closed s).
Definition with_stop (s : Live) (done : bool) (at_ : stopping) (closed : nat) : Live :=
  Build_Live (runtime s) done (dispatching s) (cleaning s) at_ closed.

Definition next (s : Live) (a : action) : option Live :=
  match a with
  | Round_ends d | Tick d | Done_seen d =>
      if d : bool then (λ l, with_loops s l (cleaning s)) <$> turn (canceled s) (dispatching s) a
      else (λ l, with_loops s (dispatching s) l) <$> turn (canceled s) (cleaning s) a
  | Stop_called =>
      match stop_at s with
      | NotCalled =>
          Some (if ev_cancel (runtime s) then with_stop s true Waiting (bus_closed s)
                else with_stop s (canceled s) Closing (bus_closed s))
      | _ => None
      end
  | Loops_returned =>
      match stop_at s, dispatching s, cleaning s with
      | Waiting, Ended, Ended => Some (with_stop s (canceled s) Closing (bus_closed s))
      | _, _, _ => None
      end
  | Bus_closes =>
      match stop_at s with
      | Closing =>
          Some (with_stop s (canceled s) Returned
                  (match ev_bus (runtime s) with Some _ => S (bus_closed s) | None => bus_closed s end))
      | _ => None
      end
  end.

(** The actions of an execution. *)
Inductive executes : Live → list action → Live → Prop :=
| executes_nil s : executes s [] s
| executes_cons s a s1 l s2 : next s a = Some s1 → executes s1 l s2 → executes s (a :: l) s2.

Fixpoint execute (s : Live) (l : list action) : option Live :=
  match l with [] => Some s | a :: l' => s1 ← next s a; execute s1 l' end.

Lemma execute_executes s l s' : execute s l = Some s' ↔ executes s l s'.
Proof.
  split.
  - revert s. induction l as [|a l IH]; simpl; intros s; [intros [= <-]; constructor|].
    intros (s1 & Hn & He)%bind_Some. econstructor; eauto.
  - induction 1 as [|s a s1 l s2 Hn He IH]; [done|]. simpl. by rewrite Hn.
Qed.

(** ** Properties *)

(** What holds while the publisher of a started runtime runs. *)
Record live_inv (r : EventRuntime) (s : Live) : Prop := {
  inv_runtime : runtime s = r;
  inv_canceled : canceled s = true ↔ stop_at s ≠ NotCalled;
  inv_closed : bus_closed s = (if decide (stop_at s = Returned) then 1 else 0);
  inv_ended : stop_at s = Closing ∨ stop_at s = Returned → dispatching s = Ended ∧ cleaning s = Ended;
  inv_running : stop_at s = NotCalled → dispatching s ≠ Ended ∧ cleaning s ≠ Ended;
}.

Lemma launch_inv bus : live_inv (Build_EventRuntime true (Some bus)) (launch (Build_EventRuntime true (Some bus)) true).
Proof. split; simpl; naive_solver. Qed.

Lemma next_inv bus s a s' :
  live_inv (Build_EventRuntime true (Some bus)) s → next s a = Some s' →
  live_inv (Build_EventRuntime true (Some bus)) s'.
Proof.
  destruct s as [r done d c st n]. intros [Hr Hc Hb He Hrun] Hn. simpl in *. subst r.
  destruct a as [[]|[]|[]| | |], d, c, st; simpl in *; try done; try (destruct done; simpl in *);
    simplify_eq/=; split; simpl in *; naive_solver.
Qed.

Lemma executes_inv bus s l s' :
  live_inv (Build_EventRuntime true (Some bus)) s → executes s l s' →
  live_inv (Build_EventRuntime true (Some bus)) s'.
Proof. intros Hi He. induction He; eauto using next_inv. Qed.

(** The work that is left when no more ticks are taken. *)
Definition loop_work (l : loop) : nat := match l with InRound => 2 | AtSelect => 1 | Ended => 0 end.
Definition stop_work (s : stopping) : nat :=
  match s with NotCalled => 3 | Waiting => 2 | Closing => 1 | Returned => 0 end.
Definition work (s : Live) : nat := loop_work (dispatching s) + loop_work (cleaning s) + stop_work (stop_at s).

Definition is_tick (a : action) : bool := match a with Tick _ => true | _ => false end.
Definition ticks (l : list action) : nat := length (List.filter is_tick l).

Lemma next_work s a s' : next s a = Some s' → work s' + 1 ≤ work s + (if is_tick a then 2 else 0).
Proof.
  destruct s as [r done d c st n]. unfold work.
  destruct a as [[]|[]|[]| | |], d, c, st; simpl; try done; try (destruct done; simpl); try (destruct (ev_cancel r));
    intros [= <-]; simpl; lia.
Qed.

Lemma executes_work s l s' : executes s l s' → work s' + length l ≤ work s + 2 * ticks l.
Proof.
  induction 1 as [|s a s1 l s2 Hn He IH]; [simpl; lia|]. apply next_work in Hn. unfold ticks in *. simpl.
  destruct (is_tick a); simpl in *; lia.
Qed.

(** Once [stop] is called something other than a tick can always happen until it returns. *)
Lemma stop_progress bus s :
  live_inv (Build_EventRuntime true (Some bus)) s → stop_at s ≠ NotCalled → stop_at s ≠ Returned →
  ∃ a s', is_tick a = false ∧ next s a = Some s'.
Proof.
  destruct s as [r done d c st n]. intros [Hr Hc Hb He Hrun] Hs Hnr. simpl in *. subst r.
  assert (done = true) as -> by (by apply Hc).
  destruct d; [by exists (Round_ends true); eexists|by exists (Done_seen true); eexists|].
  destruct c; [by exists (Round_ends false); eexists|by exists (Done_seen false); eexists|].
  destruct st; try done; [by exists Loops_returned; eexists|by exists Bus_closes; eexists].
Qed.

(** ... so the rest takes as many actions as there is work. *)
Lemma stop_completes bus n s :
  work s ≤ n → live_inv (Build_EventRuntime true (Some bus)) s → stop_at s ≠ NotCalled →
  ∃ l s', executes s l s' ∧ ticks l = 0 ∧ stop_at s' = Returned.
Proof.
  revert s. induction n as [|n IH]; intros s Hw Hi Hs; destruct (decide (stop_at s = Returned)) as [Hr|Hr].
  1,3: exists [], s; split_and!; [constructor|done|done].
  - destruct (stop_progress bus s Hi Hs Hr) as (a & s' & Ha & Hn). apply next_work in Hn. rewrite Ha in Hn. lia.
  - destruct (stop_progress bus s Hi Hs Hr) as (a & s' & Ha & Hn).
    assert (stop_at s' ≠ NotCalled) as Hs'.
    { pose proof (next_inv bus s a s' Hi Hn) as Hi'. intros He. apply Hs.
      destruct s as [r0 done d c st k]. simpl in *. destruct a as [[]|[]|[]| | |], d, c, st; simpl in *; try done;
        try (destruct done; simpl in *); simplify_eq/=; done. }
    destruct (IH s') as (l & s'' & He & Ht & Hret); [apply next_work in Hn; rewrite Ha in Hn; lia|by eapply next_inv|done|].
    exists (a :: l), s''. split_and!; [by econstructor| |done]. unfold ticks in *. simpl. by rewrite Ha.
Qed.

(** A runtime that starts holds a new bus, one that does not holds nothing new. *)
Lemma start_wps cfg store L :
  wpo (start cfg store newEventRuntime) (λ '(r, running, err) L',
    if running : bool
    then err = None ∧ EventBus_Enabled (Config_EventBus cfg) = true ∧ store = true ∧
         ∃ bus, bus ∉ L ∧ L' = {[bus]} ∪ L ∧ r = Build_EventRuntime true (Some bus)
    else L' = L ∧ (err = None ↔ EventBus_Enabled (Config_EventBus cfg) = false)) L.
Proof.
  unfold start. destruct (EventBus_Enabled _); simpl; [|split; [done|by split]].
  destruct store; simpl; [|split; [done|by split]].
  split_and!; [set_solver|intros e; split; [done|by split]|]. intros bus Hb.
  split_and!; [set_solver|done|]. rewrite difference_empty_L. intros [e|]; simpl.
  { split_and!; [set_solver|done|]. intros _. split; [set_solver|by split]. }
  split_and!; [set_solver|done|]. rewrite difference_empty_L. intros [e|]; simpl.
  { split_and!; [set_solver|done|]. intros _. split; [set_solver|by split]. }
  split_and!; try done. by exists bus.
Qed.

(** (C20) The publisher stops, and stops once. Starting fails only with the event bus enabled,
    and then leaves nothing open; a started publisher holds one new bus. In every execution of
    its two loops and of [stop]: neither loop ends before [stop] is called; the bus is open as
    long as a loop may use it, and is closed exactly once, before [stop] returns; and once
    [stop] is called it can always return, and does so after at most six actions besides the
    ticks that [select] still prefers to the cancelled context and the rounds after them. *)
Theorem publisher_stops cfg store env n L r running err s' :
  (∀ h, h ∈ L → h < n) →
  run_sys env (start cfg store newEventRuntime) (Build_Process n L []) = (r, running, err, s') →
  (running = false → p_open s' = L ∧ (err = None ↔ EventBus_Enabled (Config_EventBus cfg) = false)) ∧
  (running = true → err = None ∧ ∃ bus, bus ∉ L ∧ p_open s' = {[bus]} ∪ L ∧
   ∀ l s, executes (launch r running) l s →
     (stop_at s = NotCalled → dispatching s ≠ Ended ∧ cleaning s ≠ Ended) ∧
     (dispatching s ≠ Ended ∨ cleaning s ≠ Ended → bus_closed s = 0) ∧
     (bus_closed s = 1 ↔ stop_at s = Returned) ∧ bus_closed s ≤ 1 ∧
     (stop_at s ≠ NotCalled →
      (∃ l' s1, executes s l' s1 ∧ ticks l' = 0 ∧ stop_at s1 = Returned) ∧
      ∀ l' s1, executes s l' s1 → length l' ≤ 6 + 2 * ticks l')).
Proof.
  intros HL Hrun.
  destruct (wps_run (λ _ _, True) env (start cfg store newEventRuntime) _ (Build_Process n L []) _ _
              (start_wps cfg store L) HL Hrun) as (Hpost & _ & _).
  destruct running; [|by split]. split; [done|]. intros _. destruct Hpost as (-> & _ & _ & bus & Hb & Hopen & ->). split; [done|]. exists bus.
  split_and!; [done|done|]. intros l s He.
  pose proof (executes_inv bus _ _ _ (launch_inv bus) He) as Hi.
  split_and!.
  - apply Hi.
  - intros Hne. rewrite (inv_closed _ _ Hi). case_decide as Hr; [|done].
    destruct (inv_ended _ _ Hi); [by right|]. naive_solver.
  - rewrite (inv_closed _ _ Hi). by case_decide.
  - rewrite (inv_closed _ _ Hi). case_decide; lia.
  - intros Hs. split; [by apply (stop_completes bus (work s))|].
    intros l' s1 He'. apply executes_work in He'.
    assert (work s ≤ 6) as Hw; [|lia].
    unfold work. destruct (dispatching s), (cleaning s), (stop_at s); simpl; try done; lia.
Qed.
