(* ===== verification/Startup.v ===== *)
(** * Start-up

    From the files of a deployment to its servers and clients: a configuration that loads is
    one the rest of the program can be made from. *)

From Stdlib Require Import Ascii.
From stdpp Require Import base gmap list strings.
From S2P Require Import Floats Config ConfigProofs.
From S2P Require Import Prelude GoErrors Effects Platform Middleware Outbound OutboundProofs Service GrpcServer.
From S2P Require Import System Urls Migration MigrationProofs Resources ResourceProofs EventRuntime.

Section Startup.
Context `{FloatMachine, TlsFiles, UrlLibrary}.
Context (path_Match : string → string → result bool).
Context (status_Code : goerr → Z).
Context (grpc_NewClient : string → option goerr).
Context (range : ∀ A, gmap string A → list (string * A)).
Context (range_visits : ∀ A (m : gmap string A), range A m ≡ₚ map_to_list m).

(** The gRPC server: with the credentials of the configuration when they can be read. *)
Lemma NewServer_ok c authService tenants :
  resources_available grpc_NewClient c →
  ∃ srv, NewServer c authService tenants = Ok srv ∧
    (is_Some (gs_credentials srv) ↔ GRPCTLS_Enabled (GRPC_TLS (Config_GRPC c)) = true).
Proof.
  intros [_ Hca Hcert _]. unfold NewServer, serverCredentials.
  destruct (GRPCTLS_Enabled _); [|eexists; split; [done|]; by rewrite is_Some_alt].
  destruct (Hcert (GRPCTLS_CertFile (GRPC_TLS (Config_GRPC c))) (GRPCTLS_KeyFile (GRPC_TLS (Config_GRPC c)))) as [pair ->].
  destruct (Hca (GRPCTLS_ClientCAFile (GRPC_TLS (Config_GRPC c)))) as (pem & -> & ->).
  destruct (_ =?s ""); simpl; eexists; (split; [done|]); split; eauto.
Qed.

(** With the database enabled it is opened or the process does not start. *)
Lemma newDatabase_some `{Drivers} c env s db hooks s' :
  Database_Enabled (Config_Database c) = true →
  run_sys env (newDatabase c) s = (Ok (db, hooks), s') → ∃ h, db = Some h.
Proof.
  intros Hen. unfold newDatabase. rewrite Hen. simpl. rewrite run_sys_bind.
  destruct (run_sys env (database_Open _) s) as [[h|e] s1]; simpl; [|done]. intros [= <- _ _]. eauto.
Qed.

(** The database is opened if it is enabled, and so is Redis. *)
Lemma newDatabase_is_some `{Drivers} c env s db hooks s' :
  run_sys env (newDatabase c) s = (Ok (db, hooks), s') → NewTransactor db = Database_Enabled (Config_Database c).
Proof.
  intros Hrun. destruct (Database_Enabled _) eqn:Hen.
  - by destruct (newDatabase_some _ _ _ _ _ _ Hen Hrun) as [h ->].
  - unfold newDatabase in Hrun. rewrite Hen in Hrun. by injection Hrun as <- _ _.
Qed.

Lemma newRedis_is_some c tracing env s client hooks s' :
  run_sys env (newRedis c tracing) s = (Ok (client, hooks), s') → newLocker client = Redis_Enabled (Config_Redis c).
Proof.
  unfold newRedis, cache_Open. destruct (Redis_Enabled _); simpl; [|by intros [= <- _ _]].
  destruct (env_call _ _ _ (PingRedis _)); simpl; [done|]. destruct (tracing_enabled tracing); simpl.
  - by destruct (env_call _ _ _ (InstrumentTracing _)); simpl; [|intros [= <- _ _]].
  - by intros [= <- _ _].
Qed.

(** The service of a process has its transactor and its locks by the settings, and a manager
    that has Redis and positive lifetimes if it is enabled. *)
Lemma service_assembled `{Drivers} c env s db dh s1 tracing env' s2 client ch s3 platform_New :
  valid_messaging path_Match c →
  run_sys env (newDatabase c) s = (Ok (db, dh), s1) → run_sys env' (newRedis c tracing) s2 = (Ok (client, ch), s3) →
  NewRuntimeService (NewTransactor db) (newLocker client) (idempotency_New platform_New client c)
  = Build_Service (Database_Enabled (Config_Database c)) (Redis_Enabled (Config_Redis c))
      (Some (platform_New client (manager_config c))) ∧
  (manager_Enabled (manager_config c) = true → is_Some client ∧
     (0 < manager_ProcessingTTL (manager_config c))%Z ∧ (0 < manager_ResultTTL (manager_config c))%Z ∧
     (0 < manager_FailureTTL (manager_config c))%Z).
Proof.
  intros Hv Hdb%newDatabase_is_some Hredis%newRedis_is_some. split.
  - unfold NewRuntimeService, NewService, idempotency_New. simpl. by rewrite Hdb, Hredis.
  - intros Hen. destruct (messaging_idempotency _ _ Hv Hen) as (Hr & _ & Hp). split; [|exact Hp].
    rewrite Hr in Hredis. destruct client; [eauto|done].
Qed.

(** (C25) Start-up is sound: a configuration that loads meets the specification and is that
    of one profile, with the migrations aimed at the service's own database; and if the files
    and addresses it names are there, the gRPC server is made, with TLS in production, the HTTP
    server is made if gin accepts the trusted proxies, the publisher of events finds its outbox,
    the domain service gets its transactor, its locks and an idempotency manager with Redis and
    positive lifetimes as the settings ask, and the registry is made, whatever the order of the
    maps, with a client for exactly the configured upstreams -- among them the authorizer when
    authorization is on, and always in production, and the registry of services when the
    dictionary provider is on -- of which no gRPC client sends
    credentials without TLS unless this was asked for, and never in production. *)
Theorem startup_sound `{UnicodeTables, ViperLibrary, Drivers} path explicit c :
  LoadWithProfile path_Match range path explicit = Ok c → resources_available grpc_NewClient c →
  valid_config path_Match c ∧
  Migration_Schema (Config_Migration c) = Database_Schema (Config_Database c) ∧
  Migration_DatabaseName (Config_Migration c) = Database_Name (Config_Database c) ∧
  validProfile (Runtime_ActiveProfile (Config_Runtime c)) = true ∧
  (ToLower (TrimSpace explicit) ≠ "" →
   Runtime_ActiveProfile (Config_Runtime c) = ToLower (TrimSpace explicit)) ∧
  (∀ authService tenants, ∃ srv, NewServer c authService tenants = Ok srv ∧
     (App_Env (Config_App c) = "production" → GRPC_Enabled (Config_GRPC c) = true → is_Some (gs_credentials srv))) ∧
  (∀ SetTrustedProxies, SetTrustedProxies (HTTP_TrustedProxies (Config_HTTP c)) = None →
     ∃ srv, http_NewServer SetTrustedProxies c = Ok srv ∧ http_Addr srv ≠ "" ∧
       (App_Env (Config_App c) = "production" → http_ReleaseMode srv = true)) ∧
  (EventBus_Enabled (Config_EventBus c) = true →
   ∀ env s db hooks s' S (NewSQLStore : handle → string → result S) store,
     run_sys env (newDatabase c) s = (Ok (db, hooks), s') → newTenantOutboxStore NewSQLStore db = Ok store → is_Some store) ∧
  (∀ env s db dh s1 tracing env' s2 client ch s3 platform_New,
     run_sys env (newDatabase c) s = (Ok (db, dh), s1) → run_sys env' (newRedis c tracing) s2 = (Ok (client, ch), s3) →
     NewRuntimeService (NewTransactor db) (newLocker client) (idempotency_New platform_New client c)
     = Build_Service (Database_Enabled (Config_Database c)) (Redis_Enabled (Config_Redis c))
         (Some (platform_New client (manager_config c))) ∧
     (manager_Enabled (manager_config c) = true → is_Some client ∧
        (0 < manager_ProcessingTTL (manager_config c))%Z ∧ (0 < manager_ResultTTL (manager_config c))%Z ∧
        (0 < manager_FailureTTL (manager_config c))%Z)) ∧
  ∃ r, NewRegistry path_Match status_Code grpc_NewClient range c = Ok r ∧
    (DictionaryProvider_Enabled (Config_DictionaryProvider c) = true →
     is_Some (registry_GRPC r (DictionaryProvider_RegistryClient (Config_DictionaryProvider c)))) ∧
    (∀ name, is_Some (registry_HTTP r name) ↔ is_Some (Outbound_HTTP (Config_Outbound c) !! name)) ∧
    (∀ name, is_Some (registry_GRPC r name) ↔ is_Some (Outbound_GRPC (Config_Outbound c) !! name)) ∧
    (Authorization_Enabled (Config_Authorization c) = true ∨ App_Env (Config_App c) = "production" →
     is_Some (registry_GRPC r "authorization")) ∧
    (∀ name u conn, Outbound_GRPC (Config_Outbound c) !! name = Some u → registry_GRPC r name = Some conn →
     ClientAuth_Type (GRPCUpstream_Auth u) ≠ "" → conn_Credentials conn = None →
     GRPCUpstream_AllowInsecureCredentials u = true ∧ App_Env (Config_App c) ≠ "production").
Proof.
  intros Hload Hres.
  destruct (loading_facts path_Match range range_visits path explicit c Hload) as (Hv & Hm & Hn & Hp & Hex & _).
  split_and!; [done..| | | | |].
  2: { intros SetTrustedProxies Hproxies. unfold http_NewServer. rewrite Hproxies. eexists. split_and!; [done| |].
       - apply (servers_http _ (config_servers _ _ Hv)).
       - intros ->. reflexivity. }
  2: { intros Hbus env s db hooks s' S NewSQLStore store Hrun Hstore.
       destruct (messaging_events _ _ (config_messaging _ _ Hv) Hbus) as (Hen & _).
       apply newDatabase_some in Hrun as [h ->]; [|done]. simpl in Hstore. case_match; simplify_eq. eauto. }
  { intros authService tenants. destruct (NewServer_ok c authService tenants Hres) as (srv & -> & Hc).
    exists srv. split; [done|]. intros Hprod Hen. apply Hc.
    by apply (production_grpc _ (config_production _ _ Hv Hprod)). }
  { intros env s db dh s1 tracing env' s2 client ch s3 platform_New Hdb Hredis.
    by eapply service_assembled; [exact (config_messaging _ _ Hv)|..]. }
  pose proof (upstream_clients path_Match status_Code grpc_NewClient c Hv Hres) as [Hh Hg].
  destruct (NewRegistry_ok path_Match status_Code grpc_NewClient range range_visits c Hv Hres) as (r & Hr & Hrh & Hrg). exists r.
  assert (∀ name, is_Some (registry_GRPC r name) ↔ is_Some (Outbound_GRPC (Config_Outbound c) !! name)) as Hdom.
  { intros name. rewrite Hrg. destruct (_ !! name) as [u|] eqn:Hu; simpl; [|by rewrite !is_Some_alt].
    destruct (Hg _ _ Hu) as (conn & -> & _). split; eauto. }
  split_and!; [done| | |exact Hdom| |].
  - intros Hen. apply Hdom. by apply (messaging_dictionary _ _ (config_messaging _ _ Hv)).
  - intros name. rewrite Hrh. destruct (_ !! name) as [u|] eqn:Hu; simpl; [|by rewrite !is_Some_alt].
    destruct (Hh _ _ Hu) as [cl ->]. split; eauto.
  - intros Ha. apply Hdom, (access_authorization _ _ (config_access _ _ Hv)).
    destruct Ha as [?|Hprod]; [done|]. apply (production_authorization _ (config_production _ _ Hv Hprod)).
  - intros name u conn Hu Hconn Htype Hnone. rewrite Hrg, Hu in Hconn. simpl in Hconn.
    destruct (Hg _ _ Hu) as (conn' & Hd & Hc). rewrite Hd in Hconn. simplify_eq.
    destruct (Hc Hnone) as [[?|Hi] _]; [done|]. apply andb_prop in Hi as [? Hi]. by reflect_bools.
Qed.

(** *** Migrations and the service *)

Lemma name_has_no_question s : validMigrationTable s = true → s ≠ "" ∧ "?"%char ∉ String.list_ascii_of_string s.
Proof.
  unfold validMigrationTable. destruct s as [|a s]; [done|]. simpl. intros Hv. split; [done|].
  apply andb_prop in Hv as [[Ha _]%andb_prop Hl]. intros [<-|Hin]%elem_of_cons; [done|].
  rewrite forallb_forall in Hl. apply list_elem_of_In, Hl in Hin. done.
Qed.

(** The databases a pool is opened on. *)
Lemma newDatabase_log `{Drivers} c env n L r s' :
  run_sys env (newDatabase c) (Build_Process n L []) = (r, s') →
  Forall (λ e, match e with
    | Created (StdlibOpenDB cfg) _ => ∃ parsed, pgx_ParseConfig (Database_DSN (Config_Database c)) = Ok parsed ∧
        cfg = pgx_config (Config_Database c) parsed
    | Opened (SqlxOpen driver dsn) _ => ∃ parsed, mysql_ParseDSN (Database_DSN (Config_Database c)) = Ok parsed ∧
        driver = "mysql" ∧ dsn = FormatDSN (mysql_config (Config_Database c) parsed)
    | Opened _ _ => False
    | _ => True
    end) (p_log s').
Proof.
  unfold newDatabase. case_match; [by intros [= <- <-]; constructor|].
  unfold database_Open, driverName, open_database. intros Hrun.
  destruct (_ =?s "mysql"); simpl in Hrun.
  - destruct (mysql_ParseDSN _) as [parsed|] eqn:Hp; [|by injection Hrun as <- <-; constructor].
    destruct (LoadLocation _); [by injection Hrun as <- <-; constructor|]. simpl in Hrun.
    repeat (case_match; simplify_eq/=); repeat constructor; eauto.
  - destruct (_ || _); simpl in Hrun; [|by injection Hrun as <- <-; constructor].
    destruct (pgx_ParseConfig _) as [parsed|] eqn:Hp; simpl in Hrun; [|by injection Hrun as <- <-; constructor].
    repeat (case_match; simplify_eq/=); repeat constructor; eauto.
Qed.

(** Migrations and the service meet in one database. In a configuration that loads, with
    a migration URL that is a MySQL address or a URL with a host, the migrator is given a URL
    whose database is the service's, with the service's schema in the search path if there is
    one; and every pool the service opens is on that database, with that search path, in the
    time zone of the program; no other database is opened. *)
Theorem migrations_meet_service `{UnicodeTables, ViperLibrary, Drivers, !UrlFields, !UrlLaws} path explicit c :
  LoadWithProfile path_Match range path explicit = Ok c →
  let migration := Config_Migration c in
  let database := Config_Database c in
  let given := withMigrationOptions (Migration_DatabaseURL migration) (Migration_DatabaseName migration)
                 (Migration_Table migration) (Migration_Schema migration) in
  (HasPrefix (Migration_DatabaseURL migration) "mysql://" = true →
   ∃ url before, given = Ok url ∧
     address url = before ++ "/"%char :: String.list_ascii_of_string (Database_Name database)) ∧
  (∀ u, HasPrefix (Migration_DatabaseURL migration) "mysql://" = false →
   url_Parse (Migration_DatabaseURL migration) = Ok u → url_Host u ≠ "" →
   ∃ url u', given = Ok url ∧ url_Parse url = Ok u' ∧ url_Path u' = "/" +:+ Database_Name database ∧
     (Database_Schema database ≠ "" →
      default [] (Migration.Query u' !! "search_path") = [Database_Schema database])) ∧
  (∀ env n L r s', run_sys env (newDatabase c) (Build_Process n L []) = (r, s') →
     (∀ cfg h, Created (StdlibOpenDB cfg) h ∈ p_log s' →
        Pgx_Database cfg = Database_Name database ∧
        Pgx_RuntimeParams cfg !! "timezone" = Some "Asia/Shanghai" ∧
        (Database_Schema database ≠ "" → Pgx_RuntimeParams cfg !! "search_path" = Some (Database_Schema database))) ∧
     (∀ o h, Opened o h ∈ p_log s' →
        ∃ cfg, o = SqlxOpen "mysql" (FormatDSN cfg) ∧ MySQL_DBName cfg = Database_Name database ∧
               MySQL_Loc cfg = "Asia/Shanghai")).
Proof.
  intros Hload. destruct (loading_facts path_Match range range_visits path explicit c Hload) as (Hv & Hs & Hn & _).
  destruct (name_has_no_question _ (data_name _ (config_data _ _ Hv))) as [Hname Hq].
  cbv zeta. rewrite Hs, Hn.
  destruct (migration_url_options (Migration_DatabaseURL (Config_Migration c)) (Database_Name (Config_Database c))
              (Migration_Table (Config_Migration c)) (Database_Schema (Config_Database c))) as (_ & Hmysql & Hother).
  apply String.eqb_neq in Hname. rewrite Hname in Hmysql, Hother. apply String.eqb_neq in Hname.
  split_and!.
  - intros Hp. destruct (Hmysql Hp Hq) as (url & before & old & -> & _ & _ & Ha & _). eauto.
  - intros u Hp Hu Hh. destruct (Hother u Hp Hu Hh) as (url & u' & -> & Hu' & Hpath & Hkeys); [by left|].
    exists url, u'. split_and!; [done..|]. intros Hne%String.eqb_neq. rewrite Hkeys. simpl. by rewrite Hne.
  - intros env n L r s' Hrun. apply newDatabase_log in Hrun. rewrite Forall_forall in Hrun. split.
    + intros cfg h Hin. destruct (Hrun _ Hin) as (parsed & _ & ->). apply String.eqb_neq in Hname.
      unfold pgx_config. rewrite Hname. simpl. rewrite lookup_insert_eq. split_and!; [done..|].
      intros Hne%String.eqb_neq. rewrite Hne. simpl. by rewrite lookup_insert_ne, lookup_insert_eq.
    + intros o h Hin. specialize (Hrun _ Hin). destruct o; try done. destruct Hrun as (parsed & _ & -> & ->).
      exists (mysql_config (Config_Database c) parsed). apply String.eqb_neq in Hname.
      unfold mysql_config. by rewrite Hname.
Qed.

End Startup.
