(* ===== verification/Registration.v ===== *)
(** * Registration of the dictionary provider

    [internal/app/dictionary_provider.go]: what the service tells the registry of services
    about itself, and the goroutine that keeps its lease. The registrant is a library. *)

From stdpp Require Import base gmap list strings pretty.
From S2P Require Import Floats Config.
From S2P Require Import Prelude GoErrors Model Store Effects Platform Outbound GrpcServer.

(** [registryv1.ServiceInstance] and [serviceregistry.RegistrantConfig]. *)
Record ServiceInstance := Build_ServiceInstance {
  Instance_InstanceId : string; Instance_ServiceName : string; Instance_Endpoint : string;
  Instance_Protocol : string; Instance_Version : string; Instance_Metadata : gmap string string }.
Record RegistrantConfig := Build_RegistrantConfig {
  Registrant_Instance : ServiceInstance; Registrant_Lease : Z; Registrant_HeartbeatInterval : Z;
  Registrant_CallTimeout : Z; Registrant_RetryMin : Z }.

(** [dictionaryProviderRuntime]: the registrant, nil when the provider is disabled, and whether
    [cancel] is set. *)
Record DictionaryProviderRuntime (R : Type) := Build_DictionaryProviderRuntime {
  runtime_registrant : option R; runtime_cancel : bool }.
Arguments Build_DictionaryProviderRuntime {R}.
Arguments runtime_registrant {R}.
Arguments runtime_cancel {R}.

Section Registration.
Context `{FloatMachine, TlsFiles, UrlLibrary}.
(** [json.Marshal] of the capabilities, the name of the host, and the registrant. *)
Context (json_Capabilities : list ProviderCapability → result string).
Context (Hostname : string).
Context {R : Type} (NewRegistrant : ClientConn → RegistrantConfig → result R).

Definition registered_endpoint (target : string) : string :=
  if negb (Contains target "://") then "grpc://" +:+ target else target.

Definition instance_metadata (provider : DictionaryProvider) (capabilities : string) : gmap string string :=
  list_to_map [
    ("platform.dictionary.provider", "true");
    ("platform.dictionary.capabilities", capabilities);
    ("platform.dictionary.cache_ttl_seconds", pretty (int64_of_float (Seconds (DictionaryProvider_CacheTTL provider))));
    ("platform.dictionary.timeout_milliseconds",
       pretty (Z.quot (DictionaryProvider_ProviderTimeout provider) millisecond))].

(** The upstream that is missing from the map has the zero timeout. *)
Definition registrant_config (cfg : Config) (instanceID capabilities : string) : RegistrantConfig :=
  let provider := Config_DictionaryProvider cfg in
  Build_RegistrantConfig
    (Build_ServiceInstance instanceID (App_Name (Config_App cfg)) (registered_endpoint (DictionaryProvider_Target provider))
       "grpc" "v1" (instance_metadata provider capabilities))
    (DictionaryProvider_LeaseDuration provider) (Z.quot (DictionaryProvider_LeaseDuration provider) 3)
    (match Outbound_GRPC (Config_Outbound cfg) !! DictionaryProvider_RegistryClient provider with
     | Some upstream => GRPCUpstream_Timeout upstream
     | None => 0%Z
     end)
    (DictionaryProvider_RetryDelay provider).

(** [newDictionaryProviderRuntime]. *)
Definition newDictionaryProviderRuntime (cfg : Config) (outboundClients : Registry)
  : prog (result (DictionaryProviderRuntime R)) :=
  let provider := Config_DictionaryProvider cfg in
  stop_if negb (DictionaryProvider_Enabled provider) => Ret (Ok (Build_DictionaryProviderRuntime None false));;
  match registry_GRPC outboundClients (DictionaryProvider_RegistryClient provider) with
  | None => Ret (Err (TextError "service registry gRPC client is not configured"))
  | Some connection =>
      capabilities <-! json_Capabilities Capabilities
        else err => Ret (Err (Wrapped "encode dictionary capabilities" err));;
      let register instanceID :=
        match NewRegistrant connection (registrant_config cfg instanceID capabilities) with
        | Err err => Ret (Err err)
        | Ok registrant => Ret (Ok (Build_DictionaryProviderRuntime (Some registrant) false))
        end in
      if TrimSpace Hostname =?s ""
      then NewUUID (λ uuid, register (App_Name (Config_App cfg) +:+ "-" +:+ uuid))
      else register Hostname
  end.

(** The hooks: starting sets [cancel] and lets the registrant run, stopping cancels it; the
    flag says whether the registrant runs on. *)
Definition dictionary_OnStart (r : DictionaryProviderRuntime R) : DictionaryProviderRuntime R * bool :=
  (Build_DictionaryProviderRuntime (runtime_registrant r) true, true).
Definition dictionary_OnStop (r : DictionaryProviderRuntime R) (running : bool) : bool :=
  if runtime_cancel r then false else running.

(** ** Properties *)

(** The endpoint always names its scheme. *)
Lemma registered_endpoint_scheme target : Contains (registered_endpoint target) "://" = true.
Proof.
  unfold registered_endpoint. destruct (Contains target "://") eqn:Hc; [exact Hc|]. simpl negb. cbv iota.
  rewrite !string_app_cons, string_app_nil_l. by destruct target.
Qed.

(** With a host name the registration is one value; without one it has a fresh identifier. *)
Lemma registration cfg r connection capabilities env w :
  DictionaryProvider_Enabled (Config_DictionaryProvider cfg) = true →
  registry_GRPC r (DictionaryProvider_RegistryClient (Config_DictionaryProvider cfg)) = Some connection →
  json_Capabilities Capabilities = Ok capabilities →
  let id := if TrimSpace Hostname =?s "" then App_Name (Config_App cfg) +:+ "-" +:+ env_uuid env (w_tick w) else Hostname in
  fst (run env (newDictionaryProviderRuntime cfg r) w)
  = match NewRegistrant connection (registrant_config cfg id capabilities) with
    | Ok registrant => Ok (Build_DictionaryProviderRuntime (Some registrant) false)
    | Err err => Err err
    end.
Proof.
  intros Hen Hr Hc. unfold newDictionaryProviderRuntime. rewrite Hen, Hr, Hc. cbv zeta. simpl.
  destruct (_ =?s ""); simpl; by destruct (NewRegistrant _ _).
Qed.

End Registration.
