(* ===== verification/Wiring.v ===== *)
(** * Wiring

    [internal/app/app.go] and the modules it names: which constructors the application is put
    together from, what each takes and gives, and in which order they run. The container ([fx])
    is given by what it documents: a constructor is called at most once, when something that is
    to be invoked needs it, and after those that give its arguments; what is to be invoked runs
    in order. Which of several possible constructors is next, it does not say, and nothing here
    depends on it. *)

From stdpp Require Import base gmap sets list strings.
From S2P Require Import Floats Config.
From S2P Require Import Prelude GoErrors Effects Platform Authorization Service Middleware Outbound System Urls.
From S2P Require Import Resources ResourceProofs.

(** ** The container *)

(** A constructor by its signature, and whether it appends a hook to the life cycle. *)
Record provider := Provider {
  p_name : string; p_takes : list string; p_gives : string; p_hook : Config → bool }.

(** Options of [fx.New]; the functions that are invoked are known by what they take. *)
Inductive option_fx :=
| Supply (type : string)
| Provide (constructors : list provider)
| WithLogger (takes : list string)
| Invoke (takes : list string)
| Module_ (name : string) (options : list option_fx).

Fixpoint supplied_by (o : option_fx) : list string :=
  match o with Supply t => [t] | Module_ _ l => flat_map supplied_by l | _ => [] end.
Fixpoint provided_by (o : option_fx) : list provider :=
  match o with Provide l => l | Module_ _ l => flat_map provided_by l | _ => [] end.
Fixpoint logging_by (o : option_fx) : list (list string) :=
  match o with WithLogger l => [l] | Module_ _ l => flat_map logging_by l | _ => [] end.
Fixpoint invoked_by (o : option_fx) : list (list string) :=
  match o with Invoke l => [l] | Module_ _ l => flat_map invoked_by l | _ => [] end.

Section Container.
(** What is supplied, the constructors, and what is invoked; the container's own logger is made
    first. *)
Context (supplied : list string) (providers : list provider) (invokes : list (list string)).

(** The constructors that have run, in order, and what is still to be invoked. *)
Record container := Container { built : list provider; todo : list (list string) }.

Definition available (l : list provider) : list string := supplied ++ (p_gives <$> l).

(** What some types are made from. *)
Definition takes_of (t : string) : list string :=
  match List.find (λ p, p_gives p =?s t) providers with Some p => p_takes p | None => [] end.
Fixpoint closure (fuel : nat) (ts : list string) : list string :=
  match fuel with O => ts | S fuel => ts ++ closure fuel (flat_map takes_of ts) end.

(** No chain of constructors is longer. *)
Definition depth : nat := 8.
Definition needed (ts : list string) : list string := closure depth ts.

Inductive calls := Constructs (p : provider) | Invokes (takes : list string).

Inductive step : container → calls → container → Prop :=
| step_construct c p ts rest :
    todo c = ts :: rest → p ∈ providers → p ∉ built c →
    p_gives p ∈ needed ts → p_takes p ⊆ available (built c) →
    step c (Constructs p) (Container (built c ++ [p]) (todo c))
| step_invoke c ts rest :
    todo c = ts :: rest → ts ⊆ available (built c) →
    step c (Invokes ts) (Container (built c) rest).

(** What the container has done since it was made; the last call comes last. *)
Inductive reached : list calls → container → Prop :=
| reached_new : reached [] (Container [] invokes)
| reached_step tr c x c' : reached tr c → step c x c' → reached (tr ++ [x]) c'.

(** One call, by the number of its constructor or to invoke what is next: the relation, executed. *)
Definition perform (choice : option nat) (c : container) : option (calls * container) :=
  match todo c with
  | [] => None
  | ts :: rest =>
      match choice with
      | Some i =>
          p ← providers !! i;
          if bool_decide (p_gives p ∉ p_gives <$> built c) && bool_decide (p_gives p ∈ needed ts)
             && bool_decide (p_takes p ⊆ available (built c))
          then Some (Constructs p, Container (built c ++ [p]) (todo c)) else None
      | None =>
          if bool_decide (ts ⊆ available (built c)) then Some (Invokes ts, Container (built c) rest) else None
      end
  end.

Lemma perform_step choice c x c' : perform choice c = Some (x, c') → step c x c'.
Proof.
  unfold perform. destruct (todo c) as [|ts rest] eqn:Htodo; [done|]. destruct choice as [i|].
  - destruct (providers !! i) as [p|] eqn:Hi; [|done]. simpl.
    destruct (_ && _) eqn:Hb; [|done]. intros [= <- <-].
    apply andb_prop in Hb as [[Hn%bool_decide_eq_true Hd%bool_decide_eq_true]%andb_prop Ht%bool_decide_eq_true].
    rewrite <- Htodo. eapply step_construct; try done; [by eapply list_elem_of_lookup_2|].
    intros Hp. apply Hn. by apply list_elem_of_fmap_2.
  - case_bool_decide as Ha; [|done]. intros [= <- <-]. by eapply step_invoke.
Qed.

Definition perform_all (choices : list (option nat)) : option (list calls * container) :=
  foldl (λ s choice, '(tr, c) ← s; '(x, c') ← perform choice c; Some (tr ++ [x], c'))
    (Some ([], Container [] invokes)) choices.

Lemma perform_reached choices tr c : perform_all choices = Some (tr, c) → reached tr c.
Proof.
  revert tr c. induction choices as [|choice choices IH] using rev_ind; intros tr c; unfold perform_all.
  - simpl. intros [= <- <-]. constructor.
  - rewrite foldl_app. fold (perform_all choices). destruct (perform_all choices) as [[tr0 c0]|] eqn:H0; [|done].
    simpl. destruct (perform choice c0) as [[x c']|] eqn:Hx; [|done]. simpl. intros [= <- <-].
    eapply reached_step; [by apply IH|by eapply perform_step].
Qed.

(** ** Constructors that fit together *)

(** The first thing to be invoked that needs a type. *)
Fixpoint stage_in (l : list (list string)) (t : string) : nat :=
  match l with [] => 0 | ts :: l' => if bool_decide (t ∈ needed ts) then 0 else S (stage_in l' t) end.
Definition stage (t : string) : nat := stage_in invokes t.

(** Each constructor of a list takes what is there before it. *)
Fixpoint topological (l : list provider) (there : list string) : bool :=
  match l with
  | [] => true
  | p :: l' => bool_decide (p_takes p ⊆ there) && topological l' (there ++ [p_gives p])
  end.

(** Every type is given once, what is invoked needs everything and misses nothing, and [order]
    is an order without cycles. *)
Record fits (order : list provider) : Prop := {
  fits_order : order ≡ₚ providers;
  fits_topological : topological order supplied = true;
  fits_once : NoDup (supplied ++ (p_gives <$> providers));
  fits_needed : Forall (λ ts, needed ts ⊆ available providers ∧
                              Forall (λ t, takes_of t ⊆ needed ts) (needed ts)) invokes;
  fits_used : Forall (λ p, stage (p_gives p) < length invokes) providers;
}.

Lemma topological_app l1 l2 there :
  topological (l1 ++ l2) there = topological l1 there && topological l2 (there ++ (p_gives <$> l1)).
Proof.
  revert there. induction l1 as [|p l1 IH]; intros there; simpl; [by rewrite app_nil_r|].
  rewrite IH, <- app_assoc. by rewrite andb_assoc.
Qed.

Lemma topological_split l1 p l2 there :
  topological (l1 ++ p :: l2) there = true → p_takes p ⊆ there ++ (p_gives <$> l1).
Proof. rewrite topological_app. simpl. by intros [_ [?%bool_decide_eq_true _]%andb_prop]%andb_prop. Qed.

Lemma topological_snoc l p there :
  topological l there = true → p_takes p ⊆ there ++ (p_gives <$> l) → topological (l ++ [p]) there = true.
Proof. intros Hl Hp. rewrite topological_app, Hl. simpl. by rewrite bool_decide_eq_true_2. Qed.

Lemma available_snoc l p : available (l ++ [p]) = available l ++ [p_gives p].
Proof. unfold available. by rewrite fmap_app, app_assoc. Qed.

Lemma stage_spec l t :
  (stage_in l t < length l → ∃ l1 ts l2, l = l1 ++ ts :: l2 ∧ length l1 = stage_in l t ∧ t ∈ needed ts) ∧
  (∀ l1 ts l2, l = l1 ++ ts :: l2 → t ∈ needed ts → stage_in l t ≤ length l1).
Proof.
  induction l as [|ts l [IH1 IH2]]; simpl; [split; [lia|by intros []]|]. case_bool_decide as Ht.
  - split; [by exists [], ts, l|intros; lia].
  - split.
    + intros Hs. destruct IH1 as (l1 & ts' & l2 & -> & Hl & ?); [lia|].
      exists (ts :: l1), ts', l2. simpl. by rewrite Hl.
    + intros [|? l1] ts' l2 [=] Ht'; simplify_eq; [done|]. simpl. specialize (IH2 l1 ts' l2 eq_refl Ht'). lia.
Qed.

Section Fitting.
Context (order : list provider) (Hfits : fits order).

Lemma gives_unique p q : p ∈ providers → q ∈ providers → p_gives p = p_gives q → p = q.
Proof using Hfits.
  pose proof (fits_once order Hfits) as Hnd. apply NoDup_app in Hnd as (_ & _ & Hnd).
  revert Hnd. induction providers as [|r l IH]; [by intros _ ?%elem_of_nil|].
  rewrite fmap_cons, NoDup_cons. intros [Hr Hnd] [->|Hp]%elem_of_cons [->|Hq]%elem_of_cons Heq; auto.
  - destruct Hr. rewrite Heq. by apply list_elem_of_fmap_2.
  - destruct Hr. rewrite <- Heq. by apply list_elem_of_fmap_2.
Qed.

Lemma gives_not_supplied p : p ∈ providers → p_gives p ∉ supplied.
Proof using Hfits.
  intros Hp Hs. pose proof (fits_once order Hfits) as (_ & Hd & _)%NoDup_app.
  apply (Hd _ Hs). by apply list_elem_of_fmap_2.
Qed.

Lemma available_built l p : l ⊆ providers → p ∈ providers → p_gives p ∈ available l → p ∈ l.
Proof using Hfits.
  intros Hl Hp [Hs|(q & Heq & Hq)%list_elem_of_fmap]%elem_of_app; [by destruct (gives_not_supplied p Hp)|].
  by rewrite (gives_unique p q Hp (Hl _ Hq) Heq).
Qed.

Lemma takes_of_gives p : p ∈ providers → takes_of (p_gives p) = p_takes p.
Proof using Hfits.
  intros Hp. unfold takes_of. destruct (List.find _ _) as [q|] eqn:Hq.
  - apply find_some in Hq as [Hq%list_elem_of_In Heq%String.eqb_eq]. by rewrite (gives_unique q p).
  - eapply find_none in Hq; [|by apply list_elem_of_In]. by rewrite String.eqb_refl in Hq.
Qed.

Lemma takes_of_supplied t : t ∈ supplied → takes_of t = [].
Proof using Hfits.
  intros Ht. unfold takes_of. destruct (List.find _ _) as [q|] eqn:Hq; [|done].
  apply find_some in Hq as [Hq%list_elem_of_In <-%String.eqb_eq]. by destruct (gives_not_supplied q Hq).
Qed.

(** What has been built in order is closed. *)
Lemma available_closed l t :
  l ⊆ providers → topological l supplied = true → t ∈ available l → takes_of t ⊆ available l.
Proof using Hfits.
  intros Hl Htop [Ht|(p & -> & Hp)%list_elem_of_fmap]%elem_of_app; [rewrite takes_of_supplied by done; set_solver|].
  rewrite takes_of_gives by auto. apply list_elem_of_split in Hp as (l1 & l2 & ->).
  apply topological_split in Htop. unfold available. rewrite fmap_app. set_solver.
Qed.

Lemma closure_available l n ts :
  l ⊆ providers → topological l supplied = true → ts ⊆ available l → closure n ts ⊆ available l.
Proof using Hfits.
  intros Hl Htop. revert ts. induction n as [|n IH]; intros ts Hts; [done|]. simpl.
  apply list_subseteq_app_iff_l; split; [done|]. apply IH. intros t (u & Hu & Ht)%list_elem_of_In%in_flat_map.
  apply list_elem_of_In in Hu, Ht. eapply available_closed; [done..|by apply Hts|done].
Qed.

(** ** Every state that is reached *)

Record sound (tr : list calls) (c : container) (over : list (list string)) : Prop := {
  sound_invokes : invokes = over ++ todo c;
  sound_length : length tr = length (built c) + length over;
  sound_providers : built c ⊆ providers;
  sound_once : NoDup (built c);
  sound_topological : topological (built c) supplied = true;
  sound_over : ∀ ts, ts ∈ over → needed ts ⊆ available (built c);
  sound_stage : ∀ p, p ∈ built c → stage (p_gives p) ≤ length over;
  sound_before : ∀ l1 q l2 p, built c = l1 ++ q :: l2 → p ∈ providers →
    stage (p_gives p) < stage (p_gives q) → p ∈ l1;
}.

(** What something that is over needs has been built. *)
Lemma stage_over tr c over p :
  sound tr c over → p ∈ providers → stage (p_gives p) < length over → p ∈ built c.
Proof using Hfits.
  intros Hs Hp Hlt. pose proof (sound_invokes _ _ _ Hs) as Hinv.
  destruct (proj1 (stage_spec invokes (p_gives p))) as (l1 & ts & l2 & Heq & Hl1 & Ht).
  { change (stage (p_gives p) < length invokes). rewrite Hinv, length_app. lia. }
  apply (available_built _ _ (sound_providers _ _ _ Hs) Hp), (sound_over _ _ _ Hs ts); [|done].
  assert (invokes !! length l1 = Some ts) as Hts by (rewrite Heq; by apply list_lookup_middle).
  rewrite Hl1 in Hts. change (stage_in invokes (p_gives p)) with (stage (p_gives p)) in Hts.
  rewrite Hinv, lookup_app_l in Hts by done. by apply list_elem_of_lookup_2 in Hts.
Qed.

Lemma reached_sound tr c : reached tr c → ∃ over, sound tr c over.
Proof using Hfits.
  induction 1 as [|tr c x c' _ [over Hs] Hstep].
  { exists []. split; simpl; try done; try apply NoDup_nil_2; try by intros ? ?%elem_of_nil.
    by intros []. }
  inversion Hstep as [c0 p ts rest Htodo Hp Hnew Hneed Htakes|c0 ts rest Htodo Htakes]; subst; clear Hstep.
  - exists over. pose proof (sound_invokes _ _ _ Hs) as Hinv. rewrite Htodo in Hinv.
    pose proof (proj2 (stage_spec invokes (p_gives p)) _ _ _ Hinv Hneed) as Hle. fold (stage (p_gives p)) in Hle.
    assert (stage (p_gives p) = length over) as Hstage.
    { destruct (decide (stage (p_gives p) < length over)); [|lia].
      destruct Hnew. by eapply stage_over. }
    pose proof Hs as [_ Hlen Hprov Hnd Htop Hover Hst Hbefore]. split; cbn [built todo].
    + by rewrite Htodo.
    + rewrite !length_app, Hlen. simpl. lia.
    + apply list_subseteq_app_iff_l; split; [done|]. by intros q ->%list_elem_of_singleton.
    + apply NoDup_app. split_and!; [done| |apply NoDup_singleton].
      by intros q Hq ->%list_elem_of_singleton.
    + by apply topological_snoc.
    + intros ts' Hts'. rewrite available_snoc. intros t Ht. apply elem_of_app. left. by apply (Hover _ Hts').
    + intros q [Hq| ->%list_elem_of_singleton]%elem_of_app; [auto|lia].
    + intros l1 q l2 r Heq Hr Hlt. destruct l2 as [|q' l2 _] using rev_ind.
      * apply app_inj_tail in Heq as [<- <-]. apply (stage_over tr c over); [done|done|lia].
      * rewrite app_comm_cons, app_assoc in Heq. apply app_inj_tail in Heq as [Heq _]. by eapply Hbefore.
  - exists (over ++ [ts]). destruct Hs as [Hinv Hlen Hprov Hnd Htop Hover Hst Hbefore]. split; cbn [built todo]; auto.
    + by rewrite Hinv, Htodo, <- app_assoc.
    + rewrite !length_app, Hlen. simpl. lia.
    + intros ts' [Hts'| ->%list_elem_of_singleton]%elem_of_app; [auto|]. by apply closure_available.
    + intros q Hq. rewrite length_app. specialize (Hst q Hq). lia.
Qed.

Lemma needed_self ts : ts ⊆ needed ts.
Proof. intros t Ht. unfold needed, depth. simpl. by apply elem_of_app; left. Qed.

Lemma first_split {A} (P : A → Prop) `{∀ x, base.Decision (P x)} l x :
  x ∈ l → P x → ∃ l1 y l2, l = l1 ++ y :: l2 ∧ P y ∧ ∀ z, z ∈ l1 → ¬ P z.
Proof.
  intros Hx HP. induction l as [|a l IH]; [by apply elem_of_nil in Hx|].
  destruct (decide (P a)) as [Ha|Ha].
  - exists [], a, l. split_and!; [done|done|]. by intros z ?%elem_of_nil.
  - apply elem_of_cons in Hx as [->|Hx]; [done|]. destruct (IH Hx) as (l1 & y & l2 & -> & Hy & Hl).
    exists (a :: l1), y, l2. split_and!; [done|done|]. by intros z [->|?]%elem_of_cons; auto.
Qed.

(** The container is never stuck. *)
Lemma sound_progress tr c over : sound tr c over → todo c ≠ [] → ∃ x c', step c x c'.
Proof using Hfits.
  intros Hs Hne. destruct (todo c) as [|ts rest] eqn:Htodo; [done|].
  assert (ts ∈ invokes) as Hts by (rewrite (sound_invokes _ _ _ Hs), Htodo; set_solver).
  destruct (proj1 (Forall_forall _ _) (fits_needed order Hfits) ts Hts) as [Hall Hclosed].
  destruct (decide (Forall (λ t, t ∈ available (built c)) ts)) as [Hready|Hwait].
  { eexists _, _. eapply step_invoke; [done|]. exact (proj1 (Forall_forall _ _) Hready). }
  apply not_Forall_Exists, Exists_exists in Hwait as (t & Ht & Hmiss); [|apply _].
  set (P p := p_gives p ∈ needed ts ∧ p_gives p ∉ available (built c)).
  assert (∃ l1 p l2, order = l1 ++ p :: l2 ∧ P p ∧ ∀ z, z ∈ l1 → ¬ P z) as (l1 & p & l2 & Hl & [Hp Hnew] & Hfirst).
  { pose proof (Hall _ (needed_self ts t Ht)) as [?|(p & -> & Hp)%list_elem_of_fmap]%elem_of_app.
    - destruct Hmiss. by apply elem_of_app; left.
    - apply (first_split P order p); [by rewrite (fits_order order Hfits)|]. split; [by apply needed_self|done]. }
  assert (p ∈ providers) as Hin by (rewrite <- (fits_order order Hfits), Hl; set_solver).
  eexists _, _. eapply (step_construct c p ts); try done.
  { intros Hb. destruct Hnew. apply elem_of_app. right. by apply list_elem_of_fmap_2. }
  pose proof (fits_topological order Hfits) as Htop. rewrite Hl in Htop. apply topological_split in Htop.
  intros u Hu. destruct (decide (u ∈ available (built c))) as [|Hn]; [done|exfalso].
  pose proof (Htop u Hu) as [Hs'|(z & -> & Hz)%list_elem_of_fmap]%elem_of_app.
  { destruct Hn. by apply elem_of_app; left. }
  apply (Hfirst z Hz). split; [|done].
  apply (proj1 (Forall_forall _ _) Hclosed (p_gives p) Hp). by rewrite takes_of_gives.
Qed.

Lemma providers_once : NoDup providers.
Proof using Hfits.
  pose proof (fits_once order Hfits) as (_ & _ & Hnd)%NoDup_app. by apply NoDup_fmap_1 in Hnd.
Qed.

(** When everything has been invoked, everything has been built. *)
Lemma sound_complete tr c over : sound tr c over → todo c = [] → built c ≡ₚ providers.
Proof using Hfits.
  intros Hs Htodo. apply NoDup_Permutation; [apply (sound_once _ _ _ Hs)|apply providers_once|].
  intros p. split; [apply (sound_providers _ _ _ Hs)|]. intros Hp. apply (stage_over tr c over); [done|done|].
  pose proof (sound_invokes _ _ _ Hs) as Hinv. rewrite Htodo, app_nil_r in Hinv. rewrite <- Hinv.
  by apply (proj1 (Forall_forall _ _) (fits_used order Hfits)).
Qed.

(** And it ends. *)
Lemma sound_bound tr c over : sound tr c over → length tr ≤ length providers + length invokes.
Proof using Hfits.
  intros Hs. rewrite (sound_length _ _ _ Hs).
  assert (length (built c) ≤ length providers)
    by (apply submseteq_length, NoDup_submseteq; [apply (sound_once _ _ _ Hs)|apply (sound_providers _ _ _ Hs)]).
  rewrite (sound_invokes _ _ _ Hs), length_app. lia.
Qed.

(** ** What comes first *)

(** A constructor whose value another one needs, or that is needed at an earlier stage. *)
Definition precedes (p q : provider) : Prop :=
  p_gives p ∈ needed (p_takes q) ∨ stage (p_gives p) < stage (p_gives q).
#[export] Instance precedes_dec : RelDecision precedes.
Proof. intros p q. unfold precedes. apply _. Defined.

Lemma sound_precedes tr c over l1 q l2 p :
  sound tr c over → built c = l1 ++ q :: l2 → p ∈ providers → precedes p q → p ∈ l1.
Proof using Hfits.
  intros Hs Hl Hp [Hn|Hlt]; [|by eapply sound_before].
  pose proof (sound_topological _ _ _ Hs) as Htop. pose proof (sound_providers _ _ _ Hs) as Hsub. rewrite Hl in *.
  assert (l1 ⊆ providers) as Hl1 by (intros x Hx; apply Hsub; set_solver).
  apply (available_built _ _ Hl1 Hp). pose proof (topological_split _ _ _ _ Htop) as Htakes.
  rewrite topological_app in Htop. apply andb_prop in Htop as [Htop _].
  by apply (closure_available l1 depth (p_takes q) Hl1 Htop Htakes).
Qed.

(** Constructors that precede each other in a chain are called in this order. *)
Fixpoint chain (l : list provider) : Prop :=
  match l with [] => True | p :: l' => Forall (precedes p) l' ∧ chain l' end.

Lemma chain_split l1 q l2 p : chain (l1 ++ q :: l2) → p ∈ l1 → precedes p q.
Proof.
  induction l1 as [|x l1 IH]; simpl; [by intros _ ?%elem_of_nil|].
  intros [Hx Hl] [->|Hp]%elem_of_cons; [|auto]. rewrite Forall_app, Forall_cons in Hx. tauto.
Qed.

Lemma chain_filter (f : provider → bool) l : chain l → chain (List.filter f l).
Proof.
  induction l as [|p l IH]; simpl; [done|]. intros [Hp Hl]. destruct (f p); simpl; [|auto]. split; [|auto].
  apply Forall_forall. intros x [Hx _]%list_elem_of_In%filter_In.
  apply list_elem_of_In in Hx. by apply (proj1 (Forall_forall _ _) Hp).
Qed.

(** Whatever the container does first, the constructors of a chain are called in its order. *)
Lemma sound_prefix tr c over (f : provider → bool) sequence :
  sound tr c over → chain sequence → NoDup sequence →
  (∀ p, p ∈ sequence ↔ p ∈ providers ∧ f p = true) → List.filter f (built c) `prefix_of` sequence.
Proof using Hfits.
  intros Hs Hchain Hnd Hseq.
  assert (∀ l l', built c = l ++ l' → List.filter f l `prefix_of` sequence) as H; [|by apply (H _ []), eq_sym, app_nil_r].
  induction l as [|q l IH] using rev_ind; intros l' Hl; [apply prefix_nil|].
  rewrite <- app_assoc in Hl. simpl in Hl. destruct (IH _ Hl) as [rest Hrest]. rewrite List.filter_app. simpl.
  destruct (f q) eqn:Hq; [|by rewrite app_nil_r; exists rest].
  assert (q ∈ providers) as Hqp by (apply (sound_providers _ _ _ Hs); rewrite Hl; set_solver).
  assert (q ∈ rest) as Hin.
  { assert (q ∈ sequence) as Hqs by by apply Hseq.
    rewrite Hrest in Hqs. apply elem_of_app in Hqs as [[_ Hql]%elem_of_filter_bool|]; [|done].
    pose proof (sound_once _ _ _ Hs) as Hb. rewrite Hl in Hb. apply NoDup_app in Hb as (_ & Hb & _).
    destruct (Hb q Hql). by left. }
  apply list_elem_of_split in Hin as (r1 & r2 & ->). destruct r1 as [|x r1]; [exists r2; by rewrite <- app_assoc|].
  exfalso. rewrite Hrest, app_assoc in Hchain. rewrite Hrest in Hnd.
  assert (x ∈ List.filter f l ++ x :: r1) as Hx by (apply elem_of_app; right; by left).
  pose proof (chain_split _ _ _ _ Hchain Hx) as Hprec.
  assert (x ∈ providers ∧ f x = true) as [Hxp Hfx] by (apply Hseq; rewrite Hrest; set_solver).
  pose proof (sound_precedes _ _ _ _ _ _ _ Hs Hl Hxp Hprec) as Hxl.
  apply NoDup_app in Hnd as (_ & Hnd & _). apply (Hnd x); [by apply elem_of_filter_bool|by left].
Qed.

End Fitting.
End Container.

(** ** The application *)

Definition always (cfg : Config) : bool := true.
Definition never (cfg : Config) : bool := false.

Definition newLogger_fx : provider := Provider "newLogger" ["fx.Lifecycle"; "config.Config"] "*slog.Logger" always.
Definition NewTracing_fx : provider := Provider "observability.NewTracing" ["fx.Lifecycle"; "config.Config"]
  "*observability.Tracing" (λ cfg, Observability_TracingEnabled (Config_Observability cfg)).
Definition newDatabase_fx : provider := Provider "newDatabase" ["fx.Lifecycle"; "config.Config"] "*sqlx.DB"
  (λ cfg, Database_Enabled (Config_Database cfg)).
Definition NewTransactor_fx : provider := Provider "database.NewTransactor" ["*sqlx.DB"] "*database.Transactor" never.
Definition newRedis_fx : provider := Provider "newRedis" ["fx.Lifecycle"; "config.Config"; "*observability.Tracing"]
  "*redis.Client" (λ cfg, Redis_Enabled (Config_Redis cfg)).
Definition newLocker_fx : provider := Provider "newLocker" ["*redis.Client"] "*cache.Locker" never.
Definition idempotency_New_fx : provider := Provider "idempotency.New" ["*redis.Client"; "config.Config"]
  "*idempotency.Manager" never.
Definition NewRepository_fx : provider := Provider "tenant.NewRepository" ["*sqlx.DB"] "tenant.Repository" never.
Definition NewRuntimeService_fx : provider := Provider "tenant.NewRuntimeService"
  ["tenant.Repository"; "*database.Transactor"; "*cache.Locker"; "*idempotency.Manager"; "*slog.Logger"]
  "*tenant.Service" never.
Definition NewDictionaryProvider_fx : provider := Provider "tenant.NewDictionaryProvider" ["tenant.Repository"]
  "*tenant.DictionaryProvider" never.
Definition newTenantOutboxStore_fx : provider := Provider "newTenantOutboxStore" ["*sqlx.DB"] "*outbox.SQLStore" never.
Definition newEventRuntime_fx : provider := Provider "newEventRuntime"
  ["fx.Lifecycle"; "config.Config"; "*outbox.SQLStore"; "*slog.Logger"] "*eventRuntime" always.
Definition NewMetrics_fx : provider := Provider "observability.NewMetrics" ["config.Config"; "*sqlx.DB"; "*redis.Client"]
  "*observability.Metrics" never.
Definition NewRegistry_fx : provider := Provider "outbound.NewRegistry"
  ["fx.Lifecycle"; "config.Config"; "*observability.Metrics"] "*outbound.Registry" always.
Definition identityclient_New_fx : provider := Provider "identityclient.New" ["*outbound.Registry"]
  "*identityclient.Client" never.
Definition authorization_New_fx : provider := Provider "authorization.New" ["*outbound.Registry"]
  "authz.Authorizer" never.
Definition newDictionaryProviderRuntime_fx : provider := Provider "newDictionaryProviderRuntime"
  ["fx.Lifecycle"; "config.Config"; "*outbound.Registry"] "*dictionaryProviderRuntime"
  (λ cfg, DictionaryProvider_Enabled (Config_DictionaryProvider cfg)).
Definition scheduler_New_fx : provider := Provider "scheduler.New"
  ["fx.Lifecycle"; "config.Config"; "*cache.Locker"; "*observability.Metrics"; "*slog.Logger"] "*cron.Cron" always.
Definition grpc_NewServer_fx : provider := Provider "grpctransport.NewServer"
  ["fx.Lifecycle"; "config.Config"; "*auth.Service"; "authz.Authorizer"; "*health.Service"; "*tenant.Service";
   "*identityclient.Client"; "*tenant.DictionaryProvider"; "*idempotency.Manager"; "*observability.Metrics";
   "*slog.Logger"] "*grpctransport.Server" always.
Definition auth_NewRuntime_fx : provider := Provider "auth.NewRuntime" ["fx.Lifecycle"; "config.Config"] "*auth.Service"
  (λ cfg, Auth_JWKSURL (Config_Auth cfg) <>?s "").
Definition health_New_fx : provider := Provider "health.New" ["*sqlx.DB"; "*redis.Client"; "config.Config"]
  "*health.Service" never.
Definition ratelimit_New_fx : provider := Provider "ratelimit.New" ["*redis.Client"; "config.Config"]
  "*ratelimit.Limiter" never.
Definition NewHandler_fx : provider := Provider "NewHandler"
  ["*health.Service"; "*tenant.Service"; "*identityclient.Client"; "*slog.Logger"] "*Handler" never.
Definition http_NewServer_fx : provider := Provider "httptransport.NewServer"
  ["fx.Lifecycle"; "config.Config"; "*Handler"; "*auth.Service"; "authz.Authorizer"; "*ratelimit.Limiter";
   "*idempotency.Manager"; "*observability.Metrics"; "*observability.Tracing"; "*slog.Logger"] "*http.Server" always.

Definition MigrationModule : option_fx := Module_ "migration" [Invoke ["config.Config"; "*slog.Logger"]].
Definition DatabaseModule : option_fx := Module_ "database"
  [Provide [newDatabase_fx; NewTransactor_fx]; Invoke ["*sqlx.DB"; "*slog.Logger"]].
Definition CacheModule : option_fx := Module_ "cache"
  [Provide [newRedis_fx; newLocker_fx]; Invoke ["*redis.Client"; "*slog.Logger"]].
Definition tenant_Module : option_fx := Module_ "tenant"
  [Provide [NewRepository_fx; NewRuntimeService_fx; NewDictionaryProvider_fx]].
Definition EventBusModule : option_fx := Module_ "event-bus"
  [Provide [newTenantOutboxStore_fx; newEventRuntime_fx]; Invoke ["*eventRuntime"]].
Definition outbound_Module : option_fx := Module_ "outbound" [Provide [NewRegistry_fx]; Invoke ["*outbound.Registry"]].
Definition DictionaryProviderModule : option_fx := Module_ "dictionary-provider"
  [Provide [newDictionaryProviderRuntime_fx]; Invoke ["*dictionaryProviderRuntime"]].
Definition scheduler_Module : option_fx := Module_ "scheduler" [Provide [scheduler_New_fx]; Invoke ["*cron.Cron"]].
Definition grpc_Module : option_fx := Module_ "grpc" [Provide [grpc_NewServer_fx]; Invoke ["*grpctransport.Server"]].
Definition http_Module : option_fx := Module_ "http"
  [Provide [auth_NewRuntime_fx; health_New_fx; ratelimit_New_fx; NewHandler_fx; http_NewServer_fx];
   Invoke ["*http.Server"]].

(** [New] of [internal/app/app.go]; the two time limits are left out. *)
Definition app_New : list option_fx := [
  Supply "config.Config";
  Provide [newLogger_fx];
  Provide [NewTracing_fx];
  WithLogger ["*slog.Logger"];
  MigrationModule;
  DatabaseModule;
  CacheModule;
  Provide [idempotency_New_fx];
  tenant_Module;
  EventBusModule;
  Provide [NewMetrics_fx];
  outbound_Module;
  Provide [identityclient_New_fx];
  Provide [authorization_New_fx];
  DictionaryProviderModule;
  scheduler_Module;
  grpc_Module;
  http_Module].

(** The life cycle comes with the container. *)
Definition app_supplied : list string := "fx.Lifecycle" :: flat_map supplied_by app_New.
Definition app_providers : list provider := flat_map provided_by app_New.
Definition app_invokes : list (list string) := flat_map logging_by app_New ++ flat_map invoked_by app_New.

(** The states of the application's container, and what is called in them. *)
Definition app_reached : list calls → container → Prop := reached app_supplied app_providers app_invokes.
Definition app_step : container → calls → container → Prop := step app_supplied app_providers.

(** The constructors that append hooks, in the order of the hooks. *)
Definition hook_order : list provider := [
  newLogger_fx; newDatabase_fx; NewTracing_fx; newRedis_fx; newEventRuntime_fx; NewRegistry_fx;
  newDictionaryProviderRuntime_fx; scheduler_New_fx; auth_NewRuntime_fx; grpc_NewServer_fx; http_NewServer_fx].
Definition hooks (cfg : Config) (l : list provider) : list provider := List.filter (λ p, p_hook p cfg) l.

Definition app_order : list provider := [
  newLogger_fx; NewTracing_fx; newDatabase_fx; NewTransactor_fx; newRedis_fx; newLocker_fx; idempotency_New_fx;
  NewRepository_fx; NewRuntimeService_fx; NewDictionaryProvider_fx; newTenantOutboxStore_fx; newEventRuntime_fx;
  NewMetrics_fx; NewRegistry_fx; identityclient_New_fx; authorization_New_fx; newDictionaryProviderRuntime_fx;
  scheduler_New_fx; auth_NewRuntime_fx; health_New_fx; ratelimit_New_fx; NewHandler_fx; grpc_NewServer_fx;
  http_NewServer_fx].

Lemma app_fits : fits app_supplied app_providers app_invokes app_order.
Proof.
  split.
  - unfold app_order, app_providers. simpl. do 18 (apply Permutation_skip).
    change ([?a; ?b; ?c; ?d; ?e; ?f]) with ([a; b; c; d] ++ e :: [f]). by rewrite <- Permutation_middle.
  - by vm_compute.
  - by apply (bool_decide_unpack _); vm_compute.
  - by apply (bool_decide_unpack _); vm_compute.
  - by apply (bool_decide_unpack _); vm_compute.
Qed.

Lemma hook_order_chain : chain app_providers app_invokes hook_order.
Proof. repeat split; apply (bool_decide_unpack _); by vm_compute. Qed.

(** ** The properties of the wiring *)

Lemma hooked cfg p : p ∈ hook_order ∧ p_hook p cfg = true ↔ p ∈ app_providers ∧ p_hook p cfg = true.
Proof.
  split; intros [Hp Hh]; (split; [|done]).
  - unfold hook_order in Hp. rewrite !elem_of_cons, elem_of_nil in Hp.
    unfold app_providers. simpl. rewrite !elem_of_cons. tauto.
  - unfold app_providers in Hp. simpl in Hp. rewrite !elem_of_cons, elem_of_nil in Hp.
    unfold hook_order. rewrite !elem_of_cons.
    destruct_or! Hp; subst p; try (simpl in Hh; discriminate); tauto.
Qed.

(** Migrations are invoked with the logger. *)
Definition migration_takes : list string := ["config.Config"; "*slog.Logger"].

Lemma before_migration tr c over :
  sound app_supplied app_providers app_invokes tr c over → migration_takes ∈ todo c → built c ⊆ [newLogger_fx].
Proof.
  intros Hs Hin p Hp. assert (length over ≤ 1) as Hover.
  { pose proof (sound_invokes _ _ _ _ _ _ Hs) as Hinv. destruct over as [|x [|y over]]; simpl; try lia.
    exfalso. change app_invokes with (["*slog.Logger"] :: migration_takes :: drop 2 app_invokes) in Hinv.
    injection Hinv as _ _ Hinv. assert (migration_takes ∈ over ++ todo c) as Hrest by (by apply elem_of_app; right).
    rewrite <- Hinv in Hrest. revert Hrest. apply (bool_decide_unpack _). by vm_compute. }
  pose proof (sound_stage _ _ _ _ _ _ Hs p Hp) as Hst.
  assert (Forall (λ p, stage app_providers app_invokes (p_gives p) ≤ 1 → p_gives p = p_gives newLogger_fx) app_providers)
    as Hall by (apply (bool_decide_unpack _); by vm_compute).
  pose proof (sound_providers _ _ _ _ _ _ Hs p Hp) as Hpp.
  assert (p = newLogger_fx) as ->; [|by left].
  apply (gives_unique _ _ _ _ app_fits); [done|by left|]. apply (proj1 (Forall_forall _ _) Hall p Hpp). lia.
Qed.

(** (C21) The application is put together without gaps and in one order. Whatever the container
    does first: it is never stuck on a type that nothing gives or on a cycle, it ends, and then
    every constructor has run exactly once, after those that give its arguments. Nothing but the
    logger exists while migrations run. The hooks are appended in one order, whatever the
    configuration enables: logs, database, tracing, Redis, publisher, clients, registration,
    scheduler, keys, gRPC, HTTP. So the hooks of the servers come last, those of the publisher
    after those of the database, and those of the registration before those of the gRPC server. *)
Theorem wiring_sound tr c : app_reached tr c →
  (todo c ≠ [] → ∃ x c', app_step c x c') ∧
  length tr ≤ 34 ∧
  (todo c = [] → built c ≡ₚ app_providers) ∧
  (∀ p q l1 l2, built c = l1 ++ q :: l2 → p ∈ app_providers → p_gives p ∈ p_takes q → p ∈ l1) ∧
  (migration_takes ∈ todo c → built c ⊆ [newLogger_fx]) ∧
  ∀ cfg, hooks cfg (built c) `prefix_of` hooks cfg hook_order.
Proof.
  intros [over Hs]%(reached_sound _ _ _ app_order app_fits). split_and!.
  - by eapply sound_progress; [apply app_fits|].
  - by eapply (sound_bound _ _ _ _ app_fits).
  - by eapply sound_complete; [apply app_fits|].
  - intros p q l1 l2 Hl Hp Hpq. eapply sound_precedes; [apply app_fits|done..|]. left. by apply needed_self.
  - by eapply before_migration.
  - intros cfg. eapply (sound_prefix _ _ _ _ app_fits); [done|apply chain_filter, hook_order_chain| |].
    + unfold hooks. apply NoDup_ListNoDup, List.NoDup_filter, NoDup_ListNoDup.
      apply (NoDup_fmap_1 p_gives). apply (bool_decide_unpack _). by vm_compute.
    + intros p. unfold hooks. rewrite elem_of_filter_bool, (and_comm (_ = true)). apply hooked.
Qed.
