(* ===== verification/Examples.v ===== *)
(** * A concrete deployment

    A platform, an environment and a small history of requests, on which the
    properties are instantiated: their hypotheses hold together, and the
    conclusions are about states the service really reaches. *)

From Stdlib Require Import Ascii.
From stdpp Require Import base gmap list strings.
From S2P Require Import Prelude GoErrors Model Store Effects Platform Authorization Service.
From S2P Require Import Repository Tables Invariants Dictionary Requests Reads Paths Trees Concurrency.

(** ** Platform *)

#[export] Instance demo_unicode : UnicodeTables := {|
  unicode_to_lower := λ s, s; unicode_to_upper := λ s, s |}.
#[export] Instance demo_codes : ErrorCodes := {|
  CodeOK := 0; CodeInvalidArgument := 10001; CodeNotFound := 10004; CodeRequestTimeout := 10005;
  CodeTooManyRequests := 10006; CodeUnauthorized := 20001; CodeForbidden := 20003;
  CodeConflict := 30009; CodeRequestInProgress := 30010; CodeStaleVersion := 30011;
  CodeInternal := 50000; CodeDependencyUnavailable := 50003 |}.
#[export] Instance demo_sql : SqlDialect := {|
  sql_lower := map_bytes lower_byte; collate_le := String.leb |}.

Definition demo_audit (ctx : Context) (t : Z) : result AuditFields :=
  match ctx_principal ctx with
  | Ok p => Ok (Build_AuditFields 1 t t (Principal_ID p) (Principal_ID p))
  | Err e => Err e
  end.
Definition demo_updated (ctx : Context) (t : Z) : result (string * Z) :=
  match ctx_principal ctx with Ok p => Ok (Principal_ID p, t) | Err e => Err e end.

Definition demo_tenant_status (name : string) : Z :=
  (if name =?s "TENANT_STATUS_PENDING" then 1 else if name =?s "TENANT_STATUS_ACTIVE" then 2
   else if name =?s "TENANT_STATUS_SUSPENDED" then 3 else if name =?s "TENANT_STATUS_CLOSING" then 4
   else if name =?s "TENANT_STATUS_CLOSED" then 5 else 0)%Z.
Definition demo_membership_status (name : string) : Z :=
  (if name =?s "MEMBERSHIP_STATUS_INVITED" then 1 else if name =?s "MEMBERSHIP_STATUS_ACTIVE" then 2
   else if name =?s "MEMBERSHIP_STATUS_DISABLED" then 3
   else if name =?s "MEMBERSHIP_STATUS_REMOVED" then 4 else 0)%Z.

#[export] Instance demo : Platform := {|
  audit_New := demo_audit;
  audit_UpdatedBy := demo_updated;
  principal_type_string := λ t, match t with
    | TypeUser => "user" | TypeServiceAccount => "service_account" | TypeSystem => "system"
    | TypeOther name => name end;
  sha256_hex := λ s, "sha256:" +:+ s;
  mail_ParseAddress := λ s, Ok s;
  TenantStatus_value := demo_tenant_status;
  MembershipStatus_value := demo_membership_status;
  MEMBERSHIP_STATUS_ACTIVE := 2;
  marshal_envelope := λ md _, Ok (Metadata_EventType md);
  unmarshal_createResult := λ _, Ok (Build_createResult Tenant0 Membership0) |}.

#[export] Instance demo_laws : AuditLaws.
Proof.
  split; simpl; unfold demo_audit, demo_updated.
  - intros ctx t f Hf. destruct (ctx_principal ctx); by simplify_eq.
  - intros ctx t f Hf. destruct (ctx_principal ctx) as [p|]; simplify_eq. eauto.
  - intros ctx t actor t' Hf. destruct (ctx_principal ctx) as [p|]; simplify_eq. eauto.
Qed.

(** ** Environments and callers *)

(** The [n]-th identifier, with [n + 1] in binary. *)
Fixpoint bits (p : positive) : string :=
  match p with
  | xH => "1"
  | xO p' => String "0" (bits p')
  | xI p' => String "1" (bits p')
  end.
Definition uid (n : nat) : string := "id-" +:+ bits (Pos.of_succ_nat n).

(** The clock ticks in seconds, identifiers are numbered, nothing fails. *)
Definition steady : Env := {|
  env_now := λ n, (Z.of_nat n * second)%Z;
  env_uuid := uid;
  env_rand := λ _, Ok "0123456789abcdef0123456789abcdef";
  env_fault := λ _, None;
  env_commit := λ _, None;
  env_lock := λ _, None;
  env_unlock := λ _, None; env_reached := λ _, false; env_expired := λ _ _, false;
  env_begin := λ _, Ok (Build_Decision StateCompleted "" "" (Build_Failure 0 "" 0)) |}.

Definition admin : Principal := Build_Principal "svc" TypeServiceAccount "" "".
Definition admin_ctx : Context := Build_Context (Ok admin) false None.
Definition user (id tenant : string) : Context :=
  Build_Context (Ok (Build_Principal id TypeUser tenant "")) false None.

Definition svc : Service := Build_Service true true (Some true).

Definition initial : World := Build_World 0 empty_db ∅.

(** A tenant with two levels of units, a group, a quota and an open invitation. *)
Definition acme : string := uid 1.
Definition hq : string := uid 11.
Definition dev : string := uid 19.
Definition ops : string := uid 28.
Definition history : list (Context * Request) := [
  (admin_ctx, ReqCreate "Acme" "Acme Inc" "alice");
  (admin_ctx, ReqCreateOrganizationUnit acme "" "hq" "Headquarters");
  (admin_ctx, ReqCreateOrganizationUnit acme hq "dev" "Development");
  (admin_ctx, ReqCreateOrganizationUnit acme hq "ops" "Operations");
  (admin_ctx, ReqUpdateMembership (uid 2) "active" hq 1);
  (admin_ctx, ReqSetQuota acme "seats" 10 0);
  (admin_ctx, ReqCreateInvitation acme "bob@example.com" (3600 * second));
  (admin_ctx, ReqCreateGroup acme "eng" "Engineering")
].
Definition after_history : World := run_all steady svc history initial.

(** ** The states of a history satisfy the invariants *)

Lemma plain_app s t :
  plain s = true → forallb plain_byte (String.list_ascii_of_string t) = true → plain (s +:+ t) = true.
Proof.
  unfold plain. rewrite list_ascii_app, forallb_app. intros [Hn Hs]%andb_prop Ht.
  rewrite Hs, Ht. by destruct s.
Qed.

Lemma uid_plain n : plain (uid n) = true.
Proof. apply plain_app; [done|]. induction (Pos.of_succ_nat n); simpl; auto. Qed.

Lemma history_inv rs w : inv (w_db w) → inv (w_db (run_all steady svc rs w)).
Proof.
  revert w. induction rs as [|[ctx r] rs IH]; intros w Hw; [done|]. simpl. by apply IH, run_keeps_inv.
Qed.

Lemma initial_inv : inv (w_db initial).
Proof. apply inv_empty. Qed.
Lemma initial_tree : tree_ok (w_db initial).
Proof. unfold tree_ok, path_ok. simpl. apply map_Forall_empty. Qed.

Lemma after_history_inv : inv (w_db after_history).
Proof. apply history_inv, initial_inv. Qed.
Lemma after_history_tree : tree_ok (w_db after_history).
Proof. apply run_all_tree; [apply uid_plain|apply initial_inv|apply initial_tree]. Qed.

(** ** One call of a pool *)

Definition next {A} (env : Env) (i : nat) (c : list (prog A) * World) : option (list (prog A) * World) :=
  match fst c !! i with
  | Some p => match step env p (snd c) with
              | Some (p', w') => Some (<[i := p']> (fst c), w')
              | None => None
              end
  | None => None
  end.

(** The pool after the call, or as it is when there is none. *)
Definition call {A} (env : Env) (i : nat) (c : list (prog A) * World) : list (prog A) * World :=
  default c (next env i c).

Lemma call_step {A} env i (c : list (prog A) * World) :
  match next env i c with Some _ => true | None => false end = true →
  pool_step env (fst c, snd c) (fst (call env i c), snd (call env i c)).
Proof.
  unfold call, next. destruct c as [ps w]. simpl. destruct (ps !! i) as [p|] eqn:Hp; [|done].
  destruct (step env p w) as [[p' w']|] eqn:Hs; [|done]. intros _. by eapply pool_step_at.
Qed.

Lemma schedule_steps {A} env sched (ps : list (prog A)) w :
  pool_steps env (ps, w)
    (fst (run_schedule env sched ps w), snd (run_schedule env sched ps w)).
Proof. rewrite <- surjective_pairing. apply run_schedule_steps. Qed.

(** Two consumptions of the same quota and a creation of a tenant, interleaved. *)
Definition rivals : list (Context * Request) := [
  (admin_ctx, ReqConsumeQuota acme "seats" 6);
  (user "carol" acme, ReqConsumeQuota acme "seats" 6);
  (admin_ctx, ReqCreate "Beta" "Beta Ltd" "dave")
].
Definition rival_pool : list (prog Response) := pool svc rivals.
