(* ===== verification/HttpExamples.v ===== *)
(** * The deployment of [Examples] behind its servers

    A production configuration, a printer and a reader of JSON texts, an HTTP and a gRPC server
    with a few requests, and the files, addresses and network around them. *)

From Stdlib Require Import Ascii SpecFloat.
From stdpp Require Import base gmap list strings pretty.
From S2P Require Import Floats Config ConfigProofs.
From S2P Require Import Prelude GoErrors Model Store Effects Platform Authorization Service Authn.
From S2P Require Import Grpc Outbound GrpcServer.
From S2P Require Import Directory Json HttpBodies HttpRequests Http Middleware Health Router Outbound OutboundProofs.
From S2P Require Import Examples.

(** ** JSON texts *)

Definition quotation : string := String (ascii_of_nat 34) "".
Fixpoint demo_print (j : json) : string :=
  match j with
  | JNull => "null"
  | JBool b => if b then "true" else "false"
  | JInt z => pretty z
  | JFrac t => t
  | JString s => quotation +:+ s +:+ quotation
  | JArray l => "[" +:+ String.concat "," (map demo_print l) +:+ "]"
  | JObject o =>
      "{" +:+ String.concat "," (map (λ '(k, v), quotation +:+ k +:+ quotation +:+ ":" +:+ demo_print v) o)
      +:+ "}"
  end.

(** The bodies the requests below send, and a response. *)
Definition create_beta : json := JObject [
  ("code", JString "beta"); ("name", JString "Beta Ltd"); ("owner_user_id", JString "dave")].
Definition select_acme : json := JObject [("tenant_id", JString acme)].
Definition list_all : json := JObject [("page", JInt 1); ("page_size", JInt 20)].
Definition granted : HttpResponse :=
  Build_HttpResponse 0 "success" (JObject [("allowed", JBool true); ("used", JInt 6)]) "req-1".
Definition demo_texts : list json := [
  create_beta; select_acme; list_all; response_json granted; response_json (with_RequestID granted "")].

Definition demo_read (s : string) : result json :=
  match List.find (λ j, demo_print j =?s s) demo_texts with
  | Some j => Ok j
  | None => Err (TextError "invalid character")
  end.

#[export] Instance demo_json : JsonText := {|
  json_Decode := demo_read; json_Unmarshal := demo_read; json_Marshal := demo_print;
  json_Time := pretty; Duration_String := pretty; any_number := λ z, z; any_fraction := λ t, t |}.

#[export] Instance demo_machine : FloatMachine := {| int64_out_of_range := λ _, min_int64 |}.
#[export] Instance demo_jwt : JwtLibrary := {|
  jwt_ParseWithClaims := λ _ _ _, Err (TextError "token is malformed") |}.

(** ** Configuration *)

Definition secret : string := "0123456789abcdef0123456789abcdef".
Definition demo_retry : Retry := Build_Retry 3 (100 * millisecond) second ["/platform.authz.v1.Authorization/*"].
Definition authorization_upstream : GRPCUpstream :=
  Build_GRPCUpstream "authorization:9090" (3 * second) (Build_ClientAuth "bearer" "s3cret") demo_retry
    (Build_Breaker true 5 (30 * second)) (Build_ClientTLS true "authorization" "" "" "") false.
Definition demo_rule : RateLimitRule := Build_RateLimitRule 120 30 (60 * second).

Definition demo_config : Config := {|
  Config_Runtime := Build_Runtime "production" ["config.yaml"];
  Config_App := Build_App "tenant-service" "" "production" (10 * second);
  Config_HTTP := Build_HTTP "0.0.0.0:8080" 0 0 0 (10 * second) (Z.shiftl 1 20) []
    (Build_CORS false [] [] [] (12 * hour));
  Config_GRPC := Build_GRPC true "0.0.0.0:9090" false (Z.shiftl 16 20)
    (Build_GRPCTLS true "cert.pem" "key.pem" "");
  Config_Log := Build_Log "info" "json" "logs/app.log" 100 10 30 true;
  Config_Database := Build_Database true "platform" "tenant" "postgres" "postgres://db/platform"
    25 10 (300 * second) (60 * second) (5 * second);
  Config_Redis := Build_Redis true "redis:6379" "" "" 0 (5 * second) (3 * second) (3 * second);
  Config_Health := Build_Health (2 * second) (2 * second);
  Config_RateLimit := Build_RateLimit false false demo_rule demo_rule demo_rule demo_rule;
  Config_Observability := Build_Observability true false "" tenth false "";
  Config_Swagger := Build_Swagger false false;
  Config_JWT := Build_JWT "tenant-service" "" (2 * hour);
  Config_Auth := Build_Auth "https://identity/jwks.json" "identity-service" "tenant-service" "" ""
    ["/api/v1/version"] ["/grpc.health.v1.Health/*"] (Build_PSK false "" [] []);
  Config_Authorization := Build_Authorization true;
  Config_Cron := Build_Cron true "Asia/Shanghai" "0 */5 * * * *";
  Config_Migration := Build_Migration false false "migrations/postgres" "" "tenant_schema_migrations"
    "tenant" "platform";
  Config_User := Config.Build_User (300 * second) (10 * second) (100 * millisecond);
  Config_Idempotency := Build_Idempotency true ["/api/v1/tenants/create"] [] (30 * second)
    (24 * hour) (300 * second);
  Config_Outbound := Build_Outbound ∅ {[ "authorization" := authorization_upstream ]};
  Config_EventBus := Build_EventBus false [] "PLATFORM_EVENTS" "file" (168 * hour) (600 * second)
    (5 * second) (5 * second) second 100 (30 * second) (5 * second) (168 * hour) hour 1000;
  Config_DictionaryProvider := Build_DictionaryProvider false "" "" 0 0 0 0 0 |}.

(** Patterns without wildcards, and all of a directory. *)
Definition demo_match (pattern name : string) : result bool := Ok (pattern =?s name).

(** ** Server *)

Definition demo_verify (token : string) : result Principal :=
  if token =?s "admin-token" then Ok admin
  else if token =?s "root-token" then Ok (Build_Principal "root" TypeUser "" "session-0")
  else if token =?s "alice-token" then Ok (Build_Principal "alice" TypeUser "" "session-1")
  else Err (TextError "token has invalid signature").

Definition demo_handler : Handler :=
  Build_Handler svc (λ _ _ _ _, Ok ("tenant-token", hour)) None.
Definition demo_server (allow : bool) : Server :=
  Build_Server demo_config demo_handler (Build_BuildVars "1.0.0" "unknown" "unknown" 0)
    (NewLimiter None demo_config)
    (Build_AuthService "tenant-service" "" "" "" (Some demo_verify))
    (λ _ _ _, if allow then None else Some (Sentinel ErrNotFound))
    (health_New (Some (λ _, None)) (Some (λ _, None)) demo_config true)
    (λ _ _, Build_HttpReply 200 ∅ None).

Definition demo_request (path token key : string) (body : json) : Gin := {|
  c_Method := "POST"; c_FullPath := path;
  c_Header := λ name,
    if name =?s "Authorization" then "Bearer " +:+ token
    else if name =?s "X-Request-ID" then "req-1"
    else if name =?s "Idempotency-Key" then key
    else if name =?s "Content-Type" then "application/json" else "";
  c_ContentLength := 100; c_Body := Ok (demo_print body); c_ClientIP := "192.0.2.1"; c_TLS := true;
  c_subject := None; c_request_id := ""; c_credential := None;
  c_ctx := Build_Context (Err (Sentinel ErrNotFound)) false None |}.

Definition serve_demo (allow : bool) : Chain :=
  ServeHTTP demo_match (λ s, Ok s) (λ _, true) (demo_server allow).
Definition create_request : Gin :=
  demo_request "/api/v1/tenants/manage/create" "admin-token" "" create_beta.
Definition select_request : Gin :=
  demo_request "/api/v1/tenants/select" "alice-token" "" select_acme.
Definition requests_demo : list Gin := [select_request; create_request].

(** ** gRPC *)

#[export] Instance demo_files : TlsFiles := {|
  os_ReadFile := λ file, Ok ("contents of " +:+ file);
  AppendCertsFromPEM := λ _, true;
  Certificate := string;
  LoadX509KeyPair := λ cert key, Ok (cert +:+ key) |}.

#[export] Instance demo_methods : MethodNames := {|
  TenantService_FullMethodName := λ name, "/platform.tenant.v1.TenantService/" +:+ name;
  DictionaryProviderService_FullMethodName := λ name,
    "/platform.dictionary.v1.DictionaryProviderService/" +:+ name |}.

(** An authorizer that allows two bearers everything, and no idempotency store. *)
#[export] Instance demo_interceptors : PlatformInterceptors := {|
  authz_UnaryServerInterceptor := λ resolver ctx md method,
    match resolver method with
    | None => None
    | Some _ =>
        if bool_decide (md_authorization md ∈ [["Bearer admin-token"]; ["Bearer root-token"]]) then None
        else Some (StatusError Grpc.codes_Internal "permission denied")
    end;
  idempotency_State := unit;
  idempotency_Before := λ _ _ _ _, Ret (inr tt);
  idempotency_After := λ _ _, Ret tt |}.

Definition demo_grpc_server : GrpcServer.Server := {|
  gs_cfg := demo_config;
  gs_auth := server_auth (demo_server true);
  gs_tenants := Build_TenantServer svc None;
  gs_credentials := Some (Build_ServerTls _ ["cert.pem"] None) |}.
Definition demo_call (token : string) (r : GrpcRequest) : GrpcCall := {|
  g_ctx := Build_Context (Err (Sentinel ErrNotFound)) false None;
  g_md := Build_Incoming ["Bearer " +:+ token] ["req-2"] [];
  g_request := r |}.

(** ** The world outside *)

#[export] Instance demo_viper : ViperLibrary := {|
  Viper := list (string * setting);
  viper_New := [];
  viper_SetConfigFile := λ _ v, v;
  viper_AutomaticEnv := λ _ v, v;
  viper_BindEnv := λ _ _ v, Ok v;
  viper_SetDefault := λ key value v, (key, value) :: v;
  viper_Set := λ key value v, (key, value) :: v;
  viper_GetString := λ v key,
    match List.find (λ '(k, _), k =?s key) v with Some (_, SString s) => s | _ => "" end;
  viper_ReadInConfig := λ v, Ok (("app.env", SString "production") :: v);
  viper_MergeInConfig := λ v, Ok v;
  viper_Unmarshal := λ _ _, Ok demo_config;
  viper_ConfigFileNotFound := λ _, false;
  os_Stat := λ path, if path =?s "config-production.yaml" then FileExists else FileNotExist |}.

(** Addresses "scheme://host/path" and paths "/path". *)
Record demo_url := Build_demo_url { url_scheme : string; url_host : string; url_path : string }.
Fixpoint split_host (s : string) : string * string :=
  match s with
  | EmptyString => ("", "")
  | String a s' =>
      if Ascii.eqb a "/" then ("", s) else let '(host, path) := split_host s' in (String a host, path)
  end.
Definition parse_url (s : string) : result demo_url :=
  if HasPrefix s "http://" then
    let '(host, path) := split_host (String.substring 7 (String.length s) s) in
    Ok (Build_demo_url "http" host path)
  else if HasPrefix s "https://" then
    let '(host, path) := split_host (String.substring 8 (String.length s) s) in
    Ok (Build_demo_url "https" host path)
  else Ok (Build_demo_url "" "" s).

#[export] Instance demo_urls : UrlLibrary := {|
  URL := demo_url;
  url_Parse := parse_url;
  url_Scheme := url_scheme;
  url_Host := url_host;
  ResolveReference := λ base ref, Build_demo_url (url_scheme base) (url_host base) (url_path ref);
  url_String := λ u, url_scheme u +:+ "://" +:+ url_host u +:+ url_path u;
  http_NewRequest := λ _ _, None |}.

(** Every HTTP request is answered by 503, every call fails as unavailable. *)
Definition overloaded : Network := {|
  net_send := λ _ _, (Some (Build_Response 503 ""), None);
  net_invoke := λ _ _ _, Some (TextError "unavailable");
  net_wait := λ _ _, None;
  net_admit := λ _, None |}.

(** An upstream that asks for TLS, at an address without it. *)
Definition billing : HTTPUpstream :=
  Build_HTTPUpstream "http://billing.internal" (3 * second) (Build_ClientAuth "bearer" "s3cret") demo_retry
    (Build_Breaker false 0 0) (Build_ClientTLS true "" "" "" "").
Definition with_Outbound (o : Outbound) (c : Config) : Config :=
  Build_Config (Config_Runtime c) (Config_App c) (Config_HTTP c) (Config_GRPC c) (Config_Log c)
    (Config_Database c) (Config_Redis c) (Config_Health c) (Config_RateLimit c)
    (Config_Observability c) (Config_Swagger c) (Config_JWT c) (Config_Auth c)
    (Config_Authorization c) (Config_Cron c) (Config_Migration c) (Config_User c)
    (Config_Idempotency c) o (Config_EventBus c) (Config_DictionaryProvider c).
Definition billing_config : Config :=
  with_Outbound (Build_Outbound {[ "billing" := billing ]} {[ "authorization" := authorization_upstream ]})
    demo_config.
Definition sampled_nowhere : Observability :=
  Build_Observability true false "" S754_nan false "".
Definition with_Observability (o : Observability) (c : Config) : Config :=
  Build_Config (Config_Runtime c) (Config_App c) (Config_HTTP c) (Config_GRPC c) (Config_Log c)
    (Config_Database c) (Config_Redis c) (Config_Health c) (Config_RateLimit c)
    o (Config_Swagger c) (Config_JWT c) (Config_Auth c)
    (Config_Authorization c) (Config_Cron c) (Config_Migration c) (Config_User c)
    (Config_Idempotency c) (Config_Outbound c) (Config_EventBus c) (Config_DictionaryProvider c).
