(* ===== verification/RuntimeExamples.v ===== *)
(** * A process for the deployment of the examples

    A URL library with a host, a path and a query, a JWT library, drivers, and an outside that
    answers every call with success: what the start-up and the migrations of the demo
    deployment run in. *)

From Stdlib Require Import Ascii.
From stdpp Require Import base gmap sets list strings.
From S2P Require Import Floats Config ConfigProofs.
From S2P Require Import Prelude GoErrors Model Store Effects Platform Outbound System Urls.
From S2P Require Import Grpc Migration MigrationProofs Resources Middleware LocalTokens GrpcProofs.
From S2P Require Import EventRuntime Examples HttpExamples.

Local Notation bytes := String.list_ascii_of_string.
Local Notation text := String.string_of_list_ascii.

(** ** URLs of databases: "postgres://host/path?query" *)

Record db_url := Build_db_url { db_host : list ascii; db_path : list ascii; db_query : list ascii }.

(** The query follows the last question mark, the path begins at the first slash. *)
Definition split_query (l : list ascii) : list ascii * list ascii :=
  if bool_decide ("?"%char ∈ l)
  then let '(q, rest) := cut_on "?" (rev l) in (rev rest, rev q) else (l, []).
Definition split_path (l : list ascii) : list ascii * list ascii :=
  if bool_decide ("/"%char ∈ l) then let '(host, path) := cut_on "/" l in (host, "/"%char :: path) else (l, []).

Definition parse_db_url (s : string) : result db_url :=
  if HasPrefix s "postgres://" then
    let '(rest, query) := split_query (bytes (TrimPrefix s "postgres://")) in
    let '(host, path) := split_path rest in Ok (Build_db_url host path query)
  else Err (TextError "unsupported scheme").
Definition print_db_url (u : db_url) : string :=
  "postgres://" +:+ text (db_host u ++ db_path u ++ "?"%char :: db_query u).

Definition database_urls : UrlLibrary := {|
  URL := db_url;
  url_Parse := parse_db_url;
  url_Scheme := λ _, "postgres";
  url_Host := λ u, text (db_host u);
  ResolveReference := λ _ ref, ref;
  url_String := print_db_url;
  http_NewRequest := λ _ _, None |}.

Definition database_fields : @UrlFields database_urls := {|
  url_Path := λ u : @URL database_urls, text (db_path u);
  url_RawQuery := λ u, text (db_query u);
  with_Path := λ p u, Build_db_url (db_host u) (bytes p) (db_query u);
  with_RawQuery := λ q u, Build_db_url (db_host u) (db_path u) (bytes q) |}.

Lemma rev_notin (a : ascii) l : a ∉ l → Forall (λ x, x ≠ a) (rev l).
Proof. intros Hn. apply Forall_forall. intros x Hx ->. apply Hn, list_elem_of_In, in_rev, list_elem_of_In, Hx. Qed.

Lemma split_query_app l q : "?"%char ∉ q → split_query (l ++ "?"%char :: q) = (l, q).
Proof.
  intros Hq. unfold split_query. rewrite bool_decide_eq_true_2 by set_solver.
  rewrite rev_app_distr. simpl. rewrite <- app_assoc. simpl.
  rewrite cut_on_app by by apply rev_notin. by rewrite !rev_involutive.
Qed.

(** A host has no slash, a path is empty or begins with one. *)
Definition well_split (u : db_url) : Prop :=
  "/"%char ∉ db_host u ∧ (db_path u = [] ∨ ∃ p, db_path u = "/"%char :: p).

Lemma split_path_app host path :
  "/"%char ∉ host → (path = [] ∨ ∃ p, path = "/"%char :: p) → split_path (host ++ path) = (host, path).
Proof.
  intros Hh [->|[p ->]]; unfold split_path.
  - rewrite app_nil_r. by rewrite bool_decide_eq_false_2.
  - rewrite bool_decide_eq_true_2 by set_solver. rewrite cut_on_app; [done|].
    apply Forall_forall. by intros x Hx ->.
Qed.

Lemma split_path_inv l : let '(host, path) := split_path l in "/"%char ∉ host ∧ (path = [] ∨ ∃ p, path = "/"%char :: p).
Proof.
  unfold split_path. case_bool_decide as Hin; [|by split; [|left]].
  destruct (cut_on "/" l) as [host path] eqn:Hc. apply cut_on_inv in Hc as [Hh _].
  split; [done|]. right. by exists path.
Qed.

Lemma parse_print u : well_split u → "?"%char ∉ db_query u → parse_db_url (print_db_url u) = Ok u.
Proof.
  intros [Hh Hp] Hq. unfold parse_db_url, print_db_url, HasPrefix. rewrite prefix_app, trim_prefix_app.
  rewrite String.list_ascii_of_string_of_list_ascii, app_assoc, split_query_app by done.
  rewrite split_path_app by done. by destruct u.
Qed.

Lemma parse_split s u : parse_db_url s = Ok u → well_split u.
Proof.
  unfold parse_db_url. destruct (HasPrefix s "postgres://"); [|done].
  destruct (split_query _) as [rest query]. pose proof (split_path_inv rest) as Hs.
  destruct (split_path rest) as [host path]. intros [= <-]. exact Hs.
Qed.

Lemma query_bytes_no_mark l : Forall (λ a, query_byte a = true) l → "?"%char ∉ l.
Proof. intros Hl Hin. by eapply Forall_forall in Hin; [|exact Hl]. Qed.

#[export] Instance database_laws : @UrlLaws database_urls database_fields.
Proof.
  split. intros s u name q Hu _ Hq%query_bytes_no_mark. destruct (parse_split s u Hu) as [Hh Hp].
  split; eexists; (split; [apply parse_print; [split; [done|]|done]|]); simpl;
    rewrite ?String.string_of_list_ascii_of_string; eauto.
Qed.

(** ** Signed tokens: the secret, the issuer and the subject *)

Definition jwt_demo : JwtLibrary := {|
  jwt_ParseWithClaims := λ key issuer raw,
    match key "HS256" with
    | Ok secret =>
        let prefix := secret +:+ "." +:+ issuer +:+ "." in
        if HasPrefix raw prefix then Ok (TrimPrefix raw prefix, true)
        else Err (TextError "token has invalid signature")
    | Err err => Err err
    end |}.
Definition jwt_signing : @JwtSigning jwt_demo := {|
  jwt_SignedString := λ method claims secret,
    if method =?s "HS256" then Ok ((secret +:+ "." +:+ Claims_Issuer claims +:+ ".") +:+ Claims_Subject claims)
    else Err (TextError "signing method is unavailable");
  jwt_now := 0%Z |}.

#[export] Instance jwt_laws : @JwtLaws jwt_demo jwt_signing.
Proof.
  split. intros key issuer method claims secret raw. simpl. destruct (String.eqb_spec method "HS256"); [|done].
  subst method. intros [= <-] -> -> _ _ _. unfold HasPrefix. by rewrite prefix_app, trim_prefix_app.
Qed.

(** ** The outside *)

#[export] Instance demo_drivers : Drivers := {|
  pgx_ParseConfig := λ dsn, Ok (Build_PgxConfig "" ∅ dsn);
  mysql_ParseDSN := λ dsn, Ok (Build_MySQLConfig "" false "" dsn);
  FormatDSN := MySQL_rest;
  LoadLocation := λ _, None |}.

(** Every call succeeds. *)
Definition succeeds {X} (c : System.call X) : X :=
  match c in System.call X return X with
  | MkdirAll _ | CloseRotator _ | PingDB _ _ | CloseDB _ | ExecTx _ _ _ | CommitTx _ | RollbackTx _
  | PingRedis _ | InstrumentTracing _ | CloseRedis _ | ShutdownTracing _ | MigrateSteps _ _
  | MigrateDown _ | MigrateUp _ | CloseConn _ | NewDispatcher _ _ _ _ | NewRetentionCleaner _ _
  | CloseBus _ | ShutdownHTTP _ | GracefulStop _ => None
  | SetPool _ _ _ _ _ | SetTracerProvider _ _ _ _ | CloseIdleConnections _ | CloseVerifier _
  | ServeOn _ | StopServer => tt
  | MigrateClose _ => (None, None)
  end.
Definition outside : SysEnv := {| env_open := λ _ _, None; env_call := λ X _ c, succeeds c |}.
Definition started : Process := Build_Process 0 ∅ [].

(** ** Migrations, the publisher and the database of the demo *)

Definition demo_migration : Config.Migration :=
  Build_Migration false true "migrations/postgres" "postgres://db:5432/old?sslmode=require"
    "tenant_schema_migrations" "tenant" "platform".
Definition migrated : option goerr * Process :=
  run_sys outside (@Run database_urls database_fields (Ok "/srv") demo_migration "up" 0) started.

Definition publishing : EventBus :=
  Build_EventBus true ["nats://bus:4222"] "PLATFORM_EVENTS" "file" (168 * hour) (600 * second)
    (5 * second) (5 * second) second 100 (30 * second) (5 * second) (168 * hour) hour 1000.
Definition publisher_config : Config :=
  let c := demo_config in
  Build_Config (Config_Runtime c) (Config_App c) (Config_HTTP c) (Config_GRPC c) (Config_Log c)
    (Config_Database c) (Config_Redis c) (Config_Health c) (Config_RateLimit c)
    (Config_Observability c) (Config_Swagger c) (Config_JWT c) (Config_Auth c)
    (Config_Authorization c) (Config_Cron c) (Config_Migration c) (Config_User c)
    (Config_Idempotency c) (Config_Outbound c) publishing (Config_DictionaryProvider c).
Definition published : EventRuntime * bool * option goerr * Process :=
  run_sys outside (start publisher_config true newEventRuntime) started.

(** The loops stop between two rounds. *)
Definition shutdown : list EventRuntime.action :=
  [Round_ends true; Tick true; Stop_called; Round_ends true; Round_ends false; Done_seen false; Done_seen true;
   Loops_returned; Bus_closes].
