(* ===== verification/Witnesses.v ===== *)
(** * The properties at concrete inputs

    Every property with hypotheses, applied to the deployment and the histories of
    [Examples]: the hypotheses hold together, and the states are reached by running
    the service. *)

From stdpp Require Import base gmap list strings.
From S2P Require Import Sql SqlText SqlProofs SqlWrites.
From S2P Require Import Prelude GoErrors Model Store Effects Platform Authorization Service.
From S2P Require Import Repository Tables Invariants Commits Dictionary Tenants Organizations.
From S2P Require Import Invitations Groups Quotas Requests Reads Paths Trees Concurrency.
From S2P Require Import Floats Config.
From S2P Require Import Prelude DictionaryProofs Returns Outcomes Tokens Directory Grpc GrpcProofs Authn.
From S2P Require Import Locks.
From S2P Require Import Examples.

(** The rivals of [Examples] just before, and just after, the first consumption and
    the creation of the second tenant commit. *)
Definition consuming : list (prog Response) * World :=
  run_schedule steady [0; 2; 0; 2; 2; 2] rival_pool after_history.
Definition consumed : list (prog Response) * World := call steady 0 consuming.
Definition created : list (prog Response) * World := call steady 2 consuming.
Definition finished : list (prog Response) * World :=
  run_schedule steady [0; 2; 0; 2; 1; 0; 2; 1; 0; 2; 2; 2] rival_pool after_history.

Lemma consuming_steps :
  pool_steps steady (pool svc rivals, after_history) (fst consuming, snd consuming).
Proof. unfold consuming, rival_pool. apply schedule_steps. Qed.
Lemma finished_steps :
  pool_steps steady (pool svc rivals, after_history) (fst finished, snd finished).
Proof. unfold finished, rival_pool. apply schedule_steps. Qed.
Lemma consumed_step :
  pool_step steady (fst consuming, snd consuming) (fst consumed, snd consumed).
Proof. unfold consumed. apply (call_step steady 0 consuming). by vm_compute. Qed.
Lemma created_step :
  pool_step steady (fst consuming, snd consuming) (fst created, snd created).
Proof. unfold created. apply (call_step steady 2 consuming). by vm_compute. Qed.

Lemma service_preserves_invariant_witness :
  inv (w_db (snd finished)) ∧ length (tenant_outbox_events (w_db (snd finished))) = 10.
Proof.
  split; [|by vm_compute].
  apply (service_preserves_invariant svc rivals steady after_history (fst finished) (snd finished)).
  - exact after_history_inv.
  - exact finished_steps.
Defined.

Lemma outbox_is_transactional_witness :
  length (tenant_outbox_events (w_db (snd consuming))) = 8 ∧
  length (tenant_outbox_events (w_db (snd consumed))) = 9 ∧
  (w_db (snd consumed) = w_db (snd consuming) ∨
   ∃ e, tenant_outbox_events (w_db (snd consumed))
        = tenant_outbox_events (w_db (snd consuming)) ++ [Build_OutboxRow e 0 None ""]).
Proof.
  split_and!; [by vm_compute..|].
  apply (outbox_is_transactional svc rivals steady after_history (fst consuming) (snd consuming) (fst consumed) (snd consumed)).
  - exact after_history_inv.
  - exact consuming_steps.
  - exact consumed_step.
Defined.

Lemma tenant_isolation_witness :
  any_row (λ t, Tenant_Code t =?s "beta") (tenants (w_db (snd created))) = true ∧
  (w_db (snd created) = w_db (snd consuming) ∨
   ∃ i ctx r T, rivals !! i = Some (ctx, r) ∧ db_only T (w_db (snd consuming)) (w_db (snd created)) ∧
     authorised ctx T (w_db (snd consuming)) (w_db (snd created))).
Proof.
  split; [by vm_compute|].
  apply (tenant_isolation svc rivals steady after_history (fst consuming) (snd consuming) (fst created) (snd created)).
  - exact after_history_inv.
  - exact consuming_steps.
  - exact created_step.
Defined.

Lemma versions_identify_rows_witness :
  db_le (w_db after_history) (w_db (snd finished)).
Proof.
  apply (versions_identify_rows svc rivals steady after_history (fst finished) (snd finished)).
  - exact after_history_inv.
  - exact finished_steps.
Defined.

Lemma quota_limit_enforced_witness :
  ∃ q', tenant_quotas (w_db (snd consumed)) !! (acme, "seats") = Some q' ∧
  match tenant_quotas (w_db (snd consuming)) !! (acme, "seats") with
  | Some q => Quota_Used q' = Quota_Used q ∨
              (Quota_Limit q' = Quota_Limit q ∧ (Quota_Used q < Quota_Used q' ≤ Quota_Limit q')%Z)
  | None => Quota_Used q' = 0%Z
  end.
Proof.
  exists (default Quota0 (tenant_quotas (w_db (snd consumed)) !! (acme, "seats"))). split; [by vm_compute|].
  apply (quota_limit_enforced svc rivals steady after_history (fst consuming) (snd consuming) (fst consumed) (snd consumed)).
  - exact after_history_inv.
  - exact consuming_steps.
  - exact consumed_step.
  - by vm_compute.
Defined.

(** Two users race for one invitation. *)
Definition token : string := base64url_encode "0123456789abcdef0123456789abcdef".
Definition guests : list (Context * Request) := [
  (user "bob" "", ReqAcceptInvitation token "bob");
  (user "eve" "", ReqAcceptInvitation token "eve");
  (user "bob" acme, ReqListMemberships acme "" "active" 1 20)
].
Definition accepting : list (prog Response) * World :=
  run_schedule steady [2; 0; 1; 0; 0; 0; 0; 0; 2; 2] (pool svc guests) after_history.
Definition accepted : list (prog Response) * World := call steady 0 accepting.
Definition invitation_id : string := uid 55.

Lemma accepting_steps :
  pool_steps steady (pool svc guests, after_history) (fst accepting, snd accepting).
Proof. unfold accepting. apply schedule_steps. Qed.
Lemma accepted_step :
  pool_step steady (fst accepting, snd accepting) (fst accepted, snd accepted).
Proof. unfold accepted. apply (call_step steady 0 accepting). by vm_compute. Qed.

Definition invitation_at (c : list (prog Response) * World) : Invitation :=
  default Invitation0 (invitations (w_db (snd c)) !! invitation_id).

Lemma invitation_accepted_once_witness :
  Invitation_Status (invitation_at accepted) = "accepted" ∧
  Invitation_Status (invitation_at accepting) = "pending" ∧
  ∃ km m, memberships (w_db (snd accepted)) !! km = Some m ∧
    Membership_TenantID m = Invitation_TenantID (invitation_at accepting) ∧
    Membership_UserID m = Invitation_AcceptedByUserID (invitation_at accepted) ∧
    Membership_Status m = "active".
Proof.
  split; [by vm_compute|].
  apply (invitation_accepted_once svc guests steady after_history (fst accepting) (snd accepting)
           (fst accepted) (snd accepted)) with (k := invitation_id).
  - exact after_history_inv.
  - exact accepting_steps.
  - exact accepted_step.
  - by vm_compute.
  - by vm_compute.
  - by vm_compute.
  - by vm_compute.
Defined.

Definition listing : Response :=
  match fst accepting !! 2 with Some (Ret r) => r | _ => RespError None end.

Lemma reads_are_scoped_witness : response_error listing = None ∧ scoped (user "bob" acme) (ReqListMemberships acme "" "active" 1 20) listing (w_db (snd accepting)).
Proof.
  split; [by vm_compute|].
  apply (reads_are_scoped svc guests steady after_history (fst accepting) (snd accepting) 2
           (user "bob" acme) (ReqListMemberships acme "" "active" 1 20)).
  - exact after_history_inv.
  - exact accepting_steps.
  - reflexivity.
  - reflexivity.
  - by vm_compute.
Defined.

(** ** Trees *)

(** Development moves below Operations. *)
Definition moves : list (Context * Request) :=
  [(admin_ctx, ReqUpdateOrganizationUnit dev ops "Development" "active" 1)].

Definition after_moves : World := run_all steady svc moves after_history.

Definition unit_at (id : string) (w : World) : OrganizationUnit :=
  default OrganizationUnit0 (organization_units (w_db w) !! id).

Lemma paths_follow_parents_witness :
  OrganizationUnit_Path (unit_at dev after_moves) = "/" +:+ hq +:+ "/" +:+ ops +:+ "/" +:+ dev +:+ "/" ∧
  ∃ b, parent_path (organization_units (w_db after_moves)) (unit_at dev after_moves) = Some b ∧
       OrganizationUnit_Path (unit_at dev after_moves) = b +:+ dev +:+ "/".
Proof.
  split; [by vm_compute|]. apply (paths_follow_parents steady svc moves after_history).
  - exact uid_plain.
  - exact after_history_inv.
  - exact after_history_tree.
  - by vm_compute.
Defined.

Lemma organization_trees_acyclic_witness :
  ¬ below (organization_units (w_db after_moves)) dev ops.
Proof.
  apply (organization_trees_acyclic steady svc moves after_history dev (unit_at dev after_moves)).
  - exact uid_plain.
  - exact after_history_inv.
  - exact after_history_tree.
  - by vm_compute.
  - by vm_compute.
Defined.


Definition browsers : list (Context * Request) :=
  [(user "alice" acme, ReqTreeOrganizationUnits acme "full" "" "" "" 0 2)].
Definition browsed : list (prog Response) * World :=
  run_schedule steady [0] (pool svc browsers) after_history.
Definition tree_reply : list OrganizationTreeNode * bool :=
  match fst browsed !! 0 with Some (Ret (RespTree (nodes, tr, None))) => (nodes, tr) | _ => ([], false) end.

Lemma browsed_steps :
  pool_steps steady (pool svc browsers, after_history) (fst browsed, snd browsed).
Proof. unfold browsed. apply schedule_steps. Qed.

Lemma organization_trees_bounded_witness :
  forest_size (fst tree_reply) = 2%Z ∧ snd tree_reply = true ∧ tree_within 0 2 (fst tree_reply).
Proof.
  split_and!; [by vm_compute..|].
  apply (organization_trees_bounded svc browsers steady after_history (fst browsed) (snd browsed) 0
           (user "alice" acme) acme "full" "" "" "" 0 2 (fst tree_reply) (snd tree_reply)).
  - exact browsed_steps.
  - reflexivity.
  - by vm_compute.
Defined.

Definition acme_units : list OrganizationUnit := rows (organization_units (w_db after_history)).

Lemma organization_tree_exact_witness :
  snd (buildOrganizationTree acme_units "full" "" 8 1000) = false ∧
  whole_forest acme_units "" (fst (buildOrganizationTree acme_units "full" "" 8 1000)).
Proof.
  split; [by vm_compute|].
  apply (organization_tree_exact acme_units "full" "" 8 1000
           (fst (buildOrganizationTree acme_units "full" "" 8 1000))).
  - lia.
  - by vm_compute.
Defined.

Lemma ancestors_search_exact_witness :
  ∃ kept, withOrganizationAncestors acme_units "DEV" = Some kept ∧ unit_at hq after_history ∈ kept.
Proof.
  destruct (ancestors_search_exact acme_units) with (keyword := "DEV") as (kept & Hk & _ & Hv).
  - apply (bool_decide_unpack _). by vm_compute.
  - exists kept. split; [exact Hk|]. apply Hv. exists (unit_at dev after_history).
    split_and!; [apply (bool_decide_unpack _); by vm_compute|by vm_compute|].
    apply (above_parent acme_units _ (unit_at hq after_history));
      [apply (bool_decide_unpack _); by vm_compute|by vm_compute|apply (bool_decide_unpack _); by vm_compute
      |by vm_compute|].
    apply above_self; [apply (bool_decide_unpack _); by vm_compute|by vm_compute].
Defined.

Definition by_name : DictionarySearch := Build_DictionarySearch "" ∅ "name" false 0 0.

Lemma dictionary_pages_partition_witness :
  map OrganizationUnit_Name (page_of (search_result by_name acme (w_db after_history)) 2 2) = ["Operations"] ∧
  fst (run steady (Dictionary.Query acme OrganizationUnitDictionaryCode (at_page by_name 2 2)) after_history)
  = Ok (Build_DictionaryPage (page_of (search_result by_name acme (w_db after_history)) 2 2)
          (Z.of_nat (length (search_result by_name acme (w_db after_history)))) 2 2).
Proof.
  split; [by vm_compute|].
  apply (dictionary_pages_partition steady after_history acme by_name 2 2).
  - reflexivity.
  - by vm_compute.
  - lia.
  - by vm_compute.
  - by vm_compute.
  - lia.
Defined.

Lemma errors_are_application_errors_witness :
  ∃ resp e, fst accepting !! 1 = Some (Ret resp) ∧ response_error resp = Some e ∧
    (is_app e = true ∨ (rereads (ReqAcceptInvitation token "eve") = true ∧ read_error e)).
Proof.
  exists (match fst accepting !! 1 with Some (Ret r) => r | _ => RespError None end).
  exists (match fst accepting !! 1 with
          | Some (Ret r) => default (Sentinel ErrNotFound) (response_error r) | _ => Sentinel ErrNotFound end).
  split_and!; [by vm_compute..|].
  apply (errors_are_application_errors svc guests steady after_history (fst accepting) (snd accepting) 1
           (user "eve" "") (ReqAcceptInvitation token "eve")
           (match fst accepting !! 1 with Some (Ret r) => r | _ => RespError None end)).
  - exact accepting_steps.
  - reflexivity.
  - by vm_compute.
  - by vm_compute.
Defined.

(** ** Outcomes *)

(** A minute after the start, with one identifier that no row carries. *)
Definition still : Env := {|
  env_now := λ _, (60 * second)%Z;
  env_uuid := λ _, "new";
  env_rand := λ _, Ok "0123456789abcdef0123456789abcdef";
  env_fault := λ _, None;
  env_commit := λ _, None;
  env_lock := λ _, None;
  env_unlock := λ _, None; env_reached := λ _, false; env_expired := λ _ _, false;
  env_begin := λ _, Ok (Build_Decision StateCompleted "" "" (Build_Failure 0 "" 0)) |}.

Lemma new_is_fresh : fresh (w_db after_history) "new".
Proof. split; [by vm_compute..|]. apply (bool_decide_unpack _). by vm_compute. Qed.

Lemma still_calm : calm (fresh (w_db after_history)) any_time still.
Proof.
  split; [intros n; reflexivity..|intros n; eexists; reflexivity|intros n; exact new_is_fresh|intros n; exact I].
Qed.

Lemma demo_marshals md p : ∃ encoded, marshal_envelope md p = Ok encoded.
Proof. eexists. reflexivity. Qed.

Definition acme_tenant : Tenant := default Tenant0 (tenants (w_db after_history) !! acme).

Lemma tenant_update_outcome_witness :
  let '(r, w') := run still (Update svc admin_ctx acme "Acme Corp" "suspended" 1) after_history in
  ∃ now ev, let t' := updated_tenant acme_tenant "Acme Corp" "suspended" now "svc" in
    r = (t', None) ∧
    w_db w' = with_event ev
      (set_tenants (<[acme := t']> (tenants (w_db after_history))) (w_db after_history)).
Proof.
  apply (tenant_update_outcome demo_marshals svc admin_ctx still after_history acme "Acme Corp" "suspended" 1
           acme_tenant admin).
  - exact still_calm.
  - exact after_history_inv.
  - reflexivity.
  - by vm_compute.
  - by vm_compute.
  - by vm_compute.
  - reflexivity.
  - by vm_compute.
  - reflexivity.
  - reflexivity.
  - by apply (access_service _ _ admin).
Defined.

Lemma quota_consumption_outcome_witness :
  let '(r, w') := run still (Quotas.ConsumeQuota svc admin_ctx acme "seats" 11) after_history in
  consumption acme "seats" 11 "svc" (w_db after_history) r (w_db w') ∧ w_locks w' = w_locks after_history.
Proof.
  apply (quota_consumption_outcome demo_marshals svc admin_ctx still after_history acme "seats" 11 admin).
  - exact still_calm.
  - exact after_history_inv.
  - reflexivity.
  - apply (bool_decide_unpack _). by vm_compute.
  - by vm_compute.
  - done.
  - done.
  - reflexivity.
  - reflexivity.
  - by apply (access_service _ _ admin).
  - intros q Hq. assert (tenant_quotas (w_db after_history) !! (acme, "seats")
      = Some (Build_Quota acme "seats" 10 0 1 (44 * second) (44 * second) "svc" "svc")) as Hs by by vm_compute.
    rewrite Hs in Hq. injection Hq as <-. split; by vm_compute.
Defined.

Lemma tenant_creation_outcome_witness :
  let '(r, w') := run still (Create svc (user "dave" "") " Beta " "Beta Ltd" "dave") after_history in
  creation "beta" "Beta Ltd" "dave" "dave" (w_db after_history) r (w_db w').
Proof.
  apply (tenant_creation_outcome demo_marshals svc (user "dave" "") still after_history " Beta " "Beta Ltd"
           "dave" (Build_Principal "dave" TypeUser "" "")).
  - exact still_calm.
  - exact after_history_inv.
  - reflexivity.
  - by vm_compute.
  - by vm_compute.
  - by vm_compute.
  - reflexivity.
  - right; right. split; [reflexivity|left; reflexivity].
  - reflexivity.
  - reflexivity.
Defined.

Definition keyed_ctx : Context := Build_Context (Ok admin) false (Some "key-0001").
Definition completed : Effects.Decision := Build_Decision StateCompleted "" "" (Build_Failure 0 "" 0).

Lemma idempotent_creation_witness :
  let '(r, w') := run still (Create svc keyed_ctx "Beta" "Beta Ltd" "dave") after_history in
  replayed completed r ∧ w_db w' = w_db after_history.
Proof.
  apply (idempotent_creation svc keyed_ctx still after_history "Beta" "Beta Ltd" "dave" admin "key-0001"
           completed).
  - by vm_compute.
  - by vm_compute.
  - by vm_compute.
  - reflexivity.
  - left. reflexivity.
  - reflexivity.
  - reflexivity.
  - reflexivity.
Defined.

Definition open_invitation : Invitation :=
  default Invitation0 (invitations (w_db after_history) !! invitation_id).

Lemma invitation_acceptance_outcome_witness :
  let '(r, w') := run still (AcceptInvitation svc (user "bob" "") token "bob") after_history in
  acceptance invitation_id open_invitation false "bob" "bob" (w_db after_history) r (w_db w').
Proof.
  apply (invitation_acceptance_outcome demo_marshals svc (user "bob" "") still after_history token "bob"
           (Build_Principal "bob" TypeUser "" "") invitation_id open_invitation false).
  - split; [intros n; reflexivity..|intros n; eexists; reflexivity|intros n; exact new_is_fresh
           |intros n; by vm_compute].
  - exact after_history_inv.
  - reflexivity.
  - apply (bool_decide_unpack _). by vm_compute.
  - by vm_compute.
  - by vm_compute.
  - reflexivity.
  - reflexivity.
  - by vm_compute.
  - by vm_compute.
  - split; by vm_compute.
Defined.

(** ** Directory and transport *)

(** An identity service that knows two users. *)
Definition demo_identity (keyword : string) (page pageSize : Z) : result ListUsersResponse :=
  Ok (Build_ListUsersResponse
        [Some (Build_PbUser "alice" "alice" "Alice A."); None; Some (Build_PbUser "zed" "zed" "Zed")]
        (Some (Build_PbPageResult 2 1 100))).
Definition found : list Entry :=
  match fst (run steady (Search (Some (Tenants.FindMembershipsByUserIDs svc admin_ctx))
                           (Some (ListUsers demo_identity)) acme "a" 10) after_history) with
  | Ok es => es | Err _ => [] end.

Lemma directory_search_scoped_witness :
  length found = 1 ∧ may_access admin_ctx (TrimSpace acme) ∧ (1 ≤ 10 ≤ 50)%Z ∧
  (Z.of_nat (length found) ≤ 10)%Z ∧ Forall (entry_ok (TrimSpace acme)) found.
Proof.
  split; [by vm_compute|].
  apply (directory_search_scoped svc admin_ctx (ListUsers demo_identity) acme "a" 10 steady after_history found).
  by vm_compute.
Defined.

#[export] Instance demo_code_laws : CodeLaws.
Proof. split. apply (bool_decide_unpack _). by vm_compute. Qed.

#[export] Instance demo_enums : ProtoEnums := {|
  TenantStatus_String := λ n,
    (if n =? 1 then "TENANT_STATUS_PENDING" else if n =? 2 then "TENANT_STATUS_ACTIVE"
     else if n =? 3 then "TENANT_STATUS_SUSPENDED" else if n =? 4 then "TENANT_STATUS_CLOSING"
     else if n =? 5 then "TENANT_STATUS_CLOSED" else "TENANT_STATUS_UNSPECIFIED")%Z;
  MembershipStatus_String := λ n,
    (if n =? 1 then "MEMBERSHIP_STATUS_INVITED" else if n =? 2 then "MEMBERSHIP_STATUS_ACTIVE"
     else if n =? 3 then "MEMBERSHIP_STATUS_DISABLED" else if n =? 4 then "MEMBERSHIP_STATUS_REMOVED"
     else "MEMBERSHIP_STATUS_UNSPECIFIED")%Z |}.

#[export] Instance demo_enum_laws : EnumLaws.
Proof.
  split; [done|done| |]; intros st Hst; [unfold validTenantStatus in Hst|unfold validMembershipStatus in Hst];
    repeat (apply orb_prop in Hst as [Hst|Hst]); apply String.eqb_eq in Hst as ->; by vm_compute.
Qed.

Lemma grpc_status_codes_witness :
  rpc_code (grpcError (Forbidden "tenant access denied")) = Some codes_Internal.
Proof.
  destruct (grpc_status_codes "tenant access denied" None (Sentinel ErrStaleVersion))
    as (_ & _ & _ & _ & _ & Hf & _). exact Hf.
Defined.

Lemma stored_values_typed_witness :
  map_Forall (λ _ r, Tenant_typed r) (tenants (w_db (snd finished))) ∧
  map_Forall (λ _ r, Invitation_typed r) (invitations (w_db (snd finished))) ∧
  size (memberships (w_db (snd finished))) = 2.
Proof.
  destruct (stored_values_typed svc rivals steady after_history (fst finished) (snd finished)
              after_history_inv finished_steps) as (Ht & _ & _ & Hi & _).
  split_and!; [intros k r Hr; apply (Ht k r Hr)|exact Hi|by vm_compute].
Defined.

Lemma statuses_over_grpc_witness :
  tenantStatusString (tenantStatusProto "closing") = "closing" ∧
  run steady (grpc_ListTenants svc admin_ctx None "" 0) after_history
  = (Fail (StatusError codes_InvalidArgument "invalid tenant status"), after_history).
Proof.
  destruct (statuses_over_grpc svc admin_ctx steady after_history None "" "" "") as (Ht & _ & Hl & _).
  split; [apply Ht; reflexivity|exact Hl].
Defined.

Lemma grpc_membership_pages_witness :
  length (membership_query acme "" "active" (w_db after_history)) = 1 ∧
  fst (run steady (grpc_ListMemberships svc (user "alice" acme) (Some (0, 0)%Z) acme ""
                     (membershipStatusProto "active")) after_history)
  = Reply (map toProtoMembership (page_of (membership_query acme "" "active" (w_db after_history)) 1 20),
           PageResult (Z.of_nat (length (membership_query acme "" "active" (w_db after_history)))) 1 20).
Proof.
  split; [by vm_compute|].
  apply (grpc_membership_pages svc (user "alice" acme) steady after_history acme "" "active" 0 0).
  - reflexivity.
  - by vm_compute.
  - eapply access_member; by vm_compute.
  - reflexivity.
  - lia.
  - lia.
Defined.

Lemma batch_memberships_exact_witness :
  snd (fst (run steady (Tenants.BatchGetMemberships svc admin_ctx acme [uid 2; " " +:+ uid 2]) after_history))
  = None.
Proof.
  pose proof (batch_memberships_exact svc admin_ctx steady after_history acme [uid 2; " " +:+ uid 2]) as H.
  destruct (run steady (Tenants.BatchGetMemberships svc admin_ctx acme [uid 2; " " +:+ uid 2]) after_history)
    as [r w'].
  destruct H as [_ H].
  - reflexivity.
  - exact after_history_inv.
  - by vm_compute.
  - by apply (access_service _ _ admin).
  - simpl. lia.
  - rewrite bool_decide_eq_false_2 in H; [exact (proj1 H)|].
    apply (bool_decide_unpack _). by vm_compute.
Defined.

(** A consumption within the limit, as text for either driver: one row changes, and the tables
    are those of the model. *)
Definition three_seats : write := WConsumeQuota acme "seats" 3 (5 * second) "alice".
Lemma writes_mean_their_text_witness :
  result_map fst (executed "mysql" three_seats (w_db after_history)) = Ok 1%Z ∧
  result_map fst (write_stmt three_seats (w_db after_history)) = Ok (Some 1%Z) ∧
  agrees (w_db after_history) (write_stmt three_seats (w_db after_history))
    (executed "mysql" three_seats (w_db after_history)).
Proof.
  split_and!; [by vm_compute..|].
  apply (writes_mean_their_text "mysql" three_seats (w_db after_history)). exact after_history_inv.
Defined.

(** ** The locks *)

Lemma steady_locks_calm n : locks_calm steady n.
Proof. by intros m _. Qed.

Lemma all_returned_stuck {A} env (ps : list (prog A)) w c :
  Forall (λ p, is_Some (returned p)) ps → ¬ pool_step env (ps, w) c.
Proof.
  intros Hall Hs. inversion Hs as [ps0 i p p' w0 w' Hp Hstep]; subst.
  apply (Forall_lookup_1 _ _ _ _ Hall) in Hp. by destruct p; simpl in *; try done; destruct Hp.
Qed.

(** The rivals while the first holds the lock of the quota, and when all have ended. *)
Definition holding : list (prog Response) * World := run_schedule steady [0; 2; 0] rival_pool after_history.
Definition ended : list (prog Response) * World :=
  run_schedule steady ([0; 2; 0; 2; 1; 0; 2; 1] ++ repeat 0 20 ++ repeat 1 20 ++ repeat 2 20)
    rival_pool after_history.

