(* ===== verification/HttpWitnesses.v ===== *)
(** * The properties of the servers, the clients and the configuration at concrete inputs

    [HttpProofs], [ServerProofs], [Transports], [Replay], [ConfigProofs], [Startup] and
    [OutboundProofs] applied to the deployment of [HttpExamples]. *)

From Stdlib Require Import Ascii SpecFloat.
From stdpp Require Import base gmap list strings.
From S2P Require Import Floats Config ConfigProofs.
From S2P Require Import Prelude GoErrors Model Store Effects Platform Authorization Service Authn.
From S2P Require Import Tables Invariants Concurrency Returns Directory Grpc GrpcProofs.
From S2P Require Import Outbound GrpcServer Json HttpBodies HttpRequests Http Middleware Router.
From S2P Require Import HttpProofs Transports Replay Outbound OutboundProofs ServerProofs Startup.
From S2P Require Import Examples HttpExamples Witnesses.

#[export] Instance demo_interceptor_laws : InterceptorLaws.
Proof. by split. Qed.

(** A tenant is created over HTTP while a quota is consumed over gRPC; the creation just before,
    and just after, it commits. *)
Definition consume_call : GrpcCall := demo_call "admin-token" (GrpcServer.ConsumeQuotaRequest acme "seats" 1).
Definition demo_calls : list Call := [OverGRPC consume_call; OverHTTP create_request].
Definition serve_both : Call → prog (HttpReply + string * rpc GrpcResponse) :=
  serve_call demo_match (λ s, Ok s) (λ _, true) (demo_server true) demo_grpc_server.
Definition creating : list (prog (HttpReply + string * rpc GrpcResponse)) * World :=
  run_schedule steady [0; 1; 1; 0; 1; 1]%nat (serve_both <$> demo_calls) after_history.
Definition created_http : list (prog (HttpReply + string * rpc GrpcResponse)) * World := call steady 1 creating.

Lemma creating_steps :
  pool_steps steady (serve_both <$> demo_calls, after_history) (fst creating, snd creating).
Proof. unfold creating. apply schedule_steps. Qed.
Lemma created_http_step :
  pool_step steady (fst creating, snd creating) (fst created_http, snd created_http).
Proof. unfold created_http. apply (call_step steady 1 creating). by vm_compute. Qed.

Lemma requests_isolated_witness :
  length (tenant_outbox_events (w_db (snd creating))) = 8%nat ∧
  length (tenant_outbox_events (w_db (snd created_http))) = 9%nat ∧
  inv (w_db (snd created_http)).
Proof.
  split_and!; [by vm_compute..|].
  apply (requests_isolated demo_match (λ s, Ok s) (λ _, true) (demo_server true) demo_grpc_server demo_calls steady
           after_history (fst creating) (snd creating) (fst created_http) (snd created_http)).
  - exact after_history_inv.
  - intros i c Hc. destruct i as [|[|i]]; [injection Hc as <-; reflexivity..|discriminate].
  - exact creating_steps.
  - exact created_http_step.
Defined.

#[export] Instance demo_method_laws : MethodLaws.
Proof. split; [intros a b Hab; by simplify_eq/=|by intros a b]. Qed.

(** A call the authorizer refuses. *)
Definition alice_consumes : GrpcCall := demo_call "alice-token" (GrpcServer.ConsumeQuotaRequest acme "seats" 1).


Lemma http_default_deny_witness :
  reply_Status (fst (run steady (serve_demo false create_request) after_history)) = 403%Z ∧
  w_db (snd (run steady (serve_demo false create_request) after_history)) = w_db after_history.
Proof.
  split; [by vm_compute|].
  destruct (http_default_deny demo_match (λ s, Ok s) (λ _, true) (Build_BuildVars "" "" "" 0) demo_handler)
    as (_ & _ & _ & _ & Hdeny).
  pose proof (Hdeny (demo_server false) create_request
    (Build_Requirement "tenant.profile" "create" ScopePlatform) steady after_history) as H.
  unfold serve_demo. destruct (run steady _ after_history) as [r w']. apply H; [reflexivity|by vm_compute|].
  intros ctx credential. discriminate.
Defined.

Lemma transports_agree_witness :
  snd (run steady (Http.GetTenant demo_handler select_request) after_history)
  = snd (run steady (grpc_GetTenant svc (c_ctx select_request) acme) after_history).
Proof.
  destruct (transports_agree demo_handler select_request) as (_ & Hget & _).
  specialize (Hget acme). assert (binds select_request (Build_GetTenantRequest acme)) as Hb by (by vm_compute).
  specialize (Hget Hb steady after_history).
  destruct (run steady (Http.GetTenant _ _) _) as [r w1], (run steady (grpc_GetTenant _ _ _) _) as [g w2].
  exact (proj1 Hget).
Defined.

Definition alice_selects : Gin :=
  set_ctx (Build_Context (Ok (Build_Principal "alice" TypeUser "" "session-1")) false None) select_request.

Lemma tenant_selection_sound_witness :
  ∃ m, memberships (w_db after_history) !! Membership_ID m = Some m ∧ Membership_UserID m = "alice" ∧
    Membership_TenantID m = acme ∧ Membership_Status m = "active".
Proof.
  pose proof (tenant_selection_sound demo_handler alice_selects steady after_history) as H.
  assert (reply_Status (fst (run steady (Http.SelectTenant demo_handler alice_selects) after_history)) = 200%Z)
    as Hst by (by vm_compute).
  destruct (run steady _ after_history) as [r w'].
  destruct H as [_ H]; [done|exact after_history_inv|].
  destruct H as (tenantID & p & m & t & token & e & Hb & Hp & _ & _ & Hm & Hu & Ht & Hs & _).
  - exact Hst.
  - injection Hp as <-. exists m. split_and!; [done..| |done].
    assert (binds alice_selects (Build_SelectTenantRequest acme)) as Hb' by (by vm_compute).
    unfold binds in *. rewrite Hb in Hb'. by injection Hb' as ->.
Defined.

(** The request is repeated with its key. *)
Definition granted_reply : HttpReply := Build_HttpReply 200 ∅ (Some granted).
Definition granted_store : Env := {|
  env_now := env_now steady; env_uuid := env_uuid steady; env_rand := env_rand steady;
  env_fault := env_fault steady; env_commit := env_commit steady; env_lock := env_lock steady;
  env_unlock := env_unlock steady; env_reached := env_reached steady; env_expired := env_expired steady;
  env_begin := λ _, Ok (Build_Decision StateCompleted "" (demo_print (response_json (stored granted)))
                          (Build_Failure 0 "" 0)) |}.
Definition repeated : Gin :=
  set_request_id "req-2" (set_ctx (Build_Context (Ok admin) false (Some "key-1"))
    (demo_request "/api/v1/quotas/consume" "admin-token" "key-1" JNull)).

(** The request that took the key, in a store that has not seen it. *)
Definition acquiring_store : Env := {|
  env_now := env_now steady; env_uuid := env_uuid steady; env_rand := env_rand steady;
  env_fault := env_fault steady; env_commit := env_commit steady; env_lock := env_lock steady;
  env_unlock := env_unlock steady; env_reached := env_reached steady; env_expired := env_expired steady;
  env_begin := λ _, Ok (Build_Decision StateAcquired "owner-1" "" (Build_Failure 0 "" 0)) |}.
Definition acquiring : Gin :=
  set_request_id "req-1" (set_ctx (Build_Context (Ok admin) false (Some "key-1"))
    (demo_request "/api/v1/quotas/consume" "admin-token" "key-1" JNull)).

Lemma idempotent_replay_witness :
  settled acquiring_store (IdempotencyExecution demo_match (Some true) ["/api/v1/quotas/consume"]
    (λ _, Ret granted_reply) acquiring) after_history = [Completed "key-1" "owner-1" (stored granted)] ∧
  ∃ body, json_equiv (HttpResponse_Body granted) body ∧
  run granted_store (IdempotencyExecution demo_match (Some true) ["/api/v1/quotas/consume"]
    (λ c, Ret (Failed c TooManyRequests)) repeated) after_history
  = (respond repeated 200 0 "success" body, tick after_history).
Proof.
  destruct (idempotent_replay demo_match "key-1" "owner-1" granted_reply granted
    (λ _, Ret granted_reply) (λ c, Ret (Failed c TooManyRequests)) acquiring repeated
    acquiring_store granted_store after_history (tick after_history) after_history ["/api/v1/quotas/consume"]
    (Build_Decision StateAcquired "owner-1" "" (Build_Failure 0 "" 0))
    (Build_Decision StateCompleted "" (demo_print (response_json (stored granted))) (Build_Failure 0 "" 0)))
    as [[_ Hstored] [_ H]]; try reflexivity.
  - split; by vm_compute.
  - constructor; [apply (bool_decide_unpack _); by vm_compute|]. repeat constructor.
  - split_and!; [reflexivity..|by eexists].
  - split_and!; [reflexivity..|by eexists].
  - split; reflexivity.
  - split; [exact Hstored|exact H].
Defined.

Definition listed {A} (m : gmap string A) : list (string * A) := map_to_list m.

Lemma validation_exact_witness : Validate demo_match (@listed) demo_config = None ∧ valid_config demo_match demo_config.
Proof.
  split; [by vm_compute|]. apply (validation_exact demo_match (@listed)); [reflexivity|by vm_compute].
Defined.

Definition demo_codes_of (e : goerr) : Z := codes_Unavailable.

(** A request that is repeated, and a call that may not be. *)
Definition billing_client : HTTPClient :=
  Build_HTTPClient "billing" (Build_demo_url "http" "billing.internal" "")
    (Build_Transport (Build_TlsConfig _ "" None []) (3 * second)) billing None.
Definition keyed : CallContext := Build_CallContext None None (Some "key-1") [].

Lemma outbound_calls_refine_policy_witness :
  ∃ tr, snd (nrun overloaded (Do billing_client keyed "POST" "/v1/charge" "{}" ∅) []) = tr ∧
    (length (calls tr) ≤ 3)%nat ∧ waits_at_most second tr.
Proof.
  destruct (outbound_calls_refine_policy demo_match demo_codes_of (λ _, None) overloaded [] keyed "POST") as [Hhttp _].
  pose proof (Hhttp "billing" billing billing_client "/v1/charge" "{}" ∅ (Build_demo_url "" "" "/v1/charge")
    eq_refl ltac:(done) eq_refl) as H.
  destruct (nrun overloaded _ []) as [x h']. destruct H as (tr & -> & _ & Hrel).
  destruct (Hrel eq_refl eq_refl eq_refl) as (_ & Hlen & Hwait). by exists tr.
Defined.
