(* ===== verification/RuntimeWitnesses.v ===== *)
(** * Witnesses of the theorems on start-up, migrations, the publisher, tokens and the pages *)

From Stdlib Require Import Ascii.
From stdpp Require Import base gmap sets list strings.
From S2P Require Import Wiring Metrics Edge GrpcEdge.
From S2P Require Import Floats Config ConfigProofs.
From S2P Require Import Prelude GoErrors Model Store Effects Platform Authorization Service Authn.
From S2P Require Import Returns Outbound OutboundProofs System Urls Migration MigrationProofs Resources ResourceProofs.
From S2P Require Import EventRuntime Startup Middleware LocalTokens Health Json HttpBodies HttpRequests Http Router HttpProofs Operations.
From S2P Require Import Examples HttpExamples RuntimeExamples Witnesses HttpWitnesses Locks Scheduler.

#[local] Open Scope nat_scope.
Local Notation bytes_of := String.list_ascii_of_string.

(** ** Start-up *)

Definition loaded : Config :=
  with_Runtime (Build_Runtime "production" ["config.yaml"; "config-production.yaml"]) demo_config.

Lemma demo_resources : resources_available (λ _, None) loaded.
Proof.
  split; [|eauto|eauto|done]. intros name u Hu. simpl in Hu. by rewrite lookup_empty in Hu.
Qed.

Lemma startup_sound_witness :
  ∃ r, NewRegistry demo_match demo_codes_of (λ _, None) (@listed) loaded = Ok r ∧
    is_Some (registry_GRPC r "authorization").
Proof.
  destruct (startup_sound demo_match demo_codes_of (λ _, None) (@listed) ltac:(reflexivity) "config.yaml" "" loaded)
    as (_ & _ & _ & _ & _ & _ & _ & _ & _ & r & Hr & _ & _ & _ & Hauth & _).
  - by vm_compute.
  - exact demo_resources.
  - exists r. split; [exact Hr|]. apply Hauth. by left.
Defined.


Lemma constructors_tidy_witness :
  let opened := run_sys outside (erase (newDatabase demo_config)) started in
  p_open (snd opened) ≠ ∅ ∧
  match fst opened with
  | Ok (_, hooks) =>
      p_open (snd (run_sys outside (run_hooks hooks) (Build_Process 9 (p_open (snd opened)) []))) = ∅
  | Err _ => False
  end.
Proof.
  split; [by vm_compute|].
  destruct (constructors_tidy demo_match demo_codes_of (@listed) ltac:(reflexivity) "1.0.0"
    (λ _ _, Err (TextError "no token")) demo_config (Build_Tracing false None)) as [H _].
  destruct (run_sys outside (erase (newDatabase demo_config)) started) as [r s'] eqn:Hs.
  assert (fst (r, s') = Ok ((), [do (CloseDB 0)]) ∧ p_open (snd (r, s')) = {[0]}) as [Hr Ho]
    by (rewrite <- Hs; by vm_compute).
  simpl in Hr, Ho |- *. subst r.
  pose proof (H (erase (newDatabase demo_config)) outside 0 ∅ _ s' ltac:(unfold constructors; set_solver)
                ltac:(set_solver) Hs) as (O & _ & HO & Hclose).
  assert (O = {[0]}) as -> by set_solver. rewrite Ho.
  destruct (run_sys outside (run_hooks [do (CloseDB 0)]) _) as [e s''] eqn:Hh. simpl.
  rewrite (Hclose outside 9 {[0]} e s'' ltac:(done)); [set_solver| |done].
  intros h ->%elem_of_singleton. lia.
Defined.

(** One order in which the container may put the application together: the constructors by their
    number in [app_providers]. *)
Definition wiring : list (option nat) :=
  [Some 0; None; None; Some 2; None; Some 1; Some 4; None; Some 10; Some 11; None; Some 12; Some 13; None; Some 16;
   None; Some 5; Some 17; None; Some 19; Some 15; Some 20; Some 7; Some 3; Some 6; Some 8; Some 14; Some 9; Some 18;
   None; Some 21; Some 22; Some 23; None].
Definition wired : list Wiring.calls * container :=
  default ([], Container [] []) (perform_all app_supplied app_providers app_invokes wiring).

Lemma wired_reached : app_reached (fst wired) (snd wired).
Proof.
  apply (perform_reached _ _ _ wiring). unfold wired.
  destruct (perform_all _ _ _ wiring) as [[tr c]|] eqn:Hp; [done|].
  assert (is_Some (perform_all app_supplied app_providers app_invokes wiring)) as [x Hx]; [|by rewrite Hp in Hx].
  apply (bool_decide_unpack _). by vm_compute.
Qed.

Lemma wiring_sound_witness :
  length (fst wired) = 34 ∧ todo (snd wired) = [] ∧ built (snd wired) ≡ₚ app_providers ∧
  Wiring.hooks demo_config (built (snd wired)) `prefix_of` Wiring.hooks demo_config hook_order ∧
  length (Wiring.hooks demo_config (built (snd wired))) = 9.
Proof.
  destruct (wiring_sound (fst wired) (snd wired) wired_reached) as (_ & _ & Hall & _ & _ & Hhooks).
  split_and!; [by vm_compute|by vm_compute|apply Hall; by vm_compute|apply Hhooks|by vm_compute].
Defined.

(** ** The job *)

(** Two runs of the job beside the rivals: while the first is in its section, and when all have
    ended. *)
Definition sampling : list (prog (Requests.Response + string)) * World :=
  run_schedule steady [3; 3; 0; 4; 4] (with_jobs svc rivals 2) after_history.
Definition sampled : list (prog (Requests.Response + string)) * World :=
  run_schedule steady ([3; 3; 0; 4; 4] ++ repeat 3 5 ++ repeat 4 5 ++ repeat 0 20 ++ repeat 1 20 ++ repeat 2 20)
    (with_jobs svc rivals 2) after_history.

Lemma jobs_exclusive_witness :
  (∃ p v, fst sampling !! 3 = Some p ∧ in_section v p ∧ w_locks (snd sampling) !! job_key = Some v) ∧
  (returned <$> fst sampling !! 4) = Some (Some (inr "success")) ∧
  Forall (λ p, is_Some (returned p)) (fst sampled) ∧ w_locks (snd sampled) = w_locks after_history.
Proof.
  destruct (jobs_exclusive svc rivals 2 steady after_history) as (_ & H & _);
    [apply (bool_decide_unpack _); by vm_compute|].
  split; [|split; [by vm_compute|]].
  - destruct (H (fst sampling) (snd sampling)) as (_ & Hheld & _); [unfold sampling; apply schedule_steps|].
    destruct (fst sampling !! 3) as [p|] eqn:Hp; [|by vm_compute in Hp].
    assert (∃ v, in_section v p) as [v Hv].
    { vm_compute in Hp. injection Hp as <-. do 2 eexists. reflexivity. }
    exists p, v. split_and!; [done|done|]. by destruct (Hheld 3 p v Hp Hv) as [?|(m & _ & ?)].
  - destruct (H (fst sampled) (snd sampled)) as (_ & _ & Hend); [unfold sampled; apply schedule_steps|].
    destruct Hend as (Hall & _ & Hlocks).
    + intros c. apply all_returned_stuck. apply (bool_decide_unpack _). by vm_compute.
    + split; [exact Hall|]. apply Hlocks, steady_locks_calm.
Defined.

(** ** Migrations *)

Lemma migrations_safe_witness :
  fst migrated = None ∧ p_open (snd migrated) = ∅ ∧
  (∃ tx, Called (ExecTx tx lock_statement ["platform-schema:tenant"]) None ∈ p_log (snd migrated)) ∧
  ∃ m err before, p_log (snd migrated) = Called (MigrateClose m) (None, None) :: Called (MigrateUp m) err :: before.
Proof.
  destruct (@migrations_safe database_urls database_fields (Ok "/srv") demo_migration "up" 0 outside 0 ∅
              (fst migrated) (snd migrated)) as (Hopen & _ & Hok).
  - by intros h ?%elem_of_empty.
  - unfold migrated, started. by destruct (run_sys _ _ _).
  - split; [by vm_compute|]. split; [exact Hopen|]. split.
    { exists 1. vm_compute. by repeat (left || right). }
    destruct Hok as (a & u & m & asked & err & before & _ & _ & Hlog & _ & _ & Hup & _); [by vm_compute|].
    rewrite (Hup eq_refl) in Hlog by done. exists m, err, (Opened (MigrateNew (file_url a) u) m :: before).
    exact Hlog.
Defined.

Lemma migration_url_options_witness :
  ∃ url u', withMigrationOptions (H0 := database_fields) "postgres://db:5432/old?sslmode=require" "platform"
              "tenant_schema_migrations" "tenant" = Ok url ∧
    @url_Parse database_urls url = Ok u' ∧
    @url_Path database_urls database_fields u' = "/platform" ∧
    Migration.Query (H0 := database_fields) u' !! "search_path" = Some ["tenant"] ∧
    Migration.Query (H0 := database_fields) u' !! "sslmode" = Some ["require"].
Proof.
  destruct (migration_url_options (H := database_urls) (H0 := database_fields) (H1 := database_laws) "postgres://db:5432/old?sslmode=require" "platform"
              "tenant_schema_migrations" "tenant") as (_ & _ & H).
  destruct (H (Build_db_url (bytes_of "db:5432") (bytes_of "/old") (bytes_of "sslmode=require")))
    as (url & u' & Hu & Hp & Hpath & Hq); [by vm_compute..|by left|].
  exists url, u'. split_and!; [done|done|done| |].
  - specialize (Hq "search_path"). destruct (Migration.Query u' !! "search_path"); vm_compute in Hq; by subst.
  - specialize (Hq "sslmode"). destruct (Migration.Query u' !! "sslmode"); vm_compute in Hq; by subst.
Defined.

(** ** The publisher *)

Lemma publisher_stops_witness :
  executes (launch (Build_EventRuntime true (Some 0)) true) shutdown
    (Build_Live (Build_EventRuntime true (Some 0)) true Ended Ended Returned 1) ∧
  ∃ bus, p_open (snd published) = {[bus]}.
Proof.
  split; [by apply execute_executes; vm_compute|].
  destruct (run_sys outside (start publisher_config true newEventRuntime) started) as [[[r running] err] s'] eqn:Hs.
  assert (fst (r, running, err, s') = (Build_EventRuntime true (Some 0), true, None)) as Hr
    by (rewrite <- Hs; by vm_compute).
  injection Hr as -> -> ->.
  destruct (publisher_stops publisher_config true outside 0 ∅ _ _ _ _ ltac:(set_solver) Hs) as [_ H].
  destruct (H eq_refl) as (_ & bus & _ & Hopen & _). exists bus. unfold published. rewrite Hs.
  simpl. rewrite Hopen. set_solver.
Defined.

(** ** Tokens *)

Definition local_auth : AuthService := Build_AuthService "tenant-service" secret "client" "client-secret" None.

Lemma tokens_come_back_witness :
  match fst (run steady (Issue (H0 := jwt_signing) local_auth (2 * hour)%Z "worker") initial) with
  | Ok raw => Parse (H := jwt_demo) local_auth raw = Ok "worker"
  | Err _ => False
  end.
Proof.
  pose proof (tokens_come_back (H := jwt_demo) (H0 := jwt_signing) local_auth (2 * hour)%Z "worker" steady initial
    eq_refl) as H.
  destruct (run steady _ initial) as [r w'] eqn:Hr. destruct H as (_ & _ & H).
  assert (∃ raw, fst (r, w') = Ok raw) as [raw Hraw] by (rewrite <- Hr; eexists; by vm_compute).
  simpl in Hraw |- *. subst r. by apply (H raw eq_refl); vm_compute.
Defined.

(** ** Pages *)

Definition heap_request : Gin :=
  let c := demo_request "/debug/pprof/heap" "" "" JNull in
  Build_Gin "GET" (c_FullPath c) (c_Header c) (c_ContentLength c) (c_Body c) (c_ClientIP c) (c_TLS c)
    (c_subject c) (c_request_id c) (c_credential c) (c_ctx c).
Definition secret_pages (_ : string) (_ : Gin) : HttpReply := Build_HttpReply 200 ∅ (Some granted).

Lemma operations_guarded_witness :
  let serve s := run steady (ServeHTTP demo_match (λ s, Ok s) (λ _, true) s heap_request) initial in
  serve (with_pages (demo_server true) secret_pages) = serve (demo_server true).
Proof.
  destruct (operations_guarded demo_match (λ s, Ok s) (λ _, true) (demo_server true) heap_request secret_pages
              steady initial) as (_ & _ & H & _).
  - apply (validation_exact_iff demo_match (@listed)); [reflexivity|by vm_compute].
  - apply H; [by vm_compute; repeat (left || right)|done].
Defined.

(** ** The edges *)

(** A creation that runs into its deadline, and the same with a handler that panics; a call that
    the authorizer refuses. *)
Definition edge_demo (enter : Chain → ChainOf Outcome) : Outcome * World :=
  run steady (ServeEdge demo_match (λ s, Ok s) (λ _, true) (demo_server true) true enter create_request) after_history.
Definition call_demo : (string * CallOutcome GrpcServer.GrpcResponse) * World :=
  run steady (CallEdge demo_match (λ _, true) demo_grpc_server alice_consumes
    (λ ctx, answering (GrpcServer.handle (GrpcServer.gs_tenants demo_grpc_server) ctx (GrpcServer.g_request alice_consumes)))) after_history.

Lemma create_arrives : arrives (demo_server true) true create_request.
Proof.
  left. right. intros Hm. apply (f_equal (λ o, match o with Some _ => true | None => false end)) in Hm.
  vm_compute in Hm. discriminate.
Qed.

Lemma edges_contain_panics_witness :
  reply_Status <$> sent create_request (ending (fst (edge_demo returning))) = Some 200%Z ∧
  lines (fst (edge_demo returning)) = [RequestLine "req-1" "POST" "/api/v1/tenants/manage/create" 200 "192.0.2.1"] ∧
  lines (fst (edge_demo (crashing false)))
  = [PanicLine "req-1"; RequestLine "req-1" "POST" "/api/v1/tenants/manage/create" 500 "192.0.2.1"] ∧
  (reply_Status <$> sent create_request (ending (fst (edge_demo (crashing false)))) = Some 500%Z) ∧
  call_lines (snd (fst call_demo)) = [] ∧
  sent create_request (ending (fst (edge_demo returning)))
  = Some (fst (run steady (serve_demo true create_request) after_history)) ∧
  contained create_request (fst (edge_demo (crashing false))).
Proof.
  do 5 (split; [by vm_compute|]).
  destruct (edges_contain_panics demo_match (λ s, Ok s) (λ _, true) (demo_server true) demo_grpc_server create_request
    alice_consumes "/demo" (Build_Context (Err (Sentinel ErrNotFound)) false None) (Build_Incoming [] [] []) (λ _, None)
    (λ _, Ret (Grpc.Reply tt)) steady after_history) as (Hreturn & Hcrash & _).
  split.
  - destruct (Hreturn true create_arrives) as (_ & Hs & _). exact Hs.
  - exact (returns_run steady (contained create_request) _ after_history (ends_returns false _ _ (Hcrash true false))).
Defined.
