(* ===== verification/Findings.v ===== *)
(** * Where the code does less than it means to

    Executions of the service, without any fault of its environment, that show a
    limit of the code: a page number and an expiry that wrap around, a creation that races
    with a move, a revocation that undoes an acceptance, credentials sent in the clear, a
    request repeated without its key, a success the breaker is told to exclude, a sample ratio
    that is no number, a token for a tenant that is closed, an administrator refused over gRPC, a
    dictionary that is open to every token, a group that is renamed to nothing, migrations that
    lose their host, their direction or the check of their table, a health list that never
    fails, and series without a bound. *)

From stdpp Require Import base gmap sets list strings.
From Stdlib Require Import SpecFloat.
From S2P Require Import Floats Config ConfigProofs Outbound OutboundProofs GrpcServer Json HttpBodies HttpRequests Http.
From S2P Require Import Dictionary ServerProofs.
From S2P Require Import Prelude GoErrors Model Store Effects Platform Authorization Service.
From S2P Require Import Repository Invariants Tenants Organizations Invitations Requests Paths Trees.
From S2P Require Import Concurrency Returns Grpc Examples Witnesses HttpExamples HttpWitnesses.
From S2P Require Import Health Urls Migration Router Metrics.

(** ** Page numbers *)

(** Page numbers wrap around: [(page-1)*pageSize] is computed in 64 bits, so page
    2^60 + 1 of size 16 lists the very rows of page 1, for every tenant and caller,
    under its own page number. *)
Theorem page_number_wraps `{Platform} s ctx env w tenantID userID status :
  MembershipPage_Memberships
    (fst (fst (run env (Tenants.ListMemberships s ctx tenantID userID status (2 ^ 60 + 1) 16) w)))
  = MembershipPage_Memberships
    (fst (fst (run env (Tenants.ListMemberships s ctx tenantID userID status 1 16) w))).
Proof.
  unfold Tenants.ListMemberships. case_match; [done|]. case_match; [done|].
  change (default_page (2 ^ 60 + 1)) with (2 ^ 60 + 1)%Z. change (default_page 1) with 1%Z.
  change (default_page_size 16) with 16%Z. case_match; [done|].
  replace (page_offset (2 ^ 60 + 1) 16) with (page_offset 1 16) by by vm_compute.
  rewrite !run_bind. destruct (run env _ w) as [[[items total]|e] w']; done.
Qed.

(** ** Expiry *)

(** Expiries wrap around: an invitation is meant to live 30 days at most, but one
    asked to live 18446744074 seconds (over 500 years) is accepted, because the seconds
    are turned into nanoseconds in 64 bits, and expires after 0.29 seconds. *)
Theorem expiry_wraps :
  (30 * 24 * hour < 18446744074 * second)%Z ∧
  match fst (run steady (grpc_CreateInvitation svc admin_ctx acme "bob@example.com" 18446744074)
               (run_all steady svc (take 1 history) initial)) with
  | Reply (i, _) => (PbInvitation_ExpiresAt i - PbInvitation_CreatedAt i)%Z = 290448384%Z
  | Fail _ => False
  end.
Proof. split; by vm_compute. Qed.

(** Arithmetic wraps around where the code means a limit: page 2^60 + 1 of size 16 lists
    the very rows of page 1, for every tenant and caller, because [(page-1)*pageSize] is
    computed in 64 bits; and an invitation asked to live 18446744074 seconds (over 500 years),
    where 30 days are the limit, is accepted and expires after 0.29 seconds. *)
Theorem arithmetic_wraps :
  (∀ `{Platform} s ctx env w tenantID userID status,
     MembershipPage_Memberships
       (fst (fst (run env (Tenants.ListMemberships s ctx tenantID userID status (2 ^ 60 + 1) 16) w)))
     = MembershipPage_Memberships
       (fst (fst (run env (Tenants.ListMemberships s ctx tenantID userID status 1 16) w)))) ∧
  (30 * 24 * hour < 18446744074 * second)%Z ∧
  match fst (run steady (grpc_CreateInvitation svc admin_ctx acme "bob@example.com" 18446744074)
               (run_all steady svc (take 1 history) initial)) with
  | Reply (i, _) => (PbInvitation_ExpiresAt i - PbInvitation_CreatedAt i)%Z = 290448384%Z
  | Fail _ => False
  end.
Proof. exact (conj (@page_number_wraps) expiry_wraps). Qed.

(** ** A creation races with a move *)

(** A unit is created below Development while Development moves below Operations. *)
Definition racers : list (Context * Request) := [
  (admin_ctx, ReqCreateOrganizationUnit acme dev "qa" "Quality");
  (admin_ctx, ReqUpdateOrganizationUnit dev ops "Development" "active" 1)
].
Definition race : list (prog Response) * World :=
  run_schedule steady ([0; 0; 0; 0; 0] ++ repeat 1 12 ++ [0])%nat (pool svc racers) after_history.
Definition errors_of (c : list (prog Response) * World) : list (option (option goerr)) :=
  (λ p, response_error <$> returned p) <$> fst c.

(** Creations are not serialised with moves: [CreateOrganizationUnit] does not take the
    tree lock, so a unit created below one that is being moved can be stored with the path
    of the old place. Both requests succeed, nothing fails, and the paths no longer follow
    the parents. *)
Theorem creation_races_with_move :
  tree_ok (w_db after_history) ∧
  pool_steps steady (pool svc racers, after_history) (fst race, snd race) ∧
  errors_of race = [Some None; Some None] ∧
  ¬ tree_ok (w_db (snd race)).
Proof.
  split_and!; [exact after_history_tree|unfold race; apply schedule_steps|by vm_compute|].
  intros Ht. destruct (Ht (uid 70) (unit_at (uid 70) (snd race))) as [_ (b & Hb & Hp)]; [by vm_compute|].
  vm_compute in Hb. injection Hb as <-. by vm_compute in Hp.
Qed.

(** ** A revocation races with an acceptance *)

(** An invitation is revoked, with the version it will have, while it is accepted. *)
Definition undoers : list (Context * Request) := [
  (user "bob" "", ReqAcceptInvitation token "bob");
  (admin_ctx, ReqRevokeInvitation invitation_id 2)
].
Definition undone : list (prog Response) * World :=
  run_schedule steady ([1] ++ repeat 0 12 ++ repeat 1 6)%nat (pool svc undoers) after_history.

(** A revocation can undo an acceptance: [RevokeInvitation] checks the status of the
    row it has read but updates the row of the version the caller names, so an invitation
    accepted in between ends as revoked, although only pending ones may be revoked, while
    the membership it gave stays. *)
Theorem revocation_undoes_acceptance :
  pool_steps steady (pool svc undoers, after_history) (fst undone, snd undone) ∧
  errors_of undone = [Some None; Some None] ∧
  Invitation_Status (invitation_at undone) = "revoked" ∧
  Invitation_AcceptedByUserID (invitation_at undone) = "" ∧
  any_row (λ m, (Membership_UserID m =?s "bob") && (Membership_TenantID m =?s acme)
                && (Membership_Status m =?s "active")) (memberships (w_db (snd undone))) = true.
Proof. split_and!; [unfold undone; apply schedule_steps|by vm_compute..]. Qed.

(** ** Outbound HTTP *)

(** The first request of a trace. *)
Definition first_sent (tr : list event) : option HttpRequest :=
  match tr with Sent r _ :: _ => Some r | _ => None end.

(** Credentials are meant to require TLS, but only the flag of the upstream is looked at, not
    the scheme of its address: a valid production configuration gives a client that sends its
    token to an http address. *)
Theorem credentials_sent_in_clear :
  Validate demo_match (@listed) billing_config = None ∧
  NewHTTPClient "billing" billing = Ok billing_client ∧
  let request := first_sent (snd (nrun overloaded (Do billing_client keyed "GET" "/v1/invoices" "" ∅) [])) in
  request_URL <$> request = Some "http://billing.internal/v1/invoices" ∧
  (λ r, request_Header r !! "Authorization") <$> request = Some (Some ["Bearer s3cret"]).
Proof. split_and!; by vm_compute. Qed.

(** A POST is repeated because the context carries an idempotency key, but the key is not sent:
    three requests, none of them with the header. *)
Theorem repeated_without_key :
  (λ e, match e with Sent r _ => Some (request_Method r, request_Header r !! "Idempotency-Key") | _ => None end)
    <$> calls (snd (nrun overloaded (Do billing_client keyed "POST" "/v1/charge" "{}" ∅) []))
  = [Some ("POST", None); Some ("POST", None); Some ("POST", None)].
Proof. by vm_compute. Qed.

(** The breaker of a gRPC client asks [IsExcluded] about a nil error too and hears that it is
    excluded, so that a call that succeeds is not counted as a success. *)
Theorem success_excluded status_Code :
  grpc_settlement status_Code None = {| settled_failed := false; settled_excluded := true |}.
Proof. done. Qed.

(** ** Configuration *)

(** The sample ratio must be between 0 and 1, but a value that is no number passes both
    comparisons. *)
Theorem sample_ratio_not_a_number :
  Validate demo_match (@listed) (with_Observability sampled_nowhere demo_config) = None ∧
  Observability_TracingSampleRatio sampled_nowhere = S754_nan.
Proof. split; by vm_compute. Qed.

(** ** Tenant selection *)

(** A tenant that is closed is no longer listed for its member, but can still be selected. *)
Definition after_closing : World :=
  run_all steady svc [(admin_ctx, ReqUpdate acme "Acme Inc" "closed" 1)] after_history.
Theorem closed_tenant_selected :
  (Page_Tenants ∘ fst ∘ fst) (run steady (Tenants.ListUserTenants svc admin_ctx "alice" 1 20) after_closing) = [] ∧
  reply_Status (fst (run steady (Http.SelectTenant demo_handler alice_selects) after_closing)) = 200%Z.
Proof. split; by vm_compute. Qed.

(** ** The two transports *)

Definition over_grpc (token : string) (r : GrpcRequest) : rpc GrpcResponse :=
  snd (fst (run steady (ServeGRPC demo_match (λ _, true) demo_grpc_server (demo_call token r)) after_history)).

(** A user the authorizer allows to list all tenants does so over HTTP; over gRPC the same user
    is allowed by the authorizer and refused by the service, because nothing marks the call as
    a platform administrator's. *)
Theorem administrator_refused_over_grpc :
  reply_Status (fst (run steady (serve_demo true (demo_request "/api/v1/tenants/list" "root-token" "" list_all))
                       after_history)) = 200%Z ∧
  over_grpc "root-token" (GrpcServer.ListTenantsRequest (Some (1, 20)%Z) "" 2)
  = Fail (StatusError Grpc.codes_Internal "platform administration is required").
Proof. split; by vm_compute. Qed.

(** The dictionary provider looks at no caller and its methods have no requirement: a user of no
    tenant, who may not list the units of a tenant, reads them as a dictionary. *)
Theorem dictionary_open_to_every_token :
  over_grpc "alice-token" (GrpcServer.ListOrganizationUnitsRequest acme)
  = Fail (StatusError Grpc.codes_Internal "permission denied") ∧
  match over_grpc "alice-token" (QueryRequest acme OrganizationUnitDictionaryCode
          (Build_DictionarySearch "" ∅ "" false 1 20)) with
  | Reply (QueryResponse (items, _)) => map DictionaryItem_MetadataTenantId items = replicate (length items) acme ∧ items ≠ []
  | _ => False
  end.
Proof. split; [by vm_compute|]. by vm_compute. Qed.

(** ** Groups *)

(** The identifier of the group of the example. *)
Definition engineering : string :=
  match rows (member_groups (w_db after_history)) with g :: _ => Group_ID g | [] => "" end.
Definition renamed : Group * option goerr :=
  fst (run steady (Groups.UpdateGroup svc admin_ctx engineering " " "active" 1) after_history).
(** A group is created with a trimmed name that must not be empty, but it is renamed to the text
    as it comes: a blank name is accepted. *)
Theorem group_renamed_to_blank :
  snd renamed = None ∧ Group_Name (fst renamed) = " " ∧
  is_Some (snd (fst (run steady (Groups.CreateGroup svc admin_ctx acme "blank" " ") after_history))).
Proof. split_and!; [by vm_compute..|]. eexists. by vm_compute. Qed.

(** ** Migrations *)

(** The branch for a MySQL address without a path is never taken, because the scheme has slashes:
    the name replaces the host. *)
Theorem mysql_host_replaced `{UrlFields} :
  withMigrationOptions "mysql://root@tcp(db:3306)" "platform" "" "" = Ok "mysql://platform".
Proof. by vm_compute. Qed.

(** With a number of steps the direction is not looked at: two steps down go up. *)
Theorem direction_ignored m direction steps :
  steps ≠ 0%Z → migrate_call m direction steps = System.MigrateSteps m steps.
Proof. intros Hs%Z.eqb_neq. unfold migrate_call. by rewrite Hs. Qed.

(** The table of the migrations is checked only when the service runs them itself; the command
    passes on any name. *)
Definition unchecked : Config.Migration :=
  Build_Migration false false "migrations/mysql" "mysql://root@tcp(db:3306)/old" "Bad-Table; --" "" "platform".
Theorem migration_table_unchecked `{UrlFields} :
  Validate demo_match (@listed) (with_Migration unchecked demo_config) = None ∧
  withMigrationOptions (Migration_DatabaseURL unchecked) "platform" (Migration_Table unchecked) ""
  = Ok "mysql://root@tcp(db:3306)/platform?x-migrations-table=Bad-Table%3B+--".
Proof. split; by vm_compute. Qed.

(** ** Health *)

(** The list of the health service says serving whatever the checks say. *)
Definition without_database : HealthService :=
  health_New (Some (λ _, Some (TextError "connection refused"))) None demo_config true.
Theorem list_serves_always :
  fst (run steady (health_Check without_database) after_history) = HealthCheckResponse_NOT_SERVING ∧
  health_List !! "" = Some HealthCheckResponse_SERVING.
Proof. by split. Qed.

(** ** Metrics *)

(** The label of the method is what the client sends: requests without a route, which nobody
    has to be known for, give a new series for every method name. *)
Definition unrouted (method : string) : Gin :=
  let c := demo_request "" "" "" JNull in
  Build_Gin method "" (c_Header c) (c_ContentLength c) (c_Body c) (c_ClientIP c) (c_TLS c)
    (c_subject c) (c_request_id c) (c_credential c) (c_ctx c).
Theorem series_without_bound (methods : list string) m :
  NoDup methods → metrics_enabled m = true →
  ∃ m', observe_all ((λ method, HttpDone (unrouted method) 404) <$> methods) m = Some m' ∧
        (length methods ≤ size (metrics_counts m'))%nat.
Proof.
  intros Hnd He. rewrite observe_all_ok, He. eexists. split; [done|].
  set (request method := ("http_requests_total", [method; "unmatched"; "404"]) : series).
  rewrite <- (length_fmap request), <- (size_list_to_set (C := gset series) (request <$> methods))
    by (apply NoDup_fmap; [by intros x y [= ->]|done]).
  rewrite <- size_dom. apply subseteq_size. rewrite bumps_dom. intros x Hx.
  apply elem_of_union_r, elem_of_list_to_set. apply elem_of_list_to_set, list_elem_of_fmap in Hx as (method & -> & Hin).
  apply list_elem_of_bind. exists (HttpDone (unrouted method) 404). split; [by left|].
  apply list_elem_of_fmap. by exists method.
Qed.
